(** * The $1 and $Q gesture recognizers: a shallow embedding

    Source files: [dollar_ocr/onedollar.js] (class [OneDollar]) and
    [dollar_ocr/qdollar.js] (class [QDollar]).

    Numbers.  A JavaScript number is modelled by [num]: an exact real, or
    one of the three special values [+Infinity], [-Infinity], [NaN].  The
    special values follow IEEE 754 / ECMAScript ([0/0 = NaN], [1/0 =
    +Infinity], comparisons with [NaN] are false, ...).  Rounding and
    overflow of finite results are not modelled, and the two zeros are
    identified (a zero divisor is read as [+0], which is what [x - x] and
    [Math.sqrt(0)] produce in the source).  Module [B64] below embeds the
    two classes a second time, over binary64 numbers: the statements that
    depend on rounding, on overflow or on the two zeros are made there.

    Arrays.  A JavaScript array is a [list]; [a[i]] is the lookup [a !! i]
    and an access through [undefined] raises [TypeError].  The array the
    caller hands to [check]/[jadd] lives in a heap [gmap loc RawPoints], so
    that the aliasing created by [_convertPoints] is visible.

    Loops.  [for] loops over a fixed range are folds.  The two loops whose
    bound moves ([_resample], which splices into the array it walks, and
    the [while] of [_distanceAtBestAngle]) take fuel and answer [OutOfFuel]
    when it runs out.

    Time.  [performance.now()] and the field [ms] are not modelled.

    Store.  The nine templates the constructors register are data; the
    recognizer state is the list [Templates], and the statements quantify
    over it. *)

From Stdlib Require Import Reals Lra Lia ZArith String.
From Stdlib Require Floats.
From stdpp Require Import base decidable option list gmap.

Open Scope R_scope.

(** ** Numbers *)

Module Num.

Inductive num : Type :=
| Fin (r : R)
| PInf
| NInf
| NaN.

#[global] Instance Rlt_decision : RelDecision Rlt := Rlt_dec.
#[global] Instance Rle_decision : RelDecision Rle := Rle_dec.
#[global] Instance Req_decision : RelDecision (@eq R) := Req_dec_T.

Definition is_finite (a : num) : bool :=
  match a with Fin _ => true | _ => false end.

(** [a + b] *)
Definition jadd (a b : num) : num :=
  match a, b with
  | NaN, _ | _, NaN => NaN
  | Fin x, Fin y => Fin (x + y)
  | PInf, NInf | NInf, PInf => NaN
  | PInf, _ | _, PInf => PInf
  | NInf, _ | _, NInf => NInf
  end.

(** [-a] *)
Definition jneg (a : num) : num :=
  match a with
  | Fin x => Fin (- x)
  | PInf => NInf
  | NInf => PInf
  | NaN => NaN
  end.

(** [a - b] *)
Definition jsub (a b : num) : num := jadd a (jneg b).

(** The infinity carrying the sign of [x * s] for [s = +1] ([up = true])
    or [s = -1]; [NaN] when [x] is zero. *)
Definition inf_times (up : bool) (x : R) : num :=
  if bool_decide (x = 0) then NaN
  else if bool_decide (0 < x) then (if up then PInf else NInf)
  else (if up then NInf else PInf).

(** [a * b] *)
Definition jmul (a b : num) : num :=
  match a, b with
  | NaN, _ | _, NaN => NaN
  | Fin x, Fin y => Fin (x * y)
  | PInf, Fin y => inf_times true y
  | NInf, Fin y => inf_times false y
  | Fin x, PInf => inf_times true x
  | Fin x, NInf => inf_times false x
  | PInf, PInf | NInf, NInf => PInf
  | PInf, NInf | NInf, PInf => NInf
  end.

(** [a / b]; a zero divisor is [+0]. *)
Definition jdiv (a b : num) : num :=
  match a, b with
  | NaN, _ | _, NaN => NaN
  | Fin x, Fin y =>
      if bool_decide (y = 0) then inf_times true x else Fin (x / y)
  | Fin _, _ => Fin 0
  | PInf, Fin y => if bool_decide (y < 0) then NInf else PInf
  | NInf, Fin y => if bool_decide (y < 0) then PInf else NInf
  | _, _ => NaN
  end.

(** [a < b] *)
Definition jlt (a b : num) : bool :=
  match a, b with
  | Fin x, Fin y => bool_decide (x < y)
  | Fin _, PInf | NInf, Fin _ | NInf, PInf => true
  | _, _ => false
  end.

(** [a > b] *)
Definition jgt (a b : num) : bool := jlt b a.

(** [a >= b] *)
Definition jge (a b : num) : bool :=
  match a, b with
  | NaN, _ | _, NaN => false
  | Fin x, Fin y => bool_decide (y <= x)
  | PInf, _ | _, NInf => true
  | _, _ => false
  end.

(** [Math.sqrt] *)
Definition Math_sqrt (a : num) : num :=
  match a with
  | Fin x => if bool_decide (x < 0) then NaN else Fin (sqrt x)
  | PInf => PInf
  | _ => NaN
  end.

(** [Math.abs] *)
Definition Math_abs (a : num) : num :=
  match a with
  | Fin x => Fin (Rabs x)
  | PInf | NInf => PInf
  | NaN => NaN
  end.

(** [Math.min] and [Math.max] answer [NaN] as soon as one argument is. *)
Definition Math_min (a b : num) : num :=
  match a, b with
  | NaN, _ | _, NaN => NaN
  | _, _ => if jlt b a then b else a
  end.

Definition Math_max (a b : num) : num :=
  match a, b with
  | NaN, _ | _, NaN => NaN
  | _, _ => if jlt a b then b else a
  end.

(** [Math.cos], [Math.sin]: [NaN] outside the finite numbers. *)
Definition Math_cos (a : num) : num :=
  match a with Fin x => Fin (cos x) | _ => NaN end.

Definition Math_sin (a : num) : num :=
  match a with Fin x => Fin (sin x) | _ => NaN end.

(** [Math.atan2(y, x)] on finite arguments. *)
Definition atan2R (y x : R) : R :=
  if bool_decide (0 < x) then atan (y / x)
  else if bool_decide (x < 0) then
    (if bool_decide (y < 0) then atan (y / x) - PI else atan (y / x) + PI)
  else if bool_decide (0 < y) then PI / 2
  else if bool_decide (y < 0) then - (PI / 2)
  else 0.

Definition Math_atan2 (y x : num) : num :=
  match y, x with
  | NaN, _ | _, NaN => NaN
  | Fin b, Fin a => Fin (atan2R b a)
  | Fin b, PInf => Fin 0
  | Fin b, NInf => if bool_decide (b < 0) then Fin (- PI) else Fin PI
  | PInf, Fin _ => Fin (PI / 2)
  | NInf, Fin _ => Fin (- (PI / 2))
  | PInf, PInf => Fin (PI / 4)
  | PInf, NInf => Fin (3 * PI / 4)
  | NInf, PInf => Fin (- (PI / 4))
  | NInf, NInf => Fin (- (3 * PI / 4))
  end.

End Num.
Export Num.

Declare Scope js_scope.
Delimit Scope js_scope with js.
Bind Scope js_scope with num.
Infix "+" := jadd : js_scope.
Infix "-" := jsub : js_scope.
Infix "*" := jmul : js_scope.
Infix "/" := jdiv : js_scope.
Notation "- a" := (jneg a) : js_scope.
Infix "<?" := jlt : js_scope.
Infix ">?" := jgt : js_scope.
Infix ">=?" := jge : js_scope.

(** ** Outcomes: a value, a thrown exception, or fuel exhausted *)

Inductive exn : Type := TypeError.

Inductive outcome (A : Type) : Type :=
| Ret (a : A)
| Throw (e : exn)
| OutOfFuel.
Arguments Ret {A} a.
Arguments Throw {A} e.
Arguments OutOfFuel {A}.

Definition bind {A B : Type} (m : outcome A) (k : A -> outcome B) : outcome B :=
  match m with
  | Ret a => k a
  | Throw e => Throw e
  | OutOfFuel => OutOfFuel
  end.

Notation "'do' x <- m ; k" := (bind m (fun x => k))
  (at level 10, x name, m at level 100, k at level 200).
Notation "'do' ' p <- m ; k" := (bind m (fun x => let 'p := x in k))
  (at level 10, p pattern, m at level 100, k at level 200).

(** [a[i]] followed by a property access: [TypeError] on [undefined]. *)
Definition deref {A : Type} (o : option A) : outcome A :=
  match o with Some a => Ret a | None => Throw TypeError end.

(** Heap locations of the arrays the caller owns. *)
Abbreviation loc := nat (only parsing).

(** ** The $1 recognizer ([onedollar.js]) *)

Module OneDollar.

(** [{x, y}] *)
Record Point : Type := mkPoint { px : num; py : num }.

(** [{Name, Points, Vector}] *)
Record Template : Type :=
  mkTemplate { Name : string; Points : list Point; Vector : list num }.

(** [{name, score, ms}] without [ms] *)
Record Result : Type := mkResult { name : string; score : num }.

(** [{x, y, width, height}] *)
Record Box : Type := mkBox { bx : num; by_ : num; width : num; height : num }.

(** What the caller passes: an array of [[x, y]] pairs or of [{x, y}]
    records.  The empty array is [Pairs []] as well as [Records []]. *)
Inductive RawPoints : Type :=
| Pairs (l : list (num * num))
| Records (l : list Point).

Abbreviation heap := (gmap loc RawPoints) (only parsing).

(** The fields set by the constructor, and the template list. *)
Definition NumPoints : nat := 64.
Definition SquareSize : num := Fin 250.
Definition Origin : Point := mkPoint (Fin 0) (Fin 0).
Definition Diagonal : num :=
  Math_sqrt (SquareSize * SquareSize + SquareSize * SquareSize)%js.
Definition HalfDiagonal : num := (Fin 0.5 * Diagonal)%js.
Definition AngleRange : num := Fin 45.
Definition AnglePrecision : num := Fin 2.
Definition Phi : num := (Fin 0.5 * (Fin (-1) + Math_sqrt (Fin 5)))%js.

Record OneDollar : Type := mkOneDollar { Templates : list Template }.

(** *** Helper methods *)

Definition _distance (p1 p2 : Point) : num :=
  let dx := (px p1 - px p2)%js in
  let dy := (py p1 - py p2)%js in
  Math_sqrt (dx * dx + dy * dy)%js.

(** [for (i = 1; i < points.length; i++) d += distance(points[i-1], points[i])],
    entered with [prev = points[i-1]] and [rest] the points from index [i]. *)
Fixpoint pathLength_from (d : num) (prev : Point) (rest : list Point) : num :=
  match rest with
  | [] => d
  | p :: rest' => pathLength_from (d + _distance prev p)%js p rest'
  end.

Definition _pathLength (points : list Point) : num :=
  match points with
  | [] => Fin 0
  | p :: rest => pathLength_from (Fin 0) p rest
  end.

Definition _centroid (points : list Point) : Point :=
  let x := fold_left (fun x p => (x + px p)%js) points (Fin 0) in
  let y := fold_left (fun y p => (y + py p)%js) points (Fin 0) in
  mkPoint (x / Fin (INR (length points)))%js (y / Fin (INR (length points)))%js.

Definition _boundingBox (points : list Point) : Box :=
  let minX := fold_left (fun minX p => Math_min minX (px p)) points PInf in
  let maxX := fold_left (fun maxX p => Math_max maxX (px p)) points NInf in
  let minY := fold_left (fun minY p => Math_min minY (py p)) points PInf in
  let maxY := fold_left (fun maxY p => Math_max maxY (py p)) points NInf in
  mkBox minX minY (maxX - minX)%js (maxY - minY)%js.

(** [Array.isArray(rawPoints[0])] selects the conversion: a fresh array
    of records is allocated for pairs, the argument itself is returned
    otherwise. *)
Definition _convertPoints (h : heap) (rawPoints : loc) : outcome (heap * loc) :=
  do raw <- deref (h !! rawPoints);
  match raw with
  | Pairs (p :: ps) =>
      let l := fresh (dom h) in
      Ret (<[l := Records (map (fun p => mkPoint (fst p) (snd p)) (p :: ps))]> h, l)
  | _ => Ret (h, rawPoints)
  end.

(** The records held by an array. *)
Definition records (raw : RawPoints) : outcome (list Point) :=
  match raw with
  | Records l => Ret l
  | Pairs [] => Ret []
  | Pairs (_ :: _) => Throw TypeError
  end.

(** [points.splice(i, 0, q)] *)
Definition splice (points : list Point) (i : nat) (q : Point) : list Point :=
  take i points ++ q :: drop i points.

(** The [for] loop of [_resample]: [points] is the array being walked and
    spliced, [i] the loop index, [D] the distance carried over, and
    [newPoints] the output so far.  Returns [newPoints] and the final
    contents of [points]. *)
Fixpoint resample_loop (fuel : nat) (I : num) (points : list Point) (i : nat)
    (D : num) (newPoints : list Point) : outcome (list Point * list Point) :=
  match fuel with
  | O => OutOfFuel
  | S fuel' =>
      if bool_decide (i < length points)%nat then
        do p1 <- deref (points !! (i - 1)%nat);
        do p2 <- deref (points !! i);
        let d := _distance p1 p2 in
        if (D + d >=? I)%js then
          let qx := (px p1 + ((I - D) / d) * (px p2 - px p1))%js in
          let qy := (py p1 + ((I - D) / d) * (py p2 - py p1))%js in
          let q := mkPoint qx qy in
          resample_loop fuel' I (splice points i q) (S i) (Fin 0) (newPoints ++ [q])
        else
          resample_loop fuel' I points (S i) (D + d)%js newPoints
      else Ret (newPoints, points)
  end.

(** [_resample] on the contents of the array; [points[0]] of an empty
    array is [undefined], which the model raises on at once (the source
    stores it in [newPoints] and raises at its first use). *)
Definition resample_array (fuel : nat) (points : list Point) (n : nat)
    : outcome (list Point * list Point) :=
  let I := (_pathLength points / Fin (IZR (Z.of_nat n - 1)))%js in
  do p0 <- deref (points !! 0%nat);
  do '(newPoints, points') <- resample_loop fuel I points 1 (Fin 0) [p0];
  if bool_decide (Z.of_nat (length newPoints) = Z.of_nat n - 1)%Z then
    do pl <- deref (last points');
    Ret (newPoints ++ [mkPoint (px pl) (py pl)], points')
  else Ret (newPoints, points').

(** [_resample(points, n)]: [points] is a reference, the array behind it
    is updated in place. *)
Definition _resample (fuel : nat) (h : heap) (points : loc) (n : nat)
    : outcome (list Point * heap) :=
  do raw <- deref (h !! points);
  do pts <- records raw;
  do '(newPoints, pts') <- resample_array fuel pts n;
  Ret (newPoints, <[points := Records pts']> h).

Definition _indicativeAngle (points : list Point) : outcome num :=
  let c := _centroid points in
  do p0 <- deref (points !! 0%nat);
  Ret (Math_atan2 (py c - py p0)%js (px c - px p0)%js).

Definition _rotateBy (points : list Point) (radians : num) : list Point :=
  let c := _centroid points in
  let cos := Math_cos radians in
  let sin := Math_sin radians in
  map (fun p =>
         let qx := ((px p - px c) * cos - (py p - py c) * sin + px c)%js in
         let qy := ((px p - px c) * sin + (py p - py c) * cos + py c)%js in
         mkPoint qx qy)
      points.

Definition _scaleTo (points : list Point) (size : num) : list Point :=
  let B := _boundingBox points in
  map (fun p =>
         let qx := (px p * (size / width B))%js in
         let qy := (py p * (size / height B))%js in
         mkPoint qx qy)
      points.

Definition _translateTo (points : list Point) (pt : Point) : list Point :=
  let c := _centroid points in
  map (fun p =>
         let qx := (px p + px pt - px c)%js in
         let qy := (py p + py pt - py c)%js in
         mkPoint qx qy)
      points.

Definition _vectorize (points : list Point) : list num :=
  let vector := flat_map (fun p => [px p; py p]) points in
  let sum :=
    fold_left (fun sum p => (sum + (px p * px p + py p * py p))%js) points (Fin 0) in
  let magnitude := Math_sqrt sum in
  map (fun v => (v / magnitude)%js) vector.

(** The loop of [_pathDistance]; [pts2[i]] is [undefined] past the end of
    [pts2]. *)
Fixpoint pathDistance_loop (d : num) (pts1 pts2 : list Point) : outcome num :=
  match pts1 with
  | [] => Ret d
  | p1 :: pts1' =>
      match pts2 with
      | [] => Throw TypeError
      | p2 :: pts2' => pathDistance_loop (d + _distance p1 p2)%js pts1' pts2'
      end
  end.

Definition _pathDistance (pts1 pts2 : list Point) : outcome num :=
  do d <- pathDistance_loop (Fin 0) pts1 pts2;
  Ret (d / Fin (INR (length pts1)))%js.

Definition _distanceAtAngle (points : list Point) (T : Template) (radians : num)
    : outcome num :=
  let newPoints := _rotateBy points radians in
  _pathDistance newPoints (Points T).

(** The state of the [while] loop of [_distanceAtBestAngle].  [evals] is a
    ghost counter: the number of calls of [_distanceAtAngle] made so far. *)
Record Bracket : Type :=
  mkBracket { ga : num; gb : num; gx1 : num; gf1 : num; gx2 : num; gf2 : num;
              evals : nat }.

Fixpoint golden_loop (fuel : nat) (points : list Point) (T : Template)
    (threshold : num) (st : Bracket) : outcome Bracket :=
  match fuel with
  | O => OutOfFuel
  | S fuel' =>
      let '(mkBracket a b x1 f1 x2 f2 k) := st in
      if (Math_abs (b - a) >? threshold)%js then
        if (f1 <? f2)%js then
          let b := x2 in
          let x2 := x1 in
          let f2 := f1 in
          let x1 := (Phi * a + (Fin 1 - Phi) * b)%js in
          do f1 <- _distanceAtAngle points T x1;
          golden_loop fuel' points T threshold (mkBracket a b x1 f1 x2 f2 (S k))
        else
          let a := x1 in
          let x1 := x2 in
          let f1 := f2 in
          let x2 := ((Fin 1 - Phi) * a + Phi * b)%js in
          do f2 <- _distanceAtAngle points T x2;
          golden_loop fuel' points T threshold (mkBracket a b x1 f1 x2 f2 (S k))
      else Ret st
  end.

Definition _distanceAtBestAngle (fuel : nat) (points : list Point) (T : Template)
    (a b threshold : num) : outcome num :=
  let x1 := (Phi * a + (Fin 1 - Phi) * b)%js in
  do f1 <- _distanceAtAngle points T x1;
  let x2 := ((Fin 1 - Phi) * a + Phi * b)%js in
  do f2 <- _distanceAtAngle points T x2;
  do st <- golden_loop fuel points T threshold (mkBracket a b x1 f1 x2 f2 2);
  Ret (Math_min (gf1 st) (gf2 st)).

(** *** Public methods *)

(** The template loop of [check]: [i] is the loop index, [b] the best
    distance so far and [t] its index. *)
Fixpoint check_loop (fuel : nat) (points : list Point) (templates : list Template)
    (i : nat) (b : num) (t : nat) : outcome (num * nat) :=
  match templates with
  | [] => Ret (b, t)
  | T :: templates' =>
      do d <- _distanceAtBestAngle fuel points T (- AngleRange)%js AngleRange
                AnglePrecision;
      if (d <? b)%js then check_loop fuel points templates' (S i) d i
      else check_loop fuel points templates' (S i) b t
  end.

Definition check (fuel : nat) (this : OneDollar) (h : heap) (points : loc)
    : outcome (Result * heap) :=
  do '(h, processedPoints) <- _convertPoints h points;
  do '(processedPoints, h) <- _resample fuel h processedPoints NumPoints;
  do radians <- _indicativeAngle processedPoints;
  let processedPoints := _rotateBy processedPoints (- radians)%js in
  let processedPoints := _scaleTo processedPoints SquareSize in
  let processedPoints := _translateTo processedPoints Origin in
  do '(b, t) <- check_loop fuel processedPoints (Templates this) 0 PInf 0;
  let score := (Fin 1 - b / HalfDiagonal)%js in
  do T <- deref (Templates this !! t);
  Ret (mkResult (Name T) (Math_max score (Fin 0)), h).

Definition add (fuel : nat) (this : OneDollar) (h : heap) (name : string)
    (points : loc) : outcome (OneDollar * heap) :=
  do '(h, processed) <- _convertPoints h points;
  do '(processed, h) <- _resample fuel h processed NumPoints;
  do radians <- _indicativeAngle processed;
  let processed := _rotateBy processed (- radians)%js in
  let processed := _scaleTo processed SquareSize in
  let processed := _translateTo processed Origin in
  Ret (mkOneDollar
         (Templates this ++ [mkTemplate name processed (_vectorize processed)]),
       h).

End OneDollar.

(** ** The $Q recognizer ([qdollar.js]) *)

Module QDollar.

(** [{x, y, id}]; [id] is [None] for a record without the field. *)
Record Point : Type := mkPoint { px : num; py : num; pid : option Z }.

(** [{Name, Points, LUT}]; [LUT] is always the empty array. *)
Record Template : Type := mkTemplate { Name : string; Points : list Point }.

Record Result : Type := mkResult { name : string; score : num }.

Inductive RawPoints : Type :=
| Pairs (l : list (num * num))
| Records (l : list Point).

Abbreviation heap := (gmap loc RawPoints) (only parsing).

Definition NumPoints : nat := 64.
Definition Origin : Point := mkPoint (Fin 0) (Fin 0) None.

Record QDollar : Type := mkQDollar { Templates : list Template }.

(** *** Helper methods *)

Definition _distance (p1 p2 : Point) : num :=
  let dx := (px p1 - px p2)%js in
  let dy := (py p1 - py p2)%js in
  Math_sqrt (dx * dx + dy * dy)%js.

Definition _sqrEuclideanDistance (p1 p2 : Point) : num :=
  let dx := (px p1 - px p2)%js in
  let dy := (py p1 - py p2)%js in
  (dx * dx + dy * dy)%js.

Fixpoint pathLength_from (d : num) (prev : Point) (rest : list Point) : num :=
  match rest with
  | [] => d
  | p :: rest' =>
      if bool_decide (pid p = pid prev)
      then pathLength_from (d + _distance prev p)%js p rest'
      else pathLength_from d p rest'
  end.

Definition _pathLength (points : list Point) : num :=
  match points with
  | [] => Fin 0
  | p :: rest => pathLength_from (Fin 0) p rest
  end.

Definition _centroid (points : list Point) : Point :=
  let x := fold_left (fun x p => (x + px p)%js) points (Fin 0) in
  let y := fold_left (fun y p => (y + py p)%js) points (Fin 0) in
  mkPoint (x / Fin (INR (length points)))%js (y / Fin (INR (length points)))%js None.

Definition _convertPoints (h : heap) (rawPoints : loc) : outcome (heap * loc) :=
  do raw <- deref (h !! rawPoints);
  match raw with
  | Pairs (p :: ps) =>
      let l := fresh (dom h) in
      Ret (<[l := Records (map (fun p => mkPoint (fst p) (snd p) (Some 1%Z)) (p :: ps))]> h,
           l)
  | _ => Ret (h, rawPoints)
  end.

Definition records (raw : RawPoints) : outcome (list Point) :=
  match raw with
  | Records l => Ret l
  | Pairs [] => Ret []
  | Pairs (_ :: _) => Throw TypeError
  end.

Definition splice (points : list Point) (i : nat) (q : Point) : list Point :=
  take i points ++ q :: drop i points.

Fixpoint resample_loop (fuel : nat) (I : num) (points : list Point) (i : nat)
    (D : num) (newPoints : list Point) : outcome (list Point * list Point) :=
  match fuel with
  | O => OutOfFuel
  | S fuel' =>
      if bool_decide (i < length points)%nat then
        do p1 <- deref (points !! (i - 1)%nat);
        do p2 <- deref (points !! i);
        if bool_decide (pid p2 = pid p1) then
          let d := _distance p1 p2 in
          if (D + d >=? I)%js then
            let qx := (px p1 + ((I - D) / d) * (px p2 - px p1))%js in
            let qy := (py p1 + ((I - D) / d) * (py p2 - py p1))%js in
            let q := mkPoint qx qy (pid p2) in
            resample_loop fuel' I (splice points i q) (S i) (Fin 0) (newPoints ++ [q])
          else
            resample_loop fuel' I points (S i) (D + d)%js newPoints
        else resample_loop fuel' I points (S i) D newPoints
      else Ret (newPoints, points)
  end.

Definition resample_array (fuel : nat) (points : list Point) (n : nat)
    : outcome (list Point * list Point) :=
  let I := (_pathLength points / Fin (IZR (Z.of_nat n - 1)))%js in
  do p0 <- deref (points !! 0%nat);
  do '(newPoints, points') <- resample_loop fuel I points 1 (Fin 0) [p0];
  if bool_decide (Z.of_nat (length newPoints) = Z.of_nat n - 1)%Z then
    do pl <- deref (last points');
    Ret (newPoints ++ [mkPoint (px pl) (py pl) (pid pl)], points')
  else Ret (newPoints, points').

Definition _resample (fuel : nat) (h : heap) (points : loc) (n : nat)
    : outcome (list Point * heap) :=
  do raw <- deref (h !! points);
  do pts <- records raw;
  do '(newPoints, pts') <- resample_array fuel pts n;
  Ret (newPoints, <[points := Records pts']> h).

Definition _scale (points : list Point) : list Point :=
  let minX := fold_left (fun minX p => Math_min minX (px p)) points PInf in
  let minY := fold_left (fun minY p => Math_min minY (py p)) points PInf in
  let maxX := fold_left (fun maxX p => Math_max maxX (px p)) points NInf in
  let maxY := fold_left (fun maxY p => Math_max maxY (py p)) points NInf in
  let size := Math_max (maxX - minX)%js (maxY - minY)%js in
  map (fun p =>
         let qx := ((px p - minX) / size)%js in
         let qy := ((py p - minY) / size)%js in
         mkPoint qx qy (pid p))
      points.

Definition _translateTo (points : list Point) (pt : Point) : list Point :=
  let c := _centroid points in
  map (fun p =>
         let qx := (px p + px pt - px c)%js in
         let qy := (py p + py pt - py c)%js in
         mkPoint qx qy (pid p))
      points.

(** *** Core logic *)

(** The inner loop of [_cloudDistance] over the indices [js]: [index] is
    [None] for [-1].  [matched[j]] is never [undefined] for [j < n]. *)
Fixpoint nearest_loop (p1 : Point) (pts2 : list Point) (matched : list bool)
    (js : list nat) (min : num) (index : option nat) : outcome (num * option nat) :=
  match js with
  | [] => Ret (min, index)
  | j :: js' =>
      match matched !! j with
      | Some true => nearest_loop p1 pts2 matched js' min index
      | _ =>
          do p2 <- deref (pts2 !! j);
          let d := _sqrEuclideanDistance p1 p2 in
          if (d <? min)%js then nearest_loop p1 pts2 matched js' d (Some j)
          else nearest_loop p1 pts2 matched js' min index
      end
  end.

(** The outer loop, entered with the candidate points from index [i] on. *)
Fixpoint cloud_loop (pts1 : list Point) (pts2 : list Point) (n : nat)
    (matched : list bool) (sum : num) (minSoFar : num) : outcome num :=
  match pts1 with
  | [] => Ret sum
  | p1 :: pts1' =>
      do '(min, index) <- nearest_loop p1 pts2 matched (seq 0 n) PInf None;
      let '(matched, sum) :=
        match index with
        | Some j => (<[j := true]> matched, (sum + Math_sqrt min)%js)
        | None => (matched, sum)
        end in
      if (sum >=? minSoFar)%js then Ret sum
      else cloud_loop pts1' pts2 n matched sum minSoFar
  end.

Definition _cloudDistance (pts1 pts2 : list Point) (start : nat) (minSoFar : num)
    : outcome num :=
  let n := length pts1 in
  cloud_loop pts1 pts2 n (replicate n false) (Fin 0) minSoFar.

Definition _cloudMatch (points : list Point) (template : Template) (minSoFar : num)
    : outcome num :=
  _cloudDistance points (Points template) 0 minSoFar.

(** *** Public methods *)

Fixpoint check_loop (points : list Point) (templates : list Template)
    (minDistance : num) (bestTemplate : option Template)
    : outcome (num * option Template) :=
  match templates with
  | [] => Ret (minDistance, bestTemplate)
  | T :: templates' =>
      do d <- _cloudMatch points T minDistance;
      if (d <? minDistance)%js then check_loop points templates' d (Some T)
      else check_loop points templates' minDistance bestTemplate
  end.

Definition check (fuel : nat) (this : QDollar) (h : heap) (points : loc)
    : outcome (Result * heap) :=
  do '(h, processedPoints) <- _convertPoints h points;
  do '(processedPoints, h) <- _resample fuel h processedPoints NumPoints;
  let processedPoints := _scale processedPoints in
  let processedPoints := _translateTo processedPoints Origin in
  do '(minDistance, bestTemplate) <-
    check_loop processedPoints (Templates this) PInf None;
  match bestTemplate with
  | Some T =>
      let score := (Fin 1 - (minDistance / Fin (INR NumPoints)) / Fin 0.5)%js in
      Ret (mkResult (Name T) (Math_max score (Fin 0)), h)
  | None => Ret (mkResult "No match" (Fin 0), h)
  end.

Definition add (fuel : nat) (this : QDollar) (h : heap) (name : string)
    (points : loc) : outcome (QDollar * heap) :=
  do '(h, processed) <- _convertPoints h points;
  do '(processed, h) <- _resample fuel h processed NumPoints;
  let processed := _scale processed in
  let processed := _translateTo processed Origin in
  Ret (mkQDollar (Templates this ++ [mkTemplate name processed]), h).

End QDollar.

(** ** Auxiliary definitions used by the statements *)

(** The real behind a finite number ([0] for the special values). *)
Definition real (a : num) : R :=
  match a with Fin r => r | _ => 0 end.

Fixpoint Rsum (l : list R) : R :=
  match l with
  | [] => 0
  | r :: l' => r + Rsum l'
  end.

Module OneDollarView.
Import OneDollar.

(** A point both of whose coordinates are finite numbers. *)
Definition finite_point (p : Point) : Prop :=
  is_finite (px p) = true /\ is_finite (py p) = true.

Definition rx (p : Point) : R := real (px p).
Definition ry (p : Point) : R := real (py p).

(** A stroke the recognizer is meant for: finite coordinates and a
    positive path length. *)
Definition stroke (pts : list Point) : Prop :=
  Forall finite_point pts /\ (Fin 0 <? _pathLength pts)%js = true.

(** The points an argument of [check] or [add] denotes. *)
Definition points_of (raw : RawPoints) : list Point :=
  match raw with
  | Pairs l => map (fun p => mkPoint (fst p) (snd p)) l
  | Records l => l
  end.

(** [{x: NaN, y: NaN}] *)
Definition nan_point : Point := mkPoint NaN NaN.

(** The normalization that [check] and [add] both start with. *)
Definition preprocess (fuel : nat) (h : heap) (points : loc)
    : outcome (list Point * heap) :=
  do '(h1, l1) <- _convertPoints h points;
  do '(processed, h2) <- _resample fuel h1 l1 NumPoints;
  do radians <- _indicativeAngle processed;
  let processed := _rotateBy processed (- radians)%js in
  let processed := _scaleTo processed SquareSize in
  let processed := _translateTo processed Origin in
  Ret (processed, h2).

(** The state in which [_distanceAtBestAngle] enters its loop, after the
    two evaluations made before it. *)
Definition golden_init (points : list Point) (T : Template) (a b : num)
    : outcome Bracket :=
  let x1 := (Phi * a + (Fin 1 - Phi) * b)%js in
  do f1 <- _distanceAtAngle points T x1;
  let x2 := ((Fin 1 - Phi) * a + Phi * b)%js in
  do f2 <- _distanceAtAngle points T x2;
  Ret (mkBracket a b x1 f1 x2 f2 2).

(** The golden ratio held in [Phi]. *)
Definition phi : R := 0.5 * (-1 + sqrt 5).

(** Invariant of the [while] loop of [_distanceAtBestAngle]: the bracket
    has signed width [w], the interior points sit at its golden sections
    and [f1], [f2] are the objective values there. *)
Definition bracket_inv (points : list Point) (T : Template) (w : R) (st : Bracket)
    : Prop :=
  exists a b : R,
    ga st = Fin a /\ gb st = Fin b /\ b - a = w /\
    gx1 st = Fin (phi * a + (1 - phi) * b) /\
    gx2 st = Fin ((1 - phi) * a + phi * b) /\
    _distanceAtAngle points T (gx1 st) = Ret (gf1 st) /\
    _distanceAtAngle points T (gx2 st) = Ret (gf2 st).

End OneDollarView.

Module QDollarView.
Import QDollar.

Definition finite_point (p : Point) : Prop :=
  is_finite (px p) = true /\ is_finite (py p) = true.

Definition rx (p : Point) : R := real (px p).
Definition ry (p : Point) : R := real (py p).

(** Euclidean distance and path length over the reals. *)
Definition dist (p q : Point) : R :=
  sqrt ((rx p - rx q) * (rx p - rx q) + (ry p - ry q) * (ry p - ry q)).

(** Only the segments inside one stroke count. *)
Fixpoint plen (prev : Point) (rest : list Point) : R :=
  match rest with
  | [] => 0
  | p :: rest' =>
      if bool_decide (pid p = pid prev) then dist prev p + plen p rest'
      else plen p rest'
  end.

Definition stroke (pts : list Point) : Prop :=
  Forall finite_point pts /\ (Fin 0 <? _pathLength pts)%js = true.

Definition points_of (raw : RawPoints) : list Point :=
  match raw with
  | Pairs l => map (fun p => mkPoint (fst p) (snd p) (Some 1%Z)) l
  | Records l => l
  end.

(** The normalization that [check] and [add] both start with. *)
Definition preprocess (fuel : nat) (h : heap) (points : loc)
    : outcome (list Point * heap) :=
  do '(h1, l1) <- _convertPoints h points;
  do '(processed, h2) <- _resample fuel h1 l1 NumPoints;
  let processed := _scale processed in
  let processed := _translateTo processed Origin in
  Ret (processed, h2).

(** The bounding box that [_scale] computes inline. *)
Definition bbox_width (points : list Point) : num :=
  let minX := fold_left (fun minX p => Math_min minX (px p)) points PInf in
  let maxX := fold_left (fun maxX p => Math_max maxX (px p)) points NInf in
  (maxX - minX)%js.

Definition bbox_height (points : list Point) : num :=
  let minY := fold_left (fun minY p => Math_min minY (py p)) points PInf in
  let maxY := fold_left (fun maxY p => Math_max maxY (py p)) points NInf in
  (maxY - minY)%js.

(** [{x: NaN, y: NaN, id}] *)
Definition nan_point (i : option Z) : Point := mkPoint NaN NaN i.

End QDollarView.

(** ** The cloud matcher with its early exit disabled

    The same loops as [QDollar.cloud_loop] and [QDollar.check_loop] without
    the statement [if (sum >= minSoFar) return sum]. *)

Module QDollarUnpruned.
Import QDollar.

Fixpoint cloud_loop_unpruned (pts1 : list Point) (pts2 : list Point) (n : nat)
    (matched : list bool) (sum : num) : outcome num :=
  match pts1 with
  | [] => Ret sum
  | p1 :: pts1' =>
      do '(min, index) <- nearest_loop p1 pts2 matched (seq 0 n) PInf None;
      let '(matched, sum) :=
        match index with
        | Some j => (<[j := true]> matched, (sum + Math_sqrt min)%js)
        | None => (matched, sum)
        end in
      cloud_loop_unpruned pts1' pts2 n matched sum
  end.

Definition cloudDistance_unpruned (pts1 pts2 : list Point) : outcome num :=
  let n := length pts1 in
  cloud_loop_unpruned pts1 pts2 n (replicate n false) (Fin 0).

Fixpoint check_loop_unpruned (points : list Point) (templates : list Template)
    (minDistance : num) (bestTemplate : option Template)
    : outcome (num * option Template) :=
  match templates with
  | [] => Ret (minDistance, bestTemplate)
  | T :: templates' =>
      do d <- cloudDistance_unpruned points (Points T);
      if (d <? minDistance)%js then check_loop_unpruned points templates' d (Some T)
      else check_loop_unpruned points templates' minDistance bestTemplate
  end.

Definition check_unpruned (fuel : nat) (this : QDollar) (h : heap) (points : loc)
    : outcome (Result * heap) :=
  do '(h, processedPoints) <- _convertPoints h points;
  do '(processedPoints, h) <- _resample fuel h processedPoints NumPoints;
  let processedPoints := _scale processedPoints in
  let processedPoints := _translateTo processedPoints Origin in
  do '(minDistance, bestTemplate) <-
    check_loop_unpruned processedPoints (Templates this) PInf None;
  match bestTemplate with
  | Some T =>
      let score := (Fin 1 - (minDistance / Fin (INR NumPoints)) / Fin 0.5)%js in
      Ret (mkResult (Name T) (Math_max score (Fin 0)), h)
  | None => Ret (mkResult "No match" (Fin 0), h)
  end.

End QDollarUnpruned.

(** What the inner loop holds in [min] and [index]. *)
Definition nearest_inv (r : num * option nat) : Prop :=
  (r = (PInf, None)) \/ (exists (m : R) (j : nat), 0 <= m /\ r = (Fin m, Some j)).

(** The pruned answer is the unpruned one, or a partial sum that already
    reached [minSoFar] and that the unpruned sum can only exceed. *)
Definition prune_agree (minSoFar : num) (rp ru : outcome num) : Prop :=
  rp = ru \/
  exists a b : R, rp = Ret (Fin a) /\ ru = Ret (Fin b) /\
                  (Fin a >=? minSoFar)%js = true /\ a <= b.


(** The $1 point seen as a $Q point without [id], and pairs of arrays
    seen likewise. *)
Definition lift (p : OneDollar.Point) : QDollar.Point :=
  QDollar.mkPoint (OneDollar.px p) (OneDollar.py p) None.

Definition lift_arrays (r : list OneDollar.Point * list OneDollar.Point)
    : list QDollar.Point * list QDollar.Point :=
  (lift <$> fst r, lift <$> snd r).

Definition outcome_map {A B : Type} (f : A -> B) (m : outcome A) : outcome B :=
  match m with
  | Ret a => Ret (f a)
  | Throw e => Throw e
  | OutOfFuel => OutOfFuel
  end.

(** ** The minimum search of [check], over the list of distances

    [for (i ...) if (d < b) { b = d; t = i }]: [t] is [None] while
    [QDollar.check] has no [bestTemplate]. *)
Fixpoint argmin_loop (ds : list num) (i : nat) (b : num) (t : option nat)
    : num * option nat :=
  match ds with
  | [] => (b, t)
  | d :: ds' =>
      if (d <? b)%js then argmin_loop ds' (S i) d (Some i)
      else argmin_loop ds' (S i) b t
  end.

(** ** Sample inputs *)

Module Samples.

(** The horizontal stroke from [(0, 0)] to [(1, 0)], as records and as
    pairs, at location [0] of the heap. *)
Definition line1 : list OneDollar.Point :=
  [OneDollar.mkPoint (Fin 0) (Fin 0); OneDollar.mkPoint (Fin 1) (Fin 0)].

Definition lineQ : list QDollar.Point :=
  [QDollar.mkPoint (Fin 0) (Fin 0) (Some 1%Z); QDollar.mkPoint (Fin 1) (Fin 0) (Some 1%Z)].

Definition heap1 : gmap nat OneDollar.RawPoints :=
  {[ 0%nat := OneDollar.Records line1 ]}.

Definition heapQ : gmap nat QDollar.RawPoints :=
  {[ 0%nat := QDollar.Records lineQ ]}.

Definition heap1_pairs : gmap nat OneDollar.RawPoints :=
  {[ 0%nat := OneDollar.Pairs [(Fin 0, Fin 0); (Fin 1, Fin 0)] ]}.

Definition heapQ_pairs : gmap nat QDollar.RawPoints :=
  {[ 0%nat := QDollar.Pairs [(Fin 0, Fin 0); (Fin 1, Fin 0)] ]}.

(** The point [(1, 1)] repeated [30] times. *)
Definition dot1 : list OneDollar.Point :=
  replicate 30 (OneDollar.mkPoint (Fin 1) (Fin 1)).

Definition heap_dot1 : gmap nat OneDollar.RawPoints :=
  {[ 0%nat := OneDollar.Records dot1 ]}.

(** A store with one template of [64] points. *)
Definition store1 : OneDollar.OneDollar :=
  OneDollar.mkOneDollar
    [OneDollar.mkTemplate "T" (replicate 64 (OneDollar.mkPoint (Fin 0) (Fin 0))) []].

Definition storeQ : QDollar.QDollar :=
  QDollar.mkQDollar
    [QDollar.mkTemplate "T" (replicate 64 (QDollar.mkPoint (Fin 0) (Fin 0) (Some 1%Z)))].

End Samples.

(** ** Auxiliary definitions for the further properties *)

(** A number that is not below zero: a non-negative real, [+Infinity], or
    [NaN] (which is below nothing). *)
Definition not_negative (a : num) : Prop :=
  match a with
  | Fin r => 0 <= r
  | NInf => False
  | PInf | NaN => True
  end.


(** ** The default templates of the constructors

    The nine arrays of [[x, y]] pairs that both constructors pass to
    [add] (the two files hold the same data), as pairs of integers. *)

Module Defaults.

Definition Triangle_points : list (Z * Z) :=
  [(137, 139); (135, 141); (133, 144); (132, 146); (130, 149); (128, 151); (126, 155);
   (123, 160); (120, 166); (116, 171); (112, 177); (107, 183); (102, 188); (100, 191);
   (95, 195); (90, 199); (86, 203); (82, 206); (80, 209); (75, 213); (73, 213);
   (70, 216); (67, 219); (64, 221); (61, 223); (60, 225); (62, 226); (65, 225);
   (67, 226); (74, 226); (77, 227); (85, 229); (91, 230); (99, 231); (108, 232);
   (116, 233); (125, 233); (134, 234); (145, 233); (153, 232); (160, 233); (170, 234);
   (177, 235); (179, 236); (186, 237); (193, 238); (198, 239); (200, 237); (202, 239);
   (204, 238); (206, 234); (205, 230); (202, 222); (197, 216); (192, 207); (186, 198);
   (179, 189); (174, 183); (167, 177); (163, 171); (159, 163); (156, 157); (152, 150);
   (148, 142); (145, 137)]%Z.

Definition X_points : list (Z * Z) :=
  [(254, 457); (253, 459); (251, 468); (247, 477); (242, 482); (235, 492); (225, 502);
   (214, 513); (202, 525); (188, 537); (172, 549); (157, 560); (142, 572); (126, 583);
   (111, 593); (96, 603); (83, 612); (71, 620); (60, 626); (51, 629); (46, 631);
   (193, 467); (191, 469); (189, 475); (187, 484); (187, 492); (189, 503); (193, 516);
   (199, 528); (207, 542); (217, 556); (229, 569); (242, 583); (256, 595); (269, 606);
   (282, 615); (292, 621); (300, 625)]%Z.

Definition Rectangle_points : list (Z * Z) :=
  [(177, 396); (177, 399); (176, 406); (174, 414); (173, 423); (170, 432); (168, 443);
   (166, 454); (164, 464); (162, 475); (161, 486); (159, 496); (157, 506); (155, 516);
   (154, 523); (154, 527); (155, 527); (163, 526); (173, 527); (184, 527); (197, 527);
   (210, 528); (222, 529); (235, 529); (248, 527); (259, 526); (268, 524); (275, 523);
   (279, 521); (279, 519); (279, 512); (279, 502); (279, 491); (279, 480); (279, 470);
   (279, 459); (279, 449); (280, 440); (280, 432); (280, 422); (280, 412); (280, 404);
   (279, 397); (279, 392); (277, 391); (273, 391); (265, 392); (256, 392); (246, 392);
   (235, 392); (224, 392); (213, 392); (201, 392); (189, 392); (179, 392); (172, 392);
   (169, 392)]%Z.

Definition Circle_points : list (Z * Z) :=
  [(331, 164); (332, 164); (335, 164); (339, 165); (342, 166); (349, 168); (356, 171);
   (363, 175); (369, 179); (376, 183); (381, 189); (387, 196); (391, 202); (395, 210);
   (398, 218); (399, 226); (400, 233); (400, 242); (399, 250); (397, 258); (393, 266);
   (388, 274); (382, 282); (375, 289); (367, 295); (358, 300); (348, 303); (339, 305);
   (329, 305); (319, 304); (309, 301); (300, 297); (292, 291); (284, 284); (277, 276);
   (272, 267); (268, 258); (266, 249); (265, 240); (266, 231); (268, 222); (272, 213);
   (278, 205); (285, 197); (292, 190); (301, 184); (310, 179); (319, 175); (328, 172);
   (335, 170); (340, 170)]%Z.

Definition Check_points : list (Z * Z) :=
  [(225, 409); (225, 413); (225, 418); (223, 425); (221, 432); (219, 438); (217, 445);
   (215, 452); (214, 458); (212, 464); (212, 467); (214, 467); (218, 465); (224, 461);
   (231, 455); (239, 449); (249, 441); (259, 432); (270, 422); (281, 413); (292, 404);
   (302, 395); (311, 387); (318, 381); (324, 375); (327, 372)]%Z.

Definition Caret_points : list (Z * Z) :=
  [(174, 510); (174, 508); (175, 501); (178, 492); (183, 481); (190, 469); (199, 455);
   (208, 443); (218, 432); (227, 422); (235, 412); (244, 403); (251, 397); (257, 392);
   (260, 390); (262, 390); (265, 392); (269, 397); (275, 403); (281, 412); (289, 421);
   (297, 432); (305, 442); (312, 453); (319, 463); (325, 473); (330, 483); (334, 492);
   (337, 500); (339, 505)]%Z.

Definition ZigZag_points : list (Z * Z) :=
  [(182, 364); (182, 367); (182, 374); (181, 381); (179, 388); (177, 396); (176, 403);
   (174, 410); (173, 417); (172, 423); (172, 425); (174, 425); (179, 422); (186, 417);
   (196, 411); (205, 404); (215, 397); (223, 391); (230, 387); (233, 385); (235, 385);
   (235, 388); (233, 395); (230, 404); (226, 412); (222, 422); (218, 431); (215, 440);
   (212, 448); (210, 453); (210, 456); (213, 455); (220, 451); (228, 445); (239, 438);
   (249, 431); (260, 424); (270, 417); (279, 411); (286, 406); (290, 403)]%Z.

Definition Arrow_points : list (Z * Z) :=
  [(227, 356); (226, 362); (224, 373); (221, 385); (216, 400); (212, 414); (208, 428);
   (204, 441); (200, 453); (195, 463); (192, 471); (190, 475); (190, 477); (192, 476);
   (199, 472); (208, 465); (218, 458); (228, 451); (238, 443); (247, 436); (256, 429);
   (263, 423); (269, 419); (271, 418); (269, 420); (263, 426); (255, 435); (246, 445);
   (237, 456); (228, 467); (220, 478); (212, 488); (205, 498); (198, 507); (194, 513);
   (193, 515)]%Z.

Definition Star_points : list (Z * Z) :=
  [(187, 468); (187, 469); (185, 475); (183, 483); (180, 494); (178, 506); (176, 517);
   (173, 528); (172, 537); (171, 544); (170, 548); (172, 548); (178, 543); (188, 535);
   (200, 525); (213, 515); (226, 505); (239, 495); (250, 486); (259, 479); (265, 475);
   (268, 473); (268, 476); (265, 483); (260, 493); (254, 506); (248, 518); (242, 530);
   (235, 542); (230, 553); (225, 562); (223, 567); (223, 569); (226, 566); (233, 558);
   (243, 548); (255, 535); (268, 523); (281, 511); (293, 500); (303, 491); (311, 483);
   (315, 480)]%Z.

(** The names both constructors register, in order. *)
Definition default_names : list string :=
  ["Triangle"; "X"; "Rectangle"; "Circle"; "Check"; "Caret"; "ZigZag"; "Arrow"; "Star"]%string.

End Defaults.

(** ** The room server ([lib/webTouchController.js])

    [attachWebTouchController(io, userOptions)] registers one handler per
    event on every socket that connects.  The model is the state these
    handlers share and one function per handler, from the state and the
    arguments of the event to the new state and the list of calls made on
    [io] and on sockets, in order.

    - [roomStates] is a [gmap] from room codes to room states; a room state
      is mutated in place by the source, and written back here.
    - [controllerSocketIds], a [Set], is the list of its elements in
      insertion order, without duplicates.
    - [currentRoomCode], a variable of the closure of each connection, is a
      map from socket ids; [io.sockets.sockets] is the set [connected].
    - Strings are sequences of ASCII characters and [toUpperCase] maps
      [a..z] to [A..Z]; an argument that should be a string is a string or
      absent ([None] for [undefined] and [null]).
    - [Math.random] is an oracle: [register_app_room] receives the codes
      that successive calls of [generateRoomCode] return.
    - [log] and [warn] are not modelled. *)

Module WebTouch.

Local Open Scope string_scope.
Local Open Scope list_scope.

Record Options : Type :=
  mkOptions { codeLength : nat; alphabet : string; defaultSensitivity : num;
              debug : bool }.

Definition DEFAULT_OPTIONS : Options :=
  mkOptions 4 "ABCDEFGHIJKLMNOPQRSTUVWXYZ" (Fin 2) false.

(** [{x, y, isVisible}] *)
Record Cursor : Type := mkCursor { cur_x : num; cur_y : num; isVisible : bool }.

(** [{keyboardMode, isShiftActive}] *)
Record ControllerState : Type :=
  mkControllerState { keyboardMode : string; isShiftActive : bool }.

Record RoomState : Type :=
  mkRoomState {
    appSocketId : string;
    controllerSocketIds : list string;
    lastKnownCursor : Cursor;
    lastKnownFocusSelector : option string;
    lastKnownFocusValue : string;
    controllerState : ControllerState;
    sensitivity : num }.

(** What is sent with an event. *)
Inductive Message : Type :=
| update_controller_state (cs : ControllerState)
| app_disconnected
| app_reconnected
| set_cursor_visibility (visible : bool)
| your_room_id (code : string)
| initial_state (cursor : Cursor) (focusedElementSelector : option string)
    (focusedElementValue : string)
| rejoin_failed (code : string)
| invalid_room (code : string)
| send_cursor_move (deltaX deltaY : num)
| send_tap (source : option string)
| send_key_input (key : string).

(** The calls made on [io] and on sockets. *)
Inductive Action : Type :=
| Emit (to : string) (m : Message)
| Join (socket : string) (room : string)
| Leave (socket : string) (room : string)
| Disconnect (socket : string).

Record Server : Type :=
  mkServer {
    roomStates : gmap string RoomState;
    currentRoomCode : gmap string string;
    connected : gset string }.

Definition initial_server : Server := mkServer ∅ ∅ ∅.

(** *** Strings and sets *)

Definition upper_ascii (c : Ascii.ascii) : Ascii.ascii :=
  let n := Ascii.nat_of_ascii c in
  if (97 <=? n)%nat && (n <=? 122)%nat then Ascii.ascii_of_nat (n - 32) else c.

Fixpoint toUpperCase (s : string) : string :=
  match s with
  | EmptyString => EmptyString
  | String c s' => String (upper_ascii c) (toUpperCase s')
  end.

(** [!!s] for a string that may be absent. *)
Definition truthy (o : option string) : bool :=
  match o with
  | Some s => negb (bool_decide (s = ""))
  | None => false
  end.

(** [String(roomCode || '').toUpperCase()] *)
Definition room_key (roomCode : option string) : string :=
  toUpperCase (default "" roomCode).

(** [key.length === 1 && key >= 'a' && key <= 'z'] *)
Definition is_lower_letter (key : string) : bool :=
  match key with
  | String c EmptyString =>
      (97 <=? Ascii.nat_of_ascii c)%nat && (Ascii.nat_of_ascii c <=? 122)%nat
  | _ => false
  end.

Definition set_has (s : string) (l : list string) : bool := bool_decide (s ∈ l).

Definition set_add (s : string) (l : list string) : list string :=
  if set_has s l then l else l ++ [s].

Definition set_delete (s : string) (l : list string) : list string :=
  filter (fun t => t <> s) l.

(** *** Room states *)

Definition createInitialRoomState (options : Options) (appSocketId : string)
    : RoomState :=
  mkRoomState appSocketId [] (mkCursor (Fin 400) (Fin 300) false) None ""
    (mkControllerState "letters" false) (defaultSensitivity options).

Definition getInitialStateForApp (roomState : RoomState) : Message :=
  initial_state (lastKnownCursor roomState) (lastKnownFocusSelector roomState)
    (lastKnownFocusValue roomState).

Definition broadcastControllerStateToRoom (st : Server) (roomCode : string)
    : list Action :=
  match roomStates st !! roomCode with
  | None => []
  | Some roomState =>
      map (fun sid => Emit sid (update_controller_state (controllerState roomState)))
          (controllerSocketIds roomState)
  end.

Definition set_room (st : Server) (code : string) (roomState : RoomState) : Server :=
  mkServer (<[code := roomState]> (roomStates st)) (currentRoomCode st) (connected st).

Definition set_current (st : Server) (socket : string) (code : string) : Server :=
  mkServer (roomStates st) (<[socket := code]> (currentRoomCode st)) (connected st).

Definition set_visible (roomState : RoomState) (b : bool) : RoomState :=
  mkRoomState (appSocketId roomState) (controllerSocketIds roomState)
    (mkCursor (cur_x (lastKnownCursor roomState)) (cur_y (lastKnownCursor roomState)) b)
    (lastKnownFocusSelector roomState) (lastKnownFocusValue roomState)
    (controllerState roomState) (sensitivity roomState).

Definition set_controllers (roomState : RoomState) (l : list string) : RoomState :=
  mkRoomState (appSocketId roomState) l (lastKnownCursor roomState)
    (lastKnownFocusSelector roomState) (lastKnownFocusValue roomState)
    (controllerState roomState) (sensitivity roomState).

Definition set_app (roomState : RoomState) (sid : string) : RoomState :=
  mkRoomState sid (controllerSocketIds roomState) (lastKnownCursor roomState)
    (lastKnownFocusSelector roomState) (lastKnownFocusValue roomState)
    (controllerState roomState) (sensitivity roomState).

Definition set_keyboard (roomState : RoomState) (cs : ControllerState) : RoomState :=
  mkRoomState (appSocketId roomState) (controllerSocketIds roomState)
    (lastKnownCursor roomState) (lastKnownFocusSelector roomState)
    (lastKnownFocusValue roomState) cs (sensitivity roomState).

(** *** The handlers *)

(** [io.on('connection', ...)]: the closure starts with
    [currentRoomCode = null]. *)
Definition connection (st : Server) (socket : string) : Server * list Action :=
  (mkServer (roomStates st) (delete socket (currentRoomCode st))
     ({[ socket ]} ∪ connected st), []).

(** [socket.on('disconnect', ...)]; the socket has left
    [io.sockets.sockets] when the handler runs. *)
Definition disconnect (st : Server) (socket : string) : Server * list Action :=
  let st := mkServer (roomStates st) (currentRoomCode st) (connected st ∖ {[ socket ]}) in
  match currentRoomCode st !! socket with
  | None => (st, [])
  | Some code =>
      if bool_decide (code = "") then (st, [])
      else
        match roomStates st !! code with
        | None => (st, [])
        | Some roomState =>
            if bool_decide (socket = appSocketId roomState) then
              let acts :=
                flat_map (fun controllerSid =>
                            if bool_decide (controllerSid ∈ connected st)
                            then [Emit controllerSid app_disconnected;
                                  Leave controllerSid code]
                            else [])
                         (controllerSocketIds roomState) in
              (mkServer (delete code (roomStates st)) (currentRoomCode st) (connected st),
               acts)
            else if set_has socket (controllerSocketIds roomState) then
              let roomState :=
                set_controllers roomState
                  (set_delete socket (controllerSocketIds roomState)) in
              if bool_decide (length (controllerSocketIds roomState) = 0%nat)
                 && isVisible (lastKnownCursor roomState)
              then
                let roomState := set_visible roomState false in
                (set_room st code roomState,
                 if bool_decide (appSocketId roomState = "") then []
                 else [Emit (appSocketId roomState) (set_cursor_visibility false)])
              else (set_room st code roomState, [])
            else (st, [])
        end
  end.

(** The [while (roomStates.has(roomCode))] loop over the codes that
    [generateRoomCode] returns. *)
Fixpoint fresh_code (codes : list string) (rooms : gmap string RoomState)
    : outcome string :=
  match codes with
  | [] => OutOfFuel
  | roomCode :: codes' =>
      match rooms !! roomCode with
      | Some _ => fresh_code codes' rooms
      | None => Ret roomCode
      end
  end.

Definition register_app_room (options : Options) (codes : list string) (st : Server)
    (socket : string) : outcome (Server * list Action) :=
  do roomCode <- fresh_code codes (roomStates st);
  let st := set_current st socket roomCode in
  let newRoomState := createInitialRoomState options socket in
  let st := set_room st roomCode newRoomState in
  Ret (st, [Join socket roomCode;
            Emit socket (your_room_id roomCode);
            Emit socket (getInitialStateForApp newRoomState);
            Emit socket (set_cursor_visibility false)]).

Definition rejoin_app_room (st : Server) (socket : string) (roomCode : option string)
    : Server * list Action :=
  let upperRoomCode := room_key roomCode in
  match roomStates st !! upperRoomCode with
  | None => (st, [Emit socket (rejoin_failed upperRoomCode)])
  | Some roomState =>
      let st := set_current st socket upperRoomCode in
      let roomState := set_app roomState socket in
      (set_room st upperRoomCode roomState,
       [Join socket upperRoomCode;
        Emit socket (your_room_id upperRoomCode);
        Emit socket (getInitialStateForApp roomState);
        Emit socket (set_cursor_visibility (isVisible (lastKnownCursor roomState)))]
       ++ map (fun controllerSid => Emit controllerSid app_reconnected)
              (controllerSocketIds roomState))
  end.

Definition register_controller_room (st : Server) (socket : string)
    (roomCode : option string) : Server * list Action :=
  let upperRoomCode := room_key roomCode in
  match roomStates st !! upperRoomCode with
  | None => (st, [Emit socket (invalid_room upperRoomCode); Disconnect socket])
  | Some roomState =>
      let st := set_current st socket upperRoomCode in
      let roomState :=
        set_controllers roomState (set_add socket (controllerSocketIds roomState)) in
      let cursorVisibilityChanged := negb (isVisible (lastKnownCursor roomState)) in
      let roomState := set_visible roomState true in
      (set_room st upperRoomCode roomState,
       [Join socket upperRoomCode;
        Emit socket (update_controller_state (controllerState roomState))]
       ++ (if cursorVisibilityChanged
              && negb (bool_decide (appSocketId roomState = ""))
              && bool_decide (appSocketId roomState ∈ connected st)
           then [Emit (appSocketId roomState) (set_cursor_visibility true)]
           else []))
  end.

(** [{roomId, pos: {x, y}}] *)
Record CursorReport : Type :=
  mkCursorReport { cr_roomId : option string; cr_pos : option (num * num) }.

Definition report_cursor_position (st : Server) (socket : string)
    (data : option CursorReport) : Server * list Action :=
  match data with
  | Some (mkCursorReport roomId (Some pos)) =>
      if truthy roomId then
        let upperRoomCode := room_key roomId in
        match roomStates st !! upperRoomCode with
        | Some roomState =>
            if bool_decide (socket = appSocketId roomState) then
              (set_room st upperRoomCode
                 (mkRoomState (appSocketId roomState) (controllerSocketIds roomState)
                    (mkCursor (fst pos) (snd pos)
                       (isVisible (lastKnownCursor roomState)))
                    (lastKnownFocusSelector roomState) (lastKnownFocusValue roomState)
                    (controllerState roomState) (sensitivity roomState)),
               [])
            else (st, [])
        | None => (st, [])
        end
      else (st, [])
  | _ => (st, [])
  end.

(** [{roomId, focusInfo: {selector, value}}] *)
Record FocusReport : Type :=
  mkFocusReport { fr_roomId : option string;
                  fr_focusInfo : option (option string * option string) }.

Definition report_focus_change (st : Server) (socket : string)
    (data : option FocusReport) : Server * list Action :=
  match data with
  | Some (mkFocusReport roomId (Some focusInfo)) =>
      if truthy roomId then
        let upperRoomCode := room_key roomId in
        match roomStates st !! upperRoomCode with
        | Some roomState =>
            if bool_decide (socket = appSocketId roomState) then
              (set_room st upperRoomCode
                 (mkRoomState (appSocketId roomState) (controllerSocketIds roomState)
                    (lastKnownCursor roomState)
                    (if truthy (fst focusInfo) then fst focusInfo else None)
                    (default "" (snd focusInfo))
                    (controllerState roomState) (sensitivity roomState)),
               [])
            else (st, [])
        | None => (st, [])
        end
      else (st, [])
  | _ => (st, [])
  end.

(** [{roomId, deltaX, deltaY}] *)
Record MoveData : Type :=
  mkMoveData { mv_roomId : option string; deltaX : option num; deltaY : option num }.

(** [d || 0] *)
Definition or_zero (d : option num) : num :=
  match d with
  | Some NaN | None => Fin 0
  | Some v => v
  end.

Definition cursor_move (st : Server) (socket : string) (data : option MoveData)
    : Server * list Action :=
  match data with
  | Some data =>
      if truthy (mv_roomId data) then
        let upperRoomCode := room_key (mv_roomId data) in
        match roomStates st !! upperRoomCode with
        | Some roomState =>
            if set_has socket (controllerSocketIds roomState) then
              if bool_decide (appSocketId roomState = "") then (st, [])
              else if bool_decide (appSocketId roomState ∈ connected st) then
                (st, [Emit (appSocketId roomState)
                        (send_cursor_move
                           (or_zero (deltaX data) * sensitivity roomState)%js
                           (or_zero (deltaY data) * sensitivity roomState)%js)])
              else (st, [])
            else (st, [])
        | None => (st, [])
        end
      else (st, [])
  | None => (st, [])
  end.

(** [{roomId, source}] *)
Record TapData : Type :=
  mkTapData { tap_roomId : option string; source : option string }.

Definition tap (st : Server) (socket : string) (data : option TapData)
    : Server * list Action :=
  match data with
  | Some data =>
      if truthy (tap_roomId data) then
        let upperRoomCode := room_key (tap_roomId data) in
        match roomStates st !! upperRoomCode with
        | Some roomState =>
            if set_has socket (controllerSocketIds roomState) then
              if bool_decide (appSocketId roomState = "") then (st, [])
              else if bool_decide (appSocketId roomState ∈ connected st) then
                (st, [Emit (appSocketId roomState) (send_tap (source data))])
              else (st, [])
            else (st, [])
        | None => (st, [])
        end
      else (st, [])
  | None => (st, [])
  end.

(** [{roomId, key, targetMode}] *)
Record KeyData : Type :=
  mkKeyData { key_roomId : option string; key : option string;
              targetMode : option string }.

Definition allowedModes : list string := ["letters"; "numbers"; "symbols2"].

(** The three branches of [key_input] on the keyboard state: the new
    state, [controllerStateChanged] and [keyToBroadcast]. *)
Definition key_step (cs : ControllerState) (key : string) (targetMode : option string)
    : ControllerState * bool * option string :=
  if bool_decide (key = "ToggleMode") then
    match targetMode with
    | Some mode =>
        if truthy targetMode && bool_decide (mode ∈ allowedModes)
           && negb (bool_decide (keyboardMode cs = mode))
        then (mkControllerState mode false, true, None)
        else (cs, false, None)
    | None => (cs, false, None)
    end
  else if bool_decide (key = "ToggleShift") then
    if bool_decide (keyboardMode cs = "letters")
    then (mkControllerState (keyboardMode cs) (negb (isShiftActive cs)), true, None)
    else (cs, false, None)
  else
    if bool_decide (keyboardMode cs = "letters") && isShiftActive cs
       && is_lower_letter key
    then (mkControllerState (keyboardMode cs) false, true, Some (toUpperCase key))
    else (cs, false, Some key).

Definition key_input (st : Server) (socket : string) (data : option KeyData)
    : Server * list Action :=
  match data with
  | Some (mkKeyData roomId (Some key) targetMode) =>
      if truthy roomId && truthy (Some key) then
        let upperRoomCode := room_key roomId in
        match roomStates st !! upperRoomCode with
        | Some roomState =>
            if set_has socket (controllerSocketIds roomState) then
              let '(cs, controllerStateChanged, keyToBroadcast) :=
                key_step (controllerState roomState) key targetMode in
              let roomState := set_keyboard roomState cs in
              let st := set_room st upperRoomCode roomState in
              let broadcast :=
                if controllerStateChanged
                then broadcastControllerStateToRoom st upperRoomCode else [] in
              (st,
               broadcast
               ++ (if truthy keyToBroadcast
                      && negb (bool_decide (appSocketId roomState = ""))
                      && bool_decide (appSocketId roomState ∈ connected st)
                   then [Emit (appSocketId roomState)
                           (send_key_input (default "" keyToBroadcast))]
                   else []))
            else (st, [])
        | None => (st, [])
        end
      else (st, [])
  | _ => (st, [])
  end.

(** *** Events *)

Inductive Event : Type :=
| on_connection (socket : string)
| on_disconnect (socket : string)
| on_register_app_room (socket : string) (codes : list string)
| on_rejoin_app_room (socket : string) (roomCode : option string)
| on_register_controller_room (socket : string) (roomCode : option string)
| on_report_cursor_position (socket : string) (data : option CursorReport)
| on_report_focus_change (socket : string) (data : option FocusReport)
| on_cursor_move (socket : string) (data : option MoveData)
| on_tap (socket : string) (data : option TapData)
| on_key_input (socket : string) (data : option KeyData).

Definition handle (options : Options) (st : Server) (e : Event)
    : outcome (Server * list Action) :=
  match e with
  | on_connection socket => Ret (connection st socket)
  | on_disconnect socket => Ret (disconnect st socket)
  | on_register_app_room socket codes => register_app_room options codes st socket
  | on_rejoin_app_room socket roomCode => Ret (rejoin_app_room st socket roomCode)
  | on_register_controller_room socket roomCode =>
      Ret (register_controller_room st socket roomCode)
  | on_report_cursor_position socket data => Ret (report_cursor_position st socket data)
  | on_report_focus_change socket data => Ret (report_focus_change st socket data)
  | on_cursor_move socket data => Ret (cursor_move st socket data)
  | on_tap socket data => Ret (tap st socket data)
  | on_key_input socket data => Ret (key_input st socket data)
  end.

(** The events of a run, one after the other, with all the calls made. *)
Fixpoint run (options : Options) (st : Server) (events : list Event)
    : outcome (Server * list Action) :=
  match events with
  | [] => Ret (st, [])
  | e :: events' =>
      do '(st, acts) <- handle options st e;
      do '(st, acts') <- run options st events';
      Ret (st, acts ++ acts')
  end.

(** *** Invariants of the room states *)

(** The keyboard is in one of the three modes, and shift is active in
    letters mode only. *)
Definition keyboard_ok (cs : ControllerState) : Prop :=
  keyboardMode cs ∈ allowedModes /\
  (isShiftActive cs = true -> keyboardMode cs = "letters").

(** The cursor is shown exactly when a controller is in the room; the
    controllers are distinct; the sensitivity is the configured one. *)
Definition room_ok (options : Options) (roomState : RoomState) : Prop :=
  keyboard_ok (controllerState roomState) /\
  (isVisible (lastKnownCursor roomState) = true <-> controllerSocketIds roomState <> []) /\
  NoDup (controllerSocketIds roomState) /\
  sensitivity roomState = defaultSensitivity options.

Definition server_ok (options : Options) (st : Server) : Prop :=
  forall (code : string) (roomState : RoomState),
    roomStates st !! code = Some roomState -> room_ok options roomState.

(** [socket] is a controller of the room that [roomId] names. *)
Definition is_controller (st : Server) (socket : string) (roomId : option string)
    : Prop :=
  exists roomState : RoomState,
    roomStates st !! room_key roomId = Some roomState /\
    socket ∈ controllerSocketIds roomState.

(** [socket] is the app of the room that [roomId] names. *)
Definition is_app (st : Server) (socket : string) (roomId : option string) : Prop :=
  exists roomState : RoomState,
    roomStates st !! room_key roomId = Some roomState /\
    socket = appSocketId roomState.

(** The socket an event comes from. *)
Definition sender (e : Event) : string :=
  match e with
  | on_connection socket | on_disconnect socket | on_register_app_room socket _
  | on_rejoin_app_room socket _ | on_register_controller_room socket _
  | on_report_cursor_position socket _ | on_report_focus_change socket _
  | on_cursor_move socket _ | on_tap socket _ | on_key_input socket _ => socket
  end.

(** A step that concerns the room [code] only: the other rooms keep their
    state, and whatever is emitted goes to [socket] or to the app or a
    controller that the room had before the step. *)
Definition confined (st : Server) (socket code : string) (st' : Server)
    (acts : list Action) : Prop :=
  (forall c : string, c <> code -> roomStates st' !! c = roomStates st !! c) /\
  forall (to : string) (m : Message),
    In (Emit to m) acts ->
    to = socket \/
    exists roomState : RoomState,
      roomStates st !! code = Some roomState /\
      (to = appSocketId roomState \/ to ∈ controllerSocketIds roomState).

End WebTouch.

Module WebTouchSamples.
Import WebTouch.

Local Open Scope string_scope.

(** A kiosk opens a room, a controller joins it and presses shift. *)
Definition session : list Event :=
  [on_connection "app";
   on_register_app_room "app" ["ABCD"];
   on_connection "c1";
   on_register_controller_room "c1" (Some "abcd");
   on_key_input "c1" (Some (mkKeyData (Some "abcd") (Some "ToggleShift") None))].

(** The room [ABCD] with its app and two controllers, all connected. *)
Definition room : RoomState :=
  mkRoomState "app" ["c1"; "c2"] (mkCursor (Fin 400) (Fin 300) true) None ""
    (mkControllerState "letters" false) (Fin 2).

Definition server : Server :=
  mkServer {[ "ABCD" := room ]}
           (<[ "app" := "ABCD" ]> (<[ "c1" := "ABCD" ]> {[ "c2" := "ABCD" ]}))
           ({[ "app" ]} ∪ {[ "c1" ]} ∪ {[ "c2" ]}).

End WebTouchSamples.

(** * The recognizers in double precision

    The definitions above compute with exact reals.  A JavaScript number
    is an IEEE 754 binary64 value, and the statements that depend on
    rounding, overflow or the two zeros are settled on the embedding
    below, where a number is a primitive [float] of the kernel (binary64,
    round to nearest even; [+], [-], [*], [/] and [Math.sqrt] are the
    correctly rounded operations).

    [Math.cos], [Math.sin] and [Math.atan2] are left to the host by
    ECMAScript (implementation-approximated); they are taken as a
    parameter [Math], and the statements hold for every choice of it.

    The heap is threaded through every outcome: what [_resample] spliced
    into the caller's array stays there when a later step throws. *)

Module B64.
Import PrimFloat.

Abbreviation float := PrimFloat.float (only parsing).

Local Open Scope float_scope.

(** ** Numbers *)

Definition Infinity : float := PrimFloat.infinity.
Definition NaN : float := PrimFloat.nan.

Definition is_nan (a : float) : bool := PrimFloat.is_nan a.
Definition is_finite (a : float) : bool := PrimFloat.is_finite a.

(** [is_finite] read on the specification of a number. *)
Definition sf_finite (s : SpecFloat.spec_float) : bool :=
  match s with
  | SpecFloat.S754_zero _ | SpecFloat.S754_finite _ _ _ => true
  | _ => false
  end.

(** [x < 0] is false, read on the specification of [x]: [x] is [NaN], a
    zero, [+Infinity] or a positive number. *)
Definition sf_not_negative (s : SpecFloat.spec_float) : bool :=
  match s with
  | SpecFloat.S754_infinity true | SpecFloat.S754_finite true _ _ => false
  | _ => true
  end.

(** [a > b] and [a >= b] *)
Definition jgt (a b : float) : bool := b <? a.
Definition jge (a b : float) : bool := b <=? a.

Definition Math_sqrt (a : float) : float := PrimFloat.sqrt a.
Definition Math_abs (a : float) : float := PrimFloat.abs a.

(** [Math.min] and [Math.max]: [NaN] as soon as one argument is, and [-0]
    is below [+0]. *)
Definition Math_min (a b : float) : float :=
  if is_nan a || is_nan b then NaN
  else if a <? b then a
  else if b <? a then b
  else if PrimFloat.get_sign a then a else b.

Definition Math_max (a b : float) : float :=
  if is_nan a || is_nan b then NaN
  else if a <? b then b
  else if b <? a then a
  else if PrimFloat.get_sign a then b else a.

(** An integer (an array length, [n - 1]) as a number. *)
Definition of_Z (z : Z) : float :=
  match z with
  | Z0 => 0
  | Zpos _ => PrimFloat.of_uint63 (Uint63Axioms.of_Z z)
  | Zneg p => - PrimFloat.of_uint63 (Uint63Axioms.of_Z (Zpos p))
  end.

Definition of_nat (n : nat) : float := of_Z (Z.of_nat n).

(** The host's [Math.cos], [Math.sin] and [Math.atan2]. *)
Record Math : Type :=
  mkMath { Math_cos : float -> float;
           Math_sin : float -> float;
           Math_atan2 : float -> float -> float }.

(** ** Computations on the heap

    A computation answers an outcome and the heap it leaves, also when
    it throws. *)

Definition heap_bind {S A B : Type} (m : S -> outcome A * S)
    (k : A -> S -> outcome B * S) : S -> outcome B * S :=
  fun s =>
    match m s with
    | (Ret a, s') => k a s'
    | (Throw e, s') => (Throw e, s')
    | (OutOfFuel, s') => (OutOfFuel, s')
    end.

(** A step that does not touch the heap. *)
Definition pure_step {S A : Type} (m : outcome A) : S -> outcome A * S :=
  fun s => (m, s).

Notation "'doh' x <- m ; k" := (heap_bind m (fun x => k))
  (at level 10, x name, m at level 100, k at level 200).

(** ** The $1 recognizer *)

Module OneDollar.

Record Point : Type := mkPoint { px : float; py : float }.

Record Template : Type :=
  mkTemplate { Name : string; Points : list Point; Vector : list float }.

Record Result : Type := mkResult { name : string; score : float }.

Record Box : Type := mkBox { bx : float; by_ : float; width : float; height : float }.

Inductive RawPoints : Type :=
| Pairs (l : list (float * float))
| Records (l : list Point).

Abbreviation heap := (gmap loc RawPoints) (only parsing).

Definition NumPoints : nat := 64.
Definition SquareSize : float := 250.
Definition Origin : Point := mkPoint 0 0.
Definition Diagonal : float :=
  Math_sqrt (SquareSize * SquareSize + SquareSize * SquareSize).
Definition HalfDiagonal : float := 0.5 * Diagonal.
Definition AngleRange : float := 45.
Definition AnglePrecision : float := 2.
Definition Phi : float := 0.5 * (-1 + Math_sqrt 5).

Record OneDollar : Type := mkOneDollar { Templates : list Template }.

(** *** Helper methods *)

Definition _distance (p1 p2 : Point) : float :=
  let dx := px p1 - px p2 in
  let dy := py p1 - py p2 in
  Math_sqrt (dx * dx + dy * dy).

Fixpoint pathLength_from (d : float) (prev : Point) (rest : list Point) : float :=
  match rest with
  | [] => d
  | p :: rest' => pathLength_from (d + _distance prev p) p rest'
  end.

Definition _pathLength (points : list Point) : float :=
  match points with
  | [] => 0
  | p :: rest => pathLength_from 0 p rest
  end.

Definition _centroid (points : list Point) : Point :=
  let x := fold_left (fun x p => x + px p) points 0 in
  let y := fold_left (fun y p => y + py p) points 0 in
  mkPoint (x / of_nat (length points)) (y / of_nat (length points)).

Definition _boundingBox (points : list Point) : Box :=
  let minX := fold_left (fun minX p => Math_min minX (px p)) points Infinity in
  let maxX := fold_left (fun maxX p => Math_max maxX (px p)) points (- Infinity) in
  let minY := fold_left (fun minY p => Math_min minY (py p)) points Infinity in
  let maxY := fold_left (fun maxY p => Math_max maxY (py p)) points (- Infinity) in
  mkBox minX minY (maxX - minX) (maxY - minY).

(** [Array.isArray(rawPoints[0])] selects the conversion: a fresh array
    of records for pairs, the argument itself otherwise. *)
Definition _convertPoints (rawPoints : loc) : heap -> outcome loc * heap :=
  fun h =>
    match h !! rawPoints with
    | None => (Throw TypeError, h)
    | Some (Pairs (p :: ps)) =>
        let l := fresh (dom h) in
        (Ret l, <[l := Records (map (fun p => mkPoint (fst p) (snd p)) (p :: ps))]> h)
    | Some _ => (Ret rawPoints, h)
    end.

(** The records held by an array.  [_resample] is called on what
    [_convertPoints] returned, which is never an array that starts with
    a pair. *)
Definition records (raw : RawPoints) : outcome (list Point) :=
  match raw with
  | Records l => Ret l
  | Pairs [] => Ret []
  | Pairs (_ :: _) => Throw TypeError
  end.

(** [points.splice(i, 0, q)] *)
Definition splice (points : list Point) (i : nat) (q : Point) : list Point :=
  take i points ++ q :: drop i points.

(** The [for] loop of [_resample]; answers [newPoints] and the final
    contents of the array [points]. *)
Fixpoint resample_loop (fuel : nat) (I : float) (points : list Point) (i : nat)
    (D : float) (newPoints : list Point) : outcome (list Point * list Point) :=
  match fuel with
  | O => OutOfFuel
  | S fuel' =>
      if bool_decide (i < length points)%nat then
        do p1 <- deref (points !! (i - 1)%nat);
        do p2 <- deref (points !! i);
        let d := _distance p1 p2 in
        if jge (D + d) I then
          let qx := px p1 + ((I - D) / d) * (px p2 - px p1) in
          let qy := py p1 + ((I - D) / d) * (py p2 - py p1) in
          let q := mkPoint qx qy in
          resample_loop fuel' I (splice points i q) (S i) 0 (newPoints ++ [q])
        else
          resample_loop fuel' I points (S i) (D + d) newPoints
      else Ret (newPoints, points)
  end.

(** [_resample] on the contents of the array.  [points[0]] of an empty
    array is [undefined]: the source stores it in [newPoints] and raises
    at its first use, the model raises at once. *)
Definition resample_array (fuel : nat) (points : list Point) (n : nat)
    : outcome (list Point * list Point) :=
  let I := _pathLength points / of_Z (Z.of_nat n - 1) in
  do p0 <- deref (points !! 0%nat);
  do '(newPoints, points') <- resample_loop fuel I points 1 0 [p0];
  if bool_decide (Z.of_nat (length newPoints) = Z.of_nat n - 1)%Z then
    do pl <- deref (last points');
    Ret (newPoints ++ [mkPoint (px pl) (py pl)], points')
  else Ret (newPoints, points').

(** [_resample(points, n)]: the array behind [points] is updated in
    place. *)
Definition _resample (fuel : nat) (points : loc) (n : nat)
    : heap -> outcome (list Point) * heap :=
  fun h =>
    match h !! points with
    | None => (Throw TypeError, h)
    | Some raw =>
        match records raw with
        | Ret pts =>
            match resample_array fuel pts n with
            | Ret (newPoints, pts') => (Ret newPoints, <[points := Records pts']> h)
            | Throw e => (Throw e, h)
            | OutOfFuel => (OutOfFuel, h)
            end
        | Throw e => (Throw e, h)
        | OutOfFuel => (OutOfFuel, h)
        end
    end.

Definition _indicativeAngle (J : Math) (points : list Point) : outcome float :=
  let c := _centroid points in
  do p0 <- deref (points !! 0%nat);
  Ret (Math_atan2 J (py c - py p0) (px c - px p0)).

Definition _rotateBy (J : Math) (points : list Point) (radians : float) : list Point :=
  let c := _centroid points in
  let cos := Math_cos J radians in
  let sin := Math_sin J radians in
  map (fun p =>
         let qx := (px p - px c) * cos - (py p - py c) * sin + px c in
         let qy := (px p - px c) * sin + (py p - py c) * cos + py c in
         mkPoint qx qy)
      points.

Definition _scaleTo (points : list Point) (size : float) : list Point :=
  let B := _boundingBox points in
  map (fun p =>
         let qx := px p * (size / width B) in
         let qy := py p * (size / height B) in
         mkPoint qx qy)
      points.

Definition _translateTo (points : list Point) (pt : Point) : list Point :=
  let c := _centroid points in
  map (fun p =>
         let qx := px p + px pt - px c in
         let qy := py p + py pt - py c in
         mkPoint qx qy)
      points.

Definition _vectorize (points : list Point) : list float :=
  let vector := flat_map (fun p => [px p; py p]) points in
  let sum := fold_left (fun sum p => sum + (px p * px p + py p * py p)) points 0 in
  let magnitude := Math_sqrt sum in
  map (fun v => v / magnitude) vector.

Fixpoint pathDistance_loop (d : float) (pts1 pts2 : list Point) : outcome float :=
  match pts1 with
  | [] => Ret d
  | p1 :: pts1' =>
      match pts2 with
      | [] => Throw TypeError
      | p2 :: pts2' => pathDistance_loop (d + _distance p1 p2) pts1' pts2'
      end
  end.

Definition _pathDistance (pts1 pts2 : list Point) : outcome float :=
  do d <- pathDistance_loop 0 pts1 pts2;
  Ret (d / of_nat (length pts1)).

Definition _distanceAtAngle (J : Math) (points : list Point) (T : Template)
    (radians : float) : outcome float :=
  let newPoints := _rotateBy J points radians in
  _pathDistance newPoints (Points T).

(** The state of the [while] loop of [_distanceAtBestAngle]; [evals]
    counts the calls of [_distanceAtAngle] made so far. *)
Record Bracket : Type :=
  mkBracket { ga : float; gb : float; gx1 : float; gf1 : float; gx2 : float;
              gf2 : float; evals : nat }.

Fixpoint golden_loop (J : Math) (fuel : nat) (points : list Point) (T : Template)
    (threshold : float) (st : Bracket) : outcome Bracket :=
  match fuel with
  | O => OutOfFuel
  | S fuel' =>
      let '(mkBracket a b x1 f1 x2 f2 k) := st in
      if jgt (Math_abs (b - a)) threshold then
        if f1 <? f2 then
          let b := x2 in
          let x2 := x1 in
          let f2 := f1 in
          let x1 := Phi * a + (1 - Phi) * b in
          do f1 <- _distanceAtAngle J points T x1;
          golden_loop J fuel' points T threshold (mkBracket a b x1 f1 x2 f2 (S k))
        else
          let a := x1 in
          let x1 := x2 in
          let f1 := f2 in
          let x2 := (1 - Phi) * a + Phi * b in
          do f2 <- _distanceAtAngle J points T x2;
          golden_loop J fuel' points T threshold (mkBracket a b x1 f1 x2 f2 (S k))
      else Ret st
  end.

(** The state in which the loop is entered, after the first two
    evaluations. *)
Definition golden_init (J : Math) (points : list Point) (T : Template) (a b : float)
    : outcome Bracket :=
  let x1 := Phi * a + (1 - Phi) * b in
  do f1 <- _distanceAtAngle J points T x1;
  let x2 := (1 - Phi) * a + Phi * b in
  do f2 <- _distanceAtAngle J points T x2;
  Ret (mkBracket a b x1 f1 x2 f2 2).

Definition _distanceAtBestAngle (J : Math) (fuel : nat) (points : list Point)
    (T : Template) (a b threshold : float) : outcome float :=
  do st0 <- golden_init J points T a b;
  do st <- golden_loop J fuel points T threshold st0;
  Ret (Math_min (gf1 st) (gf2 st)).

(** *** Public methods *)

Fixpoint check_loop (J : Math) (fuel : nat) (points : list Point)
    (templates : list Template) (i : nat) (b : float) (t : nat)
    : outcome (float * nat) :=
  match templates with
  | [] => Ret (b, t)
  | T :: templates' =>
      do d <- _distanceAtBestAngle J fuel points T (- AngleRange) AngleRange
                AnglePrecision;
      if d <? b then check_loop J fuel points templates' (S i) d i
      else check_loop J fuel points templates' (S i) b t
  end.

(** The steps of [check] and [add] after [_resample]. *)
Definition normalize (J : Math) (processed : list Point) : outcome (list Point) :=
  do radians <- _indicativeAngle J processed;
  let processed := _rotateBy J processed (- radians) in
  let processed := _scaleTo processed SquareSize in
  let processed := _translateTo processed Origin in
  Ret processed.

(** The template loop of [check] and what it returns. *)
Definition recognize (J : Math) (fuel : nat) (this : OneDollar)
    (processedPoints : list Point) : outcome Result :=
  do '(b, t) <- check_loop J fuel processedPoints (Templates this) 0 Infinity 0;
  let score := 1 - b / HalfDiagonal in
  do T <- deref (Templates this !! t);
  Ret (mkResult (Name T) (Math_max score 0)).

Definition check (J : Math) (fuel : nat) (this : OneDollar) (points : loc)
    : heap -> outcome Result * heap :=
  doh processedPoints <- _convertPoints points;
  doh processedPoints <- _resample fuel processedPoints NumPoints;
  pure_step (do processedPoints <- normalize J processedPoints;
             recognize J fuel this processedPoints).

Definition add (J : Math) (fuel : nat) (this : OneDollar) (name : string)
    (points : loc) : heap -> outcome OneDollar * heap :=
  doh processed <- _convertPoints points;
  doh processed <- _resample fuel processed NumPoints;
  pure_step (do processed <- normalize J processed;
             Ret (mkOneDollar
                    (Templates this
                       ++ [mkTemplate name processed (_vectorize processed)]))).

(** *** The constructor *)

(** The array that an array literal of the constructor denotes. *)
Definition literal (l : list (Z * Z)) : RawPoints :=
  Pairs (map (fun p => (of_Z (fst p), of_Z (snd p))) l).

(** A new array. *)
Definition alloc (raw : RawPoints) : heap -> outcome loc * heap :=
  fun h => let l := fresh (dom h) in (Ret l, <[l := raw]> h).

(** [this.add(name, [[x, y], ...])] *)
Definition add_default (J : Math) (fuel : nat) (name : string) (l : list (Z * Z))
    (this : OneDollar) : heap -> outcome OneDollar * heap :=
  doh points <- alloc (literal l);
  add J fuel this name points.

Definition constructor (J : Math) (fuel : nat) : heap -> outcome OneDollar * heap :=
  doh this <- add_default J fuel "Triangle" Defaults.Triangle_points (mkOneDollar []);
  doh this <- add_default J fuel "X" Defaults.X_points this;
  doh this <- add_default J fuel "Rectangle" Defaults.Rectangle_points this;
  doh this <- add_default J fuel "Circle" Defaults.Circle_points this;
  doh this <- add_default J fuel "Check" Defaults.Check_points this;
  doh this <- add_default J fuel "Caret" Defaults.Caret_points this;
  doh this <- add_default J fuel "ZigZag" Defaults.ZigZag_points this;
  doh this <- add_default J fuel "Arrow" Defaults.Arrow_points this;
  doh this <- add_default J fuel "Star" Defaults.Star_points this;
  pure_step (Ret this).

End OneDollar.

(** ** The $Q recognizer *)

Module QDollar.

Record Point : Type := mkPoint { px : float; py : float; pid : option Z }.

Record Template : Type := mkTemplate { Name : string; Points : list Point }.

Record Result : Type := mkResult { name : string; score : float }.

Inductive RawPoints : Type :=
| Pairs (l : list (float * float))
| Records (l : list Point).

Abbreviation heap := (gmap loc RawPoints) (only parsing).

Definition NumPoints : nat := 64.
Definition Origin : Point := mkPoint 0 0 None.

Record QDollar : Type := mkQDollar { Templates : list Template }.

(** *** Helper methods *)

Definition _distance (p1 p2 : Point) : float :=
  let dx := px p1 - px p2 in
  let dy := py p1 - py p2 in
  Math_sqrt (dx * dx + dy * dy).

Definition _sqrEuclideanDistance (p1 p2 : Point) : float :=
  let dx := px p1 - px p2 in
  let dy := py p1 - py p2 in
  dx * dx + dy * dy.

Fixpoint pathLength_from (d : float) (prev : Point) (rest : list Point) : float :=
  match rest with
  | [] => d
  | p :: rest' =>
      if bool_decide (pid p = pid prev)
      then pathLength_from (d + _distance prev p) p rest'
      else pathLength_from d p rest'
  end.

Definition _pathLength (points : list Point) : float :=
  match points with
  | [] => 0
  | p :: rest => pathLength_from 0 p rest
  end.

Definition _centroid (points : list Point) : Point :=
  let x := fold_left (fun x p => x + px p) points 0 in
  let y := fold_left (fun y p => y + py p) points 0 in
  mkPoint (x / of_nat (length points)) (y / of_nat (length points)) None.

Definition _convertPoints (rawPoints : loc) : heap -> outcome loc * heap :=
  fun h =>
    match h !! rawPoints with
    | None => (Throw TypeError, h)
    | Some (Pairs (p :: ps)) =>
        let l := fresh (dom h) in
        (Ret l,
         <[l := Records (map (fun p => mkPoint (fst p) (snd p) (Some 1%Z)) (p :: ps))]> h)
    | Some _ => (Ret rawPoints, h)
    end.

Definition records (raw : RawPoints) : outcome (list Point) :=
  match raw with
  | Records l => Ret l
  | Pairs [] => Ret []
  | Pairs (_ :: _) => Throw TypeError
  end.

Definition splice (points : list Point) (i : nat) (q : Point) : list Point :=
  take i points ++ q :: drop i points.

Fixpoint resample_loop (fuel : nat) (I : float) (points : list Point) (i : nat)
    (D : float) (newPoints : list Point) : outcome (list Point * list Point) :=
  match fuel with
  | O => OutOfFuel
  | S fuel' =>
      if bool_decide (i < length points)%nat then
        do p1 <- deref (points !! (i - 1)%nat);
        do p2 <- deref (points !! i);
        if bool_decide (pid p2 = pid p1) then
          let d := _distance p1 p2 in
          if jge (D + d) I then
            let qx := px p1 + ((I - D) / d) * (px p2 - px p1) in
            let qy := py p1 + ((I - D) / d) * (py p2 - py p1) in
            let q := mkPoint qx qy (pid p2) in
            resample_loop fuel' I (splice points i q) (S i) 0 (newPoints ++ [q])
          else
            resample_loop fuel' I points (S i) (D + d) newPoints
        else resample_loop fuel' I points (S i) D newPoints
      else Ret (newPoints, points)
  end.

Definition resample_array (fuel : nat) (points : list Point) (n : nat)
    : outcome (list Point * list Point) :=
  let I := _pathLength points / of_Z (Z.of_nat n - 1) in
  do p0 <- deref (points !! 0%nat);
  do '(newPoints, points') <- resample_loop fuel I points 1 0 [p0];
  if bool_decide (Z.of_nat (length newPoints) = Z.of_nat n - 1)%Z then
    do pl <- deref (last points');
    Ret (newPoints ++ [mkPoint (px pl) (py pl) (pid pl)], points')
  else Ret (newPoints, points').

Definition _resample (fuel : nat) (points : loc) (n : nat)
    : heap -> outcome (list Point) * heap :=
  fun h =>
    match h !! points with
    | None => (Throw TypeError, h)
    | Some raw =>
        match records raw with
        | Ret pts =>
            match resample_array fuel pts n with
            | Ret (newPoints, pts') => (Ret newPoints, <[points := Records pts']> h)
            | Throw e => (Throw e, h)
            | OutOfFuel => (OutOfFuel, h)
            end
        | Throw e => (Throw e, h)
        | OutOfFuel => (OutOfFuel, h)
        end
    end.


Definition _scale (points : list Point) : list Point :=
  let minX := fold_left (fun minX p => Math_min minX (px p)) points Infinity in
  let minY := fold_left (fun minY p => Math_min minY (py p)) points Infinity in
  let maxX := fold_left (fun maxX p => Math_max maxX (px p)) points (- Infinity) in
  let maxY := fold_left (fun maxY p => Math_max maxY (py p)) points (- Infinity) in
  let size := Math_max (maxX - minX) (maxY - minY) in
  map (fun p =>
         let qx := (px p - minX) / size in
         let qy := (py p - minY) / size in
         mkPoint qx qy (pid p))
      points.

Definition _translateTo (points : list Point) (pt : Point) : list Point :=
  let c := _centroid points in
  map (fun p =>
         let qx := px p + px pt - px c in
         let qy := py p + py pt - py c in
         mkPoint qx qy (pid p))
      points.

(** *** Core logic *)

Fixpoint nearest_loop (p1 : Point) (pts2 : list Point) (matched : list bool)
    (js : list nat) (min : float) (index : option nat)
    : outcome (float * option nat) :=
  match js with
  | [] => Ret (min, index)
  | j :: js' =>
      match matched !! j with
      | Some true => nearest_loop p1 pts2 matched js' min index
      | _ =>
          do p2 <- deref (pts2 !! j);
          let d := _sqrEuclideanDistance p1 p2 in
          if d <? min then nearest_loop p1 pts2 matched js' d (Some j)
          else nearest_loop p1 pts2 matched js' min index
      end
  end.

Fixpoint cloud_loop (pts1 : list Point) (pts2 : list Point) (n : nat)
    (matched : list bool) (sum : float) (minSoFar : float) : outcome float :=
  match pts1 with
  | [] => Ret sum
  | p1 :: pts1' =>
      do '(min, index) <- nearest_loop p1 pts2 matched (seq 0 n) Infinity None;
      let '(matched, sum) :=
        match index with
        | Some j => (<[j := true]> matched, sum + Math_sqrt min)
        | None => (matched, sum)
        end in
      if jge sum minSoFar then Ret sum
      else cloud_loop pts1' pts2 n matched sum minSoFar
  end.

Definition _cloudDistance (pts1 pts2 : list Point) (start : nat) (minSoFar : float)
    : outcome float :=
  let n := length pts1 in
  cloud_loop pts1 pts2 n (replicate n false) 0 minSoFar.

Definition _cloudMatch (points : list Point) (template : Template) (minSoFar : float)
    : outcome float :=
  _cloudDistance points (Points template) 0 minSoFar.

(** *** Public methods *)

Fixpoint check_loop (points : list Point) (templates : list Template)
    (minDistance : float) (bestTemplate : option Template)
    : outcome (float * option Template) :=
  match templates with
  | [] => Ret (minDistance, bestTemplate)
  | T :: templates' =>
      do d <- _cloudMatch points T minDistance;
      if d <? minDistance then check_loop points templates' d (Some T)
      else check_loop points templates' minDistance bestTemplate
  end.

(** The steps of [check] and [add] after [_resample]. *)
Definition normalize (processed : list Point) : list Point :=
  let processed := _scale processed in
  _translateTo processed Origin.

(** The template loop of [check] and what it returns. *)
Definition recognize (this : QDollar) (processedPoints : list Point) : outcome Result :=
  do '(minDistance, bestTemplate) <-
    check_loop processedPoints (Templates this) Infinity None;
  match bestTemplate with
  | Some T =>
      let score := 1 - (minDistance / of_nat NumPoints) / 0.5 in
      Ret (mkResult (Name T) (Math_max score 0))
  | None => Ret (mkResult "No match" 0)
  end.

Definition check (fuel : nat) (this : QDollar) (points : loc)
    : heap -> outcome Result * heap :=
  doh processedPoints <- _convertPoints points;
  doh processedPoints <- _resample fuel processedPoints NumPoints;
  pure_step (recognize this (normalize processedPoints)).

Definition add (fuel : nat) (this : QDollar) (name : string) (points : loc)
    : heap -> outcome QDollar * heap :=
  doh processed <- _convertPoints points;
  doh processed <- _resample fuel processed NumPoints;
  pure_step (Ret (mkQDollar (Templates this ++ [mkTemplate name (normalize processed)]))).

(** *** The constructor *)

Definition literal (l : list (Z * Z)) : RawPoints :=
  Pairs (map (fun p => (of_Z (fst p), of_Z (snd p))) l).

Definition alloc (raw : RawPoints) : heap -> outcome loc * heap :=
  fun h => let l := fresh (dom h) in (Ret l, <[l := raw]> h).

Definition add_default (fuel : nat) (name : string) (l : list (Z * Z))
    (this : QDollar) : heap -> outcome QDollar * heap :=
  doh points <- alloc (literal l);
  add fuel this name points.

Definition constructor (fuel : nat) : heap -> outcome QDollar * heap :=
  doh this <- add_default fuel "Triangle" Defaults.Triangle_points (mkQDollar []);
  doh this <- add_default fuel "X" Defaults.X_points this;
  doh this <- add_default fuel "Rectangle" Defaults.Rectangle_points this;
  doh this <- add_default fuel "Circle" Defaults.Circle_points this;
  doh this <- add_default fuel "Check" Defaults.Check_points this;
  doh this <- add_default fuel "Caret" Defaults.Caret_points this;
  doh this <- add_default fuel "ZigZag" Defaults.ZigZag_points this;
  doh this <- add_default fuel "Arrow" Defaults.Arrow_points this;
  doh this <- add_default fuel "Star" Defaults.Star_points this;
  pure_step (Ret this).

End QDollar.

End B64.

(** ** Auxiliary definitions for the statements in double precision *)

(** *** The minimum search of [check]

    [for (i ...) if (d < b) { b = d; t = i }] over the list of the
    distances computed; [t] is [None] until a distance is below [b]. *)

Module B64Search.
Import PrimFloat B64.

Local Open Scope float_scope.

Fixpoint argmin_loop (ds : list float) (i : nat) (b : float) (t : option nat)
    : float * option nat :=
  match ds with
  | [] => (b, t)
  | d :: ds' =>
      if d <? b then argmin_loop ds' (S i) d (Some i)
      else argmin_loop ds' (S i) b t
  end.

(** [t] indexes a distance [d] that is a number below [+Infinity], that
    no distance is below, and that no earlier distance is below or equal
    to.  A distance that is [NaN] is below nothing and nothing is below
    it: it is never the one at [t] and never stands in the way. *)
Definition first_minimum (ds : list float) (t : nat) : Prop :=
  exists d : float,
    ds !! t = Some d /\ (d <? Infinity) = true /\
    (forall (j : nat) (dj : float), ds !! j = Some dj -> (dj <? d) = false) /\
    (forall (j : nat) (dj : float), (j < t)%nat -> ds !! j = Some dj -> (dj <=? d) = false).

(** No distance is a number below [+Infinity]. *)
Definition none_below_infinity (ds : list float) : Prop :=
  Forall (fun d => (d <? Infinity) = false) ds.

(** What the search holds after the distances [pre]: nothing yet, or the
    first minimum of [pre]. *)
Definition search_inv (t0 : option nat) (pre : list float) (b : float) (t : option nat)
    : Prop :=
  (b = Infinity /\ t = t0 /\ none_below_infinity pre) \/
  (exists k : nat, t = Some k /\ pre !! k = Some b /\ first_minimum pre k).

End B64Search.

(** *** The arrays of the caller

    A step leaves in place every array that exists when it starts,
    whether it returns or throws. *)

Module B64Heap.

Definition preserves {V A : Type} (f : gmap nat V -> outcome A * gmap nat V) : Prop :=
  forall (h : gmap nat V) (l : nat), is_Some (h !! l) -> snd (f h) !! l = h !! l.

End B64Heap.

Module B64OneDollarView.
Import PrimFloat B64 B64.OneDollar.

Local Open Scope float_scope.

(** What [_resample(points, n)] leaves in the array it walks: the
    synthesized points [qs] spliced into [points], in order. *)
Definition spliced (points qs points' : list Point) : Prop :=
  length points' = (length points + length qs)%nat /\
  sublist points points' /\ sublist qs points'.

(** What [_resample(points, n)] returns, given the array before and after
    the call: the first point, the synthesized points, and a copy of the
    last point of the array when that makes [n - 1] points. *)
Definition resampled (n : nat) (points newPoints points' : list Point) : Prop :=
  exists (p0 : Point) (qs : list Point),
    points !! 0%nat = Some p0 /\ spliced points qs points' /\
    ((newPoints = p0 :: qs /\ (Z.of_nat (S (length qs)) <> Z.of_nat n - 1)%Z) \/
     (exists pl : Point,
        last points' = Some pl /\
        newPoints = p0 :: qs ++ [mkPoint (px pl) (py pl)] /\
        (Z.of_nat (S (length qs)) = Z.of_nat n - 1)%Z)).

(** The points an argument of [check] or [add] denotes. *)
Definition points_of (raw : RawPoints) : list Point :=
  match raw with
  | Pairs l => map (fun p => mkPoint (fst p) (snd p)) l
  | Records l => l
  end.

(** [_convertPoints] followed by [_resample], the start of [check] and
    [add]. *)
Definition convert_resample (fuel : nat) (points : loc)
    : heap -> outcome (list Point) * heap :=
  doh processed <- _convertPoints points;
  _resample fuel processed NumPoints.

(** *** The golden section search *)

(** One turn of the [while] loop of [_distanceAtBestAngle]. *)
Definition golden_body (J : Math) (points : list Point) (T : Template) (st : Bracket)
    : outcome Bracket :=
  let '(mkBracket a b x1 f1 x2 f2 k) := st in
  if f1 <? f2 then
    let b := x2 in
    let x2 := x1 in
    let f2 := f1 in
    let x1 := Phi * a + (1 - Phi) * b in
    do f1 <- _distanceAtAngle J points T x1;
    Ret (mkBracket a b x1 f1 x2 f2 (S k))
  else
    let a := x1 in
    let x1 := x2 in
    let f1 := f2 in
    let x2 := (1 - Phi) * a + Phi * b in
    do f2 <- _distanceAtAngle J points T x2;
    Ret (mkBracket a b x1 f1 x2 f2 (S k)).

(** [Math.abs(b - a) > threshold], the test of the loop. *)
Definition wide (threshold : float) (st : Bracket) : bool :=
  jgt (Math_abs (gb st - ga st)) threshold.

(** [iterates J points T threshold k st st']: [k] turns of the loop lead
    from [st] to [st'], the test holding before each. *)
Inductive iterates (J : Math) (points : list Point) (T : Template) (threshold : float)
    : nat -> Bracket -> Bracket -> Prop :=
| iterates_O (st : Bracket) : iterates J points T threshold 0 st st
| iterates_S (k : nat) (st st1 st' : Bracket) :
    wide threshold st = true ->
    golden_body J points T st = Ret st1 ->
    iterates J points T threshold k st1 st' ->
    iterates J points T threshold (S k) st st'.

(** [f1] and [f2] are the objective at [x1] and [x2]. *)
Definition evaluated (J : Math) (points : list Point) (T : Template) (st : Bracket)
    : Prop :=
  _distanceAtAngle J points T (gx1 st) = Ret (gf1 st) /\
  _distanceAtAngle J points T (gx2 st) = Ret (gf2 st).

(** The bracket and its interior points, without the objective values,
    and the two ways a turn of the loop narrows it. *)
Definition narrow_left (s : float * float * float * float)
    : float * float * float * float :=
  let '(a, b, x1, x2) := s in
  let b := x2 in
  let x2 := x1 in
  let x1 := Phi * a + (1 - Phi) * b in
  (a, b, x1, x2).

Definition narrow_right (s : float * float * float * float)
    : float * float * float * float :=
  let '(a, b, x1, x2) := s in
  let a := x1 in
  let x1 := x2 in
  let x2 := (1 - Phi) * a + Phi * b in
  (a, b, x1, x2).

Definition section_of (st : Bracket) : float * float * float * float :=
  (ga st, gb st, gx1 st, gx2 st).

Definition section_width (s : float * float * float * float) : float :=
  let '(a, b, _, _) := s in Math_abs (b - a).

(** Whatever the objective, the loop makes exactly [k] turns from [s] and
    stops with a width accepted by [final]. *)
Fixpoint all_paths (threshold : float) (final : float -> bool) (k : nat)
    (s : float * float * float * float) : bool :=
  match k with
  | O => negb (jgt (section_width s) threshold) && final (section_width s)
  | S k' =>
      jgt (section_width s) threshold
      && all_paths threshold final k' (narrow_left s)
      && all_paths threshold final k' (narrow_right s)
  end.

(** *** The stores that can exist

    A store comes from the constructor and grows by [add]; nothing
    removes a template. *)
Inductive reachable (J : Math) : OneDollar -> Prop :=
| reachable_new (fuel : nat) (h h' : heap) (this : OneDollar) :
    constructor J fuel h = (Ret this, h') -> reachable J this
| reachable_add (fuel : nat) (this this' : OneDollar) (name : string) (l : loc)
    (h h' : heap) :
    reachable J this -> add J fuel this name l h = (Ret this', h') ->
    reachable J this'.

(** The distances that the template loop of [check] computes. *)
Definition distances (J : Math) (fuel : nat) (points : list Point)
    (templates : list Template) (ds : list float) : Prop :=
  Forall2 (fun T d =>
             _distanceAtBestAngle J fuel points T (- AngleRange) AngleRange
               AnglePrecision = Ret d)
          templates ds.

(** What a call of [check] or [add] leaves in the heap [h'], whether it
    returns or throws.  An array of records: when [_resample] returns on
    it, the array holds the points that [_resample] spliced into it, [62]
    or [63] of them when [64] points are returned.  An array of pairs:
    every array that existed is as it was. *)
Definition heap_effect (fuel : nat) (raw : RawPoints) (h h' : heap) (points : loc)
    : Prop :=
  match raw with
  | Records pts =>
      forall newPoints pts' : list Point,
        resample_array fuel pts NumPoints = Ret (newPoints, pts') ->
        h' = <[points := Records pts']> h /\
        resampled NumPoints pts newPoints pts' /\
        (length newPoints = NumPoints ->
         length pts' = (length pts + 62)%nat \/ length pts' = (length pts + 63)%nat)
  | Pairs _ =>
      forall l : loc, is_Some (h !! l) -> h' !! l = h !! l
  end.

(** [_resample] on the records of [raw] returns [n] points. *)
Definition resamples_to (n : nat) (raw : RawPoints) : bool :=
  match resample_array 200 (points_of raw) NumPoints with
  | Ret (newPoints, _) => Nat.eqb (length newPoints) n
  | _ => false
  end.

End B64OneDollarView.

Module B64QDollarView.
Import PrimFloat B64 B64.QDollar.

Local Open Scope float_scope.

Definition spliced (points qs points' : list Point) : Prop :=
  length points' = (length points + length qs)%nat /\
  sublist points points' /\ sublist qs points'.

Definition resampled (n : nat) (points newPoints points' : list Point) : Prop :=
  exists (p0 : Point) (qs : list Point),
    points !! 0%nat = Some p0 /\ spliced points qs points' /\
    ((newPoints = p0 :: qs /\ (Z.of_nat (S (length qs)) <> Z.of_nat n - 1)%Z) \/
     (exists pl : Point,
        last points' = Some pl /\
        newPoints = p0 :: qs ++ [mkPoint (px pl) (py pl) (pid pl)] /\
        (Z.of_nat (S (length qs)) = Z.of_nat n - 1)%Z)).

Definition points_of (raw : RawPoints) : list Point :=
  match raw with
  | Pairs l => map (fun p => mkPoint (fst p) (snd p) (Some 1%Z)) l
  | Records l => l
  end.

Definition convert_resample (fuel : nat) (points : loc)
    : heap -> outcome (list Point) * heap :=
  doh processed <- _convertPoints points;
  _resample fuel processed NumPoints.

(** The width and the height of the bounding box that [_scale] computes
    inline. *)
Definition bbox_width (points : list Point) : float :=
  let minX := fold_left (fun minX p => Math_min minX (px p)) points Infinity in
  let maxX := fold_left (fun maxX p => Math_max maxX (px p)) points (- Infinity) in
  maxX - minX.

Definition bbox_height (points : list Point) : float :=
  let minY := fold_left (fun minY p => Math_min minY (py p)) points Infinity in
  let maxY := fold_left (fun maxY p => Math_max maxY (py p)) points (- Infinity) in
  maxY - minY.

Inductive reachable : QDollar -> Prop :=
| reachable_new (fuel : nat) (h h' : heap) (this : QDollar) :
    constructor fuel h = (Ret this, h') -> reachable this
| reachable_add (fuel : nat) (this this' : QDollar) (name : string) (l : loc)
    (h h' : heap) :
    reachable this -> add fuel this name l h = (Ret this', h') ->
    reachable this'.

(** The distances that the template loop of [check] computes: each is
    the cloud distance cut off at the best distance found before it. *)
Fixpoint cloud_distances (points : list Point) (templates : list Template)
    (minDistance : float) : outcome (list float) :=
  match templates with
  | [] => Ret []
  | T :: templates' =>
      do d <- _cloudMatch points T minDistance;
      do ds <- cloud_distances points templates'
                 (if d <? minDistance then d else minDistance);
      Ret (d :: ds)
  end.

Definition heap_effect (fuel : nat) (raw : RawPoints) (h h' : heap) (points : loc)
    : Prop :=
  match raw with
  | Records pts =>
      forall newPoints pts' : list Point,
        resample_array fuel pts NumPoints = Ret (newPoints, pts') ->
        h' = <[points := Records pts']> h /\
        resampled NumPoints pts newPoints pts' /\
        (length newPoints = NumPoints ->
         length pts' = (length pts + 62)%nat \/ length pts' = (length pts + 63)%nat)
  | Pairs _ =>
      forall l : loc, is_Some (h !! l) -> h' !! l = h !! l
  end.

(** [_resample] on the records of [raw] returns [n] points. *)
Definition q_resamples_to (n : nat) (raw : RawPoints) : bool :=
  match resample_array 200 (points_of raw) NumPoints with
  | Ret (newPoints, _) => Nat.eqb (length newPoints) n
  | _ => false
  end.

End B64QDollarView.

(** *** Sample inputs in double precision *)

Module B64Samples.
Import PrimFloat B64.

Local Open Scope float_scope.

(** A host for the examples: [Math.cos] and [Math.sin] by their Taylor
    series after a reduction modulo [2 * pi], [Math.atan2] by the series
    of the arc tangent after three halvings of the angle. *)
Definition pi : float := 0x1.921fb54442d18p+1.

(** The nearest integer, for arguments below [2^51]. *)
Definition nearest (y : float) : float := y + 0x1.8p+52 - 0x1.8p+52.

Definition reduce (x : float) : float := x - nearest (x / (2 * pi)) * (2 * pi).

(** [sum + t1 + t2 + ...] with [t(i+1) = - t(i) * z2 / ((k + 1) * (k + 2))],
    [k] growing by [2]. *)
Fixpoint series (n : nat) (k term sum z2 : float) : float :=
  match n with
  | O => sum
  | S n' =>
      let term' := - term * z2 / ((k + 1) * (k + 2)) in
      series n' (k + 2) term' (sum + term') z2
  end.

Definition cos_series (x : float) : float :=
  let r := reduce x in series 14 0 1 1 (r * r).

Definition sin_series (x : float) : float :=
  let r := reduce x in series 14 1 r r (r * r).

(** [z - z^3/3 + z^5/5 - ...] *)
Fixpoint atan_terms (n : nat) (k power sum z2 : float) : float :=
  match n with
  | O => sum
  | S n' =>
      let power' := - power * z2 in
      atan_terms n' (k + 2) power' (sum + power' / (k + 2)) z2
  end.

Definition halve (z : float) : float := z / (1 + PrimFloat.sqrt (1 + z * z)).

Definition atan_series (z : float) : float :=
  let w := halve (halve (halve z)) in
  8 * atan_terms 12 1 w w (w * w).

Definition atan2_series (y x : float) : float :=
  if 0 <? x then atan_series (y / x)
  else if x <? 0 then
    (if y <? 0 then atan_series (y / x) - pi else atan_series (y / x) + pi)
  else if 0 <? y then pi / 2
  else if y <? 0 then - (pi / 2)
  else 0.

Definition host : Math := mkMath cos_series sin_series atan2_series.

(** The diagonal stroke from [(0, 0)] to [(1, 1)] and the horizontal
    stroke from [(0, 0)] to [(1, 0)]. *)
Definition diagonal1 : list OneDollar.Point :=
  [OneDollar.mkPoint 0 0; OneDollar.mkPoint 1 1].

Definition diagonalQ : list QDollar.Point :=
  [QDollar.mkPoint 0 0 (Some 1%Z); QDollar.mkPoint 1 1 (Some 1%Z)].

Definition line1 : list OneDollar.Point :=
  [OneDollar.mkPoint 0 0; OneDollar.mkPoint 1 0].

Definition lineQ : list QDollar.Point :=
  [QDollar.mkPoint 0 0 (Some 1%Z); QDollar.mkPoint 1 0 (Some 1%Z)].





(** Heaps: the diagonal as records at [0], or as pairs at [0]; an array
    elsewhere, at [1]. *)
Definition heap1_records : gmap nat OneDollar.RawPoints :=
  {[ 0%nat := OneDollar.Records diagonal1; 1%nat := OneDollar.Records line1 ]}.

Definition heap1_pairs : gmap nat OneDollar.RawPoints :=
  {[ 0%nat := OneDollar.Pairs [(0, 0); (1, 1)]; 1%nat := OneDollar.Records line1 ]}.

Definition heapQ_records : gmap nat QDollar.RawPoints :=
  {[ 0%nat := QDollar.Records diagonalQ; 1%nat := QDollar.Records lineQ ]}.

Definition heapQ_pairs : gmap nat QDollar.RawPoints :=
  {[ 0%nat := QDollar.Pairs [(0, 0); (1, 1)]; 1%nat := QDollar.Records lineQ ]}.

(** The point [(1, 1)] thirty times at [0], the diagonal as pairs at [1]
    and at [2]. *)
Definition heapQ_dot : gmap nat QDollar.RawPoints :=
  {[ 0%nat := QDollar.Pairs (replicate 30 (1, 1));
     1%nat := QDollar.Pairs [(0, 0); (1, 1)];
     2%nat := QDollar.Pairs [(0, 0); (1, 1)] ]}.

(** A store with one template of [64] points. *)
Definition store1 : OneDollar.OneDollar :=
  OneDollar.mkOneDollar
    [OneDollar.mkTemplate "T" (replicate 64 (OneDollar.mkPoint 0 0)) []].

Definition storeQ : QDollar.QDollar :=
  QDollar.mkQDollar
    [QDollar.mkTemplate "T" (replicate 64 (QDollar.mkPoint 0 0 (Some 1%Z)))].

(** A stroke with a corner, as pairs at [0], [1] and [2]. *)
Definition corner : list (float * float) := [(0, 0); (3, 4); (10, 0)].

Definition heap1_corner : gmap nat OneDollar.RawPoints :=
  {[ 0%nat := OneDollar.Pairs corner; 1%nat := OneDollar.Pairs corner;
     2%nat := OneDollar.Pairs corner ]}.

Definition heapQ_corner : gmap nat QDollar.RawPoints :=
  {[ 0%nat := QDollar.Pairs corner; 1%nat := QDollar.Pairs corner;
     2%nat := QDollar.Pairs corner ]}.

(** The value that a computation returned, for the stores and the
    strokes built below. *)
Definition value_of {A : Type} (d : A) (o : outcome A) : A :=
  match o with Ret a => a | _ => d end.

(** A new $1 recognizer, to which the stroke with a corner is added
    twice, as ["first"] and as ["second"]. *)
Definition built1 : outcome OneDollar.OneDollar * gmap nat OneDollar.RawPoints :=
  OneDollar.constructor host 200 heap1_corner.

Definition first1 : outcome OneDollar.OneDollar * gmap nat OneDollar.RawPoints :=
  OneDollar.add host 200 (value_of (OneDollar.mkOneDollar []) (fst built1)) "first" 0
    (snd built1).

Definition second1 : outcome OneDollar.OneDollar * gmap nat OneDollar.RawPoints :=
  OneDollar.add host 200 (value_of (OneDollar.mkOneDollar []) (fst first1)) "second" 1
    (snd first1).

Definition tied1 : OneDollar.OneDollar :=
  value_of (OneDollar.mkOneDollar []) (fst second1).

(** The same for a new $Q recognizer. *)
Definition builtQ : outcome QDollar.QDollar * gmap nat QDollar.RawPoints :=
  QDollar.constructor 200 heapQ_corner.

Definition firstQ : outcome QDollar.QDollar * gmap nat QDollar.RawPoints :=
  QDollar.add 200 (value_of (QDollar.mkQDollar []) (fst builtQ)) "first" 0 (snd builtQ).

Definition secondQ : outcome QDollar.QDollar * gmap nat QDollar.RawPoints :=
  QDollar.add 200 (value_of (QDollar.mkQDollar []) (fst firstQ)) "second" 1 (snd firstQ).

Definition tiedQ : QDollar.QDollar :=
  value_of (QDollar.mkQDollar []) (fst secondQ).




(** A new $1 recognizer to which thirty times the point [(1, 1)] is added
    as ["dot"]. *)
Definition heap1_dot : gmap nat OneDollar.RawPoints :=
  {[ 0%nat := OneDollar.Pairs (replicate 30 (1, 1));
     1%nat := OneDollar.Pairs [(0, 0); (1, 1)] ]}.




(** The number after [1], and a precision below the distance between
    the two. *)
Definition stuck_b : float := 0x1.0000000000001p+0.

Definition stuck_threshold : float := 0x1p-53.

End B64Samples.
(** * Facts *)

(** ** Numbers *)

Section NumFacts.

Lemma is_finite_Fin (a : num) : is_finite a = true -> a = Fin (real a).
Proof. destruct a; simpl; congruence. Qed.

Lemma div_Fin_nonzero (a b : R) : b <> 0 -> (Fin a / Fin b)%js = Fin (a / b).
Proof. intros Hb. simpl. rewrite bool_decide_eq_false_2; auto. Qed.

Lemma Rsum_shift (l : list R) (c : R) :
  Rsum (map (fun r => r + c) l) = Rsum l + INR (length l) * c.
Proof.
  induction l as [|r l IH]; simpl length; [simpl; lra|].
  rewrite S_INR. simpl. rewrite IH. lra.
Qed.

End NumFacts.

(** ** Centroid and translation *)

Module OneDollarCentroid.
Import OneDollar OneDollarView.

Lemma fold_add_px (pts : list Point) (a : R) :
  Forall finite_point pts ->
  fold_left (fun x p => (x + px p)%js) pts (Fin a) = Fin (a + Rsum (map rx pts)).
Proof.
  intros H. revert a. induction H as [|p pts [Hx _] _ IH]; intros a; simpl.
  - f_equal. lra.
  - rewrite (is_finite_Fin _ Hx). simpl. rewrite IH. f_equal. unfold rx. lra.
Qed.

Lemma fold_add_py (pts : list Point) (a : R) :
  Forall finite_point pts ->
  fold_left (fun y p => (y + py p)%js) pts (Fin a) = Fin (a + Rsum (map ry pts)).
Proof.
  intros H. revert a. induction H as [|p pts [_ Hy] _ IH]; intros a; simpl.
  - f_equal. lra.
  - rewrite (is_finite_Fin _ Hy). simpl. rewrite IH. f_equal. unfold ry. lra.
Qed.

Lemma centroid_finite (pts : list Point) :
  pts <> [] -> Forall finite_point pts ->
  _centroid pts =
  mkPoint (Fin (Rsum (map rx pts) / INR (length pts)))
          (Fin (Rsum (map ry pts) / INR (length pts))).
Proof.
  intros Hne Hfin. unfold _centroid.
  rewrite fold_add_px, fold_add_py by assumption.
  assert (INR (length pts) <> 0).
  { apply not_0_INR. destruct pts; [congruence | simpl; lia]. }
  rewrite !div_Fin_nonzero by assumption.
  f_equal; f_equal; f_equal; lra.
Qed.

Lemma translateTo_finite (pts : list Point) (a b cx cy : R) :
  Forall finite_point pts ->
  let f := fun p => mkPoint (px p + Fin a - Fin cx)%js (py p + Fin b - Fin cy)%js in
  Forall finite_point (map f pts) /\
  map rx (map f pts) = map (fun r => r + (a - cx)) (map rx pts) /\
  map ry (map f pts) = map (fun r => r + (b - cy)) (map ry pts).
Proof.
  intros H f. induction H as [|p pts [Hx Hy] _ (IH1 & IH2 & IH3)]; simpl.
  - repeat split; constructor.
  - rewrite IH2, IH3.
    assert (Hp : f p = mkPoint (Fin (rx p + (a - cx))) (Fin (ry p + (b - cy)))).
    { unfold f, rx, ry. rewrite (is_finite_Fin _ Hx), (is_finite_Fin _ Hy). simpl.
      f_equal; f_equal; lra. }
    rewrite Hp. repeat split; try reflexivity.
    constructor; [split; reflexivity | exact IH1].
Qed.

Lemma translateTo_centroid (pts : list Point) (a b : R) :
  pts <> [] -> Forall finite_point pts ->
  _centroid (_translateTo pts (mkPoint (Fin a) (Fin b))) = mkPoint (Fin a) (Fin b).
Proof.
  intros Hne Hfin.
  unfold _translateTo. rewrite (centroid_finite pts Hne Hfin). simpl px; simpl py.
  set (cx := Rsum (map rx pts) / INR (length pts)).
  set (cy := Rsum (map ry pts) / INR (length pts)).
  assert (Hn : INR (length pts) <> 0).
  { apply not_0_INR. destruct pts; [congruence | simpl; lia]. }
  destruct (translateTo_finite pts a b cx cy Hfin) as (F1 & F2 & F3).
  rewrite centroid_finite; [| destruct pts; simpl; congruence | exact F1].
  rewrite F2, F3, !Rsum_shift, !length_map.
  unfold cx, cy. f_equal; f_equal; field; exact Hn.
Qed.

End OneDollarCentroid.

Module QDollarCentroid.
Import QDollar QDollarView.

Lemma q_fold_add_px (pts : list Point) (a : R) :
  Forall finite_point pts ->
  fold_left (fun x p => (x + px p)%js) pts (Fin a) = Fin (a + Rsum (map rx pts)).
Proof.
  intros H. revert a. induction H as [|p pts [Hx _] _ IH]; intros a; simpl.
  - f_equal. lra.
  - rewrite (is_finite_Fin _ Hx). simpl. rewrite IH. f_equal. unfold rx. lra.
Qed.

Lemma q_fold_add_py (pts : list Point) (a : R) :
  Forall finite_point pts ->
  fold_left (fun y p => (y + py p)%js) pts (Fin a) = Fin (a + Rsum (map ry pts)).
Proof.
  intros H. revert a. induction H as [|p pts [_ Hy] _ IH]; intros a; simpl.
  - f_equal. lra.
  - rewrite (is_finite_Fin _ Hy). simpl. rewrite IH. f_equal. unfold ry. lra.
Qed.

Lemma q_centroid_finite (pts : list Point) :
  pts <> [] -> Forall finite_point pts ->
  _centroid pts =
  mkPoint (Fin (Rsum (map rx pts) / INR (length pts)))
          (Fin (Rsum (map ry pts) / INR (length pts))) None.
Proof.
  intros Hne Hfin. unfold _centroid.
  rewrite q_fold_add_px, q_fold_add_py by assumption.
  assert (INR (length pts) <> 0).
  { apply not_0_INR. destruct pts; [congruence | simpl; lia]. }
  rewrite !div_Fin_nonzero by assumption.
  f_equal; f_equal; f_equal; lra.
Qed.

Lemma q_translateTo_finite (pts : list Point) (a b cx cy : R) :
  Forall finite_point pts ->
  let f := fun p => mkPoint (px p + Fin a - Fin cx)%js (py p + Fin b - Fin cy)%js (pid p) in
  Forall finite_point (map f pts) /\
  map rx (map f pts) = map (fun r => r + (a - cx)) (map rx pts) /\
  map ry (map f pts) = map (fun r => r + (b - cy)) (map ry pts).
Proof.
  intros H f. induction H as [|p pts [Hx Hy] _ (IH1 & IH2 & IH3)]; simpl.
  - repeat split; constructor.
  - rewrite IH2, IH3.
    assert (Hp : f p = mkPoint (Fin (rx p + (a - cx))) (Fin (ry p + (b - cy))) (pid p)).
    { unfold f, rx, ry. rewrite (is_finite_Fin _ Hx), (is_finite_Fin _ Hy). simpl.
      f_equal; f_equal; lra. }
    rewrite Hp. repeat split; try reflexivity.
    constructor; [split; reflexivity | exact IH1].
Qed.

Lemma q_translateTo_centroid (pts : list Point) (a b : R) (i : option Z) :
  pts <> [] -> Forall finite_point pts ->
  _centroid (_translateTo pts (mkPoint (Fin a) (Fin b) i)) = mkPoint (Fin a) (Fin b) None.
Proof.
  intros Hne Hfin.
  unfold _translateTo. rewrite (q_centroid_finite pts Hne Hfin). simpl px; simpl py.
  set (cx := Rsum (map rx pts) / INR (length pts)).
  set (cy := Rsum (map ry pts) / INR (length pts)).
  assert (Hn : INR (length pts) <> 0).
  { apply not_0_INR. destruct pts; [congruence | simpl; lia]. }
  destruct (q_translateTo_finite pts a b cx cy Hfin) as (F1 & F2 & F3).
  rewrite q_centroid_finite; [| destruct pts; simpl; congruence | exact F1].
  rewrite F2, F3, !Rsum_shift, !length_map.
  unfold cx, cy. f_equal; f_equal; field; exact Hn.
Qed.

End QDollarCentroid.


(** ** Numbers, continued *)

Section NumOrder.

Lemma sqr_sum_nonneg (a b : R) : 0 <= a * a + b * b.
Proof. nra. Qed.

Lemma sqrt_Fin (x : R) : 0 <= x -> Math_sqrt (Fin x) = Fin (sqrt x).
Proof. intros Hx. simpl. rewrite bool_decide_eq_false_2; [reflexivity | lra]. Qed.

Lemma jge_Fin (a b : R) : (Fin a >=? Fin b)%js = bool_decide (b <= a).
Proof. reflexivity. Qed.

Lemma jlt_Fin (a b : R) : (Fin a <? Fin b)%js = bool_decide (a < b).
Proof. reflexivity. Qed.

(** Every non-negative real lies in exactly one interval [[m*I, (m+1)*I)]. *)
Lemma nat_floor (x I : R) :
  0 <= x -> 0 < I -> exists m : nat, INR m * I <= x < INR (S m) * I.
Proof.
  intros Hx HI.
  destruct (archimed (x / I)) as [Hup1 Hup2].
  assert (Hq : 0 <= x / I) by (apply Rmult_le_pos; [lra | left; apply Rinv_0_lt_compat; lra]).
  assert (Hpos : (0 < up (x / I))%Z) by (apply lt_IZR; lra).
  exists (Z.to_nat (up (x / I) - 1)).
  rewrite S_INR, INR_IZR_INZ, Z2Nat.id by lia.
  rewrite minus_IZR.
  assert (Hx' : x = (x / I) * I) by (field; lra).
  split.
  - rewrite Hx' at 2. apply Rmult_le_compat_r; lra.
  - rewrite Hx' at 1. apply Rmult_lt_compat_r; lra.
Qed.

End NumOrder.

(** ** [QDollar._resample] *)

Module QDollarResample.
Import QDollar QDollarView.

Lemma finite_point_inv (p : Point) :
  finite_point p -> p = mkPoint (Fin (rx p)) (Fin (ry p)) (pid p).
Proof.
  destruct p as [x y i]. intros [Hx Hy]. simpl in *.
  unfold rx, ry. simpl. rewrite <- (is_finite_Fin _ Hx), <- (is_finite_Fin _ Hy).
  reflexivity.
Qed.

Lemma dist_nonneg (p q : Point) : 0 <= dist p q.
Proof. apply sqrt_pos. Qed.

Lemma distance_finite (p q : Point) :
  finite_point p -> finite_point q -> _distance p q = Fin (dist p q).
Proof.
  intros Hp Hq. rewrite (finite_point_inv p Hp), (finite_point_inv q Hq).
  unfold _distance, dist, rx, ry. simpl px; simpl py; simpl real.
  cbn [jsub jadd jneg jmul]. rewrite sqrt_Fin.
  - do 2 f_equal; lra.
  - apply sqr_sum_nonneg.
Qed.

Lemma plen_nonneg (rest : list Point) (prev : Point) : 0 <= plen prev rest.
Proof.
  revert prev. induction rest as [|p rest IH]; intros prev; simpl; [lra|].
  pose proof (dist_nonneg prev p). pose proof (IH p). case_bool_decide; lra.
Qed.

Lemma pathLength_from_finite (rest : list Point) (prev : Point) (d : R) :
  finite_point prev -> Forall finite_point rest ->
  pathLength_from (Fin d) prev rest = Fin (d + plen prev rest).
Proof.
  revert prev d. induction rest as [|p rest IH]; intros prev d Hprev Hrest; simpl.
  - f_equal. lra.
  - inversion Hrest as [|? ? Hp Hrest']; subst.
    case_bool_decide.
    + rewrite (distance_finite _ _ Hprev Hp). cbn [jadd]. rewrite IH by assumption.
      f_equal. lra.
    + apply IH; assumption.
Qed.

(** *** One iteration of the loop, in terms of the array [pre ++ prev :: rest]
    and the index [S (length pre)] *)

Lemma lookup_prev (pre rest : list Point) (prev : Point) :
  (pre ++ prev :: rest) !! (S (length pre) - 1)%nat = Some prev.
Proof.
  replace (S (length pre) - 1)%nat with (length pre) by lia.
  apply list_lookup_middle. reflexivity.
Qed.

Lemma lookup_cur (pre rest : list Point) (prev p : Point) :
  (pre ++ prev :: p :: rest) !! S (length pre) = Some p.
Proof.
  rewrite (cons_middle prev), app_assoc.
  apply list_lookup_middle. rewrite length_app. simpl. lia.
Qed.

Lemma splice_cur (pre rest : list Point) (prev p q : Point) :
  splice (pre ++ prev :: p :: rest) (S (length pre)) q
  = (pre ++ [prev]) ++ q :: p :: rest.
Proof.
  unfold splice. rewrite (cons_middle prev), app_assoc.
  replace (S (length pre)) with (length (pre ++ [prev]))
    by (rewrite length_app; simpl; lia).
  rewrite take_app_length, drop_app_length. reflexivity.
Qed.

Lemma index_in_range (pre rest : list Point) (prev p : Point) :
  bool_decide (S (length pre) < length (pre ++ prev :: p :: rest))%nat = true.
Proof. apply bool_decide_eq_true_2. rewrite length_app. simpl. lia. Qed.

Lemma index_at_end (pre : list Point) (prev : Point) :
  bool_decide (S (length pre) < length (pre ++ [prev]))%nat = false.
Proof. apply bool_decide_eq_false_2. rewrite length_app. simpl. lia. Qed.

Lemma step_exit fuel I pre prev D np :
  resample_loop (S fuel) I (pre ++ [prev]) (S (length pre)) D np
  = Ret (np, pre ++ [prev]).
Proof. simpl. rewrite index_at_end. reflexivity. Qed.

Lemma step_skip fuel I pre prev p rest D np :
  pid p <> pid prev ->
  resample_loop (S fuel) I (pre ++ prev :: p :: rest) (S (length pre)) D np
  = resample_loop fuel I ((pre ++ [prev]) ++ p :: rest) (S (length (pre ++ [prev]))) D np.
Proof.
  intros Hid. cbn [resample_loop].
  rewrite index_in_range, lookup_prev, lookup_cur. cbn [deref bind].
  rewrite bool_decide_eq_false_2 by assumption.
  rewrite length_app, <- app_assoc. simpl. rewrite Nat.add_1_r. reflexivity.
Qed.

Lemma step_accumulate fuel I pre prev p rest D np :
  pid p = pid prev ->
  (D + _distance prev p >=? I)%js = false ->
  resample_loop (S fuel) I (pre ++ prev :: p :: rest) (S (length pre)) D np
  = resample_loop fuel I ((pre ++ [prev]) ++ p :: rest) (S (length (pre ++ [prev])))
      (D + _distance prev p)%js np.
Proof.
  intros Hid Hge. cbn [resample_loop].
  rewrite index_in_range, lookup_prev, lookup_cur. cbn [deref bind].
  rewrite bool_decide_eq_true_2 by assumption. cbv zeta. rewrite Hge.
  rewrite length_app, <- app_assoc. simpl. rewrite Nat.add_1_r. reflexivity.
Qed.

Lemma step_emit fuel I pre prev p rest D np :
  pid p = pid prev ->
  (D + _distance prev p >=? I)%js = true ->
  let d := _distance prev p in
  let q := mkPoint (px prev + ((I - D) / d) * (px p - px prev))%js
                   (py prev + ((I - D) / d) * (py p - py prev))%js (pid p) in
  resample_loop (S fuel) I (pre ++ prev :: p :: rest) (S (length pre)) D np
  = resample_loop fuel I ((pre ++ [prev]) ++ q :: p :: rest) (S (length (pre ++ [prev])))
      (Fin 0) (np ++ [q]).
Proof.
  intros Hid Hge d q. cbn [resample_loop].
  rewrite index_in_range, lookup_prev, lookup_cur. cbn [deref bind].
  rewrite bool_decide_eq_true_2 by assumption. cbv zeta. rewrite Hge.
  rewrite splice_cur, length_app. simpl length. rewrite Nat.add_1_r. reflexivity.
Qed.

(** *** The point synthesized on a segment *)

Lemma interp_dist (x1 y1 x2 y2 t : R) :
  0 <= t <= 1 ->
  sqrt ((x1 + t * (x2 - x1) - x2) * (x1 + t * (x2 - x1) - x2)
        + (y1 + t * (y2 - y1) - y2) * (y1 + t * (y2 - y1) - y2))
  = (1 - t) * sqrt ((x1 - x2) * (x1 - x2) + (y1 - y2) * (y1 - y2)).
Proof.
  intros Ht.
  replace ((x1 + t * (x2 - x1) - x2) * (x1 + t * (x2 - x1) - x2)
           + (y1 + t * (y2 - y1) - y2) * (y1 + t * (y2 - y1) - y2))
    with (((1 - t) * (1 - t)) * ((x1 - x2) * (x1 - x2) + (y1 - y2) * (y1 - y2)))
    by ring.
  rewrite sqrt_mult; [| nra | apply sqr_sum_nonneg].
  rewrite sqrt_square by lra. reflexivity.
Qed.

Lemma emitted_point (prev p : Point) (I D : R) :
  finite_point prev -> finite_point p ->
  0 <= D < I -> I <= D + dist prev p ->
  let d := _distance prev p in
  let q := mkPoint (px prev + ((Fin I - Fin D) / d) * (px p - px prev))%js
                   (py prev + ((Fin I - Fin D) / d) * (py p - py prev))%js (pid p) in
  finite_point q /\ dist q p = D + dist prev p - I.
Proof.
  intros Hprev Hp HD Hge d q. subst d q.
  rewrite (distance_finite _ _ Hprev Hp).
  assert (Hd : 0 < dist prev p) by lra.
  destruct prev as [[x1| | |] [y1| | |] i1]; destruct Hprev as [? ?]; try discriminate.
  destruct p as [[x2| | |] [y2| | |] i2]; destruct Hp as [? ?]; try discriminate.
  cbn [px py pid jsub jadd jneg]. rewrite div_Fin_nonzero by lra.
  cbn [jmul jadd]. split; [split; reflexivity|].
  set (d := dist _ _) in *.
  unfold dist at 1. unfold rx, ry. cbn [px py real].
  set (t := (I + - D) / d).
  assert (Ht : 0 <= t <= 1).
  { unfold t. split.
    - apply Rmult_le_pos; [lra | left; apply Rinv_0_lt_compat; lra].
    - apply Rmult_le_reg_r with d; [lra|].
      unfold Rdiv. rewrite Rmult_assoc, Rinv_l by lra. lra. }
  replace (x1 + t * (x2 + - x1) - x2) with (x1 + t * (x2 - x1) - x2) by ring.
  replace (y1 + t * (y2 + - y1) - y2) with (y1 + t * (y2 - y1) - y2) by ring.
  rewrite interp_dist by exact Ht.
  change (sqrt ((x1 - x2) * (x1 - x2) + (y1 - y2) * (y1 - y2))) with d.
  unfold t. field. lra.
Qed.

(** *** A whole segment: [m] points are synthesized, then the walk moves on *)

Lemma segment (I : R) (p : Point) (rest : list Point) :
  0 < I -> finite_point p ->
  forall (m : nat) (prev : Point) (pre : list Point) (D : R) (np : list Point),
    finite_point prev -> pid p = pid prev ->
    0 <= D < I ->
    INR m * I <= D + dist prev p < INR (S m) * I ->
    exists qs : list Point,
      length qs = m /\ Forall finite_point qs /\
      forall fuel : nat,
        resample_loop (S m + fuel) (Fin I) (pre ++ prev :: p :: rest) (S (length pre))
          (Fin D) np
        = resample_loop fuel (Fin I) ((pre ++ prev :: qs) ++ p :: rest)
            (S (length (pre ++ prev :: qs))) (Fin (D + dist prev p - INR m * I))
            (np ++ qs).
Proof.
  intros HI Hp. induction m as [|m IH]; intros prev pre D np Hprev Hid HD Hm.
  - exists []. split; [reflexivity|]. split; [constructor|]. intros fuel.
    rewrite S_INR in Hm. simpl INR in Hm.
    cbn [Nat.add]. rewrite step_accumulate.
    + rewrite (distance_finite _ _ Hprev Hp). cbn [jadd]. rewrite app_nil_r.
      do 2 f_equal. simpl. lra.
    + exact Hid.
    + rewrite (distance_finite _ _ Hprev Hp). cbn [jadd]. rewrite jge_Fin.
      apply bool_decide_eq_false_2. lra.
  - rewrite !S_INR in Hm.
    assert (Hge : I <= D + dist prev p).
    { pose proof (pos_INR m). nra. }
    destruct (emitted_point prev p I D Hprev Hp HD Hge) as [Hq Hdq].
    cbn zeta in Hq, Hdq.
    set (q := mkPoint (px prev + (Fin I - Fin D) / _distance prev p * (px p - px prev))%js
                      (py prev + (Fin I - Fin D) / _distance prev p * (py p - py prev))%js
                      (pid p)) in *.
    destruct (IH q (pre ++ [prev]) 0 (np ++ [q]) Hq eq_refl) as (qs & Hlen & Hfin & Hrun).
    { lra. }
    { rewrite S_INR, Hdq. lra. }
    exists (q :: qs). split; [simpl; lia|]. split; [constructor; assumption|].
    intros fuel.
    change (S (S m) + fuel)%nat with (S (S m + fuel)).
    rewrite step_emit.
    + cbv zeta. fold q. rewrite Hrun.
      rewrite <- !app_assoc. cbn [app].
      f_equal. f_equal. rewrite Hdq, !S_INR. lra.
    + exact Hid.
    + rewrite (distance_finite _ _ Hprev Hp). cbn [jadd]. rewrite jge_Fin.
      apply bool_decide_eq_true_2. lra.
Qed.

(** *** The whole walk *)

Lemma walk (I : R) :
  0 < I ->
  forall (rest : list Point) (prev : Point) (pre : list Point) (D : R)
         (np : list Point),
    finite_point prev -> Forall finite_point rest ->
    0 <= D < I ->
    exists (qs arr : list Point) (D' : R),
      INR (length qs) * I + D' = D + plen prev rest /\
      0 <= D' < I /\
      Forall finite_point qs /\
      length arr = (length pre + 1 + length rest + length qs)%nat /\
      (forall extra : nat,
         resample_loop (S (length rest + length qs + extra)) (Fin I)
           (pre ++ prev :: rest) (S (length pre)) (Fin D) np
         = Ret (np ++ qs, arr)).
Proof.
  intros HI. induction rest as [|p rest IH]; intros prev pre D np Hprev Hrest HD.
  - exists [], (pre ++ [prev]), D. simpl. repeat split; try lra; try constructor.
    + rewrite length_app. simpl. lia.
    + intros extra. rewrite index_at_end, app_nil_r. reflexivity.
  - inversion Hrest as [|? ? Hp Hrest']; subst.
    destruct (decide (pid p = pid prev)) as [Hid|Hid].
    + destruct (nat_floor (D + dist prev p) I) as [m Hm];
        [pose proof (dist_nonneg prev p); lra | exact HI |].
      assert (HD1 : 0 <= D + dist prev p - INR m * I < I).
      { rewrite S_INR in Hm. lra. }
      destruct (segment I p rest HI Hp m prev pre D np Hprev Hid HD Hm)
        as (qs1 & Hlen1 & Hfin1 & Hseg).
      destruct (IH p (pre ++ prev :: qs1) (D + dist prev p - INR m * I)
                   (np ++ qs1) Hp Hrest' HD1)
        as (qs2 & arr & D' & Hsum & HD' & Hfin2 & Harr & Hrun).
      exists (qs1 ++ qs2), arr, D'.
      rewrite length_app, plus_INR, Hlen1. simpl plen.
      rewrite bool_decide_eq_true_2 by exact Hid.
      repeat split; try lra.
      * apply Forall_app; split; assumption.
      * rewrite Harr, !length_app. simpl. lia.
      * intros extra.
        replace (S (length (p :: rest) + (m + length qs2) + extra))
          with (S m + S (length rest + length qs2 + extra))%nat by (simpl; lia).
        rewrite Hseg, Hrun, app_assoc. reflexivity.
    + destruct (IH p (pre ++ [prev]) D np Hp Hrest' HD)
        as (qs & arr & D' & Hsum & HD' & Hfin & Harr & Hrun).
      exists qs, arr, D'. simpl plen. rewrite bool_decide_eq_false_2 by exact Hid.
      repeat split; try lra; try assumption.
      * rewrite Harr, !length_app. simpl. lia.
      * intros extra.
        replace (S (length (p :: rest) + length qs + extra))
          with (S (S (length rest + length qs + extra))) by (simpl; lia).
        rewrite step_skip by exact Hid. apply Hrun.
Qed.

(** An integer multiple of [I] in [(-I, 0]] is zero. *)
Lemma multiple_in_unit (z : Z) (I D : R) :
  0 < I -> 0 <= D < I -> IZR z * I + D = 0 -> z = 0%Z.
Proof.
  intros HI HD Heq.
  assert (H1 : -1 < IZR z) by nra.
  assert (H2 : IZR z <= 0) by nra.
  apply lt_IZR in H1. apply le_IZR in H2. lia.
Qed.

Lemma stroke_inv (pts : list Point) :
  stroke pts ->
  exists p0 rest, pts = p0 :: rest /\ finite_point p0 /\ Forall finite_point rest /\
                  _pathLength pts = Fin (plen p0 rest) /\ 0 < plen p0 rest.
Proof.
  intros [Hfin Hpos]. destruct pts as [|p0 rest].
  { simpl in Hpos. apply bool_decide_eq_true_1 in Hpos. lra. }
  inversion Hfin as [|? ? Hp0 Hrest]; subst.
  exists p0, rest. unfold _pathLength in *.
  rewrite pathLength_from_finite in * by assumption.
  rewrite Rplus_0_l in *. rewrite jlt_Fin in Hpos.
  apply bool_decide_eq_true_1 in Hpos. auto.
Qed.

(** [_resample] on a stroke: exactly [n] points come out, and the array
    walked has grown by the [n - 1] points spliced into it. *)
Lemma q_resample_array_stroke (pts : list Point) (n : nat) :
  stroke pts -> (2 <= n)%nat ->
  exists newPoints pts' : list Point,
    length newPoints = n /\
    Forall finite_point newPoints /\
    length pts' = (length pts + n - 1)%nat /\
    forall fuel : nat, (length pts + n <= fuel)%nat ->
      resample_array fuel pts n = Ret (newPoints, pts').
Proof.
  intros Hs Hn.
  destruct (stroke_inv pts Hs) as (p0 & rest & -> & Hp0 & Hrest & HL & Hpos).
  set (L := plen p0 rest) in *.
  assert (Hk : 1 <= IZR (Z.of_nat n - 1)) by (apply IZR_le; lia).
  set (I := L / IZR (Z.of_nat n - 1)).
  assert (HI : 0 < I).
  { unfold I. apply Rmult_lt_0_compat; [lra | apply Rinv_0_lt_compat; lra]. }
  destruct (walk I HI rest p0 [] 0 [p0] Hp0 Hrest) as
    (qs & arr & D' & Hsum & HD' & Hfin & Harr & Hrun); [lra|].
  fold L in Hsum.
  assert (Hqs : length qs = (n - 1)%nat).
  { assert (HLI : L = IZR (Z.of_nat n - 1) * I) by (unfold I; field; lra).
    assert (Hz : (Z.of_nat (length qs) - (Z.of_nat n - 1))%Z = 0%Z).
    { apply (multiple_in_unit _ I D' HI HD').
      rewrite minus_IZR, <- INR_IZR_INZ. lra. }
    lia. }
  exists ([p0] ++ qs), arr. split; [rewrite length_app; simpl; lia|].
  split; [apply Forall_app; split; [constructor; [assumption | constructor] | assumption]|].
  split; [rewrite Harr, Hqs; simpl; lia|].
  intros fuel Hfuel. unfold resample_array. rewrite HL.
  rewrite div_Fin_nonzero by lra. fold I. cbn [lookup list_lookup deref bind].
  simpl in Hfuel.
  pose proof (Hrun (fuel - S (length rest + length qs))%nat) as Hrun'.
  replace (S (length rest + length qs + (fuel - S (length rest + length qs))))
    with fuel in Hrun' by lia.
  cbn [app length] in Hrun'. rewrite Hrun'. cbn [bind].
  rewrite bool_decide_eq_false_2; [reflexivity|].
  cbn [length]. rewrite Hqs. lia.
Qed.

End QDollarResample.

(** ** [OneDollar._resample], through the $Q loop on points without [id] *)

Module OneDollarResample.
Import OneDollar OneDollarView.

Lemma lift_distance (p q : Point) : QDollar._distance (lift p) (lift q) = _distance p q.
Proof. reflexivity. Qed.

Lemma lift_splice (pts : list Point) (i : nat) (q : Point) :
  QDollar.splice (lift <$> pts) i (lift q) = lift <$> splice pts i q.
Proof.
  unfold QDollar.splice, splice.
  rewrite fmap_app, fmap_cons, fmap_take, fmap_drop. reflexivity.
Qed.

Lemma lift_resample_loop (fuel : nat) (I : num) :
  forall (pts : list Point) (i : nat) (D : num) (np : list Point),
    QDollar.resample_loop fuel I (lift <$> pts) i D (lift <$> np)
    = outcome_map lift_arrays (resample_loop fuel I pts i D np).
Proof.
  induction fuel as [|fuel IH]; intros pts i D np; [reflexivity|].
  cbn [QDollar.resample_loop resample_loop].
  rewrite length_fmap. case_bool_decide; [|reflexivity].
  rewrite !list_lookup_fmap.
  destruct (pts !! (i - 1)%nat) as [p1|]; [|reflexivity].
  destruct (pts !! i) as [p2|]; [|reflexivity].
  cbn [fmap option_fmap option_map deref bind].
  rewrite bool_decide_eq_true_2 by reflexivity.
  rewrite lift_distance. cbv zeta.
  destruct (D + _distance p1 p2 >=? I)%js.
  - rewrite <- IH, <- lift_splice, fmap_app. reflexivity.
  - apply IH.
Qed.

Lemma lift_pathLength_from (rest : list Point) (d : num) (prev : Point) :
  QDollar.pathLength_from d (lift prev) (lift <$> rest) = pathLength_from d prev rest.
Proof.
  revert d prev. induction rest as [|p rest IH]; intros d prev; [reflexivity|].
  simpl. apply IH.
Qed.

Lemma lift_pathLength (pts : list Point) :
  QDollar._pathLength (lift <$> pts) = _pathLength pts.
Proof. destruct pts; [reflexivity | apply lift_pathLength_from]. Qed.

Lemma lift_resample_array (fuel : nat) (pts : list Point) (n : nat) :
  QDollar.resample_array fuel (lift <$> pts) n
  = outcome_map lift_arrays (resample_array fuel pts n).
Proof.
  unfold QDollar.resample_array, resample_array.
  rewrite lift_pathLength, list_lookup_fmap.
  destruct (pts !! 0%nat) as [p0|]; [|reflexivity].
  cbn [fmap option_fmap option_map deref bind].
  change [lift p0] with (lift <$> [p0]). rewrite lift_resample_loop.
  destruct (resample_loop _ _ _ _ _ _) as [[np pts']| |]; try reflexivity.
  cbn [outcome_map lift_arrays fst snd bind]. rewrite length_fmap.
  case_bool_decide; [|reflexivity].
  rewrite fmap_last. destruct (last pts') as [pl|]; [|reflexivity].
  cbn [fmap option_fmap option_map deref bind outcome_map].
  unfold lift_arrays. cbn [fst snd]. rewrite fmap_app. reflexivity.
Qed.

Lemma lift_finite (pts : list Point) :
  Forall finite_point pts <-> Forall QDollarView.finite_point (lift <$> pts).
Proof.
  rewrite Forall_fmap. apply Forall_iff. intros p. reflexivity.
Qed.

Lemma lift_stroke (pts : list Point) :
  stroke pts <-> QDollarView.stroke (lift <$> pts).
Proof.
  unfold stroke, QDollarView.stroke. rewrite lift_pathLength, lift_finite. reflexivity.
Qed.

(** [_resample] on a stroke returns exactly [n] points. *)
Lemma resample_array_stroke (pts : list Point) (n : nat) :
  stroke pts -> (2 <= n)%nat ->
  exists newPoints pts' : list Point,
    length newPoints = n /\
    Forall finite_point newPoints /\
    length pts' = (length pts + n - 1)%nat /\
    forall fuel : nat, (length pts + n <= fuel)%nat ->
      resample_array fuel pts n = Ret (newPoints, pts').
Proof.
  intros Hs Hn. apply lift_stroke in Hs.
  destruct (QDollarResample.q_resample_array_stroke _ n Hs Hn)
    as (npQ & ptsQ & Hlen & Hfin & Hlen' & Hrun).
  rewrite length_fmap in Hlen', Hrun.
  pose proof (Hrun _ (Nat.le_refl _)) as H0.
  rewrite lift_resample_array in H0.
  destruct (resample_array (length pts + n) pts n) as [[np pts']| |] eqn:E;
    try discriminate.
  injection H0 as <- <-. cbn [fst snd] in *.
  exists np, pts'. rewrite length_fmap in Hlen, Hlen'.
  split; [exact Hlen|]. split; [apply lift_finite; exact Hfin|].
  split; [exact Hlen'|].
  intros fuel Hfuel. specialize (Hrun fuel Hfuel).
  rewrite lift_resample_array in Hrun.
  destruct (resample_array fuel pts n) as [[np2 pts2]| |]; try discriminate.
  injection Hrun as H1 H2. cbn [fst snd] in *.
  assert (Hinj : Inj eq eq lift).
  { intros [a b] [c d] [=]. congruence. }
  apply (inj (fmap lift)) in H1, H2. congruence.
Qed.

End OneDollarResample.

(** ** The golden-section search of [OneDollar._distanceAtBestAngle] *)

Module OneDollarGolden.
Import OneDollar OneDollarView.

Lemma Phi_phi : Phi = Fin phi.
Proof.
  unfold Phi, phi. rewrite sqrt_Fin by lra. reflexivity.
Qed.

Lemma sqrt5_bounds : 2 < sqrt 5 < 3.
Proof.
  assert (H2 : sqrt (2 * 2) = 2) by (apply sqrt_square; lra).
  assert (H3 : sqrt (3 * 3) = 3) by (apply sqrt_square; lra).
  split.
  - rewrite <- H2. apply sqrt_lt_1; lra.
  - rewrite <- H3. apply sqrt_lt_1; lra.
Qed.

Lemma phi_bounds : 0 < phi < 1.
Proof. pose proof sqrt5_bounds. unfold phi. lra. Qed.

Lemma phi_square : phi * phi = 1 - phi.
Proof.
  unfold phi. pose proof (sqrt_sqrt 5 ltac:(lra)) as H. nra.
Qed.

(** *** The objective *)

Lemma pathDistance_loop_total (pts1 pts2 : list Point) (d : num) :
  (length pts1 <= length pts2)%nat ->
  exists d', pathDistance_loop d pts1 pts2 = Ret d'.
Proof.
  revert pts2 d. induction pts1 as [|p1 pts1 IH]; intros pts2 d Hlen; simpl.
  - eauto.
  - destruct pts2 as [|p2 pts2]; simpl in Hlen; [lia|]. apply IH. lia.
Qed.

Lemma pathDistance_loop_short (pts1 pts2 : list Point) (d : num) :
  (length pts2 < length pts1)%nat ->
  pathDistance_loop d pts1 pts2 = Throw TypeError.
Proof.
  revert pts2 d. induction pts1 as [|p1 pts1 IH]; intros pts2 d Hlen; simpl in *.
  - lia.
  - destruct pts2 as [|p2 pts2]; [reflexivity|]. apply IH. simpl in Hlen. lia.
Qed.

Lemma rotateBy_length (points : list Point) (radians : num) :
  length (_rotateBy points radians) = length points.
Proof. unfold _rotateBy. apply length_map. Qed.

Lemma distanceAtAngle_total (points : list Point) (T : Template) (x : num) :
  (length points <= length (Points T))%nat ->
  exists d, _distanceAtAngle points T x = Ret d.
Proof.
  intros Hlen. unfold _distanceAtAngle, _pathDistance.
  destruct (pathDistance_loop_total (_rotateBy points x) (Points T) (Fin 0)) as [d Hd].
  { rewrite rotateBy_length. exact Hlen. }
  rewrite Hd. simpl. eauto.
Qed.

Lemma distanceAtAngle_short (points : list Point) (T : Template) (x : num) :
  (length (Points T) < length points)%nat ->
  _distanceAtAngle points T x = Throw TypeError.
Proof.
  intros Hlen. unfold _distanceAtAngle, _pathDistance.
  rewrite pathDistance_loop_short; [reflexivity|].
  rewrite rotateBy_length. exact Hlen.
Qed.

(** *** The loop invariant *)

Lemma distanceAtBestAngle_run (fuel : nat) (points : list Point) (T : Template)
    (a b threshold : num) :
  _distanceAtBestAngle fuel points T a b threshold
  = (do st0 <- golden_init points T a b;
     do st <- golden_loop fuel points T threshold st0;
     Ret (Math_min (gf1 st) (gf2 st))).
Proof.
  unfold _distanceAtBestAngle, golden_init.
  destruct (_distanceAtAngle points T _) as [f1| |]; try reflexivity. cbn [bind].
  destruct (_distanceAtAngle points T _) as [f2| |]; reflexivity.
Qed.

Lemma golden_init_inv (points : list Point) (T : Template) (a b : R) :
  (length points <= length (Points T))%nat ->
  exists st, golden_init points T (Fin a) (Fin b) = Ret st /\
             bracket_inv points T (b - a) st /\ evals st = 2%nat.
Proof.
  intros Hlen. unfold golden_init. rewrite Phi_phi. cbn [jmul jadd jsub jneg].
  destruct (distanceAtAngle_total points T (Fin (phi * a + (1 + - phi) * b)) Hlen)
    as [f1 Hf1].
  destruct (distanceAtAngle_total points T (Fin ((1 + - phi) * a + phi * b)) Hlen)
    as [f2 Hf2].
  rewrite Hf1, Hf2. cbn [bind]. eexists. split; [reflexivity|]. split; [|reflexivity].
  exists a, b. cbn [ga gb gx1 gx2 gf1 gf2]. repeat split; try assumption.
Qed.

(** One iteration multiplies the width by [phi] and makes one evaluation. *)
Lemma golden_loop_step (points : list Point) (T : Template)
    (thr w : R) (st : Bracket) :
  (length points <= length (Points T))%nat ->
  bracket_inv points T w st -> thr < Rabs w ->
  exists st',
    (forall fuel : nat,
       golden_loop (S fuel) points T (Fin thr) st
       = golden_loop fuel points T (Fin thr) st') /\
    bracket_inv points T (phi * w) st' /\ evals st' = S (evals st).
Proof.
  intros Hlen (a & b & Ha & Hb & Hw & Hx1 & Hx2 & Hf1 & Hf2) Hthr.
  destruct st as [a0 b0 x1 f1 x2 f2 k]. cbn [ga gb gx1 gx2 gf1 gf2 evals] in *. subst.
  assert (Hcond : (Math_abs (Fin b - Fin a) >? Fin thr)%js = true).
  { cbn [jsub jneg jadd Math_abs jgt jlt]. apply bool_decide_eq_true_2.
    replace (b + - a) with (b - a) by ring. exact Hthr. }
  pose proof phi_square as Hphi.
  destruct (f1 <? f2)%js eqn:Hlt.
  - destruct (distanceAtAngle_total points T
                (Fin (phi * a + (1 + - phi) * ((1 - phi) * a + phi * b))) Hlen)
      as [f Hf].
    eexists. split; [|split].
    + intros fuel. cbn [golden_loop]. rewrite Hcond, Hlt, Phi_phi.
      cbn [jmul jadd jsub jneg]. rewrite Hf. cbn [bind]. reflexivity.
    + exists a, ((1 - phi) * a + phi * b). cbn [ga gb gx1 gx2 gf1 gf2].
      repeat split; try ring; try assumption. f_equal.
      replace ((1 - phi) * a + phi * ((1 - phi) * a + phi * b))
        with ((1 - phi * phi) * a + phi * phi * b) by ring.
      rewrite Hphi. ring.
    + reflexivity.
  - destruct (distanceAtAngle_total points T
                (Fin ((1 + - phi) * (phi * a + (1 - phi) * b) + phi * b)) Hlen)
      as [f Hf].
    eexists. split; [|split].
    + intros fuel. cbn [golden_loop]. rewrite Hcond, Hlt, Phi_phi.
      cbn [jmul jadd jsub jneg]. rewrite Hf. cbn [bind]. reflexivity.
    + exists (phi * a + (1 - phi) * b), b. cbn [ga gb gx1 gx2 gf1 gf2].
      repeat split; try ring; try assumption. f_equal.
      replace (phi * (phi * a + (1 - phi) * b) + (1 - phi) * b)
        with (phi * phi * a + (1 - phi * phi) * b) by ring.
      rewrite Hphi. ring.
    + reflexivity.
Qed.

Lemma golden_loop_exit (fuel : nat) (points : list Point) (T : Template)
    (thr w : R) (st : Bracket) :
  bracket_inv points T w st -> Rabs w <= thr ->
  golden_loop (S fuel) points T (Fin thr) st = Ret st.
Proof.
  intros (a & b & Ha & Hb & Hw & _) Hthr.
  destruct st as [a0 b0 x1 f1 x2 f2 k]. cbn [ga gb] in *. subst.
  cbn [golden_loop]. cbn [jsub jneg jadd Math_abs jgt jlt].
  rewrite bool_decide_eq_false_2; [reflexivity|].
  replace (b + - a) with (b - a) by ring. lra.
Qed.

(** The loop runs [n] iterations, [n] being the first exponent with
    [phi ^ n * |w| <= thr]. *)
Lemma golden_loop_run (points : list Point) (T : Template) (thr : R) :
  (length points <= length (Points T))%nat ->
  forall (N : nat) (w : R) (st : Bracket),
    bracket_inv points T w st -> phi ^ N * Rabs w <= thr ->
    exists (n : nat) (st' : Bracket),
      (n <= N)%nat /\
      (forall extra : nat, golden_loop (S n + extra) points T (Fin thr) st = Ret st') /\
      bracket_inv points T (phi ^ n * w) st' /\
      evals st' = (evals st + n)%nat /\
      Rabs (phi ^ n * w) <= thr /\
      (forall j : nat, (j < n)%nat -> thr < Rabs (phi ^ j * w)).
Proof.
  intros Hlen. pose proof phi_bounds as Hphi.
  induction N as [|N IH]; intros w st Hinv HN.
  - exists 0%nat, st. rewrite pow_O, Rmult_1_l in HN.
    split; [lia|]. split; [intros extra; apply (golden_loop_exit _ _ _ _ w); assumption|].
    rewrite pow_O, Rmult_1_l. split; [exact Hinv|]. split; [lia|].
    split; [exact HN|]. intros j Hj. lia.
  - destruct (Rle_dec (Rabs w) thr) as [Hle|Hgt].
    + exists 0%nat, st.
      split; [lia|]. split; [intros extra; apply (golden_loop_exit _ _ _ _ w); assumption|].
      rewrite pow_O, Rmult_1_l. split; [exact Hinv|]. split; [lia|].
      split; [exact Hle|]. intros j Hj. lia.
    + apply Rnot_le_lt in Hgt.
      assert (Habs : Rabs (phi * w) = phi * Rabs w).
      { rewrite Rabs_mult, (Rabs_pos_eq phi) by lra. reflexivity. }
      destruct (golden_loop_step points T thr w st Hlen Hinv Hgt)
        as (st1 & Hstep & Hinv1 & Hev1).
      destruct (IH (phi * w) st1 Hinv1)
        as (n & st' & Hn & Hrun & Hinv' & Hev & Hstop & Hbefore).
      { rewrite Habs. simpl pow in HN. lra. }
      assert (Hpow : forall j, phi ^ j * (phi * w) = phi ^ S j * w).
      { intros j. simpl. ring. }
      exists (S n), st'. split; [lia|]. split.
      { intros extra. change (S (S n) + extra)%nat with (S (S n + extra)).
        rewrite Hstep. apply Hrun. }
      rewrite <- Hpow. split; [exact Hinv'|]. split; [lia|]. split; [exact Hstop|].
      intros [|j] Hj.
      * rewrite pow_O, Rmult_1_l. exact Hgt.
      * rewrite <- Hpow. apply Hbefore. lia.
Qed.

Lemma phi_pow_small (w thr : R) :
  0 < thr -> exists N : nat, phi ^ N * Rabs w <= thr.
Proof.
  intros Hthr. pose proof phi_bounds as Hphi. pose proof (Rabs_pos w) as Hw.
  destruct (pow_lt_1_zero phi) with (y := thr / (Rabs w + 1)) as [N HN].
  - rewrite Rabs_pos_eq; lra.
  - apply Rmult_lt_0_compat; [lra | apply Rinv_0_lt_compat; lra].
  - exists N. specialize (HN N (Nat.le_refl N)).
    rewrite Rabs_pos_eq in HN by (apply pow_le; lra).
    assert (H1 : phi ^ N * (Rabs w + 1) < thr).
    { apply Rmult_lt_reg_r with (/ (Rabs w + 1)); [apply Rinv_0_lt_compat; lra|].
      rewrite Rmult_assoc, Rinv_r by lra. lra. }
    assert (0 <= phi ^ N) by (apply pow_le; lra). nra.
Qed.

(** The search, from the two initial evaluations to the returned minimum. *)
Lemma golden_search (points : list Point) (T : Template) (a b thr : R) :
  0 < thr -> (length points <= length (Points T))%nat ->
  exists (n : nat) (st : Bracket),
    (forall fuel : nat, (n < fuel)%nat ->
       (do st0 <- golden_init points T (Fin a) (Fin b);
        golden_loop fuel points T (Fin thr) st0) = Ret st /\
       _distanceAtBestAngle fuel points T (Fin a) (Fin b) (Fin thr)
       = Ret (Math_min (gf1 st) (gf2 st))) /\
    bracket_inv points T (phi ^ n * (b - a)) st /\
    evals st = (2 + n)%nat /\
    Rabs (phi ^ n * (b - a)) <= thr /\
    (forall j : nat, (j < n)%nat -> thr < Rabs (phi ^ j * (b - a))).
Proof.
  intros Hthr Hlen.
  destruct (golden_init_inv points T a b Hlen) as (st0 & Hinit & Hinv0 & Hev0).
  destruct (phi_pow_small (b - a) thr Hthr) as [N HN].
  destruct (golden_loop_run points T thr Hlen N (b - a) st0 Hinv0 HN)
    as (n & st & _ & Hrun & Hinv & Hev & Hstop & Hbefore).
  exists n, st. split; [|split; [exact Hinv|split; [lia|split; assumption]]].
  intros fuel Hfuel. rewrite distanceAtBestAngle_run, Hinit. cbn [bind].
  replace fuel with (S n + (fuel - S n))%nat by lia.
  rewrite Hrun. split; reflexivity.
Qed.

(** With a template shorter than the candidate the first evaluation
    raises. *)
Lemma golden_search_short (fuel : nat) (points : list Point) (T : Template)
    (a b thr : num) :
  (length (Points T) < length points)%nat ->
  _distanceAtBestAngle fuel points T a b thr = Throw TypeError.
Proof.
  intros Hlen. unfold _distanceAtBestAngle.
  rewrite distanceAtAngle_short by exact Hlen. reflexivity.
Qed.

End OneDollarGolden.

(** ** The cloud matcher of [QDollar] *)

Module QDollarCloud.
Import QDollar QDollarView QDollarUnpruned.

Lemma jmul_self_cases (a : num) :
  (exists m : R, 0 <= m /\ (a * a)%js = Fin m) \/ (a * a)%js = PInf \/ (a * a)%js = NaN.
Proof.
  destruct a as [x| | |]; simpl; auto.
  left. exists (x * x). split; [nra | reflexivity].
Qed.

(** A squared distance is a non-negative real, [+Infinity] or [NaN]. *)
Lemma sqrEuclideanDistance_cases (p1 p2 : Point) :
  (exists m : R, 0 <= m /\ _sqrEuclideanDistance p1 p2 = Fin m)
  \/ _sqrEuclideanDistance p1 p2 = PInf \/ _sqrEuclideanDistance p1 p2 = NaN.
Proof.
  unfold _sqrEuclideanDistance.
  destruct (jmul_self_cases (px p1 - px p2)%js) as [(m1 & H1 & ->)|[-> | ->]];
    destruct (jmul_self_cases (py p1 - py p2)%js) as [(m2 & H2 & ->)|[-> | ->]];
    simpl; auto.
  left. exists (m1 + m2). split; [lra | reflexivity].
Qed.

Lemma nearest_loop_inv (p1 : Point) (pts2 : list Point) (matched : list bool)
    (js : list nat) (min : num) (index : option nat) (r : num * option nat) :
  nearest_inv (min, index) ->
  nearest_loop p1 pts2 matched js min index = Ret r -> nearest_inv r.
Proof.
  revert min index. induction js as [|j js IH]; intros min index Hinv Hrun; simpl in Hrun.
  - injection Hrun as <-. exact Hinv.
  - assert (Hbody :
      (do p2 <- deref (pts2 !! j);
       let d := _sqrEuclideanDistance p1 p2 in
       if (d <? min)%js then nearest_loop p1 pts2 matched js d (Some j)
       else nearest_loop p1 pts2 matched js min index) = Ret r -> nearest_inv r).
    { destruct (pts2 !! j) as [p2|]; [|discriminate]. cbn [deref bind]. cbv zeta.
      destruct (_sqrEuclideanDistance p1 p2 <? min)%js eqn:Hlt; [|apply IH; exact Hinv].
      apply IH.
      destruct (sqrEuclideanDistance_cases p1 p2) as [(m & Hm & Hd)|[Hd|Hd]];
        rewrite Hd in *.
      - right. eauto.
      - destruct min; discriminate.
      - discriminate. }
    destruct (matched !! j) as [[|]|];
      [eapply IH; eassumption | apply Hbody; exact Hrun ..].
Qed.

(** With every index in range the inner loop does not raise. *)
Lemma nearest_loop_total (p1 : Point) (pts2 : list Point) (matched : list bool)
    (js : list nat) (min : num) (index : option nat) :
  Forall (fun j => (j < length pts2)%nat) js ->
  exists r, nearest_loop p1 pts2 matched js min index = Ret r.
Proof.
  intros Hjs. revert min index.
  induction Hjs as [|j js Hj _ IH]; intros min index; simpl; [eauto|].
  destruct (lookup_lt_is_Some_2 pts2 j Hj) as [p2 Hp2]. rewrite Hp2. cbn [deref bind].
  cbv zeta. destruct (matched !! j) as [[|]|]; auto;
    destruct (_sqrEuclideanDistance p1 p2 <? min)%js; auto.
Qed.

(** With all of [matched] false, an index past the end of [pts2] raises. *)
Lemma nearest_loop_short (p1 : Point) (pts2 : list Point) (k : nat) (js : list nat)
    (min : num) (index : option nat) :
  Exists (fun j => (length pts2 <= j)%nat) js ->
  Forall (fun j => (j < k)%nat) js ->
  nearest_loop p1 pts2 (replicate k false) js min index = Throw TypeError.
Proof.
  intros Hex. revert min index.
  induction js as [|j js IH]; intros min index Hall; [inversion Hex|].
  inversion Hall as [|? ? Hj Hall']; subst. simpl.
  rewrite lookup_replicate_2 by exact Hj.
  destruct (pts2 !! j) as [p2|] eqn:Hp2; [|reflexivity].
  cbn [deref bind]. cbv zeta.
  assert (Hex' : Exists (fun j => (length pts2 <= j)%nat) js).
  { inversion Hex as [? ? Hbad|]; subst; [|assumption].
    apply lookup_lt_Some in Hp2. lia. }
  destruct (_sqrEuclideanDistance p1 p2 <? min)%js; apply IH; assumption.
Qed.

Lemma seq_in_range (n k : nat) : (n <= k)%nat -> Forall (fun j => (j < k)%nat) (seq 0 n).
Proof.
  intros Hn. apply Forall_forall. intros j Hj. apply elem_of_seq in Hj. lia.
Qed.

(** *** Order facts on [num] *)

Lemma jge_not_jlt (a b : num) : (a >=? b)%js = true -> (a <? b)%js = false.
Proof.
  destruct a, b; simpl; try discriminate; try reflexivity.
  intros H. apply bool_decide_eq_true_1 in H. apply bool_decide_eq_false_2. lra.
Qed.

Lemma jge_mono_not_jlt (a b : R) (c : num) :
  (Fin a >=? c)%js = true -> a <= b -> (Fin b <? c)%js = false.
Proof.
  destruct c; simpl; try discriminate; try reflexivity.
  intros H Hab. apply bool_decide_eq_true_1 in H. apply bool_decide_eq_false_2. lra.
Qed.

(** *** Pruned against unpruned *)

Lemma cloud_unpruned_grows (pts2 : list Point) (n : nat) :
  (n <= length pts2)%nat ->
  forall (pts1 : list Point) (matched : list bool) (s : R),
    exists b : R, cloud_loop_unpruned pts1 pts2 n matched (Fin s) = Ret (Fin b) /\ s <= b.
Proof.
  intros Hn. induction pts1 as [|p1 pts1 IH]; intros matched s; simpl.
  - exists s. split; [reflexivity | lra].
  - destruct (nearest_loop_total p1 pts2 matched (seq 0 n) PInf None) as [r Hr].
    { apply seq_in_range. exact Hn. }
    rewrite Hr. cbn [bind].
    destruct (nearest_loop_inv _ _ _ _ _ _ _ (or_introl eq_refl) Hr)
      as [-> | (m & j & Hm & ->)].
    + apply IH.
    + rewrite sqrt_Fin by exact Hm. cbn [jadd].
      destruct (IH (<[j:=true]> matched) (s + sqrt m)) as (b & Hb & Hle).
      exists b. split; [exact Hb|]. pose proof (sqrt_pos m). lra.
Qed.

Lemma cloud_loop_agree (pts2 : list Point) (n : nat) (minSoFar : num) :
  (n <= length pts2)%nat ->
  forall (pts1 : list Point) (matched : list bool) (s : R),
    prune_agree minSoFar (cloud_loop pts1 pts2 n matched (Fin s) minSoFar)
                (cloud_loop_unpruned pts1 pts2 n matched (Fin s)).
Proof.
  intros Hn. induction pts1 as [|p1 pts1 IH]; intros matched s; simpl.
  - left. reflexivity.
  - destruct (nearest_loop_total p1 pts2 matched (seq 0 n) PInf None) as [r Hr].
    { apply seq_in_range. exact Hn. }
    rewrite Hr. cbn [bind].
    destruct (nearest_loop_inv _ _ _ _ _ _ _ (or_introl eq_refl) Hr)
      as [-> | (m & j & Hm & ->)].
    + destruct (Fin s >=? minSoFar)%js eqn:Hge; [|apply IH].
      destruct (cloud_unpruned_grows pts2 n Hn pts1 matched s) as (b & Hb & Hle).
      right. exists s, b. auto.
    + rewrite sqrt_Fin by exact Hm. cbn [jadd].
      destruct (Fin (s + sqrt m) >=? minSoFar)%js eqn:Hge; [|apply IH].
      destruct (cloud_unpruned_grows pts2 n Hn pts1 (<[j:=true]> matched) (s + sqrt m))
        as (b & Hb & Hle).
      right. exists (s + sqrt m), b. auto.
Qed.

(** A template shorter than the candidate raises in the first scan, with
    or without pruning. *)
Lemma cloud_loop_short (pts1 pts2 : list Point) (minSoFar : num) :
  (length pts2 < length pts1)%nat ->
  _cloudDistance pts1 pts2 0 minSoFar = Throw TypeError /\
  cloudDistance_unpruned pts1 pts2 = Throw TypeError.
Proof.
  intros Hlen. unfold _cloudDistance, cloudDistance_unpruned.
  destruct pts1 as [|p1 pts1]; [simpl in Hlen; lia|].
  cbn [cloud_loop cloud_loop_unpruned].
  rewrite nearest_loop_short; [split; reflexivity | | apply seq_in_range; lia].
  apply Exists_exists. exists (length pts2). split; [|lia].
  apply elem_of_seq. lia.
Qed.

Lemma cloudDistance_agree (pts1 pts2 : list Point) (minSoFar : num) :
  prune_agree minSoFar (_cloudDistance pts1 pts2 0 minSoFar)
              (cloudDistance_unpruned pts1 pts2).
Proof.
  destruct (le_lt_dec (length pts1) (length pts2)) as [Hle|Hlt].
  - apply cloud_loop_agree. exact Hle.
  - destruct (cloud_loop_short pts1 pts2 minSoFar Hlt) as [-> ->]. left. reflexivity.
Qed.

(** The template loop takes the same decisions with and without pruning. *)
Lemma check_loop_agree (points : list Point) (templates : list Template) :
  forall (minDistance : num) (bestTemplate : option Template),
    check_loop points templates minDistance bestTemplate
    = check_loop_unpruned points templates minDistance bestTemplate.
Proof.
  induction templates as [|T templates IH]; intros minDistance bestTemplate;
    [reflexivity|].
  cbn [check_loop check_loop_unpruned]. unfold _cloudMatch.
  destruct (cloudDistance_agree points (Points T) minDistance)
    as [-> | (a & b & -> & -> & Hge & Hle)].
  - destruct (cloudDistance_unpruned points (Points T)) as [d| |]; try reflexivity.
    cbn [bind]. destruct (d <? minDistance)%js; apply IH.
  - cbn [bind].
    rewrite (jge_not_jlt _ _ Hge), (jge_mono_not_jlt _ _ _ Hge Hle). apply IH.
Qed.

Lemma check_agree (fuel : nat) (this : QDollar) (h : heap) (points : loc) :
  check fuel this h points = check_unpruned fuel this h points.
Proof.
  unfold check, check_unpruned.
  destruct (_convertPoints h points) as [[h1 l1]| |]; try reflexivity. cbn [bind].
  destruct (_resample fuel h1 l1 NumPoints) as [[processed h2]| |]; try reflexivity.
  cbn [bind]. rewrite check_loop_agree. reflexivity.
Qed.

End QDollarCloud.

(** ** Preprocessing a stroke, and what it does to the caller's array *)

Module OneDollarPreprocess.
Import OneDollar OneDollarView.

Lemma convertPoints_spec (h : heap) (points : loc) (raw : RawPoints) :
  h !! points = Some raw -> points_of raw <> [] ->
  exists h1 l1,
    _convertPoints h points = Ret (h1, l1) /\
    h1 !! l1 = Some (Records (points_of raw)) /\
    match raw with
    | Records _ => h1 = h /\ l1 = points
    | Pairs _ => l1 <> points /\ h1 = <[l1 := Records (points_of raw)]> h /\ h !! l1 = None
    end.
Proof.
  intros Hraw Hne. unfold _convertPoints. rewrite Hraw. cbn [deref bind].
  destruct raw as [[|p ps]|pts]; simpl in Hne; [congruence| |].
  - eexists _, _. split; [reflexivity|]. split; [apply lookup_insert_eq|].
    assert (Hfresh : h !! fresh (dom h) = None).
    { apply not_elem_of_dom. apply is_fresh. }
    split; [|split; [reflexivity | exact Hfresh]].
    intros Heq. rewrite Heq in Hfresh. congruence.
  - exists h, points. auto.
Qed.

Lemma resample_stroke (h : heap) (points : loc) (pts : list Point) :
  h !! points = Some (Records pts) -> stroke pts ->
  exists newPoints pts',
    length newPoints = NumPoints /\
    Forall finite_point newPoints /\
    length pts' = (length pts + 63)%nat /\
    forall fuel : nat, (length pts + 64 <= fuel)%nat ->
      _resample fuel h points NumPoints = Ret (newPoints, <[points := Records pts']> h).
Proof.
  intros Hpts Hs.
  destruct (OneDollarResample.resample_array_stroke pts NumPoints Hs)
    as (np & pts' & Hlen & Hfin & Hlen' & Hrun); [unfold NumPoints; lia|].
  exists np, pts'. split; [exact Hlen|]. split; [exact Hfin|].
  split; [unfold NumPoints in Hlen'; lia|].
  intros fuel Hfuel. unfold _resample. rewrite Hpts. cbn [deref bind records].
  rewrite Hrun by (unfold NumPoints; lia). reflexivity.
Qed.

Lemma indicativeAngle_nonempty (points : list Point) :
  points <> [] -> exists r, _indicativeAngle points = Ret r.
Proof.
  intros Hne. destruct points as [|p0 rest]; [congruence|].
  unfold _indicativeAngle. cbn [lookup list_lookup deref bind]. eauto.
Qed.

Lemma normalize_length (points : list Point) (r : num) :
  length (_translateTo (_scaleTo (_rotateBy points r) SquareSize) Origin)
  = length points.
Proof.
  unfold _translateTo, _scaleTo, _rotateBy. rewrite !length_map. reflexivity.
Qed.

(** [preprocess] on a stroke returns [NumPoints] points. *)
Lemma preprocess_stroke (h : heap) (points : loc) (raw : RawPoints) :
  h !! points = Some raw -> stroke (points_of raw) ->
  exists processed h',
    length processed = NumPoints /\
    (forall fuel : nat, (length (points_of raw) + 64 <= fuel)%nat ->
       preprocess fuel h points = Ret (processed, h')).
Proof.
  intros Hraw Hs.
  assert (Hne : points_of raw <> []).
  { intros E. destruct Hs as [_ Hpos]. rewrite E in Hpos. simpl in Hpos.
    apply bool_decide_eq_true_1 in Hpos. lra. }
  destruct (convertPoints_spec h points raw Hraw Hne) as (h1 & l1 & Hconv & Hl1 & Hcase).
  destruct (resample_stroke h1 l1 _ Hl1 Hs) as (np & pts' & Hlen & Hfin & Hlen' & Hrun).
  destruct (indicativeAngle_nonempty np) as [r Hr].
  { intros E. rewrite E in Hlen. discriminate. }
  eexists _, _. split.
  - rewrite normalize_length. exact Hlen.
  - intros fuel Hfuel. unfold preprocess. rewrite Hconv. cbn [bind].
    rewrite Hrun by exact Hfuel. cbn [bind]. rewrite Hr. cbn [bind]. reflexivity.
Qed.

Lemma check_preprocess (fuel : nat) (this : OneDollar) (h : gmap nat RawPoints)
    (points : nat) :
  check fuel this h points
  = (do '(processedPoints, h') <- preprocess fuel h points;
     do '(b, t) <- check_loop fuel processedPoints (Templates this) 0 PInf 0;
     let score := (Fin 1 - b / HalfDiagonal)%js in
     do T <- deref (Templates this !! t);
     Ret (mkResult (Name T) (Math_max score (Fin 0)), h')).
Proof.
  unfold check, preprocess.
  destruct (_convertPoints h points) as [[h1 l1]| |]; try reflexivity. cbn [bind].
  destruct (_resample fuel h1 l1 NumPoints) as [[processed h2]| |]; try reflexivity.
  cbn [bind]. destruct (_indicativeAngle processed); reflexivity.
Qed.

Lemma add_preprocess (fuel : nat) (this : OneDollar) (h : gmap nat RawPoints)
    (name : string) (points : nat) :
  add fuel this h name points
  = (do '(processed, h') <- preprocess fuel h points;
     Ret (mkOneDollar
            (Templates this ++ [mkTemplate name processed (_vectorize processed)]),
          h')).
Proof.
  unfold add, preprocess.
  destruct (_convertPoints h points) as [[h1 l1]| |]; try reflexivity. cbn [bind].
  destruct (_resample fuel h1 l1 NumPoints) as [[processed h2]| |]; try reflexivity.
  cbn [bind]. destruct (_indicativeAngle processed); reflexivity.
Qed.

End OneDollarPreprocess.

Module QDollarPreprocess.
Import QDollar QDollarView.

Lemma q_convertPoints_spec (h : heap) (points : loc) (raw : RawPoints) :
  h !! points = Some raw -> points_of raw <> [] ->
  exists h1 l1,
    _convertPoints h points = Ret (h1, l1) /\
    h1 !! l1 = Some (Records (points_of raw)) /\
    match raw with
    | Records _ => h1 = h /\ l1 = points
    | Pairs _ => l1 <> points /\ h1 = <[l1 := Records (points_of raw)]> h /\ h !! l1 = None
    end.
Proof.
  intros Hraw Hne. unfold _convertPoints. rewrite Hraw. cbn [deref bind].
  destruct raw as [[|p ps]|pts]; simpl in Hne; [congruence| |].
  - eexists _, _. split; [reflexivity|]. split; [apply lookup_insert_eq|].
    assert (Hfresh : h !! fresh (dom h) = None).
    { apply not_elem_of_dom. apply is_fresh. }
    split; [|split; [reflexivity | exact Hfresh]].
    intros Heq. rewrite Heq in Hfresh. congruence.
  - exists h, points. auto.
Qed.

Lemma q_resample_stroke (h : heap) (points : loc) (pts : list Point) :
  h !! points = Some (Records pts) -> stroke pts ->
  exists newPoints pts',
    length newPoints = NumPoints /\
    Forall finite_point newPoints /\
    length pts' = (length pts + 63)%nat /\
    forall fuel : nat, (length pts + 64 <= fuel)%nat ->
      _resample fuel h points NumPoints = Ret (newPoints, <[points := Records pts']> h).
Proof.
  intros Hpts Hs.
  destruct (QDollarResample.q_resample_array_stroke pts NumPoints Hs)
    as (np & pts' & Hlen & Hfin & Hlen' & Hrun); [unfold NumPoints; lia|].
  exists np, pts'. split; [exact Hlen|]. split; [exact Hfin|].
  split; [unfold NumPoints in Hlen'; lia|].
  intros fuel Hfuel. unfold _resample. rewrite Hpts. cbn [deref bind records].
  rewrite Hrun by (unfold NumPoints; lia). reflexivity.
Qed.

Lemma q_normalize_length (points : list Point) :
  length (_translateTo (_scale points) Origin) = length points.
Proof. unfold _translateTo, _scale. rewrite !length_map. reflexivity. Qed.

Lemma q_preprocess_stroke (h : heap) (points : loc) (raw : RawPoints) :
  h !! points = Some raw -> stroke (points_of raw) ->
  exists processed h',
    length processed = NumPoints /\
    (forall fuel : nat, (length (points_of raw) + 64 <= fuel)%nat ->
       preprocess fuel h points = Ret (processed, h')).
Proof.
  intros Hraw Hs.
  assert (Hne : points_of raw <> []).
  { intros E. destruct Hs as [_ Hpos]. rewrite E in Hpos. simpl in Hpos.
    apply bool_decide_eq_true_1 in Hpos. lra. }
  destruct (q_convertPoints_spec h points raw Hraw Hne) as (h1 & l1 & Hconv & Hl1 & Hcase).
  destruct (q_resample_stroke h1 l1 _ Hl1 Hs) as (np & pts' & Hlen & Hfin & Hlen' & Hrun).
  eexists _, _. split.
  - rewrite q_normalize_length. exact Hlen.
  - intros fuel Hfuel. unfold preprocess. rewrite Hconv. cbn [bind].
    rewrite Hrun by exact Hfuel. cbn [bind]. reflexivity.
Qed.

Lemma q_check_preprocess (fuel : nat) (this : QDollar) (h : gmap nat RawPoints)
    (points : nat) :
  check fuel this h points
  = (do '(processedPoints, h') <- preprocess fuel h points;
     do '(minDistance, bestTemplate) <-
       check_loop processedPoints (Templates this) PInf None;
     match bestTemplate with
     | Some T =>
         let score := (Fin 1 - (minDistance / Fin (INR NumPoints)) / Fin 0.5)%js in
         Ret (mkResult (Name T) (Math_max score (Fin 0)), h')
     | None => Ret (mkResult "No match" (Fin 0), h')
     end).
Proof.
  unfold check, preprocess.
  destruct (_convertPoints h points) as [[h1 l1]| |]; try reflexivity. cbn [bind].
  destruct (_resample fuel h1 l1 NumPoints) as [[processed h2]| |]; reflexivity.
Qed.

Lemma q_add_preprocess (fuel : nat) (this : QDollar) (h : gmap nat RawPoints)
    (name : string) (points : nat) :
  add fuel this h name points
  = (do '(processed, h') <- preprocess fuel h points;
     Ret (mkQDollar (Templates this ++ [mkTemplate name processed]), h')).
Proof.
  unfold add, preprocess.
  destruct (_convertPoints h points) as [[h1 l1]| |]; try reflexivity. cbn [bind].
  destruct (_resample fuel h1 l1 NumPoints) as [[processed h2]| |]; reflexivity.
Qed.

End QDollarPreprocess.

(** ** The minimum search *)

Section Argmin.

Lemma jlt_irrefl (a : num) : (a <? a)%js = false.
Proof. destruct a; simpl; try reflexivity. apply bool_decide_eq_false_2. lra. Qed.

Lemma jlt_asym (a b : num) : (a <? b)%js = true -> (b <? a)%js = false.
Proof.
  destruct a, b; simpl; try discriminate; try reflexivity.
  intros H. apply bool_decide_eq_true_1 in H. apply bool_decide_eq_false_2. lra.
Qed.

Lemma jlt_trans (a b c : num) :
  (a <? b)%js = true -> (b <? c)%js = true -> (a <? c)%js = true.
Proof.
  destruct a, b, c; simpl; try discriminate; try reflexivity.
  intros H1 H2. apply bool_decide_eq_true_1 in H1, H2. apply bool_decide_eq_true_2. lra.
Qed.

(** [b' < b] and not [d < b] leave no room for [d < b']. *)
Lemma jlt_below (d b b' : num) :
  (b' <? b)%js = true -> (d <? b)%js = false -> (d <? b')%js = false.
Proof.
  destruct d, b, b'; simpl; try discriminate; try reflexivity.
  intros H1 H2. apply bool_decide_eq_true_1 in H1. apply bool_decide_eq_false_1 in H2.
  apply bool_decide_eq_false_2. lra.
Qed.

Lemma jlt_neq (a b : num) : (a <? b)%js = true -> a <> b.
Proof. intros H ->. rewrite jlt_irrefl in H. discriminate. Qed.

Lemma argmin_loop_spec (ds : list num) :
  forall (i : nat) (b : num) (t : option nat),
    (argmin_loop ds i b t = (b, t) /\ Forall (fun d => (d <? b)%js = false) ds)
    \/
    (exists (k : nat) (b' : num),
       argmin_loop ds i b t = (b', Some (i + k)%nat) /\
       ds !! k = Some b' /\ (b' <? b)%js = true /\
       Forall (fun d => (d <? b')%js = false) ds /\
       forall (j : nat) (dj : num), (j < k)%nat -> ds !! j = Some dj -> dj <> b').
Proof.
  induction ds as [|d ds IH]; intros i b t; simpl.
  - left. split; [reflexivity | constructor].
  - destruct (d <? b)%js eqn:Hd.
    + right. destruct (IH (S i) d (Some i))
        as [[Hrun Hall] | (k & b' & Hrun & Hk & Hlt & Hall & Hties)].
      * exists 0%nat, d. rewrite Nat.add_0_r. repeat split; try assumption.
        -- constructor; [apply jlt_irrefl | exact Hall].
        -- intros j dj Hj. lia.
      * exists (S k), b'. rewrite Hrun. replace (S i + k)%nat with (i + S k)%nat by lia.
        repeat split; try assumption.
        -- eapply jlt_trans; eassumption.
        -- constructor; [apply jlt_asym; exact Hlt | exact Hall].
        -- intros [|j] dj Hj Hdj; simpl in Hdj.
           ++ injection Hdj as <-. apply not_eq_sym, jlt_neq. exact Hlt.
           ++ apply (Hties j); [lia | exact Hdj].
    + destruct (IH (S i) b t)
        as [[Hrun Hall] | (k & b' & Hrun & Hk & Hlt & Hall & Hties)].
      * left. split; [exact Hrun | constructor; assumption].
      * right. exists (S k), b'. rewrite Hrun.
        replace (S i + k)%nat with (i + S k)%nat by lia.
        repeat split; try assumption.
        -- constructor; [eapply jlt_below; eassumption | exact Hall].
        -- intros [|j] dj Hj Hdj; simpl in Hdj.
           ++ injection Hdj as <-. intros ->. congruence.
           ++ apply (Hties j); [lia | exact Hdj].
Qed.

(** From [b = +Infinity] on a non-empty list: nothing is below
    [+Infinity] and the initial index stays, or an index is found. *)
Lemma argmin_found (ds : list num) (t0 : option nat) :
  ds <> [] ->
  (argmin_loop ds 0 PInf t0 = (PInf, t0) /\ Forall (fun d => (d <? PInf)%js = false) ds
   /\ is_Some (ds !! 0%nat))
  \/
  (exists (t : nat) (b : num),
     argmin_loop ds 0 PInf t0 = (b, Some t) /\ ds !! t = Some b /\
     (b <? PInf)%js = true).
Proof.
  intros Hne. destruct (argmin_loop_spec ds 0 PInf t0)
    as [[Hrun Hall] | (k & b' & Hrun & Hk & Hlt & Hall & Hties)].
  - left. split; [exact Hrun|]. split; [exact Hall|].
    destruct ds as [|d0 ds]; [congruence|]. eexists. reflexivity.
  - right. exists k, b'. simpl in Hrun. split; [exact Hrun|]. split; [exact Hk|].
    exact Hlt.
Qed.

End Argmin.

(** ** [OneDollar.check] *)

Module OneDollarCheck.
Import OneDollar OneDollarView OneDollarGolden.

Lemma phi_pow8 : phi ^ 8 * 90 <= 2.
Proof.
  pose proof phi_square as H2.
  assert (H4 : phi ^ 4 = 2 - 3 * phi).
  { replace (phi ^ 4) with ((phi * phi) * (phi * phi)) by ring. rewrite H2.
    replace ((1 - phi) * (1 - phi)) with (1 - 2 * phi + phi * phi) by ring.
    rewrite H2. ring. }
  assert (H8 : phi ^ 8 = 13 - 21 * phi).
  { replace (phi ^ 8) with (phi ^ 4 * phi ^ 4) by ring. rewrite H4.
    replace ((2 - 3 * phi) * (2 - 3 * phi)) with (4 - 12 * phi + 9 * (phi * phi)) by ring.
    rewrite H2. ring. }
  rewrite H8.
  assert (Hs : 2.236 < sqrt 5).
  { assert (E : sqrt (2.236 * 2.236) = 2.236) by (apply sqrt_square; lra).
    rewrite <- E. apply sqrt_lt_1; lra. }
  unfold phi. lra.
Qed.

(** With the recognizer's angles (-45, 45, precision 2) the search makes
    at most eight iterations. *)
Lemma golden_canonical (points : list Point) (T : Template) :
  (length points <= length (Points T))%nat ->
  exists d : num, forall fuel : nat, (9 <= fuel)%nat ->
    _distanceAtBestAngle fuel points T (- AngleRange)%js AngleRange AnglePrecision
    = Ret d.
Proof.
  intros Hlen.
  destruct (golden_search points T (-45) 45 2 ltac:(lra) Hlen)
    as (n & st & Hrun & _ & _ & _ & Hbefore).
  assert (Hn : (n <= 8)%nat).
  { destruct (le_lt_dec n 8) as [H|H]; [exact H|].
    specialize (Hbefore 8%nat H). pose proof phi_pow8 as H8.
    pose proof phi_bounds as Hphi.
    rewrite Rabs_pos_eq in Hbefore.
    - replace (45 - -45) with 90 in Hbefore by lra. lra.
    - apply Rmult_le_pos; [apply pow_le; lra | lra]. }
  exists (Math_min (gf1 st) (gf2 st)). intros fuel Hfuel.
  unfold AngleRange, AnglePrecision. cbn [jneg].
  apply Hrun. lia.
Qed.

Lemma distances_exist (points : list Point) (templates : list Template) :
  Forall (fun T => (length points <= length (Points T))%nat) templates ->
  exists ds : list num, forall fuel : nat, (9 <= fuel)%nat ->
    Forall2 (fun T d =>
               _distanceAtBestAngle fuel points T (- AngleRange)%js AngleRange
                 AnglePrecision = Ret d) templates ds.
Proof.
  induction 1 as [|T templates HT _ (ds & Hds)].
  - exists []. intros; constructor.
  - destruct (golden_canonical points T HT) as (d & Hd).
    exists (d :: ds). intros fuel Hfuel. constructor; auto.
Qed.

Lemma check_loop_argmin (fuel : nat) (points : list Point) (templates : list Template)
    (ds : list num) :
  Forall2 (fun T d =>
             _distanceAtBestAngle fuel points T (- AngleRange)%js AngleRange
               AnglePrecision = Ret d) templates ds ->
  forall (i : nat) (b : num) (t : nat),
    exists t' : nat,
      argmin_loop ds i b (Some t) = (fst (argmin_loop ds i b (Some t)), Some t') /\
      check_loop fuel points templates i b t
      = Ret (fst (argmin_loop ds i b (Some t)), t').
Proof.
  induction 1 as [|T d templates ds HT _ IH]; intros i b t;
    cbn [check_loop argmin_loop].
  - exists t. split; reflexivity.
  - rewrite HT. cbn [bind]. destruct (d <? b)%js; apply IH.
Qed.

(** The best distance is never [NaN]. *)
Lemma check_loop_not_nan (fuel : nat) (points : list Point) (templates : list Template) :
  forall (i : nat) (b : num) (t : nat) (b' : num) (t' : nat),
    check_loop fuel points templates i b t = Ret (b', t') -> b <> NaN -> b' <> NaN.
Proof.
  induction templates as [|T templates IH]; intros i b t b' t' Hrun Hb;
    cbn [check_loop] in Hrun.
  - injection Hrun as <- <-. exact Hb.
  - destruct (_distanceAtBestAngle _ _ _ _ _ _) as [d| |]; try discriminate.
    cbn [bind] in Hrun. destruct (d <? b)%js eqn:Hd.
    + eapply IH; [exact Hrun|]. intros ->. discriminate.
    + eapply IH; eassumption.
Qed.

Lemma HalfDiagonal_pos : exists hd : R, HalfDiagonal = Fin hd /\ 0 < hd.
Proof.
  unfold HalfDiagonal, Diagonal, SquareSize. cbn [jmul jadd].
  rewrite sqrt_Fin by lra. cbn [jmul]. eexists. split; [reflexivity|].
  apply Rmult_lt_0_compat; [lra | apply sqrt_lt_R0; lra].
Qed.

Lemma score_nonneg (b : num) :
  b <> NaN -> (Math_max (Fin 1 - b / HalfDiagonal)%js (Fin 0) >=? Fin 0)%js = true.
Proof.
  intros Hb. destruct HalfDiagonal_pos as (hd & -> & Hhd).
  destruct b as [x| | |]; try congruence.
  - rewrite div_Fin_nonzero by lra. cbn [jsub jneg jadd Math_max jlt].
    case_bool_decide; cbn [jge]; apply bool_decide_eq_true_2; lra.
  - cbn [jdiv]. rewrite bool_decide_eq_false_2 by lra. simpl.
    apply bool_decide_eq_true_2. lra.
  - cbn [jdiv]. rewrite bool_decide_eq_false_2 by lra. reflexivity.
Qed.

Lemma check_score_nonneg (fuel : nat) (this : OneDollar) (h : gmap nat RawPoints)
    (points : nat) (r : Result) (h' : gmap nat RawPoints) :
  check fuel this h points = Ret (r, h') -> (score r >=? Fin 0)%js = true.
Proof.
  rewrite OneDollarPreprocess.check_preprocess. intros Hrun.
  destruct (preprocess fuel h points) as [[processed h1]| |]; try discriminate.
  cbn [bind] in Hrun.
  destruct (check_loop fuel processed (Templates this) 0 PInf 0) as [[b t]| |] eqn:Hloop;
    try discriminate.
  cbn [bind] in Hrun.
  destruct (Templates this !! t) as [T|]; try discriminate.
  cbn [deref bind] in Hrun. injection Hrun as <- _. cbn [score].
  apply score_nonneg. eapply check_loop_not_nan; [exact Hloop | discriminate].
Qed.

(** [check] on a stroke and a store of templates with at least
    [NumPoints] points each. *)
Lemma check_stroke (this : OneDollar) (h : gmap nat RawPoints) (points : nat)
    (raw : RawPoints) :
  h !! points = Some raw -> stroke (points_of raw) ->
  Templates this <> [] ->
  Forall (fun T => (NumPoints <= length (Points T))%nat) (Templates this) ->
  exists (processed : list Point) (h' : gmap nat RawPoints) (ds : list num)
         (t : nat) (T : Template) (s : num),
    (forall fuel : nat, (length (points_of raw) + 64 <= fuel)%nat ->
       preprocess fuel h points = Ret (processed, h') /\
       Forall2 (fun T d =>
                  _distanceAtBestAngle fuel processed T (- AngleRange)%js AngleRange
                    AnglePrecision = Ret d) (Templates this) ds /\
       check fuel this h points = Ret (mkResult (Name T) s, h')) /\
    Templates this !! t = Some T.
Proof.
  intros Hraw Hs Hne Hlen.
  destruct (OneDollarPreprocess.preprocess_stroke h points raw Hraw Hs)
    as (processed & h' & Hproc & Hpre).
  destruct (distances_exist processed (Templates this)) as (ds & Hds).
  { rewrite Hproc. exact Hlen. }
  assert (Hds9 := Hds 9%nat (Nat.le_refl 9)).
  assert (Hdsne : ds <> []).
  { intros ->. inversion Hds9. congruence. }
  assert (Hlook : forall t d, ds !! t = Some d -> exists T, Templates this !! t = Some T).
  { intros t d Ht. destruct (Forall2_lookup_r _ _ _ _ _ Hds9 Ht) as (T & HT & _). eauto. }
  destruct (argmin_found ds (Some 0%nat) Hdsne)
    as [(Hrun & _ & (d0 & Hd0)) | (t & b & Hrun & Hb & _)].
  - destruct (Hlook _ _ Hd0) as (T & HT).
    exists processed, h', ds, 0%nat, T, (Math_max (Fin 1 - PInf / HalfDiagonal)%js (Fin 0)).
    split; [|exact HT].
    intros fuel Hfuel. split; [apply Hpre; exact Hfuel|].
    assert (Hdf := Hds fuel ltac:(lia)). split; [exact Hdf|].
    rewrite OneDollarPreprocess.check_preprocess, Hpre by exact Hfuel. cbn [bind].
    destruct (check_loop_argmin fuel processed _ ds Hdf 0 PInf 0) as (t' & Ht' & Hloop).
    rewrite Hloop, Hrun in *. cbn [fst] in *. injection Ht' as <-.
    cbn [bind]. rewrite HT. reflexivity.
  - destruct (Hlook _ _ Hb) as (T & HT).
    exists processed, h', ds, t, T, (Math_max (Fin 1 - b / HalfDiagonal)%js (Fin 0)).
    split; [|exact HT].
    intros fuel Hfuel. split; [apply Hpre; exact Hfuel|].
    assert (Hdf := Hds fuel ltac:(lia)). split; [exact Hdf|].
    rewrite OneDollarPreprocess.check_preprocess, Hpre by exact Hfuel. cbn [bind].
    destruct (check_loop_argmin fuel processed _ ds Hdf 0 PInf 0) as (t' & Ht' & Hloop).
    rewrite Hloop, Hrun in *. cbn [fst] in *. injection Ht' as <-.
    cbn [bind]. rewrite HT. reflexivity.
Qed.

End OneDollarCheck.

(** ** [QDollar.check] *)

Module QDollarCheck.
Import QDollar QDollarView QDollarUnpruned QDollarCloud.

Lemma q_distances_exist (points : list Point) (templates : list Template) :
  Forall (fun T => (length points <= length (Points T))%nat) templates ->
  exists ds : list num,
    Forall2 (fun T d => cloudDistance_unpruned points (Points T) = Ret d) templates ds /\
    Forall (fun d => exists b : R, d = Fin b /\ 0 <= b) ds.
Proof.
  induction 1 as [|T templates HT _ (ds & Hds & Hfin)].
  - exists []. split; constructor.
  - destruct (cloud_unpruned_grows (Points T) (length points) HT points
                (replicate (length points) false) 0) as (b & Hb & Hle).
    exists (Fin b :: ds). split; constructor; eauto.
Qed.

(** The template loop without pruning is the minimum search over the
    unpruned distances; [bestTemplate] is the template at the index held. *)
Lemma q_check_loop_argmin (points : list Point) (all : list Template) :
  forall (templates : list Template) (ds : list num) (pre : list Template)
         (b : num) (t : option nat),
    Forall2 (fun T d => cloudDistance_unpruned points (Points T) = Ret d) templates ds ->
    all = pre ++ templates ->
    check_loop_unpruned points templates b (t ≫= (all !!.))
    = Ret (fst (argmin_loop ds (length pre) b t),
           snd (argmin_loop ds (length pre) b t) ≫= (all !!.)).
Proof.
  intros templates ds pre b t H. revert pre b t.
  induction H as [|T d templates ds HT _ IH]; intros pre b t Hall;
    cbn [check_loop_unpruned argmin_loop].
  - reflexivity.
  - rewrite HT. cbn [bind].
    assert (Hall' : all = (pre ++ [T]) ++ templates) by (rewrite <- app_assoc; exact Hall).
    specialize (IH (pre ++ [T])). rewrite length_app in IH. simpl length in IH.
    rewrite Nat.add_1_r in IH.
    destruct (d <? b)%js.
    + rewrite <- (IH d (Some (length pre)) Hall'). f_equal.
      cbn [mbind option_bind]. rewrite Hall. symmetry. apply list_lookup_middle. reflexivity.
    + apply IH. exact Hall'.
Qed.

Lemma q_check_loop_not_nan (points : list Point) (templates : list Template) :
  forall (b : num) (best : option Template) (b' : num) (best' : option Template),
    check_loop points templates b best = Ret (b', best') -> b <> NaN -> b' <> NaN.
Proof.
  induction templates as [|T templates IH]; intros b best b' best' Hrun Hb;
    cbn [check_loop] in Hrun.
  - injection Hrun as <- <-. exact Hb.
  - destruct (_cloudMatch points T b) as [d| |]; try discriminate.
    cbn [bind] in Hrun. destruct (d <? b)%js eqn:Hd.
    + eapply IH; [exact Hrun|]. intros ->. discriminate.
    + eapply IH; eassumption.
Qed.

Lemma div_PInf_pos (y : R) : 0 < y -> (PInf / Fin y)%js = PInf.
Proof. intros Hy. simpl. rewrite bool_decide_eq_false_2 by lra. reflexivity. Qed.

Lemma div_NInf_pos (y : R) : 0 < y -> (NInf / Fin y)%js = NInf.
Proof. intros Hy. simpl. rewrite bool_decide_eq_false_2 by lra. reflexivity. Qed.

Lemma q_score_nonneg (b : num) :
  b <> NaN ->
  (Math_max (Fin 1 - (b / Fin (INR NumPoints)) / Fin 0.5)%js (Fin 0) >=? Fin 0)%js = true.
Proof.
  intros Hb. assert (Hn : INR NumPoints = 64) by (unfold NumPoints; simpl; lra).
  rewrite Hn. destruct b as [x| | |]; try congruence.
  - rewrite !div_Fin_nonzero by lra. cbn [jsub jneg jadd Math_max jlt].
    case_bool_decide; cbn [jge]; apply bool_decide_eq_true_2; lra.
  - rewrite !div_PInf_pos by lra. simpl. apply bool_decide_eq_true_2. lra.
  - rewrite !div_NInf_pos by lra. reflexivity.
Qed.

Lemma q_check_score_nonneg (fuel : nat) (this : QDollar) (h : gmap nat RawPoints)
    (points : nat) (r : Result) (h' : gmap nat RawPoints) :
  check fuel this h points = Ret (r, h') -> (score r >=? Fin 0)%js = true.
Proof.
  rewrite QDollarPreprocess.q_check_preprocess. intros Hrun.
  destruct (preprocess fuel h points) as [[processed h1]| |]; try discriminate.
  cbn [bind] in Hrun.
  destruct (check_loop processed (Templates this) PInf None) as [[b best]| |] eqn:Hloop;
    try discriminate.
  cbn [bind] in Hrun. destruct best as [T|].
  - injection Hrun as <- _. cbn [score].
    apply q_score_nonneg. eapply q_check_loop_not_nan; [exact Hloop | discriminate].
  - injection Hrun as <- _. simpl. apply bool_decide_eq_true_2. lra.
Qed.

(** [check] on a stroke and a store of templates with at least
    [NumPoints] points each: the template returned is a first minimum of
    the unpruned cloud distances. *)
Lemma q_check_stroke (this : QDollar) (h : gmap nat RawPoints) (points : nat)
    (raw : RawPoints) :
  h !! points = Some raw -> stroke (points_of raw) ->
  Templates this <> [] ->
  Forall (fun T => (NumPoints <= length (Points T))%nat) (Templates this) ->
  exists (processed : list Point) (h' : gmap nat RawPoints) (ds : list num)
         (t : nat) (T : Template) (s : num),
    (forall fuel : nat, (length (points_of raw) + 64 <= fuel)%nat ->
       preprocess fuel h points = Ret (processed, h') /\
       check fuel this h points = Ret (mkResult (Name T) s, h')) /\
    Forall2 (fun T d => cloudDistance_unpruned processed (Points T) = Ret d)
            (Templates this) ds /\
    Templates this !! t = Some T.
Proof.
  intros Hraw Hs Hne Hlen.
  destruct (QDollarPreprocess.q_preprocess_stroke h points raw Hraw Hs)
    as (processed & h' & Hproc & Hpre).
  destruct (q_distances_exist processed (Templates this)) as (ds & Hds & Hfin).
  { rewrite Hproc. exact Hlen. }
  assert (Hdsne : ds <> []).
  { intros ->. inversion Hds. congruence. }
  pose proof (q_check_loop_argmin processed (Templates this) (Templates this) ds []
                PInf None Hds eq_refl) as Hloop.
  cbn [mbind option_bind length] in Hloop.
  destruct (argmin_found ds None Hdsne)
    as [(Hrun & Hall & _) | (t & b & Hrun & Hb & _)].
  - exfalso. destruct ds as [|d0 ds]; [congruence|].
    inversion Hall as [|? ? Hd0 _]; subst. inversion Hfin as [|? ? (b0 & -> & _) _]; subst.
    discriminate.
  - destruct (Forall2_lookup_r _ _ _ _ _ Hds Hb) as (T & HT & _).
    rewrite Hrun in Hloop. cbn [fst snd mbind option_bind] in Hloop. rewrite HT in Hloop.
    exists processed, h', ds, t, T,
      (Math_max (Fin 1 - (b / Fin (INR NumPoints)) / Fin 0.5)%js (Fin 0)).
    split; [|split; [exact Hds | exact HT]].
    intros fuel Hfuel. split; [apply Hpre; exact Hfuel|].
    rewrite QDollarPreprocess.q_check_preprocess, Hpre by exact Hfuel.
    cbn [bind]. rewrite check_loop_agree, Hloop. reflexivity.
Qed.

End QDollarCheck.

(** ** A stroke whose points all coincide *)

Module QDollarDegenerate.
Import QDollar QDollarView QDollarResample.

Lemma dist_self (p : Point) : dist p p = 0.
Proof.
  unfold dist. replace (_ + _) with 0 by ring. apply sqrt_0.
Qed.

Lemma plen_coincide (p : Point) (rest : list Point) :
  Forall (eq p) rest -> plen p rest = 0.
Proof.
  induction 1 as [|q rest <- _ IH]; simpl; [reflexivity|].
  rewrite IH, dist_self. case_bool_decide; lra.
Qed.

(** Once [D] is [NaN] nothing more is synthesized. *)
Lemma nan_phase (I : num) (rest : list Point) :
  forall (pre : list Point) (prev : Point) (np : list Point) (extra : nat),
    resample_loop (S (length rest) + extra) I (pre ++ prev :: rest) (S (length pre)) NaN np
    = Ret (np, pre ++ prev :: rest).
Proof.
  induction rest as [|p rest IH]; intros pre prev np extra.
  - apply step_exit.
  - cbn [length Nat.add].
    assert (Hnext : pre ++ prev :: p :: rest = (pre ++ [prev]) ++ p :: rest)
      by (rewrite <- app_assoc; reflexivity).
    destruct (decide (pid p = pid prev)) as [Hid|Hid].
    + rewrite step_accumulate; [|exact Hid|reflexivity].
      rewrite Hnext. apply IH.
    + rewrite step_skip by exact Hid. rewrite Hnext. apply IH.
Qed.

Lemma NumPoints_pred : IZR (Z.of_nat NumPoints - 1) = 63.
Proof. change (Z.of_nat NumPoints - 1)%Z with 63%Z. reflexivity. Qed.

(** [_resample] on two or more coinciding points: the spacing is [0], the
    first segment has length [0], and the point synthesized there is
    [0 / 0]. *)
Lemma q_resample_coincide (p : Point) (rest : list Point) :
  finite_point p -> rest <> [] -> Forall (eq p) rest ->
  forall fuel : nat, (length rest + 2 <= fuel)%nat ->
    resample_array fuel (p :: rest) NumPoints
    = Ret ([p; nan_point (pid p)], p :: nan_point (pid p) :: rest).
Proof.
  intros Hp Hne Hall fuel Hfuel. unfold resample_array.
  assert (Hfin : Forall finite_point rest).
  { eapply Forall_impl; [exact Hall|]. intros q <-. exact Hp. }
  cbn [_pathLength]. rewrite pathLength_from_finite by assumption.
  rewrite (plen_coincide p rest Hall), NumPoints_pred.
  rewrite div_Fin_nonzero by lra.
  cbn [lookup list_lookup deref bind].
  destruct rest as [|p' rest]; [congruence|].
  apply Forall_cons in Hall as [<- Hall'].
  assert (Hd : _distance p p = Fin 0).
  { rewrite distance_finite by assumption. rewrite dist_self. reflexivity. }
  set (I := Fin ((0 + 0) / 63)).
  set (extra := (fuel - (length rest + 3))%nat).
  replace fuel with (S (S (S (length rest) + extra)))
    by (simpl in Hfuel; unfold extra; lia).
  pose proof (step_emit (S (S (length rest) + extra)) I [] p p rest (Fin 0) [p] eq_refl)
    as Hstep.
  cbn [app length] in Hstep. rewrite Hstep; clear Hstep.
  - rewrite Hd. unfold I. cbn [jsub jneg jadd jdiv].
    rewrite (bool_decide_eq_true_2 (0 = 0)) by reflexivity.
    unfold inf_times. rewrite bool_decide_eq_true_2 by lra.
    cbn [jmul jadd].
    assert (Hx : (px p + NaN)%js = NaN) by (destruct (px p); reflexivity).
    assert (Hy : (py p + NaN)%js = NaN) by (destruct (py p); reflexivity).
    rewrite Hx, Hy. fold (nan_point (pid p)). fold I.
    pose proof (step_accumulate (S (length rest) + extra) I [p] (nan_point (pid p))
                  p rest (Fin 0) [p; nan_point (pid p)] eq_refl eq_refl) as Hacc.
    cbn [app length] in Hacc. rewrite Hacc; clear Hacc.
    change (Fin 0 + _distance (nan_point (pid p)) p)%js with NaN.
    pose proof (nan_phase I rest [p; nan_point (pid p)] p [p; nan_point (pid p)] extra)
      as Hnan.
    cbn [app length] in Hnan. rewrite Hnan. cbn [bind].
    rewrite bool_decide_eq_false_2 by (unfold NumPoints; simpl; lia). reflexivity.
  - rewrite Hd. unfold I. cbn [jadd]. rewrite jge_Fin. apply bool_decide_eq_true_2. lra.
Qed.

End QDollarDegenerate.

Module OneDollarDegenerate.
Import OneDollar OneDollarView OneDollarResample OneDollarGolden.

Lemma lift_arrays_inj (m : outcome (list Point * list Point))
    (r : list Point * list Point) :
  outcome_map lift_arrays m = Ret (lift_arrays r) -> m = Ret r.
Proof.
  assert (Hinj : Inj eq eq lift).
  { intros [a b] [c d] [=]. congruence. }
  destruct m as [[np pts]| |]; try discriminate. destruct r as [np' pts'].
  unfold lift_arrays. cbn [outcome_map fst snd]. intros [= H1 H2].
  apply (inj (fmap lift)) in H1, H2. congruence.
Qed.

Lemma resample_coincide (p : Point) (rest : list Point) :
  finite_point p -> rest <> [] -> Forall (eq p) rest ->
  forall fuel : nat, (length rest + 2 <= fuel)%nat ->
    resample_array fuel (p :: rest) NumPoints
    = Ret ([p; nan_point], p :: nan_point :: rest).
Proof.
  intros Hp Hne Hall fuel Hfuel. apply lift_arrays_inj.
  rewrite <- lift_resample_array.
  change NumPoints with QDollar.NumPoints.
  rewrite fmap_cons, QDollarDegenerate.q_resample_coincide.
  - reflexivity.
  - exact Hp.
  - destruct rest; [congruence | discriminate].
  - apply Forall_fmap. eapply Forall_impl; [exact Hall|]. intros q <-. reflexivity.
  - rewrite length_fmap. exact Hfuel.
Qed.

(** The pipeline on the two points [p, NaN]: every stage returns [NaN]
    coordinates. *)
Lemma normalize_coincide (p : Point) :
  finite_point p ->
  exists r : num,
    _indicativeAngle [p; nan_point] = Ret r /\
    _translateTo (_scaleTo (_rotateBy [p; nan_point] (- r)%js) SquareSize) Origin
    = [nan_point; nan_point].
Proof.
  intros [Hx Hy]. destruct p as [[x| | |] [y| | |]]; try discriminate.
  exists NaN. split; reflexivity.
Qed.

Lemma distance_nan_l (p : Point) : _distance nan_point p = NaN.
Proof. reflexivity. Qed.

(** Against a [NaN] candidate the objective is [NaN] at every angle. *)
Lemma distanceAtAngle_nan (T : Template) (x : num) :
  (2 <= length (Points T))%nat ->
  _distanceAtAngle [nan_point; nan_point] T x = Ret NaN.
Proof.
  intros Hlen. destruct T as [nm [|t1 [|t2 pts]] v]; simpl in Hlen; try lia.
  reflexivity.
Qed.

Lemma distanceAtBestAngle_nan (T : Template) :
  (2 <= length (Points T))%nat ->
  forall fuel : nat, (9 <= fuel)%nat ->
    _distanceAtBestAngle fuel [nan_point; nan_point] T (- AngleRange)%js AngleRange
      AnglePrecision = Ret NaN.
Proof.
  intros Hlen fuel Hfuel.
  destruct (golden_search [nan_point; nan_point] T (-45) 45 2 ltac:(lra) Hlen)
    as (n & st & Hrun & Hinv & _ & _ & Hbefore).
  assert (Hn : (n <= 8)%nat).
  { destruct (le_lt_dec n 8) as [H|H]; [exact H|].
    specialize (Hbefore 8%nat H). pose proof OneDollarCheck.phi_pow8 as H8.
    pose proof phi_bounds as Hphi.
    rewrite Rabs_pos_eq in Hbefore.
    - replace (45 - -45) with 90 in Hbefore by lra. lra.
    - apply Rmult_le_pos; [apply pow_le; lra | lra]. }
  destruct Hinv as (a & b & _ & _ & _ & _ & _ & Hf1 & _).
  rewrite distanceAtAngle_nan in Hf1 by exact Hlen. injection Hf1 as Hf1.
  destruct (Hrun fuel ltac:(lia)) as [_ E]. rewrite <- Hf1 in E. exact E.
Qed.

Lemma check_loop_nan (fuel : nat) (templates : list Template) :
  (9 <= fuel)%nat ->
  Forall (fun T => (2 <= length (Points T))%nat) templates ->
  forall (i : nat) (b : num) (t : nat),
    check_loop fuel [nan_point; nan_point] templates i b t = Ret (b, t).
Proof.
  intros Hfuel. induction 1 as [|T templates HT _ IH]; intros i b t;
    cbn [check_loop]; [reflexivity|].
  rewrite distanceAtBestAngle_nan by assumption. cbn [bind jlt]. apply IH.
Qed.

(** [check] on two or more coinciding points does not raise: it answers
    the first template with score [0]. *)
Lemma check_coincide (this : OneDollar) (h : gmap nat RawPoints) (points : nat)
    (raw : RawPoints) (p : Point) (rest : list Point) (T0 : Template) :
  h !! points = Some raw -> points_of raw = p :: rest ->
  finite_point p -> rest <> [] -> Forall (eq p) rest ->
  Templates this !! 0%nat = Some T0 ->
  Forall (fun T => (2 <= length (Points T))%nat) (Templates this) ->
  exists h' : gmap nat RawPoints,
    forall fuel : nat, (length rest + 9 <= fuel)%nat ->
      check fuel this h points = Ret (mkResult (Name T0) (Fin 0), h').
Proof.
  intros Hraw Hpts Hp Hne Hall HT0 Hlen.
  destruct (OneDollarPreprocess.convertPoints_spec h points raw Hraw)
    as (h1 & l1 & Hconv & Hl1 & _); [rewrite Hpts; discriminate|].
  destruct (normalize_coincide p Hp) as (r & Hr & Hnorm).
  exists (<[l1 := Records (p :: nan_point :: rest)]> h1). intros fuel Hfuel.
  unfold check, _resample. rewrite Hconv. cbn [bind].
  rewrite Hl1. cbn [deref bind records]. rewrite Hpts.
  rewrite resample_coincide by (try assumption; lia). cbn [bind].
  rewrite Hr. cbn [bind]. rewrite Hnorm.
  rewrite check_loop_nan by (try assumption; lia). cbn [bind].
  rewrite HT0. cbn [deref bind]. do 2 f_equal. f_equal.
  destruct OneDollarCheck.HalfDiagonal_pos as (hd & -> & Hhd).
  cbn [jdiv]. rewrite bool_decide_eq_false_2 by lra. reflexivity.
Qed.

End OneDollarDegenerate.

(** ** Two distinct points make a stroke *)

Module QDollarDistinct.
Import QDollar QDollarView QDollarResample.

Lemma sqr_sum_zero (a b : R) : a * a + b * b = 0 -> a = 0 /\ b = 0.
Proof.
  intros H. pose proof (Rle_0_sqr a) as Ha. pose proof (Rle_0_sqr b) as Hb.
  unfold Rsqr in Ha, Hb.
  assert (Ha0 : a * a = 0) by lra. assert (Hb0 : b * b = 0) by lra.
  apply Rmult_integral in Ha0. apply Rmult_integral in Hb0. lra.
Qed.

Lemma dist_zero_eq (p q : Point) :
  finite_point p -> finite_point q -> pid q = pid p -> dist p q = 0 -> p = q.
Proof.
  intros Hp Hq Hid Hd. unfold dist in Hd.
  apply sqrt_eq_0 in Hd; [|apply sqr_sum_nonneg].
  apply sqr_sum_zero in Hd as [Hx Hy].
  rewrite (finite_point_inv p Hp), (finite_point_inv q Hq), Hid.
  f_equal; f_equal; lra.
Qed.

Lemma plen_zero_coincide (rest : list Point) (p : Point) :
  finite_point p -> Forall finite_point rest ->
  Forall (fun q => pid q = pid p) rest ->
  plen p rest = 0 -> Forall (eq p) rest.
Proof.
  revert p. induction rest as [|q rest IH]; intros p Hp Hfin Hids Hlen; [constructor|].
  apply Forall_cons in Hfin as [Hq Hfin]. apply Forall_cons in Hids as [Hid Hids].
  simpl in Hlen. rewrite bool_decide_eq_true_2 in Hlen by exact Hid.
  pose proof (dist_nonneg p q). pose proof (plen_nonneg rest q).
  assert (Hpq : p = q) by (apply dist_zero_eq; try assumption; lra).
  subst q. constructor; [reflexivity|]. apply IH; try assumption. lra.
Qed.

End QDollarDistinct.

Module OneDollarDistinct.
Import OneDollar OneDollarView.

(** For the $1 recognizer a positive path length is the same as two
    distinct points. *)
Lemma distinct_points_stroke (pts : list Point) (i j : nat) (p q : Point) :
  Forall finite_point pts ->
  pts !! i = Some p -> pts !! j = Some q -> p <> q ->
  stroke pts.
Proof.
  intros Hfin Hi Hj Hpq. apply OneDollarResample.lift_stroke.
  split; [apply OneDollarResample.lift_finite; exact Hfin|].
  destruct pts as [|p0 rest]; [discriminate|].
  apply OneDollarResample.lift_finite in Hfin. rewrite fmap_cons in *.
  apply Forall_cons in Hfin as [Hp0 Hrest].
  cbn [QDollar._pathLength]. rewrite QDollarResample.pathLength_from_finite by assumption.
  rewrite jlt_Fin. apply bool_decide_eq_true_2.
  pose proof (QDollarResample.plen_nonneg (lift <$> rest) (lift p0)) as Hnn.
  destruct (Req_dec_T (QDollarView.plen (lift p0) (lift <$> rest)) 0) as [Hz|Hnz]; [|lra].
  exfalso. apply QDollarDistinct.plen_zero_coincide in Hz; try assumption.
  - assert (Hall : forall k r, (p0 :: rest) !! k = Some r -> r = p0).
    { intros [|k] r Hk; simpl in Hk; [congruence|].
      rewrite Forall_fmap in Hz.
      apply (Forall_lookup_1 _ _ _ _ Hz) in Hk. simpl in Hk.
      destruct p0, r. unfold lift in Hk. simpl in Hk. congruence. }
    apply Hpq. rewrite (Hall _ _ Hi), (Hall _ _ Hj). reflexivity.
  - apply Forall_fmap, Forall_forall. intros r _. reflexivity.
Qed.

End OneDollarDistinct.

(** ** The sample inputs are strokes *)

Module SampleFacts.
Import Samples.

Lemma line1_stroke : OneDollarView.stroke line1.
Proof.
  apply (OneDollarDistinct.distinct_points_stroke line1 0 1
           (OneDollar.mkPoint (Fin 0) (Fin 0)) (OneDollar.mkPoint (Fin 1) (Fin 0))).
  - repeat constructor.
  - reflexivity.
  - reflexivity.
  - intros [= H]. lra.
Qed.

Lemma lineQ_stroke : QDollarView.stroke lineQ.
Proof.
  change lineQ with (QDollarView.points_of (QDollar.Pairs [(Fin 0, Fin 0); (Fin 1, Fin 0)])).
  split; [repeat constructor|].
  cbn [QDollarView.points_of map fst snd QDollar._pathLength].
  rewrite QDollarResample.pathLength_from_finite by repeat constructor.
  rewrite jlt_Fin. apply bool_decide_eq_true_2.
  cbn [QDollarView.plen QDollar.pid]. rewrite bool_decide_eq_true_2 by reflexivity.
  assert (0 < QDollarView.dist (QDollar.mkPoint (Fin 0) (Fin 0) (Some 1%Z))
                               (QDollar.mkPoint (Fin 1) (Fin 0) (Some 1%Z))).
  { unfold QDollarView.dist, QDollarView.rx, QDollarView.ry. cbn [QDollar.px QDollar.py real].
    apply sqrt_lt_R0. lra. }
  lra.
Qed.

Lemma store1_wf :
  Forall (fun T => (OneDollar.NumPoints <= length (OneDollar.Points T))%nat)
         (OneDollar.Templates store1).
Proof. repeat constructor. Qed.

Lemma storeQ_wf :
  Forall (fun T => (QDollar.NumPoints <= length (QDollar.Points T))%nat)
         (QDollar.Templates storeQ).
Proof. repeat constructor. Qed.

End SampleFacts.
(** * Main theorems *)

(** C2, as stated, fails: [OneDollar.check] on the point [(1, 1)]
    repeated [30] times raises nothing and returns a result. *)
Lemma C2_counterexample :
  exists h' : gmap nat OneDollar.RawPoints,
    OneDollar.check 100 Samples.store1 Samples.heap_dot1 0
    = Ret (OneDollar.mkResult "T" (Fin 0), h')
    /\ forall e : exn,
         OneDollar.check 100 Samples.store1 Samples.heap_dot1 0 <> Throw e.
Proof.
  destruct (OneDollarDegenerate.check_coincide Samples.store1 Samples.heap_dot1 0
              (OneDollar.Records Samples.dot1) (OneDollar.mkPoint (Fin 1) (Fin 1))
              (replicate 29 (OneDollar.mkPoint (Fin 1) (Fin 1)))
              (OneDollar.mkTemplate "T"
                 (replicate 64 (OneDollar.mkPoint (Fin 0) (Fin 0))) []))
    as (h' & Hrun).
  - reflexivity.
  - reflexivity.
  - split; reflexivity.
  - discriminate.
  - apply Forall_replicate. reflexivity.
  - reflexivity.
  - repeat constructor; simpl; lia.
  - exists h'. rewrite (Hrun 100%nat) by (simpl; lia). split; [reflexivity | discriminate].
Qed.

(** C2, amended.  For an input of two or more coinciding finite points
    [check] does not fail: [_resample] finds a spacing of [0], synthesizes
    the point [(NaN, NaN)] on the first segment and returns the two points
    [p, (NaN, NaN)]; with a store whose templates have at least two points
    each, [check] then returns the first template with score [0]. *)
Theorem C2_coincident_points_return
    (this : OneDollar.OneDollar) (h : gmap nat OneDollar.RawPoints) (points : nat)
    (raw : OneDollar.RawPoints) (p : OneDollar.Point) (rest : list OneDollar.Point)
    (T0 : OneDollar.Template) :
  h !! points = Some raw -> OneDollarView.points_of raw = p :: rest ->
  OneDollarView.finite_point p -> rest <> [] -> Forall (eq p) rest ->
  OneDollar.Templates this !! 0%nat = Some T0 ->
  Forall (fun T => (2 <= length (OneDollar.Points T))%nat) (OneDollar.Templates this) ->
  (forall fuel : nat, (length rest + 2 <= fuel)%nat ->
     OneDollar.resample_array fuel (p :: rest) OneDollar.NumPoints
     = Ret ([p; OneDollarView.nan_point], p :: OneDollarView.nan_point :: rest))
  /\
  exists h' : gmap nat OneDollar.RawPoints,
    forall fuel : nat, (length rest + 9 <= fuel)%nat ->
      OneDollar.check fuel this h points
      = Ret (OneDollar.mkResult (OneDollar.Name T0) (Fin 0), h').
Proof.
  intros Hraw Hpts Hp Hne Hall HT0 Hlen. split.
  - apply OneDollarDegenerate.resample_coincide; assumption.
  - eapply OneDollarDegenerate.check_coincide; eassumption.
Qed.

Lemma C2_witness :
  OneDollar.resample_array 100 Samples.dot1 OneDollar.NumPoints
  = Ret ([OneDollar.mkPoint (Fin 1) (Fin 1); OneDollarView.nan_point],
         OneDollar.mkPoint (Fin 1) (Fin 1) :: OneDollarView.nan_point
         :: replicate 29 (OneDollar.mkPoint (Fin 1) (Fin 1))).
Proof.
  destruct (C2_coincident_points_return Samples.store1 Samples.heap_dot1 0
              (OneDollar.Records Samples.dot1) (OneDollar.mkPoint (Fin 1) (Fin 1))
              (replicate 29 (OneDollar.mkPoint (Fin 1) (Fin 1)))
              (OneDollar.mkTemplate "T"
                 (replicate 64 (OneDollar.mkPoint (Fin 0) (Fin 0))) []))
    as [Hres _].
  - reflexivity.
  - reflexivity.
  - split; reflexivity.
  - discriminate.
  - apply Forall_replicate. reflexivity.
  - reflexivity.
  - repeat constructor; simpl; lia.
  - apply (Hres 100%nat). simpl. lia.
Defined.

(** C3.  The early exit of [_cloudDistance] changes nothing in what
    [check] returns: with and without the statement
    [if (sum >= minSoFar) return sum], [check] gives the same outcome (name,
    score and heap) for every store and every argument; and against one
    template the pruned distance is the unpruned one, or a partial sum that
    has reached [minSoFar] and that the unpruned distance is not below. *)
Theorem C3_pruning_equivalence
    (fuel : nat) (this : QDollar.QDollar) (h : gmap nat QDollar.RawPoints)
    (points : nat) (pts1 pts2 : list QDollar.Point) (minSoFar : num) :
  QDollar.check fuel this h points = QDollarUnpruned.check_unpruned fuel this h points
  /\
  prune_agree minSoFar (QDollar._cloudDistance pts1 pts2 0 minSoFar)
              (QDollarUnpruned.cloudDistance_unpruned pts1 pts2).
Proof.
  split.
  - apply QDollarCloud.check_agree.
  - apply QDollarCloud.cloudDistance_agree.
Qed.

(** C8.  Whatever the store and the argument, a result returned by
    [check] has a score that is a number not below [0] (never negative,
    never [NaN]), in [OneDollar] and in [QDollar]. *)
Theorem C8_score_nonneg
    (fuel1 : nat) (this1 : OneDollar.OneDollar) (h1 h1' : gmap nat OneDollar.RawPoints)
    (l1 : nat) (r1 : OneDollar.Result)
    (fuel2 : nat) (this2 : QDollar.QDollar) (h2 h2' : gmap nat QDollar.RawPoints)
    (l2 : nat) (r2 : QDollar.Result) :
  OneDollar.check fuel1 this1 h1 l1 = Ret (r1, h1') ->
  QDollar.check fuel2 this2 h2 l2 = Ret (r2, h2') ->
  (OneDollar.score r1 >=? Fin 0)%js = true /\ (QDollar.score r2 >=? Fin 0)%js = true.
Proof.
  intros H1 H2. split.
  - eapply OneDollarCheck.check_score_nonneg. exact H1.
  - eapply QDollarCheck.q_check_score_nonneg. exact H2.
Qed.

Lemma C8_witness :
  exists (r1 : OneDollar.Result) (h1' : gmap nat OneDollar.RawPoints)
         (r2 : QDollar.Result) (h2' : gmap nat QDollar.RawPoints),
    OneDollar.check 100 Samples.store1 Samples.heap1 0 = Ret (r1, h1') /\
    QDollar.check 100 Samples.storeQ Samples.heapQ 0 = Ret (r2, h2') /\
    (OneDollar.score r1 >=? Fin 0)%js = true /\ (QDollar.score r2 >=? Fin 0)%js = true.
Proof.
  destruct (OneDollarCheck.check_stroke Samples.store1 Samples.heap1 0
              (OneDollar.Records Samples.line1) eq_refl SampleFacts.line1_stroke
              ltac:(discriminate) SampleFacts.store1_wf)
    as (p1 & h1' & ds1 & t1 & T1 & s1 & Hrun1 & _).
  destruct (QDollarCheck.q_check_stroke Samples.storeQ Samples.heapQ 0
              (QDollar.Records Samples.lineQ) eq_refl SampleFacts.lineQ_stroke
              ltac:(discriminate) SampleFacts.storeQ_wf)
    as (p2 & h2' & ds2 & t2 & T2 & s2 & Hrun2 & _).
  destruct (Hrun1 100%nat) as (_ & _ & E1); [simpl; lia|].
  destruct (Hrun2 100%nat) as (_ & E2); [simpl; lia|].
  exists (OneDollar.mkResult (OneDollar.Name T1) s1), h1',
         (QDollar.mkResult (QDollar.Name T2) s2), h2'.
  split; [exact E1|]. split; [exact E2|].
  exact (C8_score_nonneg _ _ _ _ _ _ _ _ _ _ _ _ E1 E2).
Defined.

(** * Further properties *)

(** ** The argument: empty arrays, pairs and records *)

Module OneDollarInput.
Import OneDollar OneDollarView.


Lemma preprocess_empty (fuel : nat) (h : gmap nat RawPoints) (l : nat)
    (raw : RawPoints) :
  h !! l = Some raw -> points_of raw = [] ->
  preprocess fuel h l = Throw TypeError.
Proof.
  intros Hl Hnil. unfold preprocess, _convertPoints. rewrite Hl. cbn [deref bind].
  destruct raw as [[|p ps]|pts]; simpl in Hnil; try discriminate; subst;
    cbn [bind]; unfold _resample; rewrite Hl; reflexivity.
Qed.





End OneDollarInput.

Module QDollarInput.
Import QDollar QDollarView.


Lemma q_preprocess_empty (fuel : nat) (h : gmap nat RawPoints) (l : nat)
    (raw : RawPoints) :
  h !! l = Some raw -> points_of raw = [] ->
  preprocess fuel h l = Throw TypeError.
Proof.
  intros Hl Hnil. unfold preprocess, _convertPoints. rewrite Hl. cbn [deref bind].
  destruct raw as [[|p ps]|pts]; simpl in Hnil; try discriminate; subst;
    cbn [bind]; unfold _resample; rewrite Hl; reflexivity.
Qed.





End QDollarInput.

(** X1.  [check] and [add] on an empty array raise [TypeError], whatever
    the store and the fuel, in both recognizers. *)
Theorem X1_empty_argument_raises
    (fuel : nat) (name : string)
    (this1 : OneDollar.OneDollar) (h1 : gmap nat OneDollar.RawPoints) (l1 : nat)
    (raw1 : OneDollar.RawPoints)
    (this2 : QDollar.QDollar) (h2 : gmap nat QDollar.RawPoints) (l2 : nat)
    (raw2 : QDollar.RawPoints) :
  h1 !! l1 = Some raw1 -> OneDollarView.points_of raw1 = [] ->
  h2 !! l2 = Some raw2 -> QDollarView.points_of raw2 = [] ->
  OneDollar.check fuel this1 h1 l1 = Throw TypeError /\
  OneDollar.add fuel this1 h1 name l1 = Throw TypeError /\
  QDollar.check fuel this2 h2 l2 = Throw TypeError /\
  QDollar.add fuel this2 h2 name l2 = Throw TypeError.
Proof.
  intros H1 E1 H2 E2.
  rewrite OneDollarPreprocess.check_preprocess, OneDollarPreprocess.add_preprocess.
  rewrite QDollarPreprocess.q_check_preprocess, QDollarPreprocess.q_add_preprocess.
  rewrite (OneDollarInput.preprocess_empty fuel h1 l1 raw1 H1 E1).
  rewrite (QDollarInput.q_preprocess_empty fuel h2 l2 raw2 H2 E2).
  repeat split; reflexivity.
Qed.

Lemma X1_witness :
  OneDollar.check 0 Samples.store1 {[ 0%nat := OneDollar.Records [] ]} 0 = Throw TypeError /\
  QDollar.check 5 Samples.storeQ {[ 0%nat := QDollar.Pairs [] ]} 0 = Throw TypeError.
Proof.
  destruct (X1_empty_argument_raises 0 "A"
              Samples.store1 {[ 0%nat := OneDollar.Records [] ]} 0 (OneDollar.Records [])
              Samples.storeQ {[ 0%nat := QDollar.Pairs [] ]} 0 (QDollar.Pairs []))
    as (H1 & _ & _ & _); try reflexivity.
  destruct (X1_empty_argument_raises 5 "A"
              Samples.store1 {[ 0%nat := OneDollar.Records [] ]} 0 (OneDollar.Records [])
              Samples.storeQ {[ 0%nat := QDollar.Pairs [] ]} 0 (QDollar.Pairs []))
    as (_ & _ & H2 & _); try reflexivity.
  split; assumption.
Defined.



(** ** The score is a number of [[0, 1]] *)

Section NotNegative.

Lemma not_negative_add (a b : num) :
  not_negative a -> not_negative b -> not_negative (a + b)%js.
Proof. destruct a, b; simpl; try tauto. lra. Qed.

Lemma not_negative_square_sum (a b : num) : not_negative (a * a + b * b)%js.
Proof.
  destruct (QDollarCloud.jmul_self_cases a) as [(m1 & H1 & ->)|[-> | ->]];
    destruct (QDollarCloud.jmul_self_cases b) as [(m2 & H2 & ->)|[-> | ->]];
    simpl; try tauto. lra.
Qed.

Lemma not_negative_sqrt (a : num) : not_negative a -> not_negative (Math_sqrt a).
Proof.
  destruct a as [x| | |]; simpl; try tauto. intros Hx.
  rewrite bool_decide_eq_false_2 by lra. simpl. apply sqrt_pos.
Qed.

Lemma not_negative_div_length (a : num) (n : nat) :
  not_negative a -> not_negative (a / Fin (INR n))%js.
Proof.
  assert (Hn := pos_INR n).
  destruct a as [x| | |]; simpl; try tauto; intros Hx.
  - case_bool_decide as H0.
    + unfold inf_times. repeat case_bool_decide; simpl; try tauto. lra.
    + simpl. apply Rmult_le_pos; [exact Hx|].
      apply Rlt_le, Rinv_0_lt_compat. lra.
  - rewrite bool_decide_eq_false_2 by lra. exact I.
Qed.

Lemma not_negative_min (a b : num) :
  not_negative a -> not_negative b -> not_negative (Math_min a b).
Proof.
  destruct a, b; simpl; try tauto; intros Ha Hb;
    try (case_bool_decide; simpl; assumption).
Qed.

End NotNegative.

Module OneDollarScore.
Import OneDollar OneDollarView.

Lemma distance_not_negative (p q : Point) : not_negative (_distance p q).
Proof. apply not_negative_sqrt, not_negative_square_sum. Qed.

Lemma pathDistance_loop_not_negative (pts1 pts2 : list Point) :
  forall d d' : num,
    not_negative d -> pathDistance_loop d pts1 pts2 = Ret d' -> not_negative d'.
Proof.
  revert pts2. induction pts1 as [|p1 pts1 IH]; intros pts2 d d' Hd Hrun;
    cbn [pathDistance_loop] in Hrun.
  - injection Hrun as <-. exact Hd.
  - destruct pts2 as [|p2 pts2]; [discriminate|].
    eapply IH; [|exact Hrun].
    apply not_negative_add; [exact Hd | apply distance_not_negative].
Qed.

Lemma distanceAtAngle_not_negative (points : list Point) (T : Template) (x d : num) :
  _distanceAtAngle points T x = Ret d -> not_negative d.
Proof.
  unfold _distanceAtAngle, _pathDistance. intros Hrun.
  destruct (pathDistance_loop _ _ _) as [d0| |] eqn:Hloop; try discriminate.
  cbn [bind] in Hrun. injection Hrun as <-.
  apply not_negative_div_length.
  eapply pathDistance_loop_not_negative; [|exact Hloop]. simpl. lra.
Qed.

Lemma golden_loop_not_negative (points : list Point) (T : Template) (threshold : num) :
  forall (fuel : nat) (st st' : Bracket),
    not_negative (gf1 st) -> not_negative (gf2 st) ->
    golden_loop fuel points T threshold st = Ret st' ->
    not_negative (gf1 st') /\ not_negative (gf2 st').
Proof.
  induction fuel as [|fuel IH]; intros st st' H1 H2 Hrun; [discriminate|].
  destruct st as [a b x1 f1 x2 f2 k]. cbn [golden_loop] in Hrun. cbn [gf1 gf2] in H1, H2.
  destruct (Math_abs (b - a) >? threshold)%js.
  - destruct (f1 <? f2)%js.
    + destruct (_distanceAtAngle _ _ _) as [f| |] eqn:Hf; try discriminate.
      cbn [bind] in Hrun. eapply IH; [| |exact Hrun]; cbn [gf1 gf2].
      * eapply distanceAtAngle_not_negative; exact Hf.
      * exact H1.
    + destruct (_distanceAtAngle _ _ _) as [f| |] eqn:Hf; try discriminate.
      cbn [bind] in Hrun. eapply IH; [| |exact Hrun]; cbn [gf1 gf2].
      * exact H2.
      * eapply distanceAtAngle_not_negative; exact Hf.
  - injection Hrun as <-. split; assumption.
Qed.

Lemma distanceAtBestAngle_not_negative (fuel : nat) (points : list Point)
    (T : Template) (a b threshold d : num) :
  _distanceAtBestAngle fuel points T a b threshold = Ret d -> not_negative d.
Proof.
  unfold _distanceAtBestAngle. intros Hrun.
  destruct (_distanceAtAngle points T _) as [f1| |] eqn:Hf1; try discriminate.
  cbn [bind] in Hrun.
  destruct (_distanceAtAngle points T _) as [f2| |] eqn:Hf2 in Hrun; try discriminate.
  cbn [bind] in Hrun.
  destruct (golden_loop _ _ _ _ _) as [st| |] eqn:Hloop; try discriminate.
  cbn [bind] in Hrun. injection Hrun as <-.
  destruct (golden_loop_not_negative _ _ _ _ (mkBracket a b _ f1 _ f2 2) _
              (distanceAtAngle_not_negative _ _ _ _ Hf1)
              (distanceAtAngle_not_negative _ _ _ _ Hf2) Hloop) as [H1 H2].
  apply not_negative_min; assumption.
Qed.

Lemma check_loop_not_negative (fuel : nat) (points : list Point)
    (templates : list Template) :
  forall (i : nat) (b : num) (t : nat) (b' : num) (t' : nat),
    check_loop fuel points templates i b t = Ret (b', t') ->
    not_negative b -> not_negative b'.
Proof.
  induction templates as [|T templates IH]; intros i b t b' t' Hrun Hb;
    cbn [check_loop] in Hrun.
  - injection Hrun as <- <-. exact Hb.
  - destruct (_distanceAtBestAngle _ _ _ _ _ _) as [d| |] eqn:Hd; try discriminate.
    cbn [bind] in Hrun. destruct (d <? b)%js.
    + eapply IH; [exact Hrun|]. eapply distanceAtBestAngle_not_negative; exact Hd.
    + eapply IH; eassumption.
Qed.

Lemma score_unit (b : num) :
  not_negative b -> b <> NaN ->
  exists s : R, Math_max (Fin 1 - b / HalfDiagonal)%js (Fin 0) = Fin s /\ 0 <= s <= 1.
Proof.
  intros Hb Hnan. destruct OneDollarCheck.HalfDiagonal_pos as (hd & -> & Hhd).
  destruct b as [x| | |]; try congruence; simpl in Hb; try tauto.
  - rewrite div_Fin_nonzero by lra. cbn [jsub jneg jadd Math_max jlt].
    assert (0 <= x / hd).
    { apply Rmult_le_pos; [exact Hb | apply Rlt_le, Rinv_0_lt_compat; exact Hhd]. }
    case_bool_decide; eexists; (split; [reflexivity | lra]).
  - cbn [jdiv]. rewrite bool_decide_eq_false_2 by lra. simpl.
    eexists; split; [reflexivity | lra].
Qed.

Lemma check_score_unit (fuel : nat) (this : OneDollar) (h : gmap nat RawPoints)
    (points : nat) (r : Result) (h' : gmap nat RawPoints) :
  check fuel this h points = Ret (r, h') ->
  exists s : R, score r = Fin s /\ 0 <= s <= 1.
Proof.
  rewrite OneDollarPreprocess.check_preprocess. intros Hrun.
  destruct (preprocess fuel h points) as [[processed h1]| |]; try discriminate.
  cbn [bind] in Hrun.
  destruct (check_loop fuel processed (Templates this) 0 PInf 0) as [[b t]| |] eqn:Hloop;
    try discriminate.
  cbn [bind] in Hrun.
  destruct (Templates this !! t) as [T|]; try discriminate.
  cbn [deref bind] in Hrun. injection Hrun as <- _. cbn [score].
  apply score_unit.
  - eapply check_loop_not_negative; [exact Hloop | exact I].
  - eapply OneDollarCheck.check_loop_not_nan; [exact Hloop | discriminate].
Qed.

End OneDollarScore.

Module QDollarScore.
Import QDollar QDollarView.

(** The cloud distance is a non-negative real, whatever the points. *)
Lemma cloud_loop_real (pts2 : list Point) (n : nat) (minSoFar : num) :
  forall (pts1 : list Point) (matched : list bool) (s : R) (d : num),
    0 <= s ->
    cloud_loop pts1 pts2 n matched (Fin s) minSoFar = Ret d ->
    exists s' : R, d = Fin s' /\ 0 <= s'.
Proof.
  induction pts1 as [|p1 pts1 IH]; intros matched s d Hs Hrun; cbn [cloud_loop] in Hrun.
  - injection Hrun as <-. eauto.
  - destruct (nearest_loop p1 pts2 matched (seq 0 n) PInf None) as [[min index]| |] eqn:Hn;
      try discriminate.
    cbn [bind] in Hrun.
    destruct (QDollarCloud.nearest_loop_inv _ _ _ _ _ _ _ (or_introl eq_refl) Hn)
      as [Hr | (m & j & Hm & Hr)]; injection Hr as -> ->.
    + destruct (Fin s >=? minSoFar)%js; [injection Hrun as <-; eauto|].
      eapply IH; eassumption.
    + cbn [Math_sqrt] in Hrun. rewrite bool_decide_eq_false_2 in Hrun by lra.
      cbn [jadd] in Hrun. assert (0 <= s + sqrt m) by (pose proof (sqrt_pos m); lra).
      destruct (Fin (s + sqrt m) >=? minSoFar)%js; [injection Hrun as <-; eauto|].
      eapply IH; eassumption.
Qed.

Lemma cloudMatch_real (points : list Point) (T : Template) (minSoFar d : num) :
  _cloudMatch points T minSoFar = Ret d -> exists s : R, d = Fin s /\ 0 <= s.
Proof.
  unfold _cloudMatch, _cloudDistance. apply cloud_loop_real. lra.
Qed.

Lemma q_check_loop_not_negative (points : list Point) (templates : list Template) :
  forall (b : num) (t : option Template) (b' : num) (t' : option Template),
    check_loop points templates b t = Ret (b', t') ->
    not_negative b -> b <> NaN -> not_negative b' /\ b' <> NaN.
Proof.
  induction templates as [|T templates IH]; intros b t b' t' Hrun Hb Hnan;
    cbn [check_loop] in Hrun.
  - injection Hrun as <- <-. split; assumption.
  - destruct (_cloudMatch points T b) as [d| |] eqn:Hd; try discriminate.
    cbn [bind] in Hrun. destruct (cloudMatch_real _ _ _ _ Hd) as (s & -> & Hs).
    destruct (Fin s <? b)%js.
    + eapply IH; [exact Hrun | exact Hs | discriminate].
    + eapply IH; eassumption.
Qed.

Lemma q_score_unit (b : num) :
  not_negative b -> b <> NaN ->
  exists s : R,
    Math_max (Fin 1 - (b / Fin (INR NumPoints)) / Fin 0.5)%js (Fin 0) = Fin s /\
    0 <= s <= 1.
Proof.
  intros Hb Hnan. assert (Hn : INR NumPoints = 64) by (unfold NumPoints; simpl; lra).
  rewrite Hn. destruct b as [x| | |]; try congruence; simpl in Hb; try tauto.
  - rewrite !div_Fin_nonzero by lra. cbn [jsub jneg jadd Math_max jlt].
    case_bool_decide; eexists; (split; [reflexivity | lra]).
  - rewrite !QDollarCheck.div_PInf_pos by lra. simpl.
    eexists; split; [reflexivity | lra].
Qed.

Lemma q_check_score_unit (fuel : nat) (this : QDollar) (h : gmap nat RawPoints)
    (points : nat) (r : Result) (h' : gmap nat RawPoints) :
  check fuel this h points = Ret (r, h') ->
  exists s : R, score r = Fin s /\ 0 <= s <= 1.
Proof.
  rewrite QDollarPreprocess.q_check_preprocess. intros Hrun.
  destruct (preprocess fuel h points) as [[processed h1]| |]; try discriminate.
  cbn [bind] in Hrun.
  destruct (check_loop processed (Templates this) PInf None) as [[b t]| |] eqn:Hloop;
    try discriminate.
  cbn [bind] in Hrun.
  destruct (q_check_loop_not_negative _ _ _ _ _ _ Hloop I ltac:(discriminate))
    as [Hb Hnan].
  destruct t as [T|]; injection Hrun as <- _; cbn [score].
  - apply q_score_unit; assumption.
  - exists 0. split; [reflexivity | lra].
Qed.

End QDollarScore.

(** X3.  Whatever the store and the argument, the score of a result
    returned by [check] is a real number between [0] and [1] (never above
    [1], never infinite), in [OneDollar] and in [QDollar]. *)
Theorem X3_score_in_unit_interval
    (fuel1 : nat) (this1 : OneDollar.OneDollar) (h1 h1' : gmap nat OneDollar.RawPoints)
    (l1 : nat) (r1 : OneDollar.Result)
    (fuel2 : nat) (this2 : QDollar.QDollar) (h2 h2' : gmap nat QDollar.RawPoints)
    (l2 : nat) (r2 : QDollar.Result) :
  OneDollar.check fuel1 this1 h1 l1 = Ret (r1, h1') ->
  QDollar.check fuel2 this2 h2 l2 = Ret (r2, h2') ->
  (exists s : R, OneDollar.score r1 = Fin s /\ 0 <= s <= 1) /\
  (exists s : R, QDollar.score r2 = Fin s /\ 0 <= s <= 1).
Proof.
  intros H1 H2. split.
  - eapply OneDollarScore.check_score_unit. exact H1.
  - eapply QDollarScore.q_check_score_unit. exact H2.
Qed.

Lemma X3_witness :
  exists (r1 : OneDollar.Result) (h1' : gmap nat OneDollar.RawPoints)
         (r2 : QDollar.Result) (h2' : gmap nat QDollar.RawPoints),
    OneDollar.check 100 Samples.store1 Samples.heap1 0 = Ret (r1, h1') /\
    QDollar.check 100 Samples.storeQ Samples.heapQ 0 = Ret (r2, h2') /\
    (exists s : R, OneDollar.score r1 = Fin s /\ 0 <= s <= 1) /\
    (exists s : R, QDollar.score r2 = Fin s /\ 0 <= s <= 1).
Proof.
  destruct (OneDollarCheck.check_stroke Samples.store1 Samples.heap1 0
              (OneDollar.Records Samples.line1) eq_refl SampleFacts.line1_stroke
              ltac:(discriminate) SampleFacts.store1_wf)
    as (p1 & h1' & ds1 & t1 & T1 & s1 & Hrun1 & _).
  destruct (QDollarCheck.q_check_stroke Samples.storeQ Samples.heapQ 0
              (QDollar.Records Samples.lineQ) eq_refl SampleFacts.lineQ_stroke
              ltac:(discriminate) SampleFacts.storeQ_wf)
    as (p2 & h2' & ds2 & t2 & T2 & s2 & Hrun2 & _).
  destruct (Hrun1 100%nat) as (_ & _ & E1); [simpl; lia|].
  destruct (Hrun2 100%nat) as (_ & E2); [simpl; lia|].
  exists (OneDollar.mkResult (OneDollar.Name T1) s1), h1',
         (QDollar.mkResult (QDollar.Name T2) s2), h2'.
  split; [exact E1|]. split; [exact E2|].
  exact (X3_score_in_unit_interval _ _ _ _ _ _ _ _ _ _ _ _ E1 E2).
Defined.

(** ** The room server *)

Module WebTouchFacts.
Import WebTouch.

Lemma set_has_true (s : string) (l : list string) : set_has s l = true <-> s ∈ l.
Proof. unfold set_has. apply bool_decide_eq_true. Qed.

Lemma set_add_elem (s : string) (l : list string) : s ∈ set_add s l.
Proof.
  unfold set_add. destruct (set_has s l) eqn:H.
  - apply set_has_true. exact H.
  - apply elem_of_app. right. apply list_elem_of_singleton. reflexivity.
Qed.

Lemma set_add_NoDup (s : string) (l : list string) : NoDup l -> NoDup (set_add s l).
Proof.
  intros Hl. unfold set_add. destruct (set_has s l) eqn:H; [exact Hl|].
  apply NoDup_app. split; [exact Hl|]. split.
  - intros x Hx Hx'. apply list_elem_of_singleton in Hx'. subst x.
    apply set_has_true in Hx. congruence.
  - apply NoDup_singleton.
Qed.

Lemma set_delete_NoDup (s : string) (l : list string) : NoDup l -> NoDup (set_delete s l).
Proof. apply NoDup_filter. Qed.

Lemma set_delete_not_elem (s : string) (l : list string) : s ∉ set_delete s l.
Proof. unfold set_delete. intros H. apply list_elem_of_filter in H as [H _]. congruence. Qed.

Lemma key_step_ok (cs : ControllerState) (k : string) (targetMode : option string) :
  keyboard_ok cs -> keyboard_ok (key_step cs k targetMode).1.1.
Proof.
  intros [Hmode Hshift]. unfold key_step.
  case_bool_decide as Hk1.
  - destruct targetMode as [mode|]; [|split; assumption].
    destruct (truthy (Some mode) && bool_decide (mode ∈ allowedModes)
              && negb (bool_decide (keyboardMode cs = mode))) eqn:E;
      [|split; assumption].
    apply andb_prop in E as [E _]. apply andb_prop in E as [_ E].
    apply bool_decide_eq_true in E. split; [exact E | discriminate].
  - case_bool_decide as Hk2.
    + case_bool_decide as Hl; [|split; assumption].
      split; [exact Hmode | intros _; exact Hl].
    + destruct (bool_decide (keyboardMode cs = "letters"%string) && isShiftActive cs
                && is_lower_letter k) eqn:E; [|split; assumption].
      split; [exact Hmode | discriminate].
Qed.

Lemma server_ok_set_room (options : Options) (st : Server) (code : string)
    (roomState : RoomState) :
  server_ok options st -> room_ok options roomState ->
  server_ok options (set_room st code roomState).
Proof.
  intros Hst Hrs c rs. unfold set_room. cbn [roomStates].
  destruct (decide (c = code)) as [->|Hne].
  - rewrite lookup_insert_eq. intros [= <-]. exact Hrs.
  - rewrite lookup_insert_ne by congruence. apply Hst.
Qed.

Lemma server_ok_initial (options : Options) : server_ok options initial_server.
Proof. intros c rs H. cbn in H. rewrite lookup_empty in H. discriminate. Qed.

Lemma initial_room_ok (options : Options) (sid : string) :
  room_ok options (createInitialRoomState options sid).
Proof.
  unfold room_ok, keyboard_ok. cbn.
  split; [split; [apply list_elem_of_here | discriminate]|].
  split; [split; [discriminate | congruence]|].
  split; [constructor | reflexivity].
Qed.

Lemma connection_ok (options : Options) (st : Server) (socket : string) :
  server_ok options st -> server_ok options (connection st socket).1.
Proof. intros H. exact H. Qed.

Lemma disconnect_ok (options : Options) (st : Server) (socket : string) :
  server_ok options st -> server_ok options (disconnect st socket).1.
Proof.
  intros Hst. unfold disconnect. cbn [currentRoomCode roomStates connected].
  destruct (currentRoomCode st !! socket) as [code|]; [|exact Hst].
  case_bool_decide; [exact Hst|].
  destruct (roomStates st !! code) as [rs|] eqn:Hrs; [|exact Hst].
  case_bool_decide.
  - cbn [fst]. intros c r Hc. cbn [roomStates] in Hc.
    apply lookup_delete_Some in Hc as [_ Hc]. exact (Hst c r Hc).
  - destruct (set_has socket (controllerSocketIds rs)) eqn:Hhas; [|exact Hst].
    destruct (Hst code rs Hrs) as (Hk & Hv & Hnd & Hsens).
    cbn [controllerSocketIds set_controllers lastKnownCursor].
    assert (Hv' : isVisible (lastKnownCursor rs) = true).
    { apply Hv. apply set_has_true in Hhas. intros Hnil. rewrite Hnil in Hhas.
      inversion Hhas. }
    rewrite Hv'. rewrite andb_true_r.
    case_bool_decide as Hlen; cbn [fst].
    + apply (server_ok_set_room options (mkServer _ _ _)); [exact Hst|].
      apply length_zero_iff_nil in Hlen.
      unfold room_ok. cbn. rewrite Hlen.
      split; [exact Hk|]. split; [|split; [constructor | exact Hsens]].
      split; [discriminate | congruence].
    + apply (server_ok_set_room options (mkServer _ _ _)); [exact Hst|].
      unfold room_ok. cbn.
      split; [exact Hk|]. split; [|split; [apply set_delete_NoDup; exact Hnd | exact Hsens]].
      split; [|intros _; exact Hv'].
      intros _ Hnil. apply Hlen. rewrite Hnil. reflexivity.
Qed.

Lemma register_app_room_ok (options : Options) (codes : list string) (st : Server)
    (socket : string) (st' : Server) (acts : list Action) :
  server_ok options st ->
  register_app_room options codes st socket = Ret (st', acts) ->
  server_ok options st'.
Proof.
  intros Hst. unfold register_app_room.
  destruct (fresh_code codes (roomStates st)) as [code| |]; try discriminate.
  cbn [bind]. intros [= <- _].
  apply server_ok_set_room; [exact Hst | apply initial_room_ok].
Qed.

Lemma rejoin_app_room_ok (options : Options) (st : Server) (socket : string)
    (roomCode : option string) :
  server_ok options st -> server_ok options (rejoin_app_room st socket roomCode).1.
Proof.
  intros Hst. unfold rejoin_app_room.
  destruct (roomStates st !! room_key roomCode) as [rs|] eqn:Hrs; [|exact Hst].
  cbn [fst]. apply server_ok_set_room; [exact Hst|]. exact (Hst _ _ Hrs).
Qed.

Lemma register_controller_room_ok (options : Options) (st : Server) (socket : string)
    (roomCode : option string) :
  server_ok options st ->
  server_ok options (register_controller_room st socket roomCode).1.
Proof.
  intros Hst. unfold register_controller_room.
  destruct (roomStates st !! room_key roomCode) as [rs|] eqn:Hrs; [|exact Hst].
  cbn [fst]. apply server_ok_set_room; [exact Hst|].
  destruct (Hst _ _ Hrs) as (Hk & Hv & Hnd & Hsens).
  unfold room_ok. cbn.
  split; [exact Hk|]. split; [|split; [apply set_add_NoDup; exact Hnd | exact Hsens]].
  split; [|reflexivity].
  intros _ Hnil. pose proof (set_add_elem socket (controllerSocketIds rs)) as Hin.
  rewrite Hnil in Hin. inversion Hin.
Qed.

Lemma report_cursor_position_ok (options : Options) (st : Server) (socket : string)
    (data : option CursorReport) :
  server_ok options st -> server_ok options (report_cursor_position st socket data).1.
Proof.
  intros Hst. unfold report_cursor_position.
  destruct data as [[roomId [pos|]]|]; try exact Hst.
  destruct (truthy roomId); [|exact Hst].
  destruct (roomStates st !! room_key roomId) as [rs|] eqn:Hrs; [|exact Hst].
  case_bool_decide; [|exact Hst].
  cbn [fst]. apply server_ok_set_room; [exact Hst|]. exact (Hst _ _ Hrs).
Qed.

Lemma report_focus_change_ok (options : Options) (st : Server) (socket : string)
    (data : option FocusReport) :
  server_ok options st -> server_ok options (report_focus_change st socket data).1.
Proof.
  intros Hst. unfold report_focus_change.
  destruct data as [[roomId [focusInfo|]]|]; try exact Hst.
  destruct (truthy roomId); [|exact Hst].
  destruct (roomStates st !! room_key roomId) as [rs|] eqn:Hrs; [|exact Hst].
  case_bool_decide; [|exact Hst].
  cbn [fst]. apply server_ok_set_room; [exact Hst|]. exact (Hst _ _ Hrs).
Qed.

Lemma cursor_move_state (st : Server) (socket : string) (data : option MoveData) :
  (cursor_move st socket data).1 = st.
Proof.
  unfold cursor_move. destruct data as [data|]; [|reflexivity].
  destruct (truthy _); [|reflexivity].
  destruct (roomStates st !! _) as [rs|]; [|reflexivity].
  destruct (set_has _ _); [|reflexivity].
  repeat case_bool_decide; reflexivity.
Qed.

Lemma tap_state (st : Server) (socket : string) (data : option TapData) :
  (tap st socket data).1 = st.
Proof.
  unfold tap. destruct data as [data|]; [|reflexivity].
  destruct (truthy _); [|reflexivity].
  destruct (roomStates st !! _) as [rs|]; [|reflexivity].
  destruct (set_has _ _); [|reflexivity].
  repeat case_bool_decide; reflexivity.
Qed.

Lemma key_input_ok (options : Options) (st : Server) (socket : string)
    (data : option KeyData) :
  server_ok options st -> server_ok options (key_input st socket data).1.
Proof.
  intros Hst. unfold key_input.
  destruct data as [[roomId [k|] targetMode]|]; try exact Hst.
  destruct (truthy roomId && truthy (Some k)); [|exact Hst].
  destruct (roomStates st !! room_key roomId) as [rs|] eqn:Hrs; [|exact Hst].
  destruct (set_has _ _); [|exact Hst].
  pose proof (key_step_ok (controllerState rs) k targetMode) as Hstep.
  destruct (key_step (controllerState rs) k targetMode) as [[cs changed] out].
  cbn [fst]. apply server_ok_set_room; [exact Hst|].
  destruct (Hst _ _ Hrs) as (Hk & Hv & Hnd & Hsens).
  unfold room_ok. cbn.
  split; [exact (Hstep Hk)|]. split; [exact Hv|]. split; [exact Hnd | exact Hsens].
Qed.

Lemma ret_fst {A B : Type} (p : A * B) (a : A) (b : B) : Ret p = Ret (a, b) -> p.1 = a.
Proof. intros [= ->]. reflexivity. Qed.

Lemma handle_ok (options : Options) (st : Server) (e : Event) (st' : Server)
    (acts : list Action) :
  server_ok options st -> handle options st e = Ret (st', acts) ->
  server_ok options st'.
Proof.
  intros Hst Hrun. destruct e; cbn [handle] in Hrun;
    try (apply ret_fst in Hrun; subst st').
  - apply connection_ok; exact Hst.
  - apply disconnect_ok; exact Hst.
  - eapply register_app_room_ok; eassumption.
  - apply rejoin_app_room_ok; exact Hst.
  - apply register_controller_room_ok; exact Hst.
  - apply report_cursor_position_ok; exact Hst.
  - apply report_focus_change_ok; exact Hst.
  - rewrite cursor_move_state. exact Hst.
  - rewrite tap_state. exact Hst.
  - apply key_input_ok; exact Hst.
Qed.

Lemma run_ok (options : Options) (events : list Event) :
  forall (st st' : Server) (acts : list Action),
    server_ok options st -> run options st events = Ret (st', acts) ->
    server_ok options st'.
Proof.
  induction events as [|e events IH]; intros st st' acts Hst Hrun; cbn [run] in Hrun.
  - injection Hrun as <- _. exact Hst.
  - destruct (handle options st e) as [[st1 acts1]| |] eqn:He; try discriminate.
    cbn [bind] in Hrun.
    destruct (run options st1 events) as [[st2 acts2]| |] eqn:Hr; try discriminate.
    cbn [bind] in Hrun. injection Hrun as <- _.
    eapply IH; [|exact Hr]. eapply handle_ok; eassumption.
Qed.

(** *** Senders that are not entitled *)

Lemma not_controller_has (st : Server) (socket : string) (roomId : option string)
    (roomState : RoomState) :
  ~ is_controller st socket roomId ->
  roomStates st !! room_key roomId = Some roomState ->
  set_has socket (controllerSocketIds roomState) = false.
Proof.
  intros Hnot Hrs. destruct (set_has _ _) eqn:H; [|reflexivity].
  exfalso. apply Hnot. exists roomState. split; [exact Hrs|].
  apply set_has_true. exact H.
Qed.

Lemma cursor_move_ignored (st : Server) (socket : string) (data : MoveData) :
  ~ is_controller st socket (mv_roomId data) ->
  cursor_move st socket (Some data) = (st, []).
Proof.
  intros Hnot. unfold cursor_move.
  destruct (truthy _); [|reflexivity].
  destruct (roomStates st !! _) as [rs|] eqn:Hrs; [|reflexivity].
  rewrite (not_controller_has st socket _ rs Hnot Hrs). reflexivity.
Qed.

Lemma tap_ignored (st : Server) (socket : string) (data : TapData) :
  ~ is_controller st socket (tap_roomId data) ->
  tap st socket (Some data) = (st, []).
Proof.
  intros Hnot. unfold tap.
  destruct (truthy _); [|reflexivity].
  destruct (roomStates st !! _) as [rs|] eqn:Hrs; [|reflexivity].
  rewrite (not_controller_has st socket _ rs Hnot Hrs). reflexivity.
Qed.

Lemma key_input_ignored (st : Server) (socket : string) (data : KeyData) :
  ~ is_controller st socket (key_roomId data) ->
  key_input st socket (Some data) = (st, []).
Proof.
  intros Hnot. unfold key_input. destruct data as [roomId [k|] targetMode]; [|reflexivity].
  destruct (truthy roomId && truthy (Some k)); [|reflexivity].
  destruct (roomStates st !! _) as [rs|] eqn:Hrs; [|reflexivity].
  cbn [key_roomId] in Hnot.
  rewrite (not_controller_has st socket _ rs Hnot Hrs). reflexivity.
Qed.

Lemma report_cursor_position_ignored (st : Server) (socket : string)
    (data : CursorReport) :
  ~ is_app st socket (cr_roomId data) ->
  report_cursor_position st socket (Some data) = (st, []).
Proof.
  intros Hnot. unfold report_cursor_position. destruct data as [roomId [pos|]]; [|reflexivity].
  destruct (truthy roomId); [|reflexivity].
  destruct (roomStates st !! _) as [rs|] eqn:Hrs; [|reflexivity].
  case_bool_decide as Happ; [|reflexivity].
  exfalso. apply Hnot. exists rs. split; assumption.
Qed.

Lemma report_focus_change_ignored (st : Server) (socket : string) (data : FocusReport) :
  ~ is_app st socket (fr_roomId data) ->
  report_focus_change st socket (Some data) = (st, []).
Proof.
  intros Hnot. unfold report_focus_change.
  destruct data as [roomId [focusInfo|]]; [|reflexivity].
  destruct (truthy roomId); [|reflexivity].
  destruct (roomStates st !! _) as [rs|] eqn:Hrs; [|reflexivity].
  case_bool_decide as Happ; [|reflexivity].
  exfalso. apply Hnot. exists rs. split; assumption.
Qed.

(** *** The keyboard *)

Lemma server_eta (st : Server) :
  mkServer (roomStates st) (currentRoomCode st) (connected st) = st.
Proof. destruct st. reflexivity. Qed.

Lemma set_keyboard_id (roomState : RoomState) :
  set_keyboard roomState (controllerState roomState) = roomState.
Proof. destruct roomState. reflexivity. Qed.

Lemma set_keyboard_twice (roomState : RoomState) (cs cs' : ControllerState) :
  set_keyboard (set_keyboard roomState cs) cs' = set_keyboard roomState cs'.
Proof. reflexivity. Qed.

Lemma set_room_id (st : Server) (code : string) (roomState : RoomState) :
  roomStates st !! code = Some roomState -> set_room st code roomState = st.
Proof.
  intros H. unfold set_room. rewrite insert_id by exact H. apply server_eta.
Qed.

Lemma set_room_twice (st : Server) (code : string) (r1 r2 : RoomState) :
  set_room (set_room st code r1) code r2 = set_room st code r2.
Proof. unfold set_room. cbn [roomStates currentRoomCode connected]. rewrite insert_insert_eq. reflexivity. Qed.

Lemma set_room_lookup (st : Server) (code : string) (roomState : RoomState) :
  roomStates (set_room st code roomState) !! code = Some roomState.
Proof. unfold set_room. cbn [roomStates]. apply lookup_insert_eq. Qed.

Lemma lower_letter_shape (k : string) :
  is_lower_letter k = true ->
  k <> ""%string /\ k <> "ToggleMode"%string /\ k <> "ToggleShift"%string /\
  toUpperCase k <> ""%string.
Proof.
  destruct k as [|c [|c' k]]; cbn [is_lower_letter]; try discriminate.
  intros _. repeat split; discriminate.
Qed.

(** A key from a controller of the room. *)
Lemma key_input_controller (st : Server) (socket : string) (roomId : option string)
    (k : string) (targetMode : option string) (roomState : RoomState) :
  truthy roomId = true -> k <> ""%string ->
  roomStates st !! room_key roomId = Some roomState ->
  socket ∈ controllerSocketIds roomState ->
  key_input st socket (Some (mkKeyData roomId (Some k) targetMode))
  = (set_room st (room_key roomId)
       (set_keyboard roomState (key_step (controllerState roomState) k targetMode).1.1),
     (if (key_step (controllerState roomState) k targetMode).1.2
      then map (fun sid =>
                  Emit sid (update_controller_state
                              (key_step (controllerState roomState) k targetMode).1.1))
               (controllerSocketIds roomState)
      else [])
     ++ (if truthy (key_step (controllerState roomState) k targetMode).2
            && negb (bool_decide (appSocketId roomState = ""%string))
            && bool_decide (appSocketId roomState ∈ connected st)
         then [Emit (appSocketId roomState)
                 (send_key_input
                    (default ""%string
                       (key_step (controllerState roomState) k targetMode).2))]
         else [])).
Proof.
  intros Hroom Hk Hrs Hin. unfold key_input. rewrite Hroom.
  assert (Htk : truthy (Some k) = true).
  { cbn [truthy]. rewrite bool_decide_eq_false_2 by exact Hk. reflexivity. }
  rewrite Htk. cbn [andb]. rewrite Hrs.
  rewrite (proj2 (set_has_true socket _) Hin).
  destruct (key_step (controllerState roomState) k targetMode) as [[cs changed] out].
  cbn [fst snd]. unfold broadcastControllerStateToRoom.
  rewrite set_room_lookup. reflexivity.
Qed.

Lemma key_step_shift (b : bool) (targetMode : option string) :
  key_step (mkControllerState "letters" b) "ToggleShift" targetMode
  = (mkControllerState "letters" (negb b), true, None).
Proof. reflexivity. Qed.

Lemma key_step_upper (k : string) (targetMode : option string) :
  is_lower_letter k = true ->
  key_step (mkControllerState "letters" true) k targetMode
  = (mkControllerState "letters" false, true, Some (toUpperCase k)).
Proof.
  intros Hk. destruct (lower_letter_shape k Hk) as (_ & H1 & H2 & _).
  unfold key_step. rewrite !bool_decide_eq_false_2 by assumption.
  cbn [keyboardMode isShiftActive]. rewrite Hk. reflexivity.
Qed.

Lemma key_step_plain (k : string) (targetMode : option string) (mode : string) :
  k <> "ToggleMode"%string -> k <> "ToggleShift"%string ->
  key_step (mkControllerState mode false) k targetMode
  = (mkControllerState mode false, false, Some k).
Proof.
  intros H1 H2. unfold key_step. rewrite !bool_decide_eq_false_2 by assumption.
  cbn [keyboardMode isShiftActive]. rewrite andb_false_r. reflexivity.
Qed.

(** Shift, a letter, another key. *)
Lemma shift_sequence (options : Options) (st : Server) (socket : string)
    (roomId : option string) (k1 k2 : string) (roomState : RoomState) :
  truthy roomId = true ->
  roomStates st !! room_key roomId = Some roomState ->
  socket ∈ controllerSocketIds roomState ->
  controllerState roomState = mkControllerState "letters" false ->
  appSocketId roomState <> ""%string -> appSocketId roomState ∈ connected st ->
  is_lower_letter k1 = true ->
  k2 <> ""%string -> k2 <> "ToggleMode"%string -> k2 <> "ToggleShift"%string ->
  run options st
    [on_key_input socket (Some (mkKeyData roomId (Some "ToggleShift"%string) None));
     on_key_input socket (Some (mkKeyData roomId (Some k1) None));
     on_key_input socket (Some (mkKeyData roomId (Some k2) None))]
  = Ret (st,
         map (fun sid => Emit sid (update_controller_state
                                     (mkControllerState "letters" true)))
             (controllerSocketIds roomState)
         ++ map (fun sid => Emit sid (update_controller_state
                                        (mkControllerState "letters" false)))
                (controllerSocketIds roomState)
         ++ [Emit (appSocketId roomState) (send_key_input (toUpperCase k1));
             Emit (appSocketId roomState) (send_key_input k2)]).
Proof.
  intros Hroom Hrs Hin Hcs Happ Hconn Hk1 Hk2 Hk2m Hk2s.
  destruct (lower_letter_shape k1 Hk1) as (Hk1e & _ & _ & Hup).
  assert (Htrue : forall x : string, x <> ""%string -> truthy (Some x) = true).
  { intros x Hx. cbn [truthy]. rewrite bool_decide_eq_false_2 by exact Hx. reflexivity. }
  assert (Hguard : negb (bool_decide (appSocketId roomState = ""%string))
                   && bool_decide (appSocketId roomState ∈ connected st) = true).
  { rewrite bool_decide_eq_false_2 by exact Happ.
    rewrite bool_decide_eq_true_2 by exact Hconn. reflexivity. }
  set (code := room_key roomId) in *.
  set (r1 := set_keyboard roomState (mkControllerState "letters" true)).
  assert (Hts : "ToggleShift"%string <> ""%string) by discriminate.
  assert (E1 : key_input st socket
                 (Some (mkKeyData roomId (Some "ToggleShift"%string) None))
               = (set_room st code r1,
                  map (fun sid => Emit sid (update_controller_state
                                              (mkControllerState "letters" true)))
                      (controllerSocketIds roomState))).
  { rewrite (key_input_controller st socket roomId "ToggleShift" None roomState Hroom
               Hts Hrs Hin).
    rewrite Hcs, key_step_shift. cbn [fst snd negb truthy andb]. rewrite app_nil_r.
    reflexivity. }
  assert (E2 : key_input (set_room st code r1) socket
                 (Some (mkKeyData roomId (Some k1) None))
               = (st,
                  map (fun sid => Emit sid (update_controller_state
                                              (mkControllerState "letters" false)))
                      (controllerSocketIds roomState)
                  ++ [Emit (appSocketId roomState) (send_key_input (toUpperCase k1))])).
  { rewrite (key_input_controller (set_room st code r1) socket roomId k1 None r1 Hroom
               Hk1e (set_room_lookup st code r1) Hin).
    change (controllerState r1) with (mkControllerState "letters" true).
    change (controllerSocketIds r1) with (controllerSocketIds roomState).
    change (appSocketId r1) with (appSocketId roomState).
    change (connected (set_room st code r1)) with (connected st).
    rewrite key_step_upper by exact Hk1. cbn [fst snd].
    rewrite (Htrue _ Hup), <- andb_assoc, Hguard. cbn [andb default].
    fold code. rewrite set_room_twice. unfold r1. rewrite set_keyboard_twice.
    rewrite <- Hcs, set_keyboard_id, (set_room_id st code roomState Hrs).
    reflexivity. }
  assert (E3 : key_input st socket (Some (mkKeyData roomId (Some k2) None))
               = (st, [Emit (appSocketId roomState) (send_key_input k2)])).
  { rewrite (key_input_controller st socket roomId k2 None roomState Hroom Hk2 Hrs Hin).
    rewrite Hcs, key_step_plain by assumption. cbn [fst snd].
    rewrite (Htrue _ Hk2), <- andb_assoc, Hguard. cbn [andb default app].
    rewrite <- Hcs, set_keyboard_id. fold code.
    rewrite (set_room_id st code roomState Hrs). reflexivity. }
  cbn [run handle]. rewrite E1. cbn [bind]. rewrite E2. cbn [bind]. rewrite E3.
  cbn [bind]. rewrite app_nil_r, <- !app_assoc. reflexivity.
Qed.

(** *** The end of a room *)

Lemma disconnect_app (st : Server) (app : string) (code : string)
    (roomState : RoomState) :
  currentRoomCode st !! app = Some code -> code <> ""%string ->
  roomStates st !! code = Some roomState -> appSocketId roomState = app ->
  disconnect st app
  = (mkServer (delete code (roomStates st)) (currentRoomCode st)
       (connected st ∖ {[ app ]}),
     flat_map (fun controllerSid =>
                 if bool_decide (controllerSid ∈ connected st ∖ {[ app ]})
                 then [Emit controllerSid app_disconnected; Leave controllerSid code]
                 else [])
              (controllerSocketIds roomState)).
Proof.
  intros Hcur Hcode Hrs Happ. unfold disconnect. cbn [currentRoomCode roomStates connected].
  rewrite Hcur. rewrite bool_decide_eq_false_2 by exact Hcode. rewrite Hrs.
  rewrite bool_decide_eq_true_2 by (symmetry; exact Happ). reflexivity.
Qed.

Lemma no_room_not_controller (st : Server) (socket : string) (roomId : option string) :
  roomStates st !! room_key roomId = None -> ~ is_controller st socket roomId.
Proof. intros Hnone (rs & Hrs & _). congruence. Qed.

Lemma register_controller_no_room (st : Server) (socket : string)
    (roomId : option string) :
  roomStates st !! room_key roomId = None ->
  register_controller_room st socket roomId
  = (st, [Emit socket (invalid_room (room_key roomId)); Disconnect socket]).
Proof. intros H. unfold register_controller_room. rewrite H. reflexivity. Qed.

End WebTouchFacts.

(** X17.  In every state the room server reaches from its initial state,
    whatever the events and their arguments, the keyboard of every room
    is in one of the modes letters, numbers and symbols2, and shift is
    active in letters mode only. *)
Theorem X17_keyboard_invariant
    (options : WebTouch.Options) (events : list WebTouch.Event)
    (st : WebTouch.Server) (acts : list WebTouch.Action)
    (code : string) (roomState : WebTouch.RoomState) :
  WebTouch.run options WebTouch.initial_server events = Ret (st, acts) ->
  WebTouch.roomStates st !! code = Some roomState ->
  WebTouch.keyboardMode (WebTouch.controllerState roomState) ∈ WebTouch.allowedModes /\
  (WebTouch.isShiftActive (WebTouch.controllerState roomState) = true ->
   WebTouch.keyboardMode (WebTouch.controllerState roomState) = "letters"%string).
Proof.
  intros Hrun Hrs.
  pose proof (WebTouchFacts.run_ok options events _ _ _
                (WebTouchFacts.server_ok_initial options) Hrun code roomState Hrs)
    as (Hk & _).
  exact Hk.
Qed.

Lemma X17_witness :
  exists (st : WebTouch.Server) (acts : list WebTouch.Action)
         (roomState : WebTouch.RoomState),
    WebTouch.run WebTouch.DEFAULT_OPTIONS WebTouch.initial_server WebTouchSamples.session
    = Ret (st, acts) /\
    WebTouch.roomStates st !! "ABCD"%string = Some roomState /\
    WebTouch.keyboardMode (WebTouch.controllerState roomState) ∈ WebTouch.allowedModes /\
    (WebTouch.isShiftActive (WebTouch.controllerState roomState) = true ->
     WebTouch.keyboardMode (WebTouch.controllerState roomState) = "letters"%string).
Proof.
  assert (H : exists st acts,
             WebTouch.run WebTouch.DEFAULT_OPTIONS WebTouch.initial_server
               WebTouchSamples.session = Ret (st, acts) /\
             exists roomState, WebTouch.roomStates st !! "ABCD"%string = Some roomState).
  { vm_compute. eexists _, _. split; [reflexivity|]. eexists. reflexivity. }
  destruct H as (st & acts & Hrun & rs & Hrs).
  exists st, acts, rs. split; [exact Hrun|]. split; [exact Hrs|].
  exact (X17_keyboard_invariant _ _ _ _ _ _ Hrun Hrs).
Defined.

(** X18.  In every state the room server reaches from its initial state,
    the cursor of a room is marked visible exactly when the room has at
    least one controller, no controller is listed twice, and the
    sensitivity of the room is the configured [defaultSensitivity]. *)
Theorem X18_cursor_visibility_invariant
    (options : WebTouch.Options) (events : list WebTouch.Event)
    (st : WebTouch.Server) (acts : list WebTouch.Action)
    (code : string) (roomState : WebTouch.RoomState) :
  WebTouch.run options WebTouch.initial_server events = Ret (st, acts) ->
  WebTouch.roomStates st !! code = Some roomState ->
  (WebTouch.isVisible (WebTouch.lastKnownCursor roomState) = true
   <-> WebTouch.controllerSocketIds roomState <> []) /\
  NoDup (WebTouch.controllerSocketIds roomState) /\
  WebTouch.sensitivity roomState = WebTouch.defaultSensitivity options.
Proof.
  intros Hrun Hrs.
  pose proof (WebTouchFacts.run_ok options events _ _ _
                (WebTouchFacts.server_ok_initial options) Hrun code roomState Hrs)
    as (_ & H).
  exact H.
Qed.

Lemma X18_witness :
  exists (st : WebTouch.Server) (acts : list WebTouch.Action)
         (roomState : WebTouch.RoomState),
    WebTouch.run WebTouch.DEFAULT_OPTIONS WebTouch.initial_server WebTouchSamples.session
    = Ret (st, acts) /\
    WebTouch.roomStates st !! "ABCD"%string = Some roomState /\
    (WebTouch.isVisible (WebTouch.lastKnownCursor roomState) = true
     <-> WebTouch.controllerSocketIds roomState <> []) /\
    NoDup (WebTouch.controllerSocketIds roomState) /\
    WebTouch.sensitivity roomState = Fin 2.
Proof.
  assert (H : exists st acts,
             WebTouch.run WebTouch.DEFAULT_OPTIONS WebTouch.initial_server
               WebTouchSamples.session = Ret (st, acts) /\
             exists roomState, WebTouch.roomStates st !! "ABCD"%string = Some roomState).
  { vm_compute. eexists _, _. split; [reflexivity|]. eexists. reflexivity. }
  destruct H as (st & acts & Hrun & rs & Hrs).
  exists st, acts, rs. split; [exact Hrun|]. split; [exact Hrs|].
  exact (X18_cursor_visibility_invariant _ _ _ _ _ _ Hrun Hrs).
Defined.

(** X19.  Events from a sender that is not entitled to them are dropped:
    [cursor_move], [tap] and [key_input] from a socket that is not a
    controller of the room named in the data, and
    [report_cursor_position] and [report_focus_change] from a socket that
    is not the app of that room, change nothing in the state and make no
    call at all. *)
Theorem X19_unentitled_sender_ignored
    (st : WebTouch.Server) (socket : string)
    (move : WebTouch.MoveData) (tapped : WebTouch.TapData) (keyed : WebTouch.KeyData)
    (cursor : WebTouch.CursorReport) (focus : WebTouch.FocusReport) :
  ~ WebTouch.is_controller st socket (WebTouch.mv_roomId move) ->
  ~ WebTouch.is_controller st socket (WebTouch.tap_roomId tapped) ->
  ~ WebTouch.is_controller st socket (WebTouch.key_roomId keyed) ->
  ~ WebTouch.is_app st socket (WebTouch.cr_roomId cursor) ->
  ~ WebTouch.is_app st socket (WebTouch.fr_roomId focus) ->
  WebTouch.cursor_move st socket (Some move) = (st, []) /\
  WebTouch.tap st socket (Some tapped) = (st, []) /\
  WebTouch.key_input st socket (Some keyed) = (st, []) /\
  WebTouch.report_cursor_position st socket (Some cursor) = (st, []) /\
  WebTouch.report_focus_change st socket (Some focus) = (st, []).
Proof.
  intros H1 H2 H3 H4 H5. split; [|split; [|split; [|split]]].
  - apply WebTouchFacts.cursor_move_ignored; exact H1.
  - apply WebTouchFacts.tap_ignored; exact H2.
  - apply WebTouchFacts.key_input_ignored; exact H3.
  - apply WebTouchFacts.report_cursor_position_ignored; exact H4.
  - apply WebTouchFacts.report_focus_change_ignored; exact H5.
Qed.

Lemma X19_witness :
  WebTouch.key_input WebTouchSamples.server "intruder"
    (Some (WebTouch.mkKeyData (Some "ABCD"%string) (Some "ToggleShift"%string) None))
  = (WebTouchSamples.server, []) /\
  WebTouch.report_cursor_position WebTouchSamples.server "c1"
    (Some (WebTouch.mkCursorReport (Some "ABCD"%string) (Some (Fin 0, Fin 0))))
  = (WebTouchSamples.server, []).
Proof.
  assert (Hc : ~ WebTouch.is_controller WebTouchSamples.server "intruder"
                 (Some "ABCD"%string)).
  { intros (rs & Hrs & Hin). vm_compute in Hrs. injection Hrs as <-.
    apply WebTouchFacts.set_has_true in Hin. vm_compute in Hin. discriminate. }
  assert (Ha : ~ WebTouch.is_app WebTouchSamples.server "c1" (Some "ABCD"%string)).
  { intros (rs & Hrs & Happ). vm_compute in Hrs. injection Hrs as <-. discriminate. }
  destruct (X19_unentitled_sender_ignored WebTouchSamples.server "intruder"
              (WebTouch.mkMoveData (Some "ABCD"%string) None None)
              (WebTouch.mkTapData (Some "ABCD"%string) None)
              (WebTouch.mkKeyData (Some "ABCD"%string) (Some "ToggleShift"%string) None)
              (WebTouch.mkCursorReport None None)
              (WebTouch.mkFocusReport None None))
    as (_ & _ & Hk & _); try exact Hc.
  - intros (rs & Hrs & _). vm_compute in Hrs. discriminate.
  - intros (rs & Hrs & _). vm_compute in Hrs. discriminate.
  - destruct (X19_unentitled_sender_ignored WebTouchSamples.server "c1"
                (WebTouch.mkMoveData None None None)
                (WebTouch.mkTapData None None)
                (WebTouch.mkKeyData None None None)
                (WebTouch.mkCursorReport (Some "ABCD"%string) (Some (Fin 0, Fin 0)))
                (WebTouch.mkFocusReport (Some "ABCD"%string) None))
      as (_ & _ & _ & Hr & _); try exact Ha;
      try (intros (rs & Hrs & _); vm_compute in Hrs; discriminate).
    split; [exact Hk | exact Hr].
Defined.

(** X20.  Shift is one-shot.  In a room in letters mode whose app is
    connected, when a controller sends ToggleShift, then a lower-case
    letter, then any other key: every controller of the room is told that
    shift is on and then that it is off again, the app receives the
    letter in upper case followed by the other key unchanged, and the
    server is back in the state it started from. *)
Theorem X20_shift_is_one_shot
    (options : WebTouch.Options) (st : WebTouch.Server) (socket : string)
    (roomId : option string) (k1 k2 : string) (roomState : WebTouch.RoomState) :
  WebTouch.truthy roomId = true ->
  WebTouch.roomStates st !! WebTouch.room_key roomId = Some roomState ->
  socket ∈ WebTouch.controllerSocketIds roomState ->
  WebTouch.controllerState roomState = WebTouch.mkControllerState "letters" false ->
  WebTouch.appSocketId roomState <> ""%string ->
  WebTouch.appSocketId roomState ∈ WebTouch.connected st ->
  WebTouch.is_lower_letter k1 = true ->
  k2 <> ""%string -> k2 <> "ToggleMode"%string -> k2 <> "ToggleShift"%string ->
  WebTouch.run options st
    [WebTouch.on_key_input socket
       (Some (WebTouch.mkKeyData roomId (Some "ToggleShift"%string) None));
     WebTouch.on_key_input socket (Some (WebTouch.mkKeyData roomId (Some k1) None));
     WebTouch.on_key_input socket (Some (WebTouch.mkKeyData roomId (Some k2) None))]
  = Ret (st,
         map (fun sid => WebTouch.Emit sid
                           (WebTouch.update_controller_state
                              (WebTouch.mkControllerState "letters" true)))
             (WebTouch.controllerSocketIds roomState)
         ++ map (fun sid => WebTouch.Emit sid
                              (WebTouch.update_controller_state
                                 (WebTouch.mkControllerState "letters" false)))
                (WebTouch.controllerSocketIds roomState)
         ++ [WebTouch.Emit (WebTouch.appSocketId roomState)
               (WebTouch.send_key_input (WebTouch.toUpperCase k1));
             WebTouch.Emit (WebTouch.appSocketId roomState)
               (WebTouch.send_key_input k2)]).
Proof. apply WebTouchFacts.shift_sequence. Qed.

Lemma X20_witness :
  exists acts : list WebTouch.Action,
    WebTouch.run WebTouch.DEFAULT_OPTIONS WebTouchSamples.server
      [WebTouch.on_key_input "c1"
         (Some (WebTouch.mkKeyData (Some "abcd"%string) (Some "ToggleShift"%string) None));
       WebTouch.on_key_input "c1"
         (Some (WebTouch.mkKeyData (Some "abcd"%string) (Some "q"%string) None));
       WebTouch.on_key_input "c1"
         (Some (WebTouch.mkKeyData (Some "abcd"%string) (Some "w"%string) None))]
    = Ret (WebTouchSamples.server, acts) /\
    last acts = Some (WebTouch.Emit "app" (WebTouch.send_key_input "w")) /\
    In (WebTouch.Emit "app" (WebTouch.send_key_input "Q")) acts.
Proof.
  eexists. split.
  - apply (X20_shift_is_one_shot WebTouch.DEFAULT_OPTIONS WebTouchSamples.server "c1"
             (Some "abcd"%string) "q" "w" WebTouchSamples.room).
    + reflexivity.
    + vm_compute. reflexivity.
    + apply list_elem_of_here.
    + reflexivity.
    + discriminate.
    + vm_compute. reflexivity.
    + reflexivity.
    + discriminate.
    + discriminate.
    + discriminate.
  - split; [reflexivity|]. cbn. auto 10.
Defined.

(** X21.  When the app of a room disconnects the room is closed: its
    state is deleted, every controller of the room that is still
    connected is sent [app_disconnected] and leaves the room, and from
    then on [cursor_move], [tap] and [key_input] for that room do nothing
    while a socket that tries to join it as controller gets
    [invalid_room] and is disconnected. *)
Theorem X21_app_disconnect_closes_room
    (st : WebTouch.Server) (app : string) (code : string)
    (roomState : WebTouch.RoomState) :
  WebTouch.currentRoomCode st !! app = Some code -> code <> ""%string ->
  WebTouch.roomStates st !! code = Some roomState ->
  WebTouch.appSocketId roomState = app ->
  exists st' : WebTouch.Server,
    WebTouch.disconnect st app
    = (st',
       flat_map (fun controllerSid =>
                   if bool_decide (controllerSid ∈ WebTouch.connected st ∖ {[ app ]})
                   then [WebTouch.Emit controllerSid WebTouch.app_disconnected;
                         WebTouch.Leave controllerSid code]
                   else [])
                (WebTouch.controllerSocketIds roomState)) /\
    WebTouch.roomStates st' = delete code (WebTouch.roomStates st) /\
    forall (socket : string) (roomId : option string),
      WebTouch.room_key roomId = code ->
      (forall dx dy : option num,
         WebTouch.cursor_move st' socket (Some (WebTouch.mkMoveData roomId dx dy))
         = (st', [])) /\
      (forall source : option string,
         WebTouch.tap st' socket (Some (WebTouch.mkTapData roomId source)) = (st', [])) /\
      (forall k targetMode : option string,
         WebTouch.key_input st' socket (Some (WebTouch.mkKeyData roomId k targetMode))
         = (st', [])) /\
      WebTouch.register_controller_room st' socket roomId
      = (st', [WebTouch.Emit socket (WebTouch.invalid_room code);
               WebTouch.Disconnect socket]).
Proof.
  intros Hcur Hcode Hrs Happ. eexists. split; [|split].
  - apply (WebTouchFacts.disconnect_app st app code roomState Hcur Hcode Hrs Happ).
  - reflexivity.
  - intros socket roomId Hkey.
    assert (Hnone : WebTouch.roomStates
                      (WebTouch.mkServer (delete code (WebTouch.roomStates st))
                         (WebTouch.currentRoomCode st)
                         (WebTouch.connected st ∖ {[ app ]}))
                    !! WebTouch.room_key roomId = None).
    { cbn [WebTouch.roomStates]. rewrite Hkey. apply lookup_delete_eq. }
    pose proof (WebTouchFacts.no_room_not_controller _ socket roomId Hnone) as Hnot.
    split; [|split; [|split]].
    + intros dx dy. apply WebTouchFacts.cursor_move_ignored. exact Hnot.
    + intros source. apply WebTouchFacts.tap_ignored. exact Hnot.
    + intros k targetMode. apply WebTouchFacts.key_input_ignored. exact Hnot.
    + rewrite (WebTouchFacts.register_controller_no_room _ socket roomId Hnone).
      rewrite Hkey. reflexivity.
Qed.

Lemma X21_witness :
  exists st' : WebTouch.Server,
    WebTouch.disconnect WebTouchSamples.server "app"
    = (st', [WebTouch.Emit "c1" WebTouch.app_disconnected; WebTouch.Leave "c1" "ABCD";
             WebTouch.Emit "c2" WebTouch.app_disconnected; WebTouch.Leave "c2" "ABCD"]) /\
    WebTouch.roomStates st' = delete "ABCD"%string (WebTouch.roomStates WebTouchSamples.server).
Proof.
  destruct (X21_app_disconnect_closes_room WebTouchSamples.server "app" "ABCD"
              WebTouchSamples.room) as (st' & Hd & Hr & _).
  - vm_compute. reflexivity.
  - discriminate.
  - vm_compute. reflexivity.
  - reflexivity.
  - exists st'. split; [|exact Hr]. rewrite Hd. f_equal.
Defined.

(** ** The room server: one room at a time *)

Module WebTouchConfined.
Import WebTouch.

Lemma confined_idle (st : Server) (socket code : string) : confined st socket code st [].
Proof. split; [reflexivity | intros to m []]. Qed.

Lemma set_room_other (st : Server) (code : string) (roomState : RoomState) (c : string) :
  c <> code -> roomStates (set_room st code roomState) !! c = roomStates st !! c.
Proof. intros Hne. unfold set_room. cbn [roomStates]. apply lookup_insert_ne. congruence. Qed.

Lemma set_current_rooms (st : Server) (socket code : string) :
  roomStates (set_current st socket code) = roomStates st.
Proof. reflexivity. Qed.

Lemma in_emit_map (l : list string) (msg : Message) (to : string) (m : Message) :
  In (Emit to m) (map (fun sid => Emit sid msg) l) -> to ∈ l.
Proof.
  intros H. apply in_map_iff in H as (sid & [= -> _] & Hin).
  apply list_elem_of_In. exact Hin.
Qed.

Lemma connection_confined (st : Server) (socket : string) :
  confined st socket "" (connection st socket).1 (connection st socket).2.
Proof. split; [reflexivity | intros to m []]. Qed.

Lemma disconnect_confined (st : Server) (socket : string) :
  exists code : string,
    confined st socket code (disconnect st socket).1 (disconnect st socket).2.
Proof.
  unfold disconnect. cbn [currentRoomCode roomStates connected].
  destruct (currentRoomCode st !! socket) as [code|];
    [|exists ""%string; split; [reflexivity | intros to m []]].
  exists code. case_bool_decide; [split; [reflexivity | intros to m []]|].
  destruct (roomStates st !! code) as [rs|] eqn:Hrs;
    [|split; [reflexivity | intros to m []]].
  case_bool_decide.
  - cbn [fst snd]. split.
    + intros c Hc. cbn [roomStates]. apply lookup_delete_ne. congruence.
    + intros to m Hin. right. exists rs. split; [exact Hrs|]. right.
      apply in_flat_map in Hin as (sid & Hsid & Hin).
      case_bool_decide; [|destruct Hin].
      destruct Hin as [[= -> _] | [[=] | []]]. apply list_elem_of_In. exact Hsid.
  - destruct (set_has socket (controllerSocketIds rs));
      [|split; [reflexivity | intros to m []]].
    cbn [controllerSocketIds set_controllers lastKnownCursor appSocketId set_visible].
    destruct (bool_decide _ && isVisible (lastKnownCursor rs)); cbn [fst snd].
    + split; [intros c Hc; apply (set_room_other (mkServer _ _ _)); exact Hc|].
      intros to m Hin. case_bool_decide; [destruct Hin|].
      destruct Hin as [[= <- _] | []]. right. exists rs. split; [exact Hrs|].
      left. reflexivity.
    + split; [intros c Hc; apply (set_room_other (mkServer _ _ _)); exact Hc|].
      intros to m [].
Qed.

Lemma register_app_room_confined (options : Options) (codes : list string) (st : Server)
    (socket : string) (st' : Server) (acts : list Action) :
  register_app_room options codes st socket = Ret (st', acts) ->
  exists code : string, confined st socket code st' acts.
Proof.
  unfold register_app_room.
  destruct (fresh_code codes (roomStates st)) as [code| |]; try discriminate.
  cbn [bind]. intros [= <- <-]. exists code. split.
  - intros c Hc. rewrite set_room_other by exact Hc. reflexivity.
  - intros to m Hin. left.
    destruct Hin as [[=] | [[= -> _] | [[= -> _] | [[= -> _] | []]]]]; reflexivity.
Qed.

Lemma rejoin_app_room_confined (st : Server) (socket : string)
    (roomCode : option string) :
  confined st socket (room_key roomCode)
    (rejoin_app_room st socket roomCode).1 (rejoin_app_room st socket roomCode).2.
Proof.
  unfold rejoin_app_room.
  destruct (roomStates st !! room_key roomCode) as [rs|] eqn:Hrs; cbn [fst snd].
  - split; [intros c Hc; rewrite set_room_other by exact Hc; reflexivity|].
    intros to m Hin. apply in_app_or in Hin as [Hin | Hin].
    + left. destruct Hin as [[=] | [[= -> _] | [[= -> _] | [[= -> _] | []]]]]; reflexivity.
    + right. exists rs. split; [exact Hrs|]. right.
      exact (in_emit_map _ _ _ _ Hin).
  - split; [reflexivity|]. intros to m [[= -> _] | []]. left. reflexivity.
Qed.

Lemma register_controller_room_confined (st : Server) (socket : string)
    (roomCode : option string) :
  confined st socket (room_key roomCode)
    (register_controller_room st socket roomCode).1
    (register_controller_room st socket roomCode).2.
Proof.
  unfold register_controller_room.
  destruct (roomStates st !! room_key roomCode) as [rs|] eqn:Hrs; cbn [fst snd].
  - split; [intros c Hc; rewrite set_room_other by exact Hc; reflexivity|].
    intros to m Hin. apply in_app_or in Hin as [Hin | Hin].
    + left. destruct Hin as [[=] | [[= -> _] | []]]; reflexivity.
    + destruct (_ && _ && _); [|destruct Hin].
      destruct Hin as [[= <- _] | []]. right. exists rs. split; [exact Hrs|].
      left. reflexivity.
  - split; [reflexivity|]. intros to m [[= -> _] | [[=] | []]]. left. reflexivity.
Qed.

Lemma report_cursor_position_confined (st : Server) (socket : string)
    (data : option CursorReport) :
  exists code : string,
    confined st socket code (report_cursor_position st socket data).1
      (report_cursor_position st socket data).2.
Proof.
  unfold report_cursor_position.
  destruct data as [[roomId [pos|]]|]; try (exists ""%string; apply confined_idle).
  exists (room_key roomId).
  destruct (truthy roomId); [|apply confined_idle].
  destruct (roomStates st !! room_key roomId) as [rs|]; [|apply confined_idle].
  case_bool_decide; [|apply confined_idle]. cbn [fst snd].
  split; [intros c Hc; rewrite set_room_other by exact Hc; reflexivity | intros to m []].
Qed.

Lemma report_focus_change_confined (st : Server) (socket : string)
    (data : option FocusReport) :
  exists code : string,
    confined st socket code (report_focus_change st socket data).1
      (report_focus_change st socket data).2.
Proof.
  unfold report_focus_change.
  destruct data as [[roomId [focusInfo|]]|]; try (exists ""%string; apply confined_idle).
  exists (room_key roomId).
  destruct (truthy roomId); [|apply confined_idle].
  destruct (roomStates st !! room_key roomId) as [rs|]; [|apply confined_idle].
  case_bool_decide; [|apply confined_idle]. cbn [fst snd].
  split; [intros c Hc; rewrite set_room_other by exact Hc; reflexivity | intros to m []].
Qed.

Lemma cursor_move_confined (st : Server) (socket : string) (data : option MoveData) :
  exists code : string,
    confined st socket code (cursor_move st socket data).1 (cursor_move st socket data).2.
Proof.
  unfold cursor_move. destruct data as [data|]; [|exists ""%string; apply confined_idle].
  exists (room_key (mv_roomId data)).
  destruct (truthy _); [|apply confined_idle].
  destruct (roomStates st !! _) as [rs|] eqn:Hrs; [|apply confined_idle].
  destruct (set_has _ _); [|apply confined_idle].
  case_bool_decide; [apply confined_idle|].
  case_bool_decide; [|apply confined_idle]. cbn [fst snd].
  split; [reflexivity|]. intros to m [[= <- _] | []].
  right. exists rs. split; [exact Hrs | left; reflexivity].
Qed.

Lemma tap_confined (st : Server) (socket : string) (data : option TapData) :
  exists code : string,
    confined st socket code (tap st socket data).1 (tap st socket data).2.
Proof.
  unfold tap. destruct data as [data|]; [|exists ""%string; apply confined_idle].
  exists (room_key (tap_roomId data)).
  destruct (truthy _); [|apply confined_idle].
  destruct (roomStates st !! _) as [rs|] eqn:Hrs; [|apply confined_idle].
  destruct (set_has _ _); [|apply confined_idle].
  case_bool_decide; [apply confined_idle|].
  case_bool_decide; [|apply confined_idle]. cbn [fst snd].
  split; [reflexivity|]. intros to m [[= <- _] | []].
  right. exists rs. split; [exact Hrs | left; reflexivity].
Qed.

Lemma key_input_confined (st : Server) (socket : string) (data : option KeyData) :
  exists code : string,
    confined st socket code (key_input st socket data).1 (key_input st socket data).2.
Proof.
  unfold key_input.
  destruct data as [[roomId [k|] targetMode]|]; try (exists ""%string; apply confined_idle).
  exists (room_key roomId).
  destruct (truthy roomId && truthy (Some k)); [|apply confined_idle].
  destruct (roomStates st !! room_key roomId) as [rs|] eqn:Hrs; [|apply confined_idle].
  destruct (set_has _ _); [|apply confined_idle].
  destruct (key_step (controllerState rs) k targetMode) as [[cs changed] out].
  cbn [fst snd]. split; [intros c Hc; rewrite set_room_other by exact Hc; reflexivity|].
  intros to m Hin. right. exists rs. split; [exact Hrs|].
  apply in_app_or in Hin as [Hin | Hin].
  - destruct changed; [|destruct Hin]. unfold broadcastControllerStateToRoom in Hin.
    rewrite WebTouchFacts.set_room_lookup in Hin. right.
    exact (in_emit_map _ _ _ _ Hin).
  - destruct (_ && _ && _); [|destruct Hin].
    destruct Hin as [[= <- _] | []]. left. reflexivity.
Qed.

Lemma ret_pair {A B : Type} (p : A * B) (a : A) (b : B) :
  Ret p = Ret (a, b) -> a = p.1 /\ b = p.2.
Proof. intros [= ->]. split; reflexivity. Qed.

Lemma handle_confined (options : Options) (st : Server) (e : Event) (st' : Server)
    (acts : list Action) :
  handle options st e = Ret (st', acts) ->
  exists code : string, confined st (sender e) code st' acts.
Proof.
  intros Hrun. destruct e; cbn [handle sender] in *;
    try (apply ret_pair in Hrun as [-> ->]).
  - exists ""%string. apply connection_confined.
  - apply disconnect_confined.
  - eapply register_app_room_confined. exact Hrun.
  - eexists. apply rejoin_app_room_confined.
  - eexists. apply register_controller_room_confined.
  - apply report_cursor_position_confined.
  - apply report_focus_change_confined.
  - apply cursor_move_confined.
  - apply tap_confined.
  - apply key_input_confined.
Qed.

End WebTouchConfined.

(** X23.  The room server handles one room at a time: whatever the event
    and its arguments, there is one room code such that the states of
    all other rooms are left as they were, and every message emitted
    while handling the event goes either to the socket the event came
    from or to the app or a controller of that one room. *)
Theorem X23_events_are_confined
    (options : WebTouch.Options) (st : WebTouch.Server) (e : WebTouch.Event)
    (st' : WebTouch.Server) (acts : list WebTouch.Action) :
  WebTouch.handle options st e = Ret (st', acts) ->
  exists code : string,
    (forall c : string,
       c <> code -> WebTouch.roomStates st' !! c = WebTouch.roomStates st !! c) /\
    forall (to : string) (m : WebTouch.Message),
      In (WebTouch.Emit to m) acts ->
      to = WebTouch.sender e \/
      exists roomState : WebTouch.RoomState,
        WebTouch.roomStates st !! code = Some roomState /\
        (to = WebTouch.appSocketId roomState \/
         to ∈ WebTouch.controllerSocketIds roomState).
Proof. apply WebTouchConfined.handle_confined. Qed.

Lemma X23_witness :
  exists (st' : WebTouch.Server) (acts : list WebTouch.Action) (code : string),
    WebTouch.handle WebTouch.DEFAULT_OPTIONS WebTouchSamples.server
      (WebTouch.on_key_input "c1"
         (Some (WebTouch.mkKeyData (Some "abcd"%string) (Some "ToggleShift"%string) None)))
    = Ret (st', acts) /\
    forall c : string,
      c <> code ->
      WebTouch.roomStates st' !! c = WebTouch.roomStates WebTouchSamples.server !! c.
Proof.
  eexists _, _. 
  destruct (X23_events_are_confined WebTouch.DEFAULT_OPTIONS WebTouchSamples.server
              (WebTouch.on_key_input "c1"
                 (Some (WebTouch.mkKeyData (Some "abcd"%string)
                          (Some "ToggleShift"%string) None)))
              _ _ eq_refl) as (code & Hrooms & _).
  exists code. split; [reflexivity | exact Hrooms].
Defined.

(** ** The room server: the app comes back *)

Module WebTouchRejoin.
Import WebTouch.

Lemma report_cursor_position_app (st : Server) (app : string) (roomId : option string)
    (pos : num * num) (roomState : RoomState) :
  truthy roomId = true ->
  roomStates st !! room_key roomId = Some roomState ->
  appSocketId roomState = app ->
  report_cursor_position st app (Some (mkCursorReport roomId (Some pos)))
  = (set_room st (room_key roomId)
       (mkRoomState (appSocketId roomState) (controllerSocketIds roomState)
          (mkCursor (fst pos) (snd pos) (isVisible (lastKnownCursor roomState)))
          (lastKnownFocusSelector roomState) (lastKnownFocusValue roomState)
          (controllerState roomState) (sensitivity roomState)), []).
Proof.
  intros Hroom Hrs Happ. unfold report_cursor_position. rewrite Hroom, Hrs.
  rewrite bool_decide_eq_true_2 by (symmetry; exact Happ). reflexivity.
Qed.

Lemma report_focus_change_app (st : Server) (app : string) (roomId : option string)
    (focusInfo : option string * option string) (roomState : RoomState) :
  truthy roomId = true ->
  roomStates st !! room_key roomId = Some roomState ->
  appSocketId roomState = app ->
  report_focus_change st app (Some (mkFocusReport roomId (Some focusInfo)))
  = (set_room st (room_key roomId)
       (mkRoomState (appSocketId roomState) (controllerSocketIds roomState)
          (lastKnownCursor roomState)
          (if truthy (fst focusInfo) then fst focusInfo else None)
          (default ""%string (snd focusInfo))
          (controllerState roomState) (sensitivity roomState)), []).
Proof.
  intros Hroom Hrs Happ. unfold report_focus_change. rewrite Hroom, Hrs.
  rewrite bool_decide_eq_true_2 by (symmetry; exact Happ). reflexivity.
Qed.

Lemma rejoin_app_room_found (st : Server) (socket : string) (roomCode : option string)
    (roomState : RoomState) :
  roomStates st !! room_key roomCode = Some roomState ->
  rejoin_app_room st socket roomCode
  = (set_room (set_current st socket (room_key roomCode)) (room_key roomCode)
       (set_app roomState socket),
     [Join socket (room_key roomCode);
      Emit socket (your_room_id (room_key roomCode));
      Emit socket (getInitialStateForApp (set_app roomState socket));
      Emit socket (set_cursor_visibility (isVisible (lastKnownCursor roomState)))]
     ++ map (fun controllerSid => Emit controllerSid app_reconnected)
            (controllerSocketIds roomState)).
Proof. intros Hrs. unfold rejoin_app_room. rewrite Hrs. reflexivity. Qed.

(** What the app reported last is what it is sent when it rejoins. *)
Lemma reports_then_rejoin (options : Options) (st : Server) (app new : string)
    (roomId : option string) (x y : num) (selector value : option string)
    (roomState : RoomState) :
  truthy roomId = true ->
  roomStates st !! room_key roomId = Some roomState ->
  appSocketId roomState = app ->
  exists st' : Server,
    run options st
      [on_report_cursor_position app (Some (mkCursorReport roomId (Some (x, y))));
       on_report_focus_change app (Some (mkFocusReport roomId (Some (selector, value))));
       on_rejoin_app_room new roomId]
    = Ret (st',
           [Join new (room_key roomId);
            Emit new (your_room_id (room_key roomId));
            Emit new (initial_state
                        (mkCursor x y (isVisible (lastKnownCursor roomState)))
                        (if truthy selector then selector else None)
                        (default ""%string value));
            Emit new (set_cursor_visibility (isVisible (lastKnownCursor roomState)))]
           ++ map (fun controllerSid => Emit controllerSid app_reconnected)
                  (controllerSocketIds roomState)) /\
    is_app st' new roomId /\
    (forall c : string,
       c <> room_key roomId -> roomStates st' !! c = roomStates st !! c) /\
    exists roomState' : RoomState,
      roomStates st' !! room_key roomId = Some roomState' /\
      controllerSocketIds roomState' = controllerSocketIds roomState /\
      controllerState roomState' = controllerState roomState.
Proof.
  intros Hroom Hrs Happ. set (code := room_key roomId) in *.
  set (r1 := mkRoomState (appSocketId roomState) (controllerSocketIds roomState)
               (mkCursor x y (isVisible (lastKnownCursor roomState)))
               (lastKnownFocusSelector roomState) (lastKnownFocusValue roomState)
               (controllerState roomState) (sensitivity roomState)).
  set (r2 := mkRoomState (appSocketId roomState) (controllerSocketIds roomState)
               (mkCursor x y (isVisible (lastKnownCursor roomState)))
               (if truthy selector then selector else None) (default ""%string value)
               (controllerState roomState) (sensitivity roomState)).
  assert (E1 : report_cursor_position st app (Some (mkCursorReport roomId (Some (x, y))))
               = (set_room st code r1, [])).
  { apply (report_cursor_position_app st app roomId (x, y) roomState Hroom Hrs Happ). }
  assert (E2 : report_focus_change (set_room st code r1) app
                 (Some (mkFocusReport roomId (Some (selector, value))))
               = (set_room st code r2, [])).
  { rewrite (report_focus_change_app (set_room st code r1) app roomId (selector, value) r1
               Hroom (WebTouchFacts.set_room_lookup st code r1) Happ).
    fold code. rewrite WebTouchFacts.set_room_twice. reflexivity. }
  pose proof (rejoin_app_room_found (set_room st code r2) new roomId r2
                (WebTouchFacts.set_room_lookup st code r2)) as E3.
  fold code in E3.
  eexists. split; [|split; [|split]].
  - cbn [run handle]. rewrite E1. cbn [bind]. rewrite E2. cbn [bind]. rewrite E3.
    cbn [bind List.app]. rewrite ?app_nil_r. reflexivity.
  - exists (set_app r2 new). split; [apply WebTouchFacts.set_room_lookup | reflexivity].
  - intros c Hc. rewrite WebTouchConfined.set_room_other by exact Hc.
    cbn [set_current roomStates]. fold (roomStates (set_room st code r2)).
    unfold set_room. cbn [roomStates]. apply lookup_insert_ne. congruence.
  - exists (set_app r2 new). split; [apply WebTouchFacts.set_room_lookup|].
    split; reflexivity.
Qed.

End WebTouchRejoin.

(** X24.  What the app reported last is what it gets back.  After the
    app of a room has reported a cursor position and a focus change, a
    socket that rejoins the room as app joins it, is sent the room code,
    an initial state holding that position (with the room's visibility
    flag) and that focus (an empty selector as [null], a missing value
    as the empty string), and the visibility; every controller is sent
    [app_reconnected]; the socket is the app of the room from then on,
    and the controllers and the keyboard state of the room are kept. *)
Theorem X24_reports_survive_rejoin
    (options : WebTouch.Options) (st : WebTouch.Server) (app new : string)
    (roomId : option string) (x y : num) (selector value : option string)
    (roomState : WebTouch.RoomState) :
  WebTouch.truthy roomId = true ->
  WebTouch.roomStates st !! WebTouch.room_key roomId = Some roomState ->
  WebTouch.appSocketId roomState = app ->
  exists st' : WebTouch.Server,
    WebTouch.run options st
      [WebTouch.on_report_cursor_position app
         (Some (WebTouch.mkCursorReport roomId (Some (x, y))));
       WebTouch.on_report_focus_change app
         (Some (WebTouch.mkFocusReport roomId (Some (selector, value))));
       WebTouch.on_rejoin_app_room new roomId]
    = Ret (st',
           [WebTouch.Join new (WebTouch.room_key roomId);
            WebTouch.Emit new (WebTouch.your_room_id (WebTouch.room_key roomId));
            WebTouch.Emit new
              (WebTouch.initial_state
                 (WebTouch.mkCursor x y
                    (WebTouch.isVisible (WebTouch.lastKnownCursor roomState)))
                 (if WebTouch.truthy selector then selector else None)
                 (default ""%string value));
            WebTouch.Emit new
              (WebTouch.set_cursor_visibility
                 (WebTouch.isVisible (WebTouch.lastKnownCursor roomState)))]
           ++ map (fun controllerSid => WebTouch.Emit controllerSid WebTouch.app_reconnected)
                  (WebTouch.controllerSocketIds roomState)) /\
    WebTouch.is_app st' new roomId /\
    (forall c : string,
       c <> WebTouch.room_key roomId ->
       WebTouch.roomStates st' !! c = WebTouch.roomStates st !! c) /\
    exists roomState' : WebTouch.RoomState,
      WebTouch.roomStates st' !! WebTouch.room_key roomId = Some roomState' /\
      WebTouch.controllerSocketIds roomState' = WebTouch.controllerSocketIds roomState /\
      WebTouch.controllerState roomState' = WebTouch.controllerState roomState.
Proof. apply WebTouchRejoin.reports_then_rejoin. Qed.

Lemma X24_witness :
  exists st' : WebTouch.Server,
    WebTouch.run WebTouch.DEFAULT_OPTIONS WebTouchSamples.server
      [WebTouch.on_report_cursor_position "app"
         (Some (WebTouch.mkCursorReport (Some "abcd"%string) (Some (Fin 10, Fin 20))));
       WebTouch.on_report_focus_change "app"
         (Some (WebTouch.mkFocusReport (Some "abcd"%string)
                  (Some (Some "#name"%string, None))));
       WebTouch.on_rejoin_app_room "app2" (Some "abcd"%string)]
    = Ret (st',
           [WebTouch.Join "app2" "ABCD";
            WebTouch.Emit "app2" (WebTouch.your_room_id "ABCD");
            WebTouch.Emit "app2"
              (WebTouch.initial_state (WebTouch.mkCursor (Fin 10) (Fin 20) true)
                 (Some "#name"%string) ""%string);
            WebTouch.Emit "app2" (WebTouch.set_cursor_visibility true);
            WebTouch.Emit "c1" WebTouch.app_reconnected;
            WebTouch.Emit "c2" WebTouch.app_reconnected]).
Proof.
  destruct (X24_reports_survive_rejoin WebTouch.DEFAULT_OPTIONS WebTouchSamples.server
              "app" "app2" (Some "abcd"%string) (Fin 10) (Fin 20)
              (Some "#name"%string) None WebTouchSamples.room) as (st' & Hrun & _).
  - reflexivity.
  - vm_compute. reflexivity.
  - reflexivity.
  - exists st'. exact Hrun.
Defined.

(** * Facts about the double-precision embedding *)

(** ** Comparisons and non-finite values of binary64

    The primitive operations are specified by their counterparts on
    [spec_float]; the facts below are read off those. *)

Module B64Num.
Import PrimFloat FloatOps FloatAxioms SpecFloat B64.

Local Open Scope float_scope.

(** The order that [<] and [<=] decide on two numbers: [None] when one
    of them is [NaN]. *)
Lemma SFcompare_lt_trans (x y z : spec_float) :
  SFcompare x y = Some Lt -> SFcompare y z = Some Lt -> SFcompare x z = Some Lt.
Proof.
  destruct x as [[]|[]| |[] mx ex], y as [[]|[]| |[] my ey], z as [[]|[]| |[] mz ez];
    cbn; try discriminate; try reflexivity; intros [= Hxy] [= Hyz]; f_equal;
    rewrite ?Pos.compare_cont_spec in *; cbn [Pos.switch_Eq] in *;
    destruct (Z.compare_spec ex ey), (Z.compare_spec ey ez), (Z.compare_spec ex ez);
    try discriminate; try reflexivity; try lia; subst;
    destruct (Pos.compare_spec mx my), (Pos.compare_spec my mz),
      (Pos.compare_spec mx mz); try discriminate; try reflexivity; lia.
Qed.

Lemma SFcompare_eq_lt_trans (x y z : spec_float) :
  SFcompare x y = Some Eq -> SFcompare y z = Some Lt -> SFcompare x z = Some Lt.
Proof.
  destruct x as [[]|[]| |[] mx ex], y as [[]|[]| |[] my ey], z as [[]|[]| |[] mz ez];
    cbn; try discriminate; try reflexivity; intros [= Hxy] [= Hyz]; f_equal;
    rewrite ?Pos.compare_cont_spec in *; cbn [Pos.switch_Eq] in *;
    destruct (Z.compare_spec ex ey), (Z.compare_spec ey ez), (Z.compare_spec ex ez);
    try discriminate; try reflexivity; try lia; subst;
    destruct (Pos.compare_spec mx my), (Pos.compare_spec my mz),
      (Pos.compare_spec mx mz); try discriminate; try reflexivity; lia.
Qed.

Lemma SFcompare_antisym (x y : spec_float) :
  SFcompare x y = Some Lt -> SFcompare y x = Some Gt.
Proof.
  destruct x as [[]|[]| |[] mx ex], y as [[]|[]| |[] my ey];
    cbn; try discriminate; try reflexivity; intros [= Hxy]; f_equal;
    rewrite ?Pos.compare_cont_spec in *; cbn [Pos.switch_Eq] in *;
    destruct (Z.compare_spec ex ey), (Z.compare_spec ey ex);
    try discriminate; try reflexivity; try lia; subst;
    destruct (Pos.compare_spec mx my), (Pos.compare_spec my mx);
    try discriminate; try reflexivity; lia.
Qed.

Lemma SFcompare_total (x y : spec_float) :
  x <> S754_nan -> y <> S754_nan ->
  SFcompare x y = Some Lt \/ SFcompare x y = Some Eq \/ SFcompare y x = Some Lt.
Proof.
  intros Hx Hy.
  destruct x as [[]|[]| |[] mx ex], y as [[]|[]| |[] my ey];
    cbn; try congruence; try (left; reflexivity); try (right; left; reflexivity);
    try (right; right; reflexivity);
    rewrite ?Pos.compare_cont_spec; cbn [Pos.switch_Eq];
    destruct (Z.compare_spec ex ey), (Z.compare_spec ey ex); try lia; subst;
    try (left; reflexivity); try (right; right; reflexivity);
    destruct (Pos.compare_spec mx my), (Pos.compare_spec my mx); try lia; subst;
    cbn; auto.
Qed.

Lemma ltb_trans (x y z : float) :
  (x <? y) = true -> (y <? z) = true -> (x <? z) = true.
Proof.
  rewrite !ltb_spec. unfold SFltb.
  destruct (SFcompare (Prim2SF x) (Prim2SF y)) as [[]|] eqn:Hxy; try discriminate.
  destruct (SFcompare (Prim2SF y) (Prim2SF z)) as [[]|] eqn:Hyz; try discriminate.
  intros _ _. rewrite (SFcompare_lt_trans _ _ _ Hxy Hyz). reflexivity.
Qed.

Lemma leb_ltb_trans (x y z : float) :
  (x <=? y) = true -> (y <? z) = true -> (x <? z) = true.
Proof.
  rewrite leb_spec, !ltb_spec. unfold SFleb, SFltb.
  destruct (SFcompare (Prim2SF x) (Prim2SF y)) as [[]|] eqn:Hxy; try discriminate;
    destruct (SFcompare (Prim2SF y) (Prim2SF z)) as [[]|] eqn:Hyz; try discriminate;
    intros _ _.
  - rewrite (SFcompare_eq_lt_trans _ _ _ Hxy Hyz). reflexivity.
  - rewrite (SFcompare_lt_trans _ _ _ Hxy Hyz). reflexivity.
Qed.

Lemma ltb_asym (x y : float) : (x <? y) = true -> (y <? x) = false.
Proof.
  rewrite !ltb_spec. unfold SFltb.
  destruct (SFcompare (Prim2SF x) (Prim2SF y)) as [[]|] eqn:Hxy; try discriminate.
  intros _. rewrite (SFcompare_antisym _ _ Hxy). reflexivity.
Qed.

Lemma ltb_irrefl (x : float) : (x <? x) = false.
Proof.
  destruct (x <? x) eqn:H; [|reflexivity].
  pose proof (ltb_asym _ _ H). congruence.
Qed.

Lemma ltb_leb (x y : float) : (x <? y) = true -> (x <=? y) = true.
Proof.
  rewrite ltb_spec, leb_spec. unfold SFltb, SFleb.
  destruct (SFcompare (Prim2SF x) (Prim2SF y)) as [[]|]; congruence.
Qed.

Lemma is_nan_spec (x : float) : is_nan x = true <-> Prim2SF x = S754_nan.
Proof.
  unfold is_nan, PrimFloat.is_nan. rewrite eqb_spec. unfold SFeqb.
  destruct (Prim2SF x) as [[]|[]| |[] m e]; cbn;
    rewrite ?Z.compare_refl, ?Pos.compare_cont_refl; cbn; split; congruence.
Qed.

Lemma is_nan_false (x : float) : is_nan x = false <-> Prim2SF x <> S754_nan.
Proof.
  rewrite <- is_nan_spec. destruct (is_nan x); split; congruence.
Qed.

Lemma SFcompare_eq_sym (x y : spec_float) :
  SFcompare x y = Some Eq -> SFcompare y x = Some Eq.
Proof.
  destruct x as [[]|[]| |[] mx ex], y as [[]|[]| |[] my ey];
    cbn; try discriminate; try reflexivity; intros [= Hxy]; f_equal;
    rewrite ?Pos.compare_cont_spec in *; cbn [Pos.switch_Eq] in *;
    destruct (Z.compare_spec ex ey), (Z.compare_spec ey ex);
    try discriminate; try reflexivity; try lia; subst;
    destruct (Pos.compare_spec mx my), (Pos.compare_spec my mx);
    try discriminate; try reflexivity; lia.
Qed.

(** Two numbers that are not [NaN] are comparable. *)
Lemma ltb_total (x y : float) :
  is_nan x = false -> is_nan y = false -> (x <? y) = false -> (y <=? x) = true.
Proof.
  rewrite !is_nan_false, ltb_spec, leb_spec. unfold SFltb, SFleb. intros Hx Hy.
  destruct (SFcompare_total _ _ Hx Hy) as [H|[H|H]].
  - rewrite H. discriminate.
  - intros _. rewrite (SFcompare_eq_sym _ _ H). reflexivity.
  - intros _. rewrite H. reflexivity.
Qed.

(** A number below another one is not [NaN]. *)
Lemma ltb_not_nan_l (x y : float) : (x <? y) = true -> is_nan x = false.
Proof.
  rewrite ltb_spec, is_nan_false. unfold SFltb.
  destruct (Prim2SF x); cbn; congruence.
Qed.


Lemma ltb_nan_l (x y : float) : is_nan x = true -> (x <? y) = false.
Proof.
  intros H. destruct (x <? y) eqn:E; [|reflexivity].
  apply ltb_not_nan_l in E. congruence.
Qed.

Lemma leb_nan_l (x y : float) : is_nan x = true -> (x <=? y) = false.
Proof.
  rewrite is_nan_spec, leb_spec. intros ->. reflexivity.
Qed.

(** *** Finite and non-finite numbers *)

Lemma is_finite_spec (x : float) : is_finite x = sf_finite (Prim2SF x).
Proof.
  unfold is_finite, PrimFloat.is_finite, PrimFloat.is_nan, PrimFloat.is_infinity.
  rewrite !eqb_spec, abs_spec. unfold SFeqb.
  destruct (Prim2SF x) as [[]|[]| |[] m e]; cbn;
    rewrite ?Z.compare_refl, ?Pos.compare_cont_refl; reflexivity.
Qed.







Lemma sub_not_finite_r (a b : float) : is_finite b = false -> is_finite (a - b) = false.
Proof.
  rewrite !is_finite_spec, sub_spec.
  destruct (Prim2SF a) as [[]|[]| |[] ma ea], (Prim2SF b) as [[]|[]| |[] mb eb];
    cbn; congruence.
Qed.



(** *** [Math.max] of a non-negative and a positive number *)




End B64Num.

(** ** [_resample] in double precision: what it returns and what it leaves
    in the array *)

(** The proofs are the same for the two recognizers (the [id] test of
    [QDollar] only skips segments). *)
Lemma take_prefix_eq {A : Type} (l1 l2 : list A) (i j : nat) :
  (i <= j)%nat -> take j l1 = take j l2 -> take i l1 = take i l2.
Proof.
  intros Hij H. rewrite <- (Nat.min_l i j Hij), <- !take_take, H. reflexivity.
Qed.

Module B64QResample.
Import PrimFloat B64 B64.QDollar B64QDollarView.

Lemma q64_splice_length (points : list Point) (i : nat) (q : Point) :
  (i <= length points)%nat -> length (splice points i q) = S (length points).
Proof.
  intros Hi. unfold splice. rewrite length_app, length_take. cbn [length].
  rewrite length_drop. lia.
Qed.

Lemma q64_splice_sublist (points : list Point) (i : nat) (q : Point) :
  sublist points (splice points i q).
Proof.
  unfold splice. rewrite <- (take_drop i points) at 1.
  apply sublist_app; [reflexivity|]. apply sublist_cons. reflexivity.
Qed.

Lemma q64_splice_lookup (points : list Point) (i : nat) (q : Point) :
  (i <= length points)%nat -> splice points i q !! i = Some q.
Proof.
  intros Hi. unfold splice. rewrite lookup_app_r by (rewrite length_take; lia).
  rewrite length_take. replace (i - i `min` length points)%nat with 0%nat by lia.
  reflexivity.
Qed.

Lemma q64_splice_take (points : list Point) (i : nat) (q : Point) :
  (i <= length points)%nat -> take i (splice points i q) = take i points.
Proof.
  intros Hi. unfold splice. rewrite take_app_le by (rewrite length_take; lia).
  rewrite take_take, Nat.min_id. reflexivity.
Qed.

(** The loop appends to [newPoints] the points [qs] it synthesizes, and
    splices the same points into the array, behind position [i]. *)
Lemma q64_resample_loop_spec (fuel : nat) (I : float) :
  forall (points : list Point) (i : nat) (D : float) (newPoints np pts' : list Point),
    (i <= length points)%nat ->
    resample_loop fuel I points i D newPoints = Ret (np, pts') ->
    exists qs : list Point,
      np = newPoints ++ qs /\
      length pts' = (length points + length qs)%nat /\
      take i pts' = take i points /\
      sublist (drop i points) (drop i pts') /\
      sublist qs (drop i pts').
Proof.
  induction fuel as [|fuel IH]; intros points i D newPoints np pts' Hi; [discriminate|].
  cbn [resample_loop]. case_bool_decide as Hlt.
  - destruct (points !! (i - 1)%nat) as [p1|] eqn:E1; cbn [deref bind]; [|discriminate].
    destruct (points !! i) as [p2|] eqn:E2; cbn [deref bind]; [|discriminate].
    assert (Hdrop : drop i points = p2 :: drop (S i) points).
    { apply drop_S. exact E2. }
    case_bool_decide as Hid.
    + destruct (jge _ _).
      * set (q := mkPoint _ _ _). intros Hrun.
        apply IH in Hrun as (qs & -> & Hlen & Htake & Hsub & Hqs);
          [|rewrite q64_splice_length; lia].
        exists (q :: qs). rewrite <- app_assoc. split; [reflexivity|].
        rewrite q64_splice_length in Hlen by lia. cbn [length].
        split; [lia|].
        assert (Htake' : take i pts' = take i points).
        { rewrite <- (q64_splice_take points i q) by lia.
          apply (take_prefix_eq _ _ i (S i)); [lia | exact Htake]. }
        split; [exact Htake'|].
        assert (Hq : pts' !! i = Some q).
        { rewrite <- (lookup_take_lt pts' (S i) i) by lia. rewrite Htake.
          rewrite lookup_take_lt by lia. apply q64_splice_lookup. lia. }
        rewrite (drop_S _ _ _ Hq).
        assert (Hs : drop (S i) (splice points i q) = drop i points).
        { unfold splice. rewrite drop_app_ge by (rewrite length_take; lia).
          rewrite length_take. replace (S i - i `min` length points)%nat with 1%nat by lia.
          reflexivity. }
        rewrite Hs in Hsub. split.
        -- apply sublist_cons. exact Hsub.
        -- apply sublist_skip. exact Hqs.
      * intros Hrun. apply IH in Hrun as (qs & -> & Hlen & Htake & Hsub & Hqs); [|lia].
        exists qs. split; [reflexivity|]. split; [exact Hlen|].
        assert (Htake' : take i pts' = take i points).
        { apply (take_prefix_eq _ _ i (S i)); [lia | exact Htake]. }
        split; [exact Htake'|].
        assert (Hp2 : pts' !! i = Some p2).
        { rewrite <- (lookup_take_lt pts' (S i) i) by lia. rewrite Htake.
          rewrite lookup_take_lt by lia. exact E2. }
        rewrite (drop_S _ _ _ Hp2), Hdrop. split.
        -- apply sublist_skip. exact Hsub.
        -- apply sublist_cons. exact Hqs.
    + intros Hrun. apply IH in Hrun as (qs & -> & Hlen & Htake & Hsub & Hqs); [|lia].
      exists qs. split; [reflexivity|]. split; [exact Hlen|].
      assert (Htake' : take i pts' = take i points).
      { apply (take_prefix_eq _ _ i (S i)); [lia | exact Htake]. }
      split; [exact Htake'|].
      assert (Hp2 : pts' !! i = Some p2).
      { rewrite <- (lookup_take_lt pts' (S i) i) by lia. rewrite Htake.
        rewrite lookup_take_lt by lia. exact E2. }
      rewrite (drop_S _ _ _ Hp2), Hdrop. split.
      -- apply sublist_skip. exact Hsub.
      -- apply sublist_cons. exact Hqs.
  - intros [= <- <-]. exists []. rewrite app_nil_r, Nat.add_0_r.
    split; [reflexivity|]. split; [reflexivity|]. split; [reflexivity|].
    split; [reflexivity|]. apply sublist_nil_l.
Qed.

Lemma q64_resample_array_spec (fuel : nat) (points : list Point) (n : nat)
    (newPoints points' : list Point) :
  resample_array fuel points n = Ret (newPoints, points') ->
  resampled n points newPoints points'.
Proof.
  unfold resample_array. destruct (points !! 0%nat) as [p0|] eqn:E0; [|discriminate].
  cbn [deref bind].
  destruct (resample_loop fuel _ points 1 0 [p0]) as [[np pts']| |] eqn:Hloop;
    try discriminate. cbn [bind].
  assert (H1 : (1 <= length points)%nat).
  { apply lookup_lt_Some in E0. lia. }
  destruct (q64_resample_loop_spec _ _ _ _ _ _ _ _ H1 Hloop)
    as (qs & -> & Hlen & Htake & Hsub & Hqs).
  assert (Hsp : spliced points qs pts').
  { split; [exact Hlen|]. split.
    - rewrite <- (take_drop 1 points), <- (take_drop 1 pts'), Htake.
      apply sublist_app; [reflexivity | exact Hsub].
    - rewrite <- (take_drop 1 pts'). apply sublist_inserts_l. exact Hqs. }
  cbn [app length]. case_bool_decide as Hn.
  - destruct (last pts') as [pl|] eqn:El; [|discriminate]. cbn [deref bind].
    intros [= <- <-]. exists p0, qs. split; [exact E0|]. split; [exact Hsp|].
    right. exists pl. split; [exact El|]. split; [reflexivity | exact Hn].
  - intros [= <- <-]. exists p0, qs. split; [exact E0|]. split; [exact Hsp|].
    left. split; [reflexivity | exact Hn].
Qed.


(** *** The heap *)

Lemma q64_resample_records (fuel : nat) (l : loc) (n : nat) (h : heap)
    (points newPoints points' : list Point) :
  h !! l = Some (Records points) ->
  resample_array fuel points n = Ret (newPoints, points') ->
  _resample fuel l n h = (Ret newPoints, <[l := Records points']> h).
Proof. intros Hl Hrun. unfold _resample. rewrite Hl. cbn [records]. rewrite Hrun. reflexivity. Qed.

Lemma q64_resample_returns (fuel : nat) (l : loc) (n : nat) (h h' : heap)
    (newPoints : list Point) :
  _resample fuel l n h = (Ret newPoints, h') ->
  exists (raw : RawPoints) (points points' : list Point),
    h !! l = Some raw /\ records raw = Ret points /\
    resample_array fuel points n = Ret (newPoints, points') /\
    h' = <[l := Records points']> h.
Proof.
  unfold _resample. destruct (h !! l) as [raw|]; [|discriminate].
  destruct (records raw) as [points| |] eqn:Hrec; try discriminate.
  destruct (resample_array fuel points n) as [[np pts']| |] eqn:Hrun; try discriminate.
  intros [= <- <-]. exists raw, points, pts'. auto.
Qed.

(** Only the array behind [l] changes. *)
Lemma q64_resample_frame (fuel : nat) (l : loc) (n : nat) (h : heap) (l0 : loc) :
  l0 <> l -> snd (_resample fuel l n h) !! l0 = h !! l0.
Proof.
  intros Hne. unfold _resample. destruct (h !! l) as [raw|]; [|reflexivity].
  destruct (records raw) as [points| |]; try reflexivity.
  destruct (resample_array fuel points n) as [[np pts']| |]; try reflexivity.
  cbn [snd]. apply lookup_insert_ne. congruence.
Qed.

Lemma q64_convert_resample_records (fuel : nat) (l : loc) (h : heap) (points : list Point) :
  h !! l = Some (Records points) ->
  convert_resample fuel l h = _resample fuel l NumPoints h.
Proof.
  intros Hl. unfold convert_resample, heap_bind, _convertPoints. rewrite Hl. reflexivity.
Qed.

(** With an array of pairs as argument every array that exists is left
    as it is, whatever the outcome. *)
Lemma q64_convert_resample_pairs (fuel : nat) (l : loc) (h : heap) (ps : list (float * float))
    (l0 : loc) :
  h !! l = Some (Pairs ps) -> is_Some (h !! l0) ->
  snd (convert_resample fuel l h) !! l0 = h !! l0.
Proof.
  intros Hl [v Hl0]. unfold convert_resample, heap_bind, _convertPoints. rewrite Hl.
  destruct ps as [|p ps].
  - unfold _resample. rewrite Hl. reflexivity.
  - set (l' := fresh (dom h)). set (h1 := <[l' := _]> h).
    assert (Hfresh : l0 <> l').
    { intros ->. pose proof (is_fresh (dom h)) as Hf. apply Hf.
      apply elem_of_dom. exists v. exact Hl0. }
    rewrite q64_resample_frame by exact Hfresh. unfold h1.
    apply lookup_insert_ne. congruence.
Qed.

(** [check] and [add] are [_convertPoints] and [_resample] followed by
    steps that do not touch the heap. *)
Lemma q64_check_unfold (fuel : nat) (this : QDollar) (l : loc) (h : heap) :
  check fuel this l h
  = match convert_resample fuel l h with
    | (Ret processed, h') => (recognize this (normalize processed), h')
    | (Throw e, h') => (Throw e, h')
    | (OutOfFuel, h') => (OutOfFuel, h')
    end.
Proof.
  unfold check, convert_resample, heap_bind, pure_step.
  destruct (_convertPoints l h) as [[l1| |] h1]; try reflexivity.
  all: destruct (_resample fuel l1 NumPoints h1) as [[np| |] h2]; reflexivity.
Qed.

Lemma q64_add_unfold (fuel : nat) (this : QDollar) (name : string) (l : loc) (h : heap) :
  add fuel this name l h
  = match convert_resample fuel l h with
    | (Ret processed, h') =>
        (Ret (mkQDollar (Templates this ++ [mkTemplate name (normalize processed)])), h')
    | (Throw e, h') => (Throw e, h')
    | (OutOfFuel, h') => (OutOfFuel, h')
    end.
Proof.
  unfold add, convert_resample, heap_bind, pure_step.
  destruct (_convertPoints l h) as [[l1| |] h1]; try reflexivity.
  all: destruct (_resample fuel l1 NumPoints h1) as [[np| |] h2]; reflexivity.
Qed.

Lemma q64_check_heap (fuel : nat) (this : QDollar) (l : loc) (h : heap) :
  snd (check fuel this l h) = snd (convert_resample fuel l h).
Proof.
  rewrite q64_check_unfold. destruct (convert_resample fuel l h) as [[np| |] h']; reflexivity.
Qed.

Lemma q64_add_heap (fuel : nat) (this : QDollar) (name : string) (l : loc) (h : heap) :
  snd (add fuel this name l h) = snd (convert_resample fuel l h).
Proof.
  rewrite q64_add_unfold. destruct (convert_resample fuel l h) as [[np| |] h']; reflexivity.
Qed.

(** With [n] points returned, [n - 2] or [n - 1] points were spliced in. *)
Lemma q64_resampled_spliced (n : nat) (points newPoints points' : list Point) :
  resampled n points newPoints points' -> length newPoints = n ->
  (length points' + 2 = length points + n)%nat \/
  (length points' + 1 = length points + n)%nat.
Proof.
  intros (p0 & qs & _ & (Hlen & _ & _) & [[-> Hn] | (pl & _ & -> & Hn)]) Hnp.
  - cbn [length] in Hnp. right. lia.
  - cbn [length] in Hnp. rewrite length_app in Hnp. cbn [length] in Hnp. left. lia.
Qed.

Lemma q64_heap_effect_records (fuel : nat) (l : loc) (h : heap) (points : list Point) :
  h !! l = Some (Records points) ->
  heap_effect fuel (Records points) h (snd (convert_resample fuel l h)) l.
Proof.
  intros Hl newPoints pts' Hrun.
  rewrite (q64_convert_resample_records fuel l h points Hl).
  rewrite (q64_resample_records fuel l NumPoints h points newPoints pts' Hl Hrun).
  split; [reflexivity|]. pose proof (q64_resample_array_spec _ _ _ _ _ Hrun) as Hres.
  split; [exact Hres|]. intros Hn.
  destruct (q64_resampled_spliced _ _ _ _ Hres Hn) as [H|H]; unfold NumPoints in H; lia.
Qed.

Lemma q64_heap_effect_pairs (fuel : nat) (l : loc) (h : heap) (ps : list (float * float)) :
  h !! l = Some (Pairs ps) ->
  heap_effect fuel (Pairs ps) h (snd (convert_resample fuel l h)) l.
Proof.
  intros Hl l0 Hl0. apply (q64_convert_resample_pairs fuel l h ps l0 Hl Hl0).
Qed.

Lemma q64_heap_effect (fuel : nat) (l : loc) (h : heap) (raw : RawPoints) :
  h !! l = Some raw ->
  heap_effect fuel raw h (snd (convert_resample fuel l h)) l.
Proof.
  destruct raw as [ps|pts]; [apply q64_heap_effect_pairs | apply q64_heap_effect_records].
Qed.

End B64QResample.

Module B64OResample.
Import PrimFloat B64 B64.OneDollar B64OneDollarView.

Lemma o64_splice_length (points : list Point) (i : nat) (q : Point) :
  (i <= length points)%nat -> length (splice points i q) = S (length points).
Proof.
  intros Hi. unfold splice. rewrite length_app, length_take. cbn [length].
  rewrite length_drop. lia.
Qed.

Lemma o64_splice_sublist (points : list Point) (i : nat) (q : Point) :
  sublist points (splice points i q).
Proof.
  unfold splice. rewrite <- (take_drop i points) at 1.
  apply sublist_app; [reflexivity|]. apply sublist_cons. reflexivity.
Qed.

Lemma o64_splice_lookup (points : list Point) (i : nat) (q : Point) :
  (i <= length points)%nat -> splice points i q !! i = Some q.
Proof.
  intros Hi. unfold splice. rewrite lookup_app_r by (rewrite length_take; lia).
  rewrite length_take. replace (i - i `min` length points)%nat with 0%nat by lia.
  reflexivity.
Qed.

Lemma o64_splice_take (points : list Point) (i : nat) (q : Point) :
  (i <= length points)%nat -> take i (splice points i q) = take i points.
Proof.
  intros Hi. unfold splice. rewrite take_app_le by (rewrite length_take; lia).
  rewrite take_take, Nat.min_id. reflexivity.
Qed.

(** The loop appends to [newPoints] the points [qs] it synthesizes, and
    splices the same points into the array, behind position [i]. *)
Lemma o64_resample_loop_spec (fuel : nat) (I : float) :
  forall (points : list Point) (i : nat) (D : float) (newPoints np pts' : list Point),
    (i <= length points)%nat ->
    resample_loop fuel I points i D newPoints = Ret (np, pts') ->
    exists qs : list Point,
      np = newPoints ++ qs /\
      length pts' = (length points + length qs)%nat /\
      take i pts' = take i points /\
      sublist (drop i points) (drop i pts') /\
      sublist qs (drop i pts').
Proof.
  induction fuel as [|fuel IH]; intros points i D newPoints np pts' Hi; [discriminate|].
  cbn [resample_loop]. case_bool_decide as Hlt.
  - destruct (points !! (i - 1)%nat) as [p1|] eqn:E1; cbn [deref bind]; [|discriminate].
    destruct (points !! i) as [p2|] eqn:E2; cbn [deref bind]; [|discriminate].
    assert (Hdrop : drop i points = p2 :: drop (S i) points).
    { apply drop_S. exact E2. }
    destruct (jge _ _).
    + set (q := mkPoint _ _). intros Hrun.
      apply IH in Hrun as (qs & -> & Hlen & Htake & Hsub & Hqs);
        [|rewrite o64_splice_length; lia].
      exists (q :: qs). rewrite <- app_assoc. split; [reflexivity|].
      rewrite o64_splice_length in Hlen by lia. cbn [length].
      split; [lia|].
      assert (Htake' : take i pts' = take i points).
      { rewrite <- (o64_splice_take points i q) by lia.
        apply (take_prefix_eq _ _ i (S i)); [lia | exact Htake]. }
      split; [exact Htake'|].
      assert (Hq : pts' !! i = Some q).
      { rewrite <- (lookup_take_lt pts' (S i) i) by lia. rewrite Htake.
        rewrite lookup_take_lt by lia. apply o64_splice_lookup. lia. }
      rewrite (drop_S _ _ _ Hq).
      assert (Hs : drop (S i) (splice points i q) = drop i points).
      { unfold splice. rewrite drop_app_ge by (rewrite length_take; lia).
        rewrite length_take. replace (S i - i `min` length points)%nat with 1%nat by lia.
        reflexivity. }
      rewrite Hs in Hsub. split.
      * apply sublist_cons. exact Hsub.
      * apply sublist_skip. exact Hqs.
    + intros Hrun. apply IH in Hrun as (qs & -> & Hlen & Htake & Hsub & Hqs); [|lia].
      exists qs. split; [reflexivity|]. split; [exact Hlen|].
      assert (Htake' : take i pts' = take i points).
      { apply (take_prefix_eq _ _ i (S i)); [lia | exact Htake]. }
      split; [exact Htake'|].
      assert (Hp2 : pts' !! i = Some p2).
      { rewrite <- (lookup_take_lt pts' (S i) i) by lia. rewrite Htake.
        rewrite lookup_take_lt by lia. exact E2. }
      rewrite (drop_S _ _ _ Hp2), Hdrop. split.
      * apply sublist_skip. exact Hsub.
      * apply sublist_cons. exact Hqs.
  - intros [= <- <-]. exists []. rewrite app_nil_r, Nat.add_0_r.
    split; [reflexivity|]. split; [reflexivity|]. split; [reflexivity|].
    split; [reflexivity|]. apply sublist_nil_l.
Qed.

Lemma o64_resample_array_spec (fuel : nat) (points : list Point) (n : nat)
    (newPoints points' : list Point) :
  resample_array fuel points n = Ret (newPoints, points') ->
  resampled n points newPoints points'.
Proof.
  unfold resample_array. destruct (points !! 0%nat) as [p0|] eqn:E0; [|discriminate].
  cbn [deref bind].
  destruct (resample_loop fuel _ points 1 0 [p0]) as [[np pts']| |] eqn:Hloop;
    try discriminate. cbn [bind].
  assert (H1 : (1 <= length points)%nat).
  { apply lookup_lt_Some in E0. lia. }
  destruct (o64_resample_loop_spec _ _ _ _ _ _ _ _ H1 Hloop)
    as (qs & -> & Hlen & Htake & Hsub & Hqs).
  assert (Hsp : spliced points qs pts').
  { split; [exact Hlen|]. split.
    - rewrite <- (take_drop 1 points), <- (take_drop 1 pts'), Htake.
      apply sublist_app; [reflexivity | exact Hsub].
    - rewrite <- (take_drop 1 pts'). apply sublist_inserts_l. exact Hqs. }
  cbn [app length]. case_bool_decide as Hn.
  - destruct (last pts') as [pl|] eqn:El; [|discriminate]. cbn [deref bind].
    intros [= <- <-]. exists p0, qs. split; [exact E0|]. split; [exact Hsp|].
    right. exists pl. split; [exact El|]. split; [reflexivity | exact Hn].
  - intros [= <- <-]. exists p0, qs. split; [exact E0|]. split; [exact Hsp|].
    left. split; [reflexivity | exact Hn].
Qed.


(** *** The heap *)

Lemma o64_resample_records (fuel : nat) (l : loc) (n : nat) (h : heap)
    (points newPoints points' : list Point) :
  h !! l = Some (Records points) ->
  resample_array fuel points n = Ret (newPoints, points') ->
  _resample fuel l n h = (Ret newPoints, <[l := Records points']> h).
Proof. intros Hl Hrun. unfold _resample. rewrite Hl. cbn [records]. rewrite Hrun. reflexivity. Qed.

Lemma o64_resample_returns (fuel : nat) (l : loc) (n : nat) (h h' : heap)
    (newPoints : list Point) :
  _resample fuel l n h = (Ret newPoints, h') ->
  exists (raw : RawPoints) (points points' : list Point),
    h !! l = Some raw /\ records raw = Ret points /\
    resample_array fuel points n = Ret (newPoints, points') /\
    h' = <[l := Records points']> h.
Proof.
  unfold _resample. destruct (h !! l) as [raw|]; [|discriminate].
  destruct (records raw) as [points| |] eqn:Hrec; try discriminate.
  destruct (resample_array fuel points n) as [[np pts']| |] eqn:Hrun; try discriminate.
  intros [= <- <-]. exists raw, points, pts'. auto.
Qed.

(** Only the array behind [l] changes. *)
Lemma o64_resample_frame (fuel : nat) (l : loc) (n : nat) (h : heap) (l0 : loc) :
  l0 <> l -> snd (_resample fuel l n h) !! l0 = h !! l0.
Proof.
  intros Hne. unfold _resample. destruct (h !! l) as [raw|]; [|reflexivity].
  destruct (records raw) as [points| |]; try reflexivity.
  destruct (resample_array fuel points n) as [[np pts']| |]; try reflexivity.
  cbn [snd]. apply lookup_insert_ne. congruence.
Qed.

Lemma o64_convert_resample_records (fuel : nat) (l : loc) (h : heap) (points : list Point) :
  h !! l = Some (Records points) ->
  convert_resample fuel l h = _resample fuel l NumPoints h.
Proof.
  intros Hl. unfold convert_resample, heap_bind, _convertPoints. rewrite Hl. reflexivity.
Qed.

(** With an array of pairs as argument every array that exists is left
    as it is, whatever the outcome. *)
Lemma o64_convert_resample_pairs (fuel : nat) (l : loc) (h : heap) (ps : list (float * float))
    (l0 : loc) :
  h !! l = Some (Pairs ps) -> is_Some (h !! l0) ->
  snd (convert_resample fuel l h) !! l0 = h !! l0.
Proof.
  intros Hl [v Hl0]. unfold convert_resample, heap_bind, _convertPoints. rewrite Hl.
  destruct ps as [|p ps].
  - unfold _resample. rewrite Hl. reflexivity.
  - set (l' := fresh (dom h)). set (h1 := <[l' := _]> h).
    assert (Hfresh : l0 <> l').
    { intros ->. pose proof (is_fresh (dom h)) as Hf. apply Hf.
      apply elem_of_dom. exists v. exact Hl0. }
    rewrite o64_resample_frame by exact Hfresh. unfold h1.
    apply lookup_insert_ne. congruence.
Qed.

(** [check] and [add] are [_convertPoints] and [_resample] followed by
    steps that do not touch the heap. *)
Lemma o64_check_unfold (J : Math) (fuel : nat) (this : OneDollar) (l : loc) (h : heap) :
  check J fuel this l h
  = match convert_resample fuel l h with
    | (Ret processed, h') =>
        (do processedPoints <- normalize J processed;
         recognize J fuel this processedPoints, h')
    | (Throw e, h') => (Throw e, h')
    | (OutOfFuel, h') => (OutOfFuel, h')
    end.
Proof.
  unfold check, convert_resample, heap_bind, pure_step.
  destruct (_convertPoints l h) as [[l1| |] h1]; try reflexivity.
  all: destruct (_resample fuel l1 NumPoints h1) as [[np| |] h2]; reflexivity.
Qed.

Lemma o64_add_unfold (J : Math) (fuel : nat) (this : OneDollar) (name : string) (l : loc)
    (h : heap) :
  add J fuel this name l h
  = match convert_resample fuel l h with
    | (Ret processed, h') =>
        (do processed <- normalize J processed;
         Ret (mkOneDollar
                (Templates this ++ [mkTemplate name processed (_vectorize processed)])),
         h')
    | (Throw e, h') => (Throw e, h')
    | (OutOfFuel, h') => (OutOfFuel, h')
    end.
Proof.
  unfold add, convert_resample, heap_bind, pure_step.
  destruct (_convertPoints l h) as [[l1| |] h1]; try reflexivity.
  all: destruct (_resample fuel l1 NumPoints h1) as [[np| |] h2]; reflexivity.
Qed.

Lemma o64_check_heap (J : Math) (fuel : nat) (this : OneDollar) (l : loc) (h : heap) :
  snd (check J fuel this l h) = snd (convert_resample fuel l h).
Proof.
  rewrite o64_check_unfold. destruct (convert_resample fuel l h) as [[np| |] h']; reflexivity.
Qed.

Lemma o64_add_heap (J : Math) (fuel : nat) (this : OneDollar) (name : string) (l : loc)
    (h : heap) :
  snd (add J fuel this name l h) = snd (convert_resample fuel l h).
Proof.
  rewrite o64_add_unfold. destruct (convert_resample fuel l h) as [[np| |] h']; reflexivity.
Qed.

(** With [n] points returned, [n - 2] or [n - 1] points were spliced in. *)
Lemma o64_resampled_spliced (n : nat) (points newPoints points' : list Point) :
  resampled n points newPoints points' -> length newPoints = n ->
  (length points' + 2 = length points + n)%nat \/
  (length points' + 1 = length points + n)%nat.
Proof.
  intros (p0 & qs & _ & (Hlen & _ & _) & [[-> Hn] | (pl & _ & -> & Hn)]) Hnp.
  - cbn [length] in Hnp. right. lia.
  - cbn [length] in Hnp. rewrite length_app in Hnp. cbn [length] in Hnp. left. lia.
Qed.

Lemma o64_heap_effect_records (fuel : nat) (l : loc) (h : heap) (points : list Point) :
  h !! l = Some (Records points) ->
  heap_effect fuel (Records points) h (snd (convert_resample fuel l h)) l.
Proof.
  intros Hl newPoints pts' Hrun.
  rewrite (o64_convert_resample_records fuel l h points Hl).
  rewrite (o64_resample_records fuel l NumPoints h points newPoints pts' Hl Hrun).
  split; [reflexivity|]. pose proof (o64_resample_array_spec _ _ _ _ _ Hrun) as Hres.
  split; [exact Hres|]. intros Hn.
  destruct (o64_resampled_spliced _ _ _ _ Hres Hn) as [H|H]; unfold NumPoints in H; lia.
Qed.

Lemma o64_heap_effect_pairs (fuel : nat) (l : loc) (h : heap) (ps : list (float * float)) :
  h !! l = Some (Pairs ps) ->
  heap_effect fuel (Pairs ps) h (snd (convert_resample fuel l h)) l.
Proof.
  intros Hl l0 Hl0. apply (o64_convert_resample_pairs fuel l h ps l0 Hl Hl0).
Qed.

Lemma o64_heap_effect (fuel : nat) (l : loc) (h : heap) (raw : RawPoints) :
  h !! l = Some raw ->
  heap_effect fuel raw h (snd (convert_resample fuel l h)) l.
Proof.
  destruct raw as [ps|pts]; [apply o64_heap_effect_pairs | apply o64_heap_effect_records].
Qed.

End B64OResample.

(** ** The golden section search in double precision *)

Module B64Golden.
Import PrimFloat B64 B64.OneDollar B64OneDollarView.

Local Open Scope float_scope.

Lemma pathDistance_loop_returns (pts1 pts2 : list Point) :
  forall d : float, (length pts1 <= length pts2)%nat ->
    exists d' : float, pathDistance_loop d pts1 pts2 = Ret d'.
Proof.
  revert pts2. induction pts1 as [|p1 pts1 IH]; intros pts2 d Hlen.
  - exists d. reflexivity.
  - destruct pts2 as [|p2 pts2]; cbn [length] in Hlen; [lia|].
    cbn [pathDistance_loop]. apply IH. lia.
Qed.

Lemma o64_pathDistance_loop_short (pts1 pts2 : list Point) :
  forall d : float, (length pts2 < length pts1)%nat ->
    pathDistance_loop d pts1 pts2 = Throw TypeError.
Proof.
  revert pts2. induction pts1 as [|p1 pts1 IH]; intros pts2 d Hlen.
  - cbn [length] in Hlen. lia.
  - destruct pts2 as [|p2 pts2]; [reflexivity|].
    cbn [pathDistance_loop length] in *. apply IH. lia.
Qed.

(** The objective is defined at every angle when the template has a point
    for every point of the candidate, and raises otherwise. *)
Lemma distanceAtAngle_returns (J : Math) (points : list Point) (T : Template)
    (radians : float) :
  (length points <= length (Points T))%nat ->
  exists d : float, _distanceAtAngle J points T radians = Ret d.
Proof.
  intros Hlen. unfold _distanceAtAngle, _pathDistance.
  destruct (pathDistance_loop_returns (_rotateBy J points radians) (Points T) 0)
    as [d Hd].
  { unfold _rotateBy. rewrite length_map. exact Hlen. }
  rewrite Hd. cbn [bind]. eexists. reflexivity.
Qed.

Lemma o64_distanceAtAngle_short (J : Math) (points : list Point) (T : Template)
    (radians : float) :
  (length (Points T) < length points)%nat ->
  _distanceAtAngle J points T radians = Throw TypeError.
Proof.
  intros Hlen. unfold _distanceAtAngle, _pathDistance.
  rewrite o64_pathDistance_loop_short; [reflexivity|].
  unfold _rotateBy. rewrite length_map. exact Hlen.
Qed.

(** The loop, one turn at a time. *)
Lemma golden_loop_unfold (J : Math) (fuel : nat) (points : list Point) (T : Template)
    (threshold : float) (st : Bracket) :
  golden_loop J (S fuel) points T threshold st
  = if wide threshold st then
      do st1 <- golden_body J points T st;
      golden_loop J fuel points T threshold st1
    else Ret st.
Proof.
  destruct st as [a b x1 f1 x2 f2 k]. unfold wide. cbn [golden_loop golden_body ga gb].
  destruct (jgt _ _); [|reflexivity].
  destruct (f1 <? f2).
  - destruct (_distanceAtAngle J points T _); reflexivity.
  - destruct (_distanceAtAngle J points T _); reflexivity.
Qed.

(** A turn makes one evaluation, keeps [f1], [f2] the objective at [x1],
    [x2], and narrows the bracket to the left or to the right. *)
Lemma golden_body_spec (J : Math) (points : list Point) (T : Template) (st st1 : Bracket) :
  evaluated J points T st ->
  golden_body J points T st = Ret st1 ->
  evaluated J points T st1 /\ evals st1 = S (evals st) /\
  (section_of st1 = narrow_left (section_of st) \/
   section_of st1 = narrow_right (section_of st)).
Proof.
  destruct st as [a b x1 f1 x2 f2 k]. intros [E1 E2]. cbn [gx1 gx2 gf1 gf2] in E1, E2.
  cbn [golden_body]. destruct (f1 <? f2).
  - destruct (_distanceAtAngle J points T (Phi * a + (1 - Phi) * x2)) as [f| |] eqn:E;
      try discriminate.
    cbn [bind]. intros [= <-]. split; [split; [exact E | exact E1]|].
    split; [reflexivity|]. left. reflexivity.
  - destruct (_distanceAtAngle J points T ((1 - Phi) * x1 + Phi * b)) as [f| |] eqn:E;
      try discriminate.
    cbn [bind]. intros [= <-]. split; [split; [exact E2 | exact E]|].
    split; [reflexivity|]. right. reflexivity.
Qed.

(** When the loop returns, it has made some number [k] of turns, each
    with one evaluation, and the test fails in the state it returns. *)
Lemma golden_loop_returns (J : Math) (points : list Point) (T : Template)
    (threshold : float) :
  forall (fuel : nat) (st st' : Bracket),
    evaluated J points T st ->
    golden_loop J fuel points T threshold st = Ret st' ->
    exists k : nat,
      (k < fuel)%nat /\ iterates J points T threshold k st st' /\
      wide threshold st' = false /\ evals st' = (evals st + k)%nat /\
      evaluated J points T st'.
Proof.
  induction fuel as [|fuel IH]; intros st st' Hev; [discriminate|].
  rewrite golden_loop_unfold. destruct (wide threshold st) eqn:Hw.
  - destruct (golden_body J points T st) as [st1| |] eqn:Hbody; try discriminate.
    cbn [bind]. intros Hrun.
    destruct (golden_body_spec J points T st st1 Hev Hbody) as (Hev1 & Hk1 & _).
    destruct (IH st1 st' Hev1 Hrun) as (k & Hk & Hit & Hw' & He & Hev').
    exists (S k). split; [lia|]. split; [econstructor; eassumption|].
    split; [exact Hw'|]. split; [lia | exact Hev'].
  - intros [= <-]. exists 0%nat. split; [lia|]. split; [constructor|].
    split; [exact Hw|]. split; [lia | exact Hev].
Qed.

Lemma wide_section (threshold : float) (st : Bracket) :
  wide threshold st = jgt (section_width (section_of st)) threshold.
Proof. destruct st. reflexivity. Qed.

(** When every sequence of narrowings makes exactly [k] turns, so does
    the loop, whatever the objective is. *)
Lemma all_paths_loop (J : Math) (points : list Point) (T : Template)
    (threshold : float) (final : float -> bool) :
  (length points <= length (Points T))%nat ->
  forall (k fuel : nat) (st : Bracket),
    all_paths threshold final k (section_of st) = true ->
    evaluated J points T st -> (k < fuel)%nat ->
    exists st' : Bracket,
      golden_loop J fuel points T threshold st = Ret st' /\
      iterates J points T threshold k st st' /\
      wide threshold st' = false /\
      final (Math_abs (gb st' - ga st')) = true /\
      evals st' = (evals st + k)%nat /\ evaluated J points T st'.
Proof.
  intros Hlen. induction k as [|k IH]; intros fuel st Hall Hev Hfuel.
  - destruct fuel as [|fuel]; [lia|]. rewrite golden_loop_unfold, wide_section.
    cbn [all_paths] in Hall. apply andb_true_iff in Hall as [Hw Hfin].
    apply negb_true_iff in Hw. rewrite Hw. exists st.
    split; [reflexivity|]. split; [constructor|]. rewrite wide_section.
    split; [exact Hw|]. split; [destruct st; exact Hfin|]. split; [lia | exact Hev].
  - destruct fuel as [|fuel]; [lia|]. rewrite golden_loop_unfold, wide_section.
    cbn [all_paths] in Hall. apply andb_true_iff in Hall as [Hall Hright].
    apply andb_true_iff in Hall as [Hw Hleft]. rewrite Hw.
    assert (Hbody : exists st1, golden_body J points T st = Ret st1).
    { destruct st as [a b x1 f1 x2 f2 e]. cbn [golden_body]. destruct (f1 <? f2).
      - destruct (distanceAtAngle_returns J points T (Phi * a + (1 - Phi) * x2) Hlen)
          as [f Hf]. rewrite Hf. eexists. reflexivity.
      - destruct (distanceAtAngle_returns J points T ((1 - Phi) * x1 + Phi * b) Hlen)
          as [f Hf]. rewrite Hf. eexists. reflexivity. }
    destruct Hbody as [st1 Hbody]. rewrite Hbody. cbn [bind].
    destruct (golden_body_spec J points T st st1 Hev Hbody) as (Hev1 & He1 & Hsec).
    assert (Hall1 : all_paths threshold final k (section_of st1) = true).
    { destruct Hsec as [-> | ->]; assumption. }
    destruct (IH fuel st1 Hall1 Hev1 ltac:(lia)) as (st' & Hrun & Hit & Hw' & Hfin & He & Hev').
    exists st'. split; [exact Hrun|]. split.
    + econstructor; [rewrite wide_section; exact Hw | exact Hbody | exact Hit].
    + split; [exact Hw'|]. split; [exact Hfin|]. split; [lia | exact Hev'].
Qed.

(** With the bracket and the precision that [check] passes, every
    sequence of narrowings makes exactly eight turns. *)
Lemma canonical_paths :
  all_paths AnglePrecision (fun w => 1.875 <? w) 8
    (- AngleRange, AngleRange,
     Phi * (- AngleRange) + (1 - Phi) * AngleRange,
     (1 - Phi) * (- AngleRange) + Phi * AngleRange) = true.
Proof. vm_compute. reflexivity. Qed.

Lemma o64_golden_canonical (J : Math) (points : list Point) (T : Template) (fuel : nat) :
  (length points <= length (Points T))%nat -> (9 <= fuel)%nat ->
  exists st0 st : Bracket,
    golden_init J points T (- AngleRange) AngleRange = Ret st0 /\
    golden_loop J fuel points T AnglePrecision st0 = Ret st /\
    iterates J points T AnglePrecision 8 st0 st /\
    wide AnglePrecision st = false /\
    (1.875 <? Math_abs (gb st - ga st)) = true /\
    evals st = 10%nat /\ evaluated J points T st /\
    _distanceAtBestAngle J fuel points T (- AngleRange) AngleRange AnglePrecision
    = Ret (Math_min (gf1 st) (gf2 st)).
Proof.
  intros Hlen Hfuel. unfold _distanceAtBestAngle, golden_init.
  destruct (distanceAtAngle_returns J points T
              (Phi * (- AngleRange) + (1 - Phi) * AngleRange) Hlen) as [f1 Hf1].
  destruct (distanceAtAngle_returns J points T
              ((1 - Phi) * (- AngleRange) + Phi * AngleRange) Hlen) as [f2 Hf2].
  rewrite Hf1. cbn [bind]. rewrite Hf2. cbn [bind].
  set (st0 := mkBracket _ _ _ f1 _ f2 2).
  destruct (all_paths_loop J points T AnglePrecision (fun w => 1.875 <? w) Hlen 8 fuel st0)
    as (st & Hrun & Hit & Hw & Hfin & He & Hev).
  - exact canonical_paths.
  - split; assumption.
  - lia.
  - exists st0, st. rewrite Hrun. cbn [bind]. repeat (split; [assumption || reflexivity|]).
    reflexivity.
Qed.

(** *** A bracket that never narrows

    Between [1] and the next number, [1 + 2^-52], both interior points
    round to [1]: the two objective values are equal, the bracket is
    narrowed to the right, and the new state is the old one. *)

Lemma stuck_loop (J : Math) (points : list Point) (T : Template) (d : float) :
  _distanceAtAngle J points T 1 = Ret d ->
  forall (fuel k : nat),
    golden_loop J fuel points T B64Samples.stuck_threshold (mkBracket 1 B64Samples.stuck_b 1 d 1 d k)
    = OutOfFuel.
Proof.
  intros Hd. induction fuel as [|fuel IH]; intros k; [reflexivity|].
  cbn [golden_loop].
  change (jgt (Math_abs (B64Samples.stuck_b - 1)) B64Samples.stuck_threshold) with true. cbn match.
  rewrite B64Num.ltb_irrefl.
  change ((1 - Phi) * 1 + Phi * B64Samples.stuck_b) with 1.
  rewrite Hd. cbn [bind]. apply IH.
Qed.

Lemma stuck (J : Math) (points : list Point) (T : Template) (fuel : nat) :
  (length points <= length (Points T))%nat ->
  _distanceAtBestAngle J fuel points T 1 B64Samples.stuck_b B64Samples.stuck_threshold = OutOfFuel.
Proof.
  intros Hlen. destruct (distanceAtAngle_returns J points T 1 Hlen) as [d Hd].
  unfold _distanceAtBestAngle, golden_init.
  change (Phi * 1 + (1 - Phi) * B64Samples.stuck_b) with 1.
  change ((1 - Phi) * 1 + Phi * B64Samples.stuck_b) with 1.
  rewrite Hd. cbn [bind]. rewrite (stuck_loop J points T d Hd). reflexivity.
Qed.

End B64Golden.

(** ** The scale and translate steps in double precision *)


Module B64OScale.
Import PrimFloat B64 B64.OneDollar B64OneDollarView.

Local Open Scope float_scope.












End B64OScale.

Module B64QScale.
Import PrimFloat B64 B64.QDollar B64QDollarView.

Local Open Scope float_scope.







End B64QScale.

(** ** The minimum search in double precision *)

Module B64SearchFacts.
Import PrimFloat B64 B64Search.

Local Open Scope float_scope.

Lemma search_inv_step (t0 : option nat) (pre : list float) (b : float) (t : option nat)
    (d : float) :
  search_inv t0 pre b t ->
  search_inv t0 (pre ++ [d]) (if d <? b then d else b)
    (if d <? b then Some (length pre) else t).
Proof.
  intros Hinv. destruct (d <? b) eqn:Hdb.
  - right. exists (length pre).
    assert (Hd : (pre ++ [d]) !! length pre = Some d) by apply list_lookup_middle, eq_refl.
    split; [reflexivity|]. split; [exact Hd|]. exists d. split; [exact Hd|].
    assert (Hinf : (d <? Infinity) = true).
    { destruct Hinv as [(-> & _ & _) | (k & _ & Hkb & d' & Hk & Hlt & _)]; [exact Hdb|].
      assert (d' = b) by congruence. subst d'.
      eapply B64Num.ltb_trans; [exact Hdb | exact Hlt]. }
    split; [exact Hinf|].
    assert (Hbelow : forall dj, dj ∈ pre -> (dj <? b) = false).
    { intros dj Hin. destruct Hinv as [(-> & _ & Hall) | (k & _ & Hkb & d' & Hk & _ & Hno & _)].
      - eapply Forall_forall in Hall; [exact Hall | exact Hin].
      - apply list_elem_of_lookup in Hin as [j Hj].
        assert (d' = b) by congruence. subst d'. exact (Hno j dj Hj). }
    split.
    + intros j dj Hj. destruct (dj <? d) eqn:E; [|reflexivity]. exfalso.
      apply lookup_app_Some in Hj as [Hj | [_ Hj]].
      * pose proof (Hbelow dj (list_elem_of_lookup_2 _ _ _ Hj)) as Hf.
        rewrite (B64Num.ltb_trans _ _ _ E Hdb) in Hf. discriminate.
      * destruct (j - length pre)%nat; [|discriminate]. injection Hj as <-.
        rewrite B64Num.ltb_irrefl in E. discriminate.
    + intros j dj Hlt Hj. destruct (dj <=? d) eqn:E; [|reflexivity]. exfalso.
      rewrite lookup_app_l in Hj by exact Hlt.
      pose proof (Hbelow dj (list_elem_of_lookup_2 _ _ _ Hj)) as Hf.
      rewrite (B64Num.leb_ltb_trans _ _ _ E Hdb) in Hf. discriminate.
  - destruct Hinv as [(-> & -> & Hall) | (k & -> & Hkb & d' & Hk & Hlt & Hno & Hbefore)].
    + left. split; [reflexivity|]. split; [reflexivity|].
      apply Forall_app. split; [exact Hall|]. constructor; [exact Hdb | constructor].
    + right. exists k. assert (d' = b) by congruence. subst d'.
      assert (Hkl : (k < length pre)%nat) by (eapply lookup_lt_Some; exact Hk).
      split; [reflexivity|]. split; [rewrite lookup_app_l by exact Hkl; exact Hk|].
      exists b. split; [rewrite lookup_app_l by exact Hkl; exact Hk|].
      split; [exact Hlt|]. split.
      * intros j dj Hj. apply lookup_app_Some in Hj as [Hj | [_ Hj]].
        -- exact (Hno j dj Hj).
        -- destruct (j - length pre)%nat; [|discriminate]. injection Hj as <-. exact Hdb.
      * intros j dj Hjk Hj. rewrite lookup_app_l in Hj by lia. exact (Hbefore j dj Hjk Hj).
Qed.

Lemma argmin_loop_inv (t0 : option nat) (ds : list float) :
  forall (pre : list float) (b : float) (t : option nat),
    search_inv t0 pre b t ->
    search_inv t0 (pre ++ ds) (fst (argmin_loop ds (length pre) b t))
      (snd (argmin_loop ds (length pre) b t)).
Proof.
  induction ds as [|d ds IH]; intros pre b t Hinv.
  - rewrite app_nil_r. exact Hinv.
  - cbn [argmin_loop]. pose proof (search_inv_step t0 pre b t d Hinv) as Hstep.
    replace (pre ++ d :: ds) with ((pre ++ [d]) ++ ds) by (rewrite <- app_assoc; reflexivity).
    replace (S (length pre)) with (length (pre ++ [d]))
      by (rewrite length_app; cbn [length]; lia).
    destruct (d <? b); apply IH; exact Hstep.
Qed.

(** From [b = +Infinity]: the search ends on the first minimum of the
    distances, or with nothing when no distance is below [+Infinity]. *)
Lemma search_loop_spec (ds : list float) (t0 : option nat) :
  (argmin_loop ds 0 Infinity t0 = (Infinity, t0) /\ none_below_infinity ds) \/
  (exists (t : nat) (d : float),
     argmin_loop ds 0 Infinity t0 = (d, Some t) /\ ds !! t = Some d /\
     first_minimum ds t).
Proof.
  pose proof (argmin_loop_inv t0 ds [] Infinity t0) as H. cbn [app length] in H.
  destruct (argmin_loop ds 0 Infinity t0) as [b t]. cbn [fst snd] in H.
  destruct H as [(-> & -> & Hall) | (k & -> & Hk & Hmin)].
  - left. split; [reflexivity|]. split; [reflexivity|]. constructor.
  - left. split; [reflexivity | exact Hall].
  - right. exists k, b. auto.
Qed.

(** The first minimum is unique. *)
Lemma first_minimum_unique (ds : list float) (s t : nat) :
  first_minimum ds s -> first_minimum ds t -> s = t.
Proof.
  intros (ds_s & Hs & Hsi & Hs1 & Hs2) (dt & Ht & Hti & Ht1 & Ht2).
  assert (Hns : is_nan ds_s = false) by (eapply B64Num.ltb_not_nan_l; exact Hsi).
  assert (Hnt : is_nan dt = false) by (eapply B64Num.ltb_not_nan_l; exact Hti).
  destruct (Nat.lt_trichotomy s t) as [Hlt | [Heq | Hgt]]; [|exact Heq|]; exfalso.
  - pose proof (Ht2 s ds_s Hlt Hs) as H1. pose proof (Hs1 t dt Ht) as H2.
    rewrite (B64Num.ltb_total dt ds_s Hnt Hns H2) in H1. discriminate.
  - pose proof (Hs2 t dt Hgt Ht) as H1. pose proof (Ht1 s ds_s Hs) as H2.
    rewrite (B64Num.ltb_total ds_s dt Hns Hnt H2) in H1. discriminate.
Qed.

Lemma first_minimum_not_none (ds : list float) (t : nat) :
  first_minimum ds t -> ~ none_below_infinity ds.
Proof.
  intros (d & Ht & Hlt & _) Hall.
  eapply Forall_forall in Hall; [|eapply list_elem_of_lookup_2; exact Ht].
  congruence.
Qed.

(** Once an index is held, one is held to the end. *)
Lemma argmin_loop_Some (ds : list float) :
  forall (i : nat) (b : float) (k : nat),
    is_Some (snd (argmin_loop ds i b (Some k))).
Proof.
  induction ds as [|d ds IH]; intros i b k; cbn [argmin_loop].
  - eexists. reflexivity.
  - destruct (d <? b); apply IH.
Qed.

End B64SearchFacts.

(** ** [check], [add] and the constructor in double precision *)

Module B64OCheck.
Import PrimFloat B64 B64.OneDollar B64OneDollarView B64Search.

Local Open Scope float_scope.

(** The template loop is the minimum search over the distances. *)
Lemma o64_check_loop_argmin (J : Math) (fuel : nat) (points : list Point) :
  forall (templates : list Template) (ds : list float) (i : nat) (b : float) (t : nat)
         (o : option nat),
    distances J fuel points templates ds ->
    o = None \/ o = Some t ->
    check_loop J fuel points templates i b t
    = Ret (fst (argmin_loop ds i b o), default t (snd (argmin_loop ds i b o))).
Proof.
  induction templates as [|T templates IH]; intros ds i b t o Hds Ho.
  - inversion Hds; subst. cbn. destruct Ho as [-> | ->]; reflexivity.
  - inversion Hds as [|? d ? ds' Hd Hrest]; subst. cbn [check_loop argmin_loop].
    rewrite Hd. cbn [bind]. destruct (d <? b).
    + rewrite (IH ds' (S i) d i (Some i) Hrest) by (right; reflexivity).
      destruct (B64SearchFacts.argmin_loop_Some ds' (S i) d i) as [k ->]. reflexivity.
    + apply IH; [exact Hrest | exact Ho].
Qed.

Lemma o64_score_none : Math_max (1 - Infinity / HalfDiagonal) 0 = 0.
Proof. vm_compute. reflexivity. Qed.

(** What the template loop returns on a store that is not empty. *)
Lemma o64_recognize_spec (J : Math) (fuel : nat) (this : OneDollar) (points : list Point)
    (ds : list float) :
  Templates this <> [] ->
  distances J fuel points (Templates this) ds ->
  exists r : Result,
    recognize J fuel this points = Ret r /\
    ((exists (t : nat) (T : Template),
        first_minimum ds t /\ Templates this !! t = Some T /\ name r = Name T) \/
     (none_below_infinity ds /\
      exists T : Template,
        Templates this !! 0%nat = Some T /\ name r = Name T /\ score r = 0)).
Proof.
  intros Hne Hds. unfold recognize.
  rewrite (o64_check_loop_argmin J fuel points _ ds 0 Infinity 0 None Hds)
    by (left; reflexivity).
  cbn [bind]. destruct (B64SearchFacts.search_loop_spec ds None) as [[Hrun Hall] | (t & d & Hrun & Ht & Hmin)].
  - rewrite Hrun. cbn [fst snd]. change (default 0%nat None) with 0%nat.
    destruct (Templates this) as [|T0 rest] eqn:ET;
      [congruence|]. cbn [lookup list_lookup deref bind]. eexists. split; [reflexivity|].
    right. split; [exact Hall|]. exists T0. split; [reflexivity|]. split; [reflexivity|].
    cbn [score]. exact o64_score_none.
  - rewrite Hrun. cbn [fst snd]. change (default 0%nat (Some t)) with t.
    destruct (Forall2_lookup_r _ _ _ _ _ Hds Ht) as (T & HT & _). rewrite HT.
    cbn [deref bind]. eexists. split; [reflexivity|]. left. exists t, T. auto.
Qed.

(** On an empty store [this.Templates[t].Name] raises. *)
Lemma o64_recognize_empty (J : Math) (fuel : nat) (points : list Point) :
  recognize J fuel (mkOneDollar []) points = Throw TypeError.
Proof. reflexivity. Qed.

Lemma o64_normalize_returns (J : Math) (processed : list Point) :
  processed <> [] -> exists points : list Point, normalize J processed = Ret points.
Proof.
  intros Hne. unfold normalize, _indicativeAngle.
  destruct processed as [|p0 rest]; [congruence|]. cbn [lookup list_lookup deref bind].
  eexists. reflexivity.
Qed.

Lemma o64_normalize_length (J : Math) (processed points : list Point) :
  normalize J processed = Ret points -> length points = length processed.
Proof.
  unfold normalize. destruct (_indicativeAngle J processed); try discriminate.
  cbn [bind]. intros [= <-]. unfold _translateTo, _scaleTo, _rotateBy.
  rewrite !length_map. reflexivity.
Qed.

(** *** [add] appends *)


Lemma o64_add_returns (J : Math) (fuel : nat) (this : OneDollar) (name : string)
    (l : loc) (h h' : heap) (processed : list Point) :
  convert_resample fuel l h = (Ret processed, h') -> processed <> [] ->
  exists T : Template,
    add J fuel this name l h = (Ret (mkOneDollar (Templates this ++ [T])), h') /\
    Name T = name /\ length (Points T) = length processed.
Proof.
  intros Hcr Hne. rewrite B64OResample.o64_add_unfold, Hcr.
  destruct (o64_normalize_returns J processed Hne) as [pts Hn]. rewrite Hn. cbn [bind].
  eexists. split; [reflexivity|]. split; [reflexivity|]. cbn [Points].
  eapply o64_normalize_length. exact Hn.
Qed.

(** More fuel changes nothing in a walk that returned. *)
Lemma o64_resample_loop_fuel (I : float) :
  forall (fuel fuel' : nat) (points : list Point) (i : nat) (D : float)
         (newPoints : list Point) (r : list Point * list Point),
    (fuel <= fuel')%nat ->
    resample_loop fuel I points i D newPoints = Ret r ->
    resample_loop fuel' I points i D newPoints = Ret r.
Proof.
  induction fuel as [|fuel IH]; intros fuel' points i D newPoints r Hle; [discriminate|].
  destruct fuel' as [|fuel']; [lia|]. cbn [resample_loop].
  case_bool_decide; [|auto].
  destruct (points !! (i - 1)%nat); cbn [deref bind]; [|discriminate].
  destruct (points !! i); cbn [deref bind]; [|discriminate].
  destruct (jge _ _); apply IH; lia.
Qed.

Lemma o64_resample_array_fuel (fuel fuel' : nat) (points : list Point) (n : nat)
    (r : list Point * list Point) :
  (fuel <= fuel')%nat ->
  resample_array fuel points n = Ret r -> resample_array fuel' points n = Ret r.
Proof.
  intros Hle. unfold resample_array. destruct (points !! 0%nat); cbn [deref bind];
    [|discriminate].
  destruct (resample_loop fuel _ points 1 0 _) as [[np pts']| |] eqn:Hloop;
    try discriminate.
  rewrite (o64_resample_loop_fuel _ fuel fuel' _ _ _ _ _ Hle Hloop). auto.
Qed.

(** [_convertPoints] and [_resample] on an array of pairs. *)
Lemma o64_convert_resample_returns (fuel : nat) (l : loc) (h : heap)
    (ps : list (float * float)) (newPoints points' : list Point) :
  h !! l = Some (Pairs ps) -> ps <> [] ->
  resample_array fuel (points_of (Pairs ps)) NumPoints = Ret (newPoints, points') ->
  exists h' : heap, convert_resample fuel l h = (Ret newPoints, h').
Proof.
  intros Hl Hne Hrun. unfold convert_resample, heap_bind, _convertPoints. rewrite Hl.
  destruct ps as [|p ps]; [congruence|].
  erewrite B64OResample.o64_resample_records;
    [eexists; reflexivity | apply lookup_insert_eq | exact Hrun].
Qed.

(** *** The constructor *)

Lemma o64_add_default_returns (J : Math) (fuel : nat) (name : string) (l : list (Z * Z))
    (this : OneDollar) (h : heap) :
  (200 <= fuel)%nat -> l <> [] -> resamples_to 64 (literal l) = true ->
  exists (T : Template) (h' : heap),
    add_default J fuel name l this h = (Ret (mkOneDollar (Templates this ++ [T])), h') /\
    Name T = name /\ length (Points T) = 64%nat.
Proof.
  intros Hfuel Hne Hres. unfold resamples_to in Hres.
  destruct (resample_array 200 (points_of (literal l)) NumPoints) as [[np pts']| |] eqn:Hrun;
    try discriminate.
  apply Nat.eqb_eq in Hres.
  apply (o64_resample_array_fuel 200 fuel) in Hrun; [|exact Hfuel].
  unfold add_default, heap_bind, alloc.
  set (l0 := fresh (dom h)). set (h0 := <[l0 := literal l]> h).
  destruct (o64_convert_resample_returns fuel l0 h0
              (map (fun p => (of_Z (fst p), of_Z (snd p))) l) np pts') as [h' Hcr].
  - apply lookup_insert_eq.
  - destruct l; [congruence | discriminate].
  - exact Hrun.
  - destruct (o64_add_returns J fuel this name l0 h0 h' np Hcr) as (T & Hadd & HN & HL).
    { intros ->. discriminate. }
    exists T, h'. split; [exact Hadd|]. split; [exact HN|]. rewrite HL. exact Hres.
Qed.


Ltac o64_default_step :=
  lazymatch goal with
  | Hfuel : (200 <= ?fuel)%nat
    |- context [add_default ?J ?fuel ?name ?l ?this ?h] =>
      let T := fresh "T" in
      let h' := fresh "h" in
      let E := fresh "E" in
      let N := fresh "N" in
      let L := fresh "L" in
      destruct (o64_add_default_returns J fuel name l this h Hfuel
                  ltac:(discriminate) ltac:(vm_compute; reflexivity))
        as (T & h' & E & N & L);
      rewrite E; cbv beta iota; cbn [Templates]
  end.

(** The constructor returns, with the nine default templates, of [64]
    points each, whatever the host's functions are. *)
Lemma o64_constructor_returns (J : Math) (fuel : nat) (h : heap) :
  (200 <= fuel)%nat ->
  exists (this : OneDollar) (h' : heap),
    constructor J fuel h = (Ret this, h') /\
    map Name (Templates this) = Defaults.default_names /\
    Forall (fun T => length (Points T) = 64%nat) (Templates this).
Proof.
  intros Hfuel. unfold constructor, heap_bind, pure_step.
  do 9 o64_default_step.
  eexists _, _. split; [reflexivity|]. cbn [Templates app]. split.
  - cbn [map]. unfold Defaults.default_names. congruence.
  - repeat constructor; assumption.
Qed.





End B64OCheck.

Module B64QCheck.
Import PrimFloat B64 B64.QDollar B64QDollarView B64Search.

Local Open Scope float_scope.

(** The template loop is the minimum search over the distances it
    computes; [bestTemplate] is the template at the index found. *)
Lemma q64_check_loop_argmin (points : list Point) :
  forall (templates pre : list Template) (ds : list float) (b : float)
         (o : option nat),
    cloud_distances points templates b = Ret ds ->
    check_loop points templates b (o ≫= fun k => (pre ++ templates) !! k)
    = Ret (fst (argmin_loop ds (length pre) b o),
           snd (argmin_loop ds (length pre) b o) ≫= fun k => (pre ++ templates) !! k).
Proof.
  induction templates as [|T templates IH]; intros pre ds b o Hds.
  - cbn in Hds. injection Hds as <-. reflexivity.
  - cbn [cloud_distances] in Hds. cbn [check_loop].
    destruct (_cloudMatch points T b) as [d| |]; try discriminate. cbn [bind] in *.
    destruct (cloud_distances points templates (if d <? b then d else b))
      as [ds'| |] eqn:Hds'; try discriminate.
    cbn [bind] in Hds. injection Hds as <-. cbn [argmin_loop].
    assert (Happ : pre ++ T :: templates = (pre ++ [T]) ++ templates)
      by (rewrite <- app_assoc; reflexivity).
    assert (Hlen : S (length pre) = length (pre ++ [T]))
      by (rewrite length_app; cbn [length]; lia).
    rewrite Happ, Hlen. destruct (d <? b).
    + rewrite <- (IH (pre ++ [T]) ds' d (Some (length pre)) Hds'). f_equal.
      cbn [mbind option_bind]. rewrite <- Happ. symmetry. apply list_lookup_middle.
      reflexivity.
    + apply IH. exact Hds'.
Qed.

Lemma q64_cloud_distances_length (points : list Point) :
  forall (templates : list Template) (b : float) (ds : list float),
    cloud_distances points templates b = Ret ds -> length ds = length templates.
Proof.
  induction templates as [|T templates IH]; intros b ds Hds.
  - injection Hds as <-. reflexivity.
  - cbn [cloud_distances] in Hds.
    destruct (_cloudMatch points T b) as [d| |]; try discriminate. cbn [bind] in Hds.
    destruct (cloud_distances points templates _) as [ds'| |] eqn:Hds'; try discriminate.
    injection Hds as <-. cbn [length]. f_equal. eapply IH. exact Hds'.
Qed.

(** What the template loop returns. *)
Lemma q64_recognize_spec (this : QDollar) (points : list Point) (ds : list float) :
  cloud_distances points (Templates this) Infinity = Ret ds ->
  exists r : Result,
    recognize this points = Ret r /\
    ((exists (t : nat) (T : Template),
        first_minimum ds t /\ Templates this !! t = Some T /\ name r = Name T) \/
     (none_below_infinity ds /\ r = mkResult "No match" 0)).
Proof.
  intros Hds. unfold recognize.
  pose proof (q64_check_loop_argmin points (Templates this) [] ds Infinity None Hds) as Hloop.
  cbn [mbind option_bind app length] in Hloop. rewrite Hloop. cbn [bind].
  destruct (B64SearchFacts.search_loop_spec ds None)
    as [[Hrun Hall] | (t & d & Hrun & Ht & Hmin)].
  - rewrite Hrun. cbn [fst snd mbind option_bind]. eexists. split; [reflexivity|].
    right. split; [exact Hall | reflexivity].
  - rewrite Hrun. cbn [fst snd mbind option_bind].
    assert (HT : exists T, Templates this !! t = Some T).
    { apply lookup_lt_is_Some_2. rewrite <- (q64_cloud_distances_length _ _ _ _ Hds).
      eapply lookup_lt_Some. exact Ht. }
    destruct HT as [T HT]. rewrite HT. eexists. split; [reflexivity|].
    left. exists t, T. auto.
Qed.


(** *** [add] appends *)


Lemma q64_add_returns (fuel : nat) (this : QDollar) (name : string) (l : loc)
    (h h' : heap) (processed : list Point) :
  convert_resample fuel l h = (Ret processed, h') ->
  add fuel this name l h
  = (Ret (mkQDollar (Templates this ++ [mkTemplate name (normalize processed)])), h').
Proof. intros Hcr. rewrite B64QResample.q64_add_unfold, Hcr. reflexivity. Qed.

Lemma q64_normalize_length (processed : list Point) :
  length (normalize processed) = length processed.
Proof. unfold normalize, _translateTo, _scale. rewrite !length_map. reflexivity. Qed.

Lemma q64_resample_loop_fuel (I : float) :
  forall (fuel fuel' : nat) (points : list Point) (i : nat) (D : float)
         (newPoints : list Point) (r : list Point * list Point),
    (fuel <= fuel')%nat ->
    resample_loop fuel I points i D newPoints = Ret r ->
    resample_loop fuel' I points i D newPoints = Ret r.
Proof.
  induction fuel as [|fuel IH]; intros fuel' points i D newPoints r Hle; [discriminate|].
  destruct fuel' as [|fuel']; [lia|]. cbn [resample_loop].
  case_bool_decide; [|auto].
  destruct (points !! (i - 1)%nat); cbn [deref bind]; [|discriminate].
  destruct (points !! i); cbn [deref bind]; [|discriminate].
  case_bool_decide; [|apply IH; lia].
  destruct (jge _ _); apply IH; lia.
Qed.

Lemma q64_resample_array_fuel (fuel fuel' : nat) (points : list Point) (n : nat)
    (r : list Point * list Point) :
  (fuel <= fuel')%nat ->
  resample_array fuel points n = Ret r -> resample_array fuel' points n = Ret r.
Proof.
  intros Hle. unfold resample_array. destruct (points !! 0%nat); cbn [deref bind];
    [|discriminate].
  destruct (resample_loop fuel _ points 1 0 _) as [[np pts']| |] eqn:Hloop;
    try discriminate.
  rewrite (q64_resample_loop_fuel _ fuel fuel' _ _ _ _ _ Hle Hloop). auto.
Qed.

Lemma q64_convert_resample_returns (fuel : nat) (l : loc) (h : heap)
    (ps : list (float * float)) (newPoints points' : list Point) :
  h !! l = Some (Pairs ps) -> ps <> [] ->
  resample_array fuel (points_of (Pairs ps)) NumPoints = Ret (newPoints, points') ->
  exists h' : heap, convert_resample fuel l h = (Ret newPoints, h').
Proof.
  intros Hl Hne Hrun. unfold convert_resample, heap_bind, _convertPoints. rewrite Hl.
  destruct ps as [|p ps]; [congruence|].
  erewrite B64QResample.q64_resample_records;
    [eexists; reflexivity | apply lookup_insert_eq | exact Hrun].
Qed.

(** *** The constructor *)

Lemma q64_add_default_returns (fuel : nat) (name : string) (l : list (Z * Z))
    (this : QDollar) (h : heap) :
  (200 <= fuel)%nat -> l <> [] -> q_resamples_to 64 (literal l) = true ->
  exists (T : Template) (h' : heap),
    add_default fuel name l this h = (Ret (mkQDollar (Templates this ++ [T])), h') /\
    Name T = name /\ length (Points T) = 64%nat.
Proof.
  intros Hfuel Hne Hres. unfold q_resamples_to in Hres.
  destruct (resample_array 200 (points_of (literal l)) NumPoints) as [[np pts']| |] eqn:Hrun;
    try discriminate.
  apply Nat.eqb_eq in Hres.
  apply (q64_resample_array_fuel 200 fuel) in Hrun; [|exact Hfuel].
  unfold add_default, heap_bind, alloc.
  set (l0 := fresh (dom h)). set (h0 := <[l0 := literal l]> h).
  destruct (q64_convert_resample_returns fuel l0 h0
              (map (fun p => (of_Z (fst p), of_Z (snd p))) l) np pts') as [h' Hcr].
  - apply lookup_insert_eq.
  - destruct l; [congruence | discriminate].
  - exact Hrun.
  - exists (mkTemplate name (normalize np)), h'.
    rewrite (q64_add_returns fuel this name l0 h0 h' np Hcr).
    split; [reflexivity|]. split; [reflexivity|]. cbn [Points].
    rewrite q64_normalize_length. exact Hres.
Qed.


Ltac q64_default_step :=
  lazymatch goal with
  | Hfuel : (200 <= ?fuel)%nat
    |- context [add_default ?fuel ?name ?l ?this ?h] =>
      let T := fresh "T" in
      let h' := fresh "h" in
      let E := fresh "E" in
      let N := fresh "N" in
      let L := fresh "L" in
      destruct (q64_add_default_returns fuel name l this h Hfuel
                  ltac:(discriminate) ltac:(vm_compute; reflexivity))
        as (T & h' & E & N & L);
      rewrite E; cbv beta iota; cbn [Templates]
  end.

Lemma q64_constructor_returns (fuel : nat) (h : heap) :
  (200 <= fuel)%nat ->
  exists (this : QDollar) (h' : heap),
    constructor fuel h = (Ret this, h') /\
    map Name (Templates this) = Defaults.default_names /\
    Forall (fun T => length (Points T) = 64%nat) (Templates this).
Proof.
  intros Hfuel. unfold constructor, heap_bind, pure_step.
  do 9 q64_default_step.
  eexists _, _. split; [reflexivity|]. cbn [Templates app]. split.
  - cbn [map]. unfold Defaults.default_names. congruence.
  - repeat constructor; assumption.
Qed.





End B64QCheck.

(** ** A distance that is not computed, and the sample stores *)

Module B64Fail.
Import PrimFloat B64.

Local Open Scope float_scope.


Lemma run_value_of {S A : Type} (d : A) (r : outcome A * S) :
  (exists a : A, fst r = Ret a) -> r = (Ret (B64Samples.value_of d (fst r)), snd r).
Proof. destruct r as [o s]. cbn [fst snd]. intros [a ->]. reflexivity. Qed.






End B64Fail.

(** ** Stores: templates with enough points, and templates with too few *)

Module B64OStore.
Import PrimFloat B64 B64.OneDollar B64OneDollarView B64Search.

Local Open Scope float_scope.

(** With the arguments of [check], the search returns on a template that
    has a point for every point of the candidate. *)
Lemma o64_distance_returns (J : Math) (fuel : nat) (points : list Point) (T : Template) :
  (length points <= length (Points T))%nat -> (9 <= fuel)%nat ->
  exists d : float,
    _distanceAtBestAngle J fuel points T (- AngleRange) AngleRange AnglePrecision = Ret d.
Proof.
  intros Hlen Hfuel.
  destruct (B64Golden.o64_golden_canonical J points T fuel Hlen Hfuel)
    as (st0 & st & _ & _ & _ & _ & _ & _ & _ & Hrun).
  eexists. exact Hrun.
Qed.

(** On a template with fewer points than the candidate the first
    evaluation reads past the end of the template. *)
Lemma o64_distance_short (J : Math) (fuel : nat) (points : list Point) (T : Template)
    (a b threshold : float) :
  (length (Points T) < length points)%nat ->
  _distanceAtBestAngle J fuel points T a b threshold = Throw TypeError.
Proof.
  intros Hlen. unfold _distanceAtBestAngle, golden_init.
  rewrite B64Golden.o64_distanceAtAngle_short by exact Hlen. reflexivity.
Qed.

Lemma o64_distances_returns (J : Math) (fuel : nat) (points : list Point)
    (templates : list Template) :
  (9 <= fuel)%nat ->
  Forall (fun T => (length points <= length (Points T))%nat) templates ->
  exists ds : list float, distances J fuel points templates ds.
Proof.
  intros Hfuel Hall. induction Hall as [|T templates HT _ [ds Hds]].
  - exists []. constructor.
  - destruct (o64_distance_returns J fuel points T HT Hfuel) as [d Hd].
    exists (d :: ds). constructor; assumption.
Qed.

Lemma o64_check_loop_short (J : Math) (fuel : nat) (points : list Point) :
  (9 <= fuel)%nat ->
  forall (templates : list Template) (i : nat) (b : float) (t : nat),
    Exists (fun T => (length (Points T) < length points)%nat) templates ->
    check_loop J fuel points templates i b t = Throw TypeError.
Proof.
  intros Hfuel. induction templates as [|T templates IH]; intros i b t Hex.
  - inversion Hex.
  - cbn [check_loop].
    destruct (le_lt_dec (length points) (length (Points T))) as [Hle|Hlt].
    + destruct (o64_distance_returns J fuel points T Hle Hfuel) as [d ->]. cbn [bind].
      assert (Hex' : Exists (fun T => (length (Points T) < length points)%nat) templates).
      { inversion Hex as [? ? Hhd|? ? Htl]; subst; [lia | exact Htl]. }
      destruct (d <? b); apply IH; exact Hex'.
    + rewrite (o64_distance_short J fuel points T _ _ _ Hlt). reflexivity.
Qed.

Lemma o64_recognize_short (J : Math) (fuel : nat) (this : OneDollar) (points : list Point) :
  (9 <= fuel)%nat ->
  Exists (fun T => (length (Points T) < length points)%nat) (Templates this) ->
  recognize J fuel this points = Throw TypeError.
Proof.
  intros Hfuel Hex. unfold recognize.
  rewrite (o64_check_loop_short J fuel points Hfuel _ _ _ _ Hex). reflexivity.
Qed.

(** [check] names a template of the store when every template has enough
    points. *)
Lemma o64_recognize_returns (J : Math) (fuel : nat) (this : OneDollar)
    (points : list Point) :
  (9 <= fuel)%nat -> Templates this <> [] ->
  Forall (fun T => (length points <= length (Points T))%nat) (Templates this) ->
  exists (r : Result) (T : Template),
    recognize J fuel this points = Ret r /\ T ∈ Templates this /\ name r = Name T.
Proof.
  intros Hfuel Hne Hall.
  destruct (o64_distances_returns J fuel points (Templates this) Hfuel Hall) as [ds Hds].
  destruct (B64OCheck.o64_recognize_spec J fuel this points ds Hne Hds)
    as (r & Hr & [(t & T & _ & HT & HN) | (_ & T & HT & HN & _)]);
    exists r, T; (split; [exact Hr|]); (split; [|exact HN]);
    eapply list_elem_of_lookup_2; exact HT.
Qed.

(** What [_resample] returns is not empty. *)
Lemma o64_resample_array_nonempty (fuel : nat) (points : list Point) (n : nat)
    (newPoints points' : list Point) :
  resample_array fuel points n = Ret (newPoints, points') -> newPoints <> [].
Proof.
  unfold resample_array. destruct points as [|p0 ps]; [discriminate|].
  change ((p0 :: ps) !! 0%nat) with (Some p0). cbn [deref bind].
  destruct (resample_loop fuel _ (p0 :: ps) 1 0 [p0]) as [[np pts']| |] eqn:Hloop;
    try discriminate.
  cbn [bind].
  apply B64OResample.o64_resample_loop_spec in Hloop as (qs & -> & _);
    [|cbn [length]; lia].
  destruct (bool_decide _).
  - destruct (last pts') as [pl|]; [|discriminate]. cbn [deref bind].
    intros [= <- _]. discriminate.
  - intros [= <- _]. discriminate.
Qed.

Lemma o64_convert_resample_nonempty (fuel : nat) (l : loc) (h h' : heap)
    (processed : list Point) :
  convert_resample fuel l h = (Ret processed, h') -> processed <> [].
Proof.
  unfold convert_resample, heap_bind. intros H.
  destruct (_convertPoints l h) as [[l'| |] h1]; try discriminate.
  apply B64OResample.o64_resample_returns in H
    as (raw & pts & pts' & _ & _ & Hrun & _).
  eapply o64_resample_array_nonempty. exact Hrun.
Qed.

(** [check] on a store with a template that has too few points. *)
Lemma o64_check_short (J : Math) (fuel : nat) (this : OneDollar) (l : loc)
    (h h' : heap) (np : list Point) :
  (9 <= fuel)%nat ->
  convert_resample fuel l h = (Ret np, h') ->
  Exists (fun T => (length (Points T) < length np)%nat) (Templates this) ->
  check J fuel this l h = (Throw TypeError, h').
Proof.
  intros Hfuel Hcr Hex.
  pose proof (o64_convert_resample_nonempty fuel l h h' np Hcr) as Hnp.
  destruct (B64OCheck.o64_normalize_returns J np Hnp) as [pts Hn].
  rewrite B64OResample.o64_check_unfold, Hcr, Hn. cbn [bind].
  rewrite (o64_recognize_short J fuel this pts Hfuel); [reflexivity|].
  rewrite (B64OCheck.o64_normalize_length J np pts Hn). exact Hex.
Qed.


(** *** The arrays that exist stay in place *)

Lemma o64_preserves_bind {A B : Type} (m : heap -> outcome A * heap)
    (k : A -> heap -> outcome B * heap) :
  B64Heap.preserves m -> (forall a : A, B64Heap.preserves (k a)) ->
  B64Heap.preserves (heap_bind m k).
Proof.
  intros Hm Hk h l Hl. unfold heap_bind.
  pose proof (Hm h l Hl) as Hm'.
  destruct (m h) as [[a| |] h1]; cbn [snd] in *; try exact Hm'.
  rewrite <- Hm'. apply Hk. rewrite Hm'. exact Hl.
Qed.

Lemma o64_preserves_pure {A : Type} (o : outcome A) :
  B64Heap.preserves (pure_step (S := heap) o).
Proof. intros h l _. reflexivity. Qed.

Lemma o64_add_default_preserves (J : Math) (fuel : nat) (name : string)
    (l : list (Z * Z)) (this : OneDollar) :
  B64Heap.preserves (add_default J fuel name l this).
Proof.
  intros h l0 Hl0. unfold add_default, heap_bind, alloc.
  set (l' := fresh (dom h)).
  assert (Hfresh : l0 <> l').
  { intros ->. apply (is_fresh (dom h)). apply elem_of_dom. exact Hl0. }
  rewrite B64OResample.o64_add_heap.
  rewrite (B64OResample.o64_convert_resample_pairs fuel l' (<[l' := literal l]> h)
             (map (fun p => (of_Z (fst p), of_Z (snd p))) l) l0).
  - apply lookup_insert_ne. congruence.
  - apply lookup_insert_eq.
  - rewrite lookup_insert_ne by congruence. exact Hl0.
Qed.

Lemma o64_constructor_preserves (J : Math) (fuel : nat) :
  B64Heap.preserves (constructor J fuel).
Proof.
  unfold constructor.
  repeat (apply o64_preserves_bind; [apply o64_add_default_preserves | intros ?]).
  apply o64_preserves_pure.
Qed.

End B64OStore.

Module B64QStore.
Import PrimFloat B64 B64.QDollar B64QDollarView B64Search.

Local Open Scope float_scope.

Lemma q64_nearest_loop_returns (p1 : Point) (pts2 : list Point) (matched : list bool) :
  forall (js : list nat) (min : float) (index : option nat),
    Forall (fun j => (j < length pts2)%nat) js ->
    exists r : float * option nat, nearest_loop p1 pts2 matched js min index = Ret r.
Proof.
  induction js as [|j js IH]; intros min index Hjs.
  - eexists. reflexivity.
  - apply Forall_cons in Hjs as [Hj Hjs]. cbn [nearest_loop].
    destruct (lookup_lt_is_Some_2 pts2 j Hj) as [p2 Hp2]. rewrite Hp2. cbn [deref bind].
    destruct (matched !! j) as [[|]|]; [apply IH; exact Hjs| |];
      destruct (_sqrEuclideanDistance p1 p2 <? min); apply IH; exact Hjs.
Qed.

Lemma q64_cloud_loop_returns (pts2 : list Point) (n : nat) (minSoFar : float) :
  (n <= length pts2)%nat ->
  forall (pts1 : list Point) (matched : list bool) (sum : float),
    exists d : float, cloud_loop pts1 pts2 n matched sum minSoFar = Ret d.
Proof.
  intros Hn. induction pts1 as [|p1 pts1 IH]; intros matched sum.
  - eexists. reflexivity.
  - cbn [cloud_loop].
    destruct (q64_nearest_loop_returns p1 pts2 matched (seq 0 n) Infinity None)
      as [[min index] ->].
    { apply Forall_forall. intros j Hj. apply elem_of_seq in Hj. lia. }
    cbn [bind]. destruct index as [j|].
    + destruct (jge (sum + Math_sqrt min) minSoFar); [eexists; reflexivity | apply IH].
    + destruct (jge sum minSoFar); [eexists; reflexivity | apply IH].
Qed.

Lemma q64_cloudMatch_returns (points : list Point) (T : Template) (minSoFar : float) :
  (length points <= length (Points T))%nat ->
  exists d : float, _cloudMatch points T minSoFar = Ret d.
Proof.
  intros Hlen. unfold _cloudMatch, _cloudDistance. apply q64_cloud_loop_returns. exact Hlen.
Qed.

(** No point is matched yet: the scan reads the point after the last of
    the template. *)
Lemma q64_nearest_loop_short (p1 : Point) (pts2 : list Point) (matched : list bool) :
  (forall j : nat, matched !! j <> Some true) ->
  forall (m k : nat) (min : float) (index : option nat),
    (k <= length pts2)%nat -> (length pts2 < k + m)%nat ->
    nearest_loop p1 pts2 matched (seq k m) min index = Throw TypeError.
Proof.
  intros Hm. induction m as [|m IH]; intros k min index Hk Hlen; [lia|].
  cbn [seq nearest_loop].
  destruct (matched !! k) as [[|]|] eqn:Hmk; [exfalso; exact (Hm k Hmk)| |];
    (destruct (pts2 !! k) as [p2|] eqn:Hp2; cbn [deref bind];
     [apply lookup_lt_Some in Hp2;
      destruct (_sqrEuclideanDistance p1 p2 <? min); apply IH; lia
     |reflexivity]).
Qed.

Lemma q64_cloudMatch_short (points : list Point) (T : Template) (minSoFar : float) :
  (length (Points T) < length points)%nat ->
  _cloudMatch points T minSoFar = Throw TypeError.
Proof.
  intros Hlen. unfold _cloudMatch, _cloudDistance.
  destruct points as [|p1 points]; [cbn [length] in Hlen; lia|].
  cbn [cloud_loop].
  rewrite (q64_nearest_loop_short p1 (Points T) (replicate (length (p1 :: points)) false));
    [reflexivity | | lia | cbn [length] in *; lia].
  intros j Hj. apply lookup_replicate in Hj as [Hj _]. discriminate.
Qed.

Lemma q64_cloud_distances_returns (points : list Point) :
  forall (templates : list Template) (b : float),
    Forall (fun T => (length points <= length (Points T))%nat) templates ->
    exists ds : list float, cloud_distances points templates b = Ret ds.
Proof.
  induction templates as [|T templates IH]; intros b Hall.
  - eexists. reflexivity.
  - apply Forall_cons in Hall as [HT Hall]. cbn [cloud_distances].
    destruct (q64_cloudMatch_returns points T b HT) as [d ->]. cbn [bind].
    destruct (IH (if d <? b then d else b) Hall) as [ds ->]. cbn [bind].
    eexists. reflexivity.
Qed.

Lemma q64_check_loop_short (points : list Point) :
  forall (templates : list Template) (b : float) (o : option Template),
    Exists (fun T => (length (Points T) < length points)%nat) templates ->
    check_loop points templates b o = Throw TypeError.
Proof.
  induction templates as [|T templates IH]; intros b o Hex.
  - inversion Hex.
  - cbn [check_loop].
    destruct (le_lt_dec (length points) (length (Points T))) as [Hle|Hlt].
    + destruct (q64_cloudMatch_returns points T b Hle) as [d ->]. cbn [bind].
      assert (Hex' : Exists (fun T => (length (Points T) < length points)%nat) templates).
      { inversion Hex as [? ? Hhd|? ? Htl]; subst; [lia | exact Htl]. }
      destruct (d <? b); apply IH; exact Hex'.
    + rewrite (q64_cloudMatch_short points T b Hlt). reflexivity.
Qed.

Lemma q64_recognize_short (this : QDollar) (points : list Point) :
  Exists (fun T => (length (Points T) < length points)%nat) (Templates this) ->
  recognize this points = Throw TypeError.
Proof.
  intros Hex. unfold recognize.
  rewrite (q64_check_loop_short points _ _ _ Hex). reflexivity.
Qed.

(** [check] names a template of the store, or answers ["No match"], when
    every template has enough points. *)
Lemma q64_recognize_returns (this : QDollar) (points : list Point) :
  Forall (fun T => (length points <= length (Points T))%nat) (Templates this) ->
  exists r : Result,
    recognize this points = Ret r /\
    ((exists T : Template, T ∈ Templates this /\ name r = Name T) \/
     r = mkResult "No match" 0).
Proof.
  intros Hall.
  destruct (q64_cloud_distances_returns points (Templates this) Infinity Hall) as [ds Hds].
  destruct (B64QCheck.q64_recognize_spec this points ds Hds)
    as (r & Hr & [(t & T & _ & HT & HN) | (_ & ->)]);
    eexists; (split; [exact Hr|]).
  - left. exists T. split; [|exact HN]. eapply list_elem_of_lookup_2. exact HT.
  - right. reflexivity.
Qed.

(** [check] on a store with a template that has too few points. *)
Lemma q64_check_short (fuel : nat) (this : QDollar) (l : loc) (h h' : heap)
    (np : list Point) :
  convert_resample fuel l h = (Ret np, h') ->
  Exists (fun T => (length (Points T) < length np)%nat) (Templates this) ->
  check fuel this l h = (Throw TypeError, h').
Proof.
  intros Hcr Hex. rewrite B64QResample.q64_check_unfold, Hcr.
  rewrite (q64_recognize_short this (normalize np)); [reflexivity|].
  rewrite B64QCheck.q64_normalize_length. exact Hex.
Qed.

Lemma q64_preserves_bind {A B : Type} (m : heap -> outcome A * heap)
    (k : A -> heap -> outcome B * heap) :
  B64Heap.preserves m -> (forall a : A, B64Heap.preserves (k a)) ->
  B64Heap.preserves (heap_bind m k).
Proof.
  intros Hm Hk h l Hl. unfold heap_bind.
  pose proof (Hm h l Hl) as Hm'.
  destruct (m h) as [[a| |] h1]; cbn [snd] in *; try exact Hm'.
  rewrite <- Hm'. apply Hk. rewrite Hm'. exact Hl.
Qed.

Lemma q64_preserves_pure {A : Type} (o : outcome A) :
  B64Heap.preserves (pure_step (S := heap) o).
Proof. intros h l _. reflexivity. Qed.

Lemma q64_add_default_preserves (fuel : nat) (name : string) (l : list (Z * Z))
    (this : QDollar) :
  B64Heap.preserves (add_default fuel name l this).
Proof.
  intros h l0 Hl0. unfold add_default, heap_bind, alloc.
  set (l' := fresh (dom h)).
  assert (Hfresh : l0 <> l').
  { intros ->. apply (is_fresh (dom h)). apply elem_of_dom. exact Hl0. }
  rewrite B64QResample.q64_add_heap.
  rewrite (B64QResample.q64_convert_resample_pairs fuel l' (<[l' := literal l]> h)
             (map (fun p => (of_Z (fst p), of_Z (snd p))) l) l0).
  - apply lookup_insert_ne. congruence.
  - apply lookup_insert_eq.
  - rewrite lookup_insert_ne by congruence. exact Hl0.
Qed.

Lemma q64_constructor_preserves (fuel : nat) : B64Heap.preserves (constructor fuel).
Proof.
  unfold constructor.
  repeat (apply q64_preserves_bind; [apply q64_add_default_preserves | intros ?]).
  apply q64_preserves_pure.
Qed.

End B64QStore.

(** ** [Math.min], [Math.max] and the bounding box *)

Module B64Box.
Import PrimFloat FloatOps FloatAxioms SpecFloat B64.

Local Open Scope float_scope.

Lemma SFcompare_lt_eq_trans (x y z : spec_float) :
  SFcompare x y = Some Lt -> SFcompare y z = Some Eq -> SFcompare x z = Some Lt.
Proof.
  destruct x as [[]|[]| |[] mx ex], y as [[]|[]| |[] my ey], z as [[]|[]| |[] mz ez];
    cbn; try discriminate; try reflexivity; intros [= Hxy] [= Hyz]; f_equal;
    rewrite ?Pos.compare_cont_spec in *; cbn [Pos.switch_Eq] in *;
    destruct (Z.compare_spec ex ey), (Z.compare_spec ey ez), (Z.compare_spec ex ez);
    try discriminate; try reflexivity; try lia; subst;
    destruct (Pos.compare_spec mx my), (Pos.compare_spec my mz),
      (Pos.compare_spec mx mz); try discriminate; try reflexivity; lia.
Qed.

Lemma SFcompare_eq_trans (x y z : spec_float) :
  SFcompare x y = Some Eq -> SFcompare y z = Some Eq -> SFcompare x z = Some Eq.
Proof.
  destruct x as [[]|[]| |[] mx ex], y as [[]|[]| |[] my ey], z as [[]|[]| |[] mz ez];
    cbn; try discriminate; try reflexivity; intros [= Hxy] [= Hyz]; f_equal;
    rewrite ?Pos.compare_cont_spec in *; cbn [Pos.switch_Eq] in *;
    destruct (Z.compare_spec ex ey), (Z.compare_spec ey ez), (Z.compare_spec ex ez);
    try discriminate; try reflexivity; try lia; subst;
    destruct (Pos.compare_spec mx my), (Pos.compare_spec my mz),
      (Pos.compare_spec mx mz); try discriminate; try reflexivity; lia.
Qed.

Lemma leb_trans (x y z : float) :
  (x <=? y) = true -> (y <=? z) = true -> (x <=? z) = true.
Proof.
  rewrite !leb_spec. unfold SFleb.
  destruct (SFcompare (Prim2SF x) (Prim2SF y)) as [[]|] eqn:Hxy; try discriminate;
    destruct (SFcompare (Prim2SF y) (Prim2SF z)) as [[]|] eqn:Hyz; try discriminate;
    intros _ _.
  - rewrite (SFcompare_eq_trans _ _ _ Hxy Hyz). reflexivity.
  - rewrite (B64Num.SFcompare_eq_lt_trans _ _ _ Hxy Hyz). reflexivity.
  - rewrite (SFcompare_lt_eq_trans _ _ _ Hxy Hyz). reflexivity.
  - rewrite (B64Num.SFcompare_lt_trans _ _ _ Hxy Hyz). reflexivity.
Qed.

Lemma leb_refl (x : float) : is_nan x = false -> (x <=? x) = true.
Proof.
  intros Hx. apply B64Num.ltb_total; [exact Hx | exact Hx | apply B64Num.ltb_irrefl].
Qed.

Lemma leb_not_nan_l (x y : float) : (x <=? y) = true -> is_nan x = false.
Proof.
  intros H. destruct (is_nan x) eqn:Hx; [|reflexivity].
  rewrite (B64Num.leb_nan_l x y Hx) in H. discriminate.
Qed.

Lemma leb_infinity (x : float) : is_nan x = false -> (x <=? Infinity) = true.
Proof.
  intros Hx. apply B64Num.is_nan_false in Hx. rewrite leb_spec.
  change (Prim2SF Infinity) with (S754_infinity false).
  destruct (Prim2SF x) as [[]|[]| |[] m e]; try reflexivity. congruence.
Qed.

Lemma neg_infinity_leb (x : float) : is_nan x = false -> (- Infinity <=? x) = true.
Proof.
  intros Hx. apply B64Num.is_nan_false in Hx. rewrite leb_spec.
  change (Prim2SF (- Infinity)) with (S754_infinity true).
  destruct (Prim2SF x) as [[]|[]| |[] m e]; try reflexivity. congruence.
Qed.

(** [Math.min] of two numbers is one of them, and is below both. *)
Lemma Math_min_spec (a b : float) :
  is_nan a = false -> is_nan b = false ->
  is_nan (Math_min a b) = false /\
  (Math_min a b <=? a) = true /\ (Math_min a b <=? b) = true /\
  (Math_min a b = a \/ Math_min a b = b).
Proof.
  intros Ha Hb. unfold Math_min. rewrite Ha, Hb. cbn [orb].
  destruct (a <? b) eqn:Hab.
  - split; [exact Ha|]. split; [apply leb_refl; exact Ha|].
    split; [apply B64Num.ltb_leb; exact Hab | left; reflexivity].
  - destruct (b <? a) eqn:Hba.
    + split; [exact Hb|]. split; [apply B64Num.ltb_leb; exact Hba|].
      split; [apply leb_refl; exact Hb | right; reflexivity].
    + pose proof (B64Num.ltb_total a b Ha Hb Hab) as Hle1.
      pose proof (B64Num.ltb_total b a Hb Ha Hba) as Hle2.
      destruct (get_sign a).
      * split; [exact Ha|]. split; [apply leb_refl; exact Ha|].
        split; [exact Hle2 | left; reflexivity].
      * split; [exact Hb|]. split; [exact Hle1|].
        split; [apply leb_refl; exact Hb | right; reflexivity].
Qed.

(** [Math.max] of two numbers is one of them, and is above both. *)
Lemma Math_max_spec (a b : float) :
  is_nan a = false -> is_nan b = false ->
  is_nan (Math_max a b) = false /\
  (a <=? Math_max a b) = true /\ (b <=? Math_max a b) = true /\
  (Math_max a b = a \/ Math_max a b = b).
Proof.
  intros Ha Hb. unfold Math_max. rewrite Ha, Hb. cbn [orb].
  destruct (a <? b) eqn:Hab.
  - split; [exact Hb|]. split; [apply B64Num.ltb_leb; exact Hab|].
    split; [apply leb_refl; exact Hb | right; reflexivity].
  - destruct (b <? a) eqn:Hba.
    + split; [exact Ha|]. split; [apply leb_refl; exact Ha|].
      split; [apply B64Num.ltb_leb; exact Hba | left; reflexivity].
    + pose proof (B64Num.ltb_total a b Ha Hb Hab) as Hle1.
      pose proof (B64Num.ltb_total b a Hb Ha Hba) as Hle2.
      destruct (get_sign a).
      * split; [exact Hb|]. split; [exact Hle2|].
        split; [apply leb_refl; exact Hb | right; reflexivity].
      * split; [exact Ha|]. split; [apply leb_refl; exact Ha|].
        split; [exact Hle1 | left; reflexivity].
Qed.

(** The running minimum of a loop [m = Math.min(m, f(p))]. *)
Lemma fold_min_spec {A : Type} (f : A -> float) (l : list A) :
  Forall (fun p => is_nan (f p) = false) l ->
  forall m : float, is_nan m = false ->
    is_nan (fold_left (fun a p => Math_min a (f p)) l m) = false /\
    (fold_left (fun a p => Math_min a (f p)) l m <=? m) = true /\
    Forall (fun p => (fold_left (fun a p => Math_min a (f p)) l m <=? f p) = true) l /\
    (fold_left (fun a p => Math_min a (f p)) l m = m \/
     exists p : A, p ∈ l /\ fold_left (fun a p => Math_min a (f p)) l m = f p).
Proof.
  intros Hl. induction Hl as [|p l Hp _ IH]; intros m Hm.
  - cbn [fold_left]. split; [exact Hm|]. split; [apply leb_refl; exact Hm|].
    split; [constructor | left; reflexivity].
  - cbn [fold_left].
    destruct (Math_min_spec m (f p) Hm Hp) as (Hn & Hlm & Hlp & Hor).
    destruct (IH (Math_min m (f p)) Hn) as (Hrn & Hrm & Hall & Hr).
    set (r := fold_left (fun a p => Math_min a (f p)) l (Math_min m (f p))) in *.
    split; [exact Hrn|]. split; [exact (leb_trans _ _ _ Hrm Hlm)|]. split.
    + constructor; [exact (leb_trans _ _ _ Hrm Hlp) | exact Hall].
    + destruct Hr as [Hr | (q & Hq & Hr)].
      * destruct Hor as [Hor|Hor]; rewrite Hor in Hr.
        -- left. exact Hr.
        -- right. exists p. split; [apply list_elem_of_here | exact Hr].
      * right. exists q. split; [apply list_elem_of_further; exact Hq | exact Hr].
Qed.

(** The running maximum of a loop [m = Math.max(m, f(p))]. *)
Lemma fold_max_spec {A : Type} (f : A -> float) (l : list A) :
  Forall (fun p => is_nan (f p) = false) l ->
  forall m : float, is_nan m = false ->
    is_nan (fold_left (fun a p => Math_max a (f p)) l m) = false /\
    (m <=? fold_left (fun a p => Math_max a (f p)) l m) = true /\
    Forall (fun p => (f p <=? fold_left (fun a p => Math_max a (f p)) l m) = true) l /\
    (fold_left (fun a p => Math_max a (f p)) l m = m \/
     exists p : A, p ∈ l /\ fold_left (fun a p => Math_max a (f p)) l m = f p).
Proof.
  intros Hl. induction Hl as [|p l Hp _ IH]; intros m Hm.
  - cbn [fold_left]. split; [exact Hm|]. split; [apply leb_refl; exact Hm|].
    split; [constructor | left; reflexivity].
  - cbn [fold_left].
    destruct (Math_max_spec m (f p) Hm Hp) as (Hn & Hlm & Hlp & Hor).
    destruct (IH (Math_max m (f p)) Hn) as (Hrn & Hrm & Hall & Hr).
    set (r := fold_left (fun a p => Math_max a (f p)) l (Math_max m (f p))) in *.
    split; [exact Hrn|]. split; [exact (leb_trans _ _ _ Hlm Hrm)|]. split.
    + constructor; [exact (leb_trans _ _ _ Hlp Hrm) | exact Hall].
    + destruct Hr as [Hr | (q & Hq & Hr)].
      * destruct Hor as [Hor|Hor]; rewrite Hor in Hr.
        -- left. exact Hr.
        -- right. exists p. split; [apply list_elem_of_here | exact Hr].
      * right. exists q. split; [apply list_elem_of_further; exact Hq | exact Hr].
Qed.

(** A minimum over a list that is not empty is reached, up to the sign
    of a zero. *)
Lemma fold_min_reached {A : Type} (f : A -> float) (l : list A) :
  l <> [] -> Forall (fun p => is_nan (f p) = false) l ->
  exists p : A,
    p ∈ l /\ (f p <=? fold_left (fun a p => Math_min a (f p)) l Infinity) = true.
Proof.
  intros Hne Hl.
  destruct (fold_min_spec f l Hl Infinity eq_refl) as (_ & _ & _ & [Hr | (p & Hp & Hr)]).
  - destruct l as [|p l]; [congruence|]. exists p. split; [apply list_elem_of_here|].
    rewrite Hr. apply leb_infinity. apply Forall_cons in Hl as [Hp _]. exact Hp.
  - exists p. split; [exact Hp|]. rewrite Hr. apply leb_refl.
    rewrite Forall_forall in Hl. apply Hl. exact Hp.
Qed.

Lemma fold_max_reached {A : Type} (f : A -> float) (l : list A) :
  l <> [] -> Forall (fun p => is_nan (f p) = false) l ->
  exists p : A,
    p ∈ l /\ (fold_left (fun a p => Math_max a (f p)) l (- Infinity) <=? f p) = true.
Proof.
  intros Hne Hl.
  destruct (fold_max_spec f l Hl (- Infinity) eq_refl)
    as (_ & _ & _ & [Hr | (p & Hp & Hr)]).
  - destruct l as [|p l]; [congruence|]. exists p. split; [apply list_elem_of_here|].
    rewrite Hr. apply neg_infinity_leb. apply Forall_cons in Hl as [Hp _]. exact Hp.
  - exists p. split; [exact Hp|]. rewrite Hr. apply leb_refl.
    rewrite Forall_forall in Hl. apply Hl. exact Hp.
Qed.

End B64Box.

(** ** Points that coincide *)

Module B64Nan.
Import PrimFloat FloatOps FloatAxioms SpecFloat B64.

Local Open Scope float_scope.

(** [x - x] is [+0] for a finite [x]. *)
Lemma sub_self (x : float) : is_finite x = true -> x - x = 0.
Proof.
  intros Hx. rewrite B64Num.is_finite_spec in Hx. apply Prim2SF_inj. rewrite sub_spec.
  destruct (Prim2SF x) as [[]|[]| |s m e]; try discriminate; try reflexivity.
  unfold SF64sub, SFsub. cbv zeta. rewrite Z.sub_diag. reflexivity.
Qed.

Lemma add_nan_l (x : float) : NaN + x = NaN.
Proof.
  apply Prim2SF_inj. rewrite add_spec. change (Prim2SF NaN) with S754_nan. reflexivity.
Qed.

Lemma add_nan_r (x : float) : x + NaN = NaN.
Proof.
  apply Prim2SF_inj. rewrite add_spec. change (Prim2SF NaN) with S754_nan.
  destruct (Prim2SF x) as [[]|[]| |[] m e]; reflexivity.
Qed.

Lemma sub_nan_l (x : float) : NaN - x = NaN.
Proof.
  apply Prim2SF_inj. rewrite sub_spec. change (Prim2SF NaN) with S754_nan. reflexivity.
Qed.

Lemma mul_nan_l (x : float) : NaN * x = NaN.
Proof.
  apply Prim2SF_inj. rewrite mul_spec. change (Prim2SF NaN) with S754_nan. reflexivity.
Qed.

Lemma leb_nan_r (x : float) : (x <=? NaN) = false.
Proof.
  rewrite leb_spec. change (Prim2SF NaN) with S754_nan.
  destruct (Prim2SF x) as [[]|[]| |[] m e]; reflexivity.
Qed.

Lemma sqrt_nan : Math_sqrt NaN = NaN.
Proof. reflexivity. Qed.

End B64Nan.

Module B64OCoincide.
Import PrimFloat B64 B64.OneDollar B64OneDollarView.

Local Open Scope float_scope.

Lemma o64_distance_self (p : Point) :
  is_finite (px p) = true -> is_finite (py p) = true -> _distance p p = 0.
Proof.
  intros Hx Hy. unfold _distance. cbv zeta.
  rewrite (B64Nan.sub_self _ Hx), (B64Nan.sub_self _ Hy). reflexivity.
Qed.

Lemma o64_distance_nan (q p : Point) : px q = NaN -> _distance q p = NaN.
Proof.
  intros Hq. unfold _distance. cbv zeta.
  rewrite Hq, B64Nan.sub_nan_l, B64Nan.mul_nan_l, B64Nan.add_nan_l. reflexivity.
Qed.

Lemma o64_pathLength_coincide (p : Point) :
  is_finite (px p) = true -> is_finite (py p) = true ->
  forall k : nat, pathLength_from 0 p (replicate k p) = 0.
Proof.
  intros Hx Hy. induction k as [|k IH]; [reflexivity|].
  cbn [replicate pathLength_from]. rewrite (o64_distance_self p Hx Hy).
  change (0 + 0) with 0. exact IH.
Qed.

(** Once the distance walked is [NaN] no point is synthesized any
    more. *)
Lemma o64_nan_phase (I : float) :
  forall (fuel : nat) (points : list Point) (i : nat) (newPoints : list Point),
    (1 <= i <= length points)%nat -> (length points < i + fuel)%nat ->
    resample_loop fuel I points i NaN newPoints = Ret (newPoints, points).
Proof.
  induction fuel as [|fuel IH]; intros points i newPoints Hi Hfuel.
  - cbn [resample_loop]. lia.
  - cbn [resample_loop]. destruct (bool_decide (i < length points)%nat) eqn:Hlt.
    + apply bool_decide_eq_true in Hlt.
      destruct (lookup_lt_is_Some_2 points (i - 1)) as [p1 ->]; [lia|].
      destruct (lookup_lt_is_Some_2 points i) as [p2 ->]; [lia|].
      cbn [deref bind]. cbv zeta. rewrite B64Nan.add_nan_l.
      unfold jge. rewrite B64Nan.leb_nan_r. apply IH; lia.
    + reflexivity.
Qed.

(** [_resample] on two or more copies of a finite point: the first
    point, and the point [(NaN, NaN)] synthesized on the first
    segment. *)
Lemma o64_resample_coincide (fuel : nat) (p : Point) (k : nat) :
  is_finite (px p) = true -> is_finite (py p) = true -> (k + 4 <= fuel)%nat ->
  resample_array fuel (replicate (S (S k)) p) NumPoints
  = Ret ([p; mkPoint NaN NaN], p :: mkPoint NaN NaN :: replicate (S k) p).
Proof.
  intros Hx Hy Hfuel. unfold resample_array.
  change (_pathLength (replicate (S (S k)) p))
    with (pathLength_from 0 p (replicate (S k) p)).
  rewrite (o64_pathLength_coincide p Hx Hy (S k)). cbn [replicate].
  change (0 / of_Z (Z.of_nat NumPoints - 1)) with 0.
  change ((p :: p :: replicate k p) !! 0%nat) with (Some p). cbn [deref bind].
  destruct fuel as [|[|fuel]]; [lia..|].
  cbn [resample_loop].
  rewrite bool_decide_eq_true_2 by (cbn [length]; lia).
  change ((p :: p :: replicate k p) !! (1 - 1)%nat) with (Some p).
  change ((p :: p :: replicate k p) !! 1%nat) with (Some p).
  cbn [deref bind]. cbv zeta. rewrite (o64_distance_self p Hx Hy).
  change (jge (0 + 0) 0) with true. cbv iota.
  rewrite (B64Nan.sub_self _ Hx), (B64Nan.sub_self _ Hy).
  change ((0 - 0) / 0 * 0) with NaN. rewrite !B64Nan.add_nan_r.
  change (splice (p :: p :: replicate k p) 1 (mkPoint NaN NaN))
    with (p :: mkPoint NaN NaN :: p :: replicate k p).
  rewrite bool_decide_eq_true_2 by (cbn [length]; lia).
  change ((p :: mkPoint NaN NaN :: p :: replicate k p) !! (2 - 1)%nat)
    with (Some (mkPoint NaN NaN)).
  change ((p :: mkPoint NaN NaN :: p :: replicate k p) !! 2%nat) with (Some p).
  cbn [deref bind]. cbv zeta.
  rewrite (o64_distance_nan (mkPoint NaN NaN) p eq_refl).
  change (jge (0 + NaN) 0) with false. cbv iota. change (0 + NaN) with NaN.
  rewrite o64_nan_phase;
    [|cbn [length]; lia|cbn [length]; rewrite length_replicate; lia].
  cbn [bind app length]. rewrite bool_decide_eq_false_2 by (unfold NumPoints; lia).
  reflexivity.
Qed.

(** [_convertPoints] and [_resample] return when [_resample] does on the
    points of the argument. *)
Lemma o64_convert_resample_of (fuel : nat) (l : loc) (h : heap) (raw : RawPoints)
    (newPoints points' : list Point) :
  h !! l = Some raw ->
  resample_array fuel (points_of raw) NumPoints = Ret (newPoints, points') ->
  exists h' : heap, convert_resample fuel l h = (Ret newPoints, h').
Proof.
  intros Hl Hrun. destruct raw as [ps|pts].
  - apply (B64OCheck.o64_convert_resample_returns fuel l h ps newPoints points' Hl);
      [|exact Hrun].
    intros ->. discriminate.
  - rewrite (B64OResample.o64_convert_resample_records fuel l h pts Hl).
    rewrite (B64OResample.o64_resample_records fuel l NumPoints h pts newPoints points' Hl Hrun).
    eexists. reflexivity.
Qed.

End B64OCoincide.

Module B64QCoincide.
Import PrimFloat B64 B64.QDollar B64QDollarView.

Local Open Scope float_scope.

Lemma q64_distance_self (p : Point) :
  is_finite (px p) = true -> is_finite (py p) = true -> _distance p p = 0.
Proof.
  intros Hx Hy. unfold _distance. cbv zeta.
  rewrite (B64Nan.sub_self _ Hx), (B64Nan.sub_self _ Hy). reflexivity.
Qed.

Lemma q64_distance_nan (q p : Point) : px q = NaN -> _distance q p = NaN.
Proof.
  intros Hq. unfold _distance. cbv zeta.
  rewrite Hq, B64Nan.sub_nan_l, B64Nan.mul_nan_l, B64Nan.add_nan_l. reflexivity.
Qed.

Lemma q64_pathLength_coincide (p : Point) :
  is_finite (px p) = true -> is_finite (py p) = true ->
  forall k : nat, pathLength_from 0 p (replicate k p) = 0.
Proof.
  intros Hx Hy. induction k as [|k IH]; [reflexivity|].
  cbn [replicate pathLength_from]. rewrite bool_decide_eq_true_2 by reflexivity.
  rewrite (q64_distance_self p Hx Hy). change (0 + 0) with 0. exact IH.
Qed.

Lemma q64_nan_phase (I : float) :
  forall (fuel : nat) (points : list Point) (i : nat) (newPoints : list Point),
    (1 <= i <= length points)%nat -> (length points < i + fuel)%nat ->
    resample_loop fuel I points i NaN newPoints = Ret (newPoints, points).
Proof.
  induction fuel as [|fuel IH]; intros points i newPoints Hi Hfuel.
  - cbn [resample_loop]. lia.
  - cbn [resample_loop]. destruct (bool_decide (i < length points)%nat) eqn:Hlt.
    + apply bool_decide_eq_true in Hlt.
      destruct (lookup_lt_is_Some_2 points (i - 1)) as [p1 ->]; [lia|].
      destruct (lookup_lt_is_Some_2 points i) as [p2 ->]; [lia|].
      cbn [deref bind]. cbv zeta. destruct (bool_decide (pid p2 = pid p1)).
      * rewrite B64Nan.add_nan_l. unfold jge. rewrite B64Nan.leb_nan_r. apply IH; lia.
      * apply IH; lia.
    + reflexivity.
Qed.

Lemma q64_resample_coincide (fuel : nat) (p : Point) (k : nat) :
  is_finite (px p) = true -> is_finite (py p) = true -> (k + 4 <= fuel)%nat ->
  resample_array fuel (replicate (S (S k)) p) NumPoints
  = Ret ([p; mkPoint NaN NaN (pid p)],
         p :: mkPoint NaN NaN (pid p) :: replicate (S k) p).
Proof.
  intros Hx Hy Hfuel. unfold resample_array.
  change (_pathLength (replicate (S (S k)) p))
    with (pathLength_from 0 p (replicate (S k) p)).
  rewrite (q64_pathLength_coincide p Hx Hy (S k)). cbn [replicate].
  change (0 / of_Z (Z.of_nat NumPoints - 1)) with 0.
  change ((p :: p :: replicate k p) !! 0%nat) with (Some p). cbn [deref bind].
  destruct fuel as [|[|fuel]]; [lia..|].
  cbn [resample_loop].
  rewrite bool_decide_eq_true_2 by (cbn [length]; lia).
  change ((p :: p :: replicate k p) !! (1 - 1)%nat) with (Some p).
  change ((p :: p :: replicate k p) !! 1%nat) with (Some p).
  cbn [deref bind]. cbv zeta. rewrite bool_decide_eq_true_2 by reflexivity.
  rewrite (q64_distance_self p Hx Hy).
  change (jge (0 + 0) 0) with true. cbv iota.
  rewrite (B64Nan.sub_self _ Hx), (B64Nan.sub_self _ Hy).
  change ((0 - 0) / 0 * 0) with NaN. rewrite !B64Nan.add_nan_r.
  change (splice (p :: p :: replicate k p) 1 (mkPoint NaN NaN (pid p)))
    with (p :: mkPoint NaN NaN (pid p) :: p :: replicate k p).
  rewrite bool_decide_eq_true_2 by (cbn [length]; lia).
  change ((p :: mkPoint NaN NaN (pid p) :: p :: replicate k p) !! (2 - 1)%nat)
    with (Some (mkPoint NaN NaN (pid p))).
  change ((p :: mkPoint NaN NaN (pid p) :: p :: replicate k p) !! 2%nat) with (Some p).
  cbn [deref bind]. cbv zeta. cbn [pid]. rewrite bool_decide_eq_true_2 by reflexivity.
  rewrite (q64_distance_nan (mkPoint NaN NaN (pid p)) p eq_refl).
  change (jge (0 + NaN) 0) with false. cbv iota. change (0 + NaN) with NaN.
  rewrite q64_nan_phase;
    [|cbn [length]; lia|cbn [length]; rewrite length_replicate; lia].
  cbn [bind app length]. rewrite bool_decide_eq_false_2 by (unfold NumPoints; lia).
  reflexivity.
Qed.

Lemma q64_convert_resample_of (fuel : nat) (l : loc) (h : heap) (raw : RawPoints)
    (newPoints points' : list Point) :
  h !! l = Some raw ->
  resample_array fuel (points_of raw) NumPoints = Ret (newPoints, points') ->
  exists h' : heap, convert_resample fuel l h = (Ret newPoints, h').
Proof.
  intros Hl Hrun. destruct raw as [ps|pts].
  - apply (B64QCheck.q64_convert_resample_returns fuel l h ps newPoints points' Hl);
      [|exact Hrun].
    intros ->. discriminate.
  - rewrite (B64QResample.q64_convert_resample_records fuel l h pts Hl).
    rewrite (B64QResample.q64_resample_records fuel l NumPoints h pts newPoints points' Hl Hrun).
    eexists. reflexivity.
Qed.

End B64QCoincide.

(** * Main theorems in double precision *)

Import PrimFloat.




(** C10.  What [check] and [add] leave in the heap, whether they return
    or throw: given an array of records, the caller's array itself holds
    the points that [_resample] spliced into it ([62] or [63] points
    when [_resample] returns its [64]); given an array of pairs, every
    array that existed before the call is as it was. *)
Theorem C10_argument_mutation
    (J : B64.Math) (fuel : nat)
    (this1 : B64.OneDollar.OneDollar) (name1 : string)
    (h1 : gmap nat B64.OneDollar.RawPoints) (l1 : nat) (raw1 : B64.OneDollar.RawPoints)
    (this2 : B64.QDollar.QDollar) (name2 : string)
    (h2 : gmap nat B64.QDollar.RawPoints) (l2 : nat) (raw2 : B64.QDollar.RawPoints) :
  h1 !! l1 = Some raw1 -> h2 !! l2 = Some raw2 ->
  B64OneDollarView.heap_effect fuel raw1 h1
    (snd (B64.OneDollar.check J fuel this1 l1 h1)) l1 /\
  B64OneDollarView.heap_effect fuel raw1 h1
    (snd (B64.OneDollar.add J fuel this1 name1 l1 h1)) l1 /\
  B64QDollarView.heap_effect fuel raw2 h2
    (snd (B64.QDollar.check fuel this2 l2 h2)) l2 /\
  B64QDollarView.heap_effect fuel raw2 h2
    (snd (B64.QDollar.add fuel this2 name2 l2 h2)) l2.
Proof.
  intros H1 H2.
  rewrite B64OResample.o64_check_heap, B64OResample.o64_add_heap,
    B64QResample.q64_check_heap, B64QResample.q64_add_heap.
  split; [|split; [|split]];
    first [ apply B64OResample.o64_heap_effect; exact H1
          | apply B64QResample.q64_heap_effect; exact H2 ].
Qed.

Lemma C10_witness :
  (exists (r : B64.OneDollar.Result) (pts' : list B64.OneDollar.Point),
     B64.OneDollar.check B64Samples.host 100 B64Samples.store1 0 B64Samples.heap1_records
     = (Ret r, <[0%nat := B64.OneDollar.Records pts']> B64Samples.heap1_records) /\
     length pts' = 64%nat) /\
  (exists (r : B64.QDollar.Result) (pts' : list B64.QDollar.Point),
     B64.QDollar.check 100 B64Samples.storeQ 0 B64Samples.heapQ_records
     = (Ret r, <[0%nat := B64.QDollar.Records pts']> B64Samples.heapQ_records) /\
     length pts' = 64%nat) /\
  snd (B64.OneDollar.check B64Samples.host 100 B64Samples.store1 0 B64Samples.heap1_pairs)
    !! 0%nat = Some (B64.OneDollar.Pairs [(0, 0); (1, 1)]%float) /\
  snd (B64.QDollar.check 100 B64Samples.storeQ 0 B64Samples.heapQ_pairs)
    !! 0%nat = Some (B64.QDollar.Pairs [(0, 0); (1, 1)]%float).
Proof.
  destruct (C10_argument_mutation B64Samples.host 100
              B64Samples.store1 "T" B64Samples.heap1_records 0
              (B64.OneDollar.Records B64Samples.diagonal1)
              B64Samples.storeQ "T" B64Samples.heapQ_records 0
              (B64.QDollar.Records B64Samples.diagonalQ) eq_refl eq_refl)
    as (C1 & _ & C2 & _).
  destruct (C10_argument_mutation B64Samples.host 100
              B64Samples.store1 "T" B64Samples.heap1_pairs 0
              (B64.OneDollar.Pairs [(0, 0); (1, 1)]%float)
              B64Samples.storeQ "T" B64Samples.heapQ_pairs 0
              (B64.QDollar.Pairs [(0, 0); (1, 1)]%float) eq_refl eq_refl)
    as (P1 & _ & P2 & _).
  cbn [B64OneDollarView.heap_effect B64QDollarView.heap_effect] in *.
  destruct (B64.OneDollar.resample_array 100 B64Samples.diagonal1 64)
    as [[np1 pts1]| |] eqn:A1; [|vm_compute in A1; discriminate..].
  destruct (B64.QDollar.resample_array 100 B64Samples.diagonalQ 64)
    as [[np2 pts2]| |] eqn:A2; [|vm_compute in A2; discriminate..].
  destruct (C1 np1 pts1 A1) as (E1 & _ & L1).
  destruct (C2 np2 pts2 A2) as (E2 & _ & L2).
  assert (N1 : length np1 = 64%nat /\ length pts1 = 64%nat).
  { clear -A1. vm_compute in A1. injection A1 as <- <-. split; reflexivity. }
  assert (N2 : length np2 = 64%nat /\ length pts2 = 64%nat).
  { clear -A2. vm_compute in A2. injection A2 as <- <-. split; reflexivity. }
  split; [|split; [|split]].
  - assert (R : exists r, fst (B64.OneDollar.check B64Samples.host 100 B64Samples.store1 0
                                 B64Samples.heap1_records) = Ret r)
      by (vm_compute; eexists; reflexivity).
    destruct R as [r R]. exists r, pts1. split; [|apply N1].
    apply injective_projections; [exact R | exact E1].
  - assert (R : exists r, fst (B64.QDollar.check 100 B64Samples.storeQ 0
                                 B64Samples.heapQ_records) = Ret r)
      by (vm_compute; eexists; reflexivity).
    destruct R as [r R]. exists r, pts2. split; [|apply N2].
    apply injective_projections; [exact R | exact E2].
  - rewrite P1; [reflexivity | eexists; reflexivity].
  - rewrite P2; [reflexivity | eexists; reflexivity].
Defined.






(** C6, as stated, fails in double precision.  Between [1] and the next
    number, [1 + 2^-52], both interior points round to [1]; the two
    objective values are equal, the state of the loop does not change,
    and with the precision [2^-53] the search never returns, whatever the
    host's [Math.cos] and [Math.sin] are. *)
Lemma C6_counterexample :
  (0 <? B64Samples.stuck_threshold)%float = true /\
  forall (J : B64.Math) (fuel : nat),
    B64.OneDollar._distanceAtBestAngle J fuel B64Samples.line1
      (B64.OneDollar.mkTemplate "T" B64Samples.line1 []) 1 B64Samples.stuck_b
      B64Samples.stuck_threshold
    = OutOfFuel.
Proof.
  split; [reflexivity|]. intros J fuel. apply B64Golden.stuck. cbn. lia.
Qed.

(** C6, amended.  Whenever the loop of [_distanceAtBestAngle] returns, it
    has made some number [k] of turns with one evaluation each (after the
    two made before the loop), the test [|b - a| > threshold] fails in
    the state it returns, and [f1], [f2] are the objective at the
    interior points of that state.  With the bracket [-45, 45] and the
    precision [2] that [check] passes, and a template that has a point
    for every point of the candidate, the search returns after exactly
    [8] turns and [10] evaluations, whatever the objective is, with a
    bracket of a width between [1.875] and [2], and answers
    [Math.min(f1, f2)]. *)
Theorem C6_golden_section_terminates
    (J : B64.Math) (points : list B64.OneDollar.Point) (T : B64.OneDollar.Template)
    (fuel : nat) :
  (length points <= length (B64.OneDollar.Points T))%nat -> (9 <= fuel)%nat ->
  (forall (threshold : PrimFloat.float) (n : nat) (st st' : B64.OneDollar.Bracket),
     B64OneDollarView.evaluated J points T st ->
     B64.OneDollar.golden_loop J n points T threshold st = Ret st' ->
     exists k : nat,
       B64OneDollarView.iterates J points T threshold k st st' /\
       B64OneDollarView.wide threshold st' = false /\
       B64.OneDollar.evals st' = (B64.OneDollar.evals st + k)%nat /\
       B64OneDollarView.evaluated J points T st') /\
  exists st0 st : B64.OneDollar.Bracket,
    B64.OneDollar.golden_init J points T (- B64.OneDollar.AngleRange)%float
      B64.OneDollar.AngleRange = Ret st0 /\
    B64.OneDollar.golden_loop J fuel points T B64.OneDollar.AnglePrecision st0 = Ret st /\
    B64OneDollarView.iterates J points T B64.OneDollar.AnglePrecision 8 st0 st /\
    B64OneDollarView.wide B64.OneDollar.AnglePrecision st = false /\
    (1.875 <? B64.Math_abs (B64.OneDollar.gb st - B64.OneDollar.ga st))%float = true /\
    B64.OneDollar.evals st = 10%nat /\
    B64OneDollarView.evaluated J points T st /\
    B64.OneDollar._distanceAtBestAngle J fuel points T (- B64.OneDollar.AngleRange)%float
      B64.OneDollar.AngleRange B64.OneDollar.AnglePrecision
    = Ret (B64.Math_min (B64.OneDollar.gf1 st) (B64.OneDollar.gf2 st)).
Proof.
  intros Hlen Hfuel. split.
  - intros threshold n st st' Hev Hrun.
    destruct (B64Golden.golden_loop_returns J points T threshold n st st' Hev Hrun)
      as (k & _ & Hit & Hw & He & Hev').
    exists k. auto.
  - apply B64Golden.o64_golden_canonical; assumption.
Qed.

Lemma C6_witness :
  exists (st : B64.OneDollar.Bracket) (d : PrimFloat.float),
    B64.OneDollar._distanceAtBestAngle B64Samples.host 9 B64Samples.line1
      (B64.OneDollar.mkTemplate "T" B64Samples.line1 [])
      (- B64.OneDollar.AngleRange)%float B64.OneDollar.AngleRange
      B64.OneDollar.AnglePrecision
    = Ret d /\
    d = B64.Math_min (B64.OneDollar.gf1 st) (B64.OneDollar.gf2 st) /\
    B64.OneDollar.evals st = 10%nat.
Proof.
  destruct (C6_golden_section_terminates B64Samples.host B64Samples.line1
              (B64.OneDollar.mkTemplate "T" B64Samples.line1 []) 9)
    as (_ & st0 & st & _ & _ & _ & _ & _ & He & _ & Hrun).
  - cbn. lia.
  - lia.
  - exists st, (B64.Math_min (B64.OneDollar.gf1 st) (B64.OneDollar.gf2 st)).
    split; [exact Hrun|]. split; [reflexivity | exact He].
Defined.







(** ** The cloud distance of a cloud to itself *)

Module B64Sign.
Import PrimFloat FloatOps FloatAxioms SpecFloat B64.

Local Open Scope float_scope.

Lemma ltb_zero_spec (x : float) : (x <? 0) = negb (sf_not_negative (Prim2SF x)).
Proof.
  rewrite ltb_spec. change (Prim2SF 0) with (S754_zero false).
  destruct (Prim2SF x) as [[]|[]| |[] m e]; reflexivity.
Qed.

Lemma round_not_negative (mx ex : Z) (lx : location) :
  sf_not_negative (binary_round_aux prec emax false mx ex lx) = true.
Proof.
  unfold binary_round_aux.
  destruct (shr_fexp prec emax mx ex lx) as [mrs' e'].
  destruct (shr_fexp prec emax _ e' loc_Exact) as [mrs'' e''].
  destruct (shr_m mrs''); [reflexivity | destruct (_ <=? _)%Z; reflexivity | reflexivity].
Qed.

Lemma add_not_negative (a b : float) :
  sf_not_negative (Prim2SF a) = true -> sf_not_negative (Prim2SF b) = true ->
  sf_not_negative (Prim2SF (a + b)) = true.
Proof.
  rewrite add_spec.
  destruct (Prim2SF a) as [[]|[]| |[] ma ea], (Prim2SF b) as [[]|[]| |[] mb eb];
    cbn [sf_not_negative]; try discriminate; try reflexivity; intros _ _.
  unfold SF64add, SFadd. cbv zeta. cbn [cond_Zopp]. rewrite <- Pos2Z.inj_add.
  cbn [binary_normalize]. unfold binary_round.
  destruct (shl_align (_ + _) _ _) as [mz ez]. apply round_not_negative.
Qed.

Lemma mul_self_not_negative (a : float) : sf_not_negative (Prim2SF (a * a)) = true.
Proof.
  rewrite mul_spec.
  destruct (Prim2SF a) as [[]|[]| |[] m e]; try reflexivity;
    unfold SF64mul, SFmul; cbn [xorb]; apply round_not_negative.
Qed.

Lemma sqrt_not_negative (a : float) : sf_not_negative (Prim2SF (Math_sqrt a)) = true.
Proof.
  unfold Math_sqrt. rewrite sqrt_spec.
  destruct (Prim2SF a) as [[]|[]| |[] m e]; try reflexivity.
  unfold SF64sqrt, SFsqrt. destruct (SFsqrt_core_binary prec emax (Z.pos m) e) as [[mz ez] lz].
  apply round_not_negative.
Qed.

(** A number that is neither below nor above [0] is a zero. *)
Lemma zero_cases (x : float) :
  (x <? 0) = false -> (0 <? x) = false -> is_nan x = false -> x = 0 \/ x = (- 0).
Proof.
  rewrite !ltb_spec. intros H1 H2 Hn. apply B64Num.is_nan_false in Hn.
  change (Prim2SF 0) with (S754_zero false) in *.
  destruct (Prim2SF x) as [[]|[]| |[] m e] eqn:Hx; try discriminate; try congruence.
  - right. apply Prim2SF_inj. rewrite Hx. reflexivity.
  - left. apply Prim2SF_inj. rewrite Hx. reflexivity.
Qed.

End B64Sign.

Module B64Recall.
Import PrimFloat B64 B64.QDollar B64QDollarView B64Search.

Local Open Scope float_scope.

Lemma q64_sqr_self (p : Point) :
  is_finite (px p) = true -> is_finite (py p) = true -> _sqrEuclideanDistance p p = 0.
Proof.
  intros Hx Hy. unfold _sqrEuclideanDistance. cbv zeta.
  rewrite (B64Nan.sub_self _ Hx), (B64Nan.sub_self _ Hy). reflexivity.
Qed.

Lemma q64_sqr_not_negative (p q : Point) : (_sqrEuclideanDistance p q <? 0) = false.
Proof.
  rewrite B64Sign.ltb_zero_spec. unfold _sqrEuclideanDistance. cbv zeta.
  rewrite B64Sign.add_not_negative; [reflexivity | apply B64Sign.mul_self_not_negative..].
Qed.

(** *** The scan for the nearest point *)

Lemma q64_nearest_loop_app (p1 : Point) (pts2 : list Point) (matched : list bool) :
  forall (js1 js2 : list nat) (min : float) (index : option nat),
    nearest_loop p1 pts2 matched (js1 ++ js2) min index
    = (do r <- nearest_loop p1 pts2 matched js1 min index;
       nearest_loop p1 pts2 matched js2 (fst r) (snd r)).
Proof.
  induction js1 as [|j js1 IH]; intros js2 min index; [reflexivity|].
  cbn [app nearest_loop].
  destruct (matched !! j) as [[|]|]; [apply IH| |];
    (destruct (pts2 !! j) as [p2|]; cbn [deref bind]; [|reflexivity];
     destruct (_sqrEuclideanDistance p1 p2 <? min); apply IH).
Qed.

Lemma q64_nearest_loop_matched (p1 : Point) (pts2 : list Point) (matched : list bool) :
  forall (js : list nat) (min : float) (index : option nat),
    Forall (fun j => matched !! j = Some true) js ->
    nearest_loop p1 pts2 matched js min index = Ret (min, index).
Proof.
  induction js as [|j js IH]; intros min index Hjs; [reflexivity|].
  apply Forall_cons in Hjs as [Hj Hjs]. cbn [nearest_loop]. rewrite Hj. apply IH. exact Hjs.
Qed.

(** No point is nearer than a point at distance [0]. *)
Lemma q64_nearest_loop_zero (p1 : Point) (pts2 : list Point) (matched : list bool) :
  forall (js : list nat) (index : option nat),
    Forall (fun j => (j < length pts2)%nat) js ->
    nearest_loop p1 pts2 matched js 0 index = Ret (0, index).
Proof.
  induction js as [|j js IH]; intros index Hjs; [reflexivity|].
  apply Forall_cons in Hjs as [Hj Hjs]. cbn [nearest_loop].
  destruct (lookup_lt_is_Some_2 pts2 j Hj) as [p2 ->]. cbn [deref bind].
  rewrite q64_sqr_not_negative.
  destruct (matched !! j) as [[|]|]; apply IH; exact Hjs.
Qed.

(** The points before [i] are matched and the point at [i] is the point
    looked for: the scan answers [i], at distance [0]. *)
Lemma q64_nearest_loop_self (p1 : Point) (pts2 : list Point) (n i : nat) :
  is_finite (px p1) = true -> is_finite (py p1) = true ->
  (i < n)%nat -> (n <= length pts2)%nat -> pts2 !! i = Some p1 ->
  nearest_loop p1 pts2 (replicate i true ++ replicate (n - i) false) (seq 0 n)
    Infinity None
  = Ret (0, Some i).
Proof.
  intros Hx Hy Hi Hn Hp.
  replace n with (i + S (n - S i))%nat at 2 by lia.
  rewrite seq_app. cbn [seq Nat.add]. rewrite q64_nearest_loop_app.
  rewrite q64_nearest_loop_matched.
  - cbn [bind fst snd nearest_loop].
    rewrite lookup_app_r by (rewrite length_replicate; lia).
    rewrite length_replicate, Nat.sub_diag.
    replace (n - i)%nat with (S (n - S i)) by lia. cbn [replicate lookup list_lookup].
    rewrite Hp. cbn [deref bind]. rewrite (q64_sqr_self p1 Hx Hy).
    change (0 <? Infinity) with true. cbv iota.
    apply q64_nearest_loop_zero. apply Forall_forall. intros j Hj.
    apply elem_of_seq in Hj. lia.
  - apply Forall_forall. intros j Hj. apply elem_of_seq in Hj.
    rewrite lookup_app_l by (rewrite length_replicate; lia).
    apply lookup_replicate_2. lia.
Qed.

(** *** A cloud against itself *)

Lemma q64_cloud_loop_self (points : list Point) (minSoFar : float) :
  Forall (fun p => is_finite (px p) = true /\ is_finite (py p) = true) points ->
  forall k i : nat,
    (i + k = length points)%nat ->
    cloud_loop (drop i points) points (length points)
      (replicate i true ++ replicate (length points - i) false) 0 minSoFar
    = Ret 0.
Proof.
  intros Hfin. induction k as [|k IH]; intros i Hik.
  - rewrite drop_ge by lia. reflexivity.
  - destruct (lookup_lt_is_Some_2 points i) as [p Hp]; [lia|].
    rewrite (drop_S points p i Hp). cbn [cloud_loop].
    assert (Hp' : is_finite (px p) = true /\ is_finite (py p) = true).
    { rewrite Forall_forall in Hfin. apply Hfin. eapply list_elem_of_lookup_2. exact Hp. }
    destruct Hp' as [Hx Hy].
    rewrite (q64_nearest_loop_self p points (length points) i Hx Hy); [|lia|lia|exact Hp].
    cbn [bind]. change (0 + Math_sqrt 0) with 0.
    destruct (jge 0 minSoFar); [reflexivity|].
    replace (<[i := true]> (replicate i true ++ replicate (length points - i) false))
      with (replicate (S i) true ++ replicate (length points - S i) false).
    + apply IH. lia.
    + replace (length points - i)%nat with (S (length points - S i)) by lia.
      rewrite insert_app_r_alt by (rewrite length_replicate; lia).
      rewrite length_replicate, Nat.sub_diag.
      change (<[0%nat := true]> (replicate (S (length points - S i)) false))
        with (true :: replicate (length points - S i) false).
      rewrite (replicate_S_end i), <- app_assoc. reflexivity.
Qed.

(** The cloud distance of finite points to themselves is [0], whatever
    the best distance so far. *)
Lemma q64_cloudMatch_self (points : list Point) (name : string) (minSoFar : float) :
  Forall (fun p => is_finite (px p) = true /\ is_finite (py p) = true) points ->
  _cloudMatch points (mkTemplate name points) minSoFar = Ret 0.
Proof.
  intros Hfin. unfold _cloudMatch, _cloudDistance. cbn [Points].
  pose proof (q64_cloud_loop_self points minSoFar Hfin (length points) 0 eq_refl) as H.
  rewrite drop_0, Nat.sub_0_r in H. exact H.
Qed.

(** *** A cloud distance is not below [0] *)

Lemma q64_nearest_loop_not_negative (p1 : Point) (pts2 : list Point)
    (matched : list bool) :
  forall (js : list nat) (min : float) (index : option nat) (r : float * option nat),
    nearest_loop p1 pts2 matched js min index = Ret r ->
    r = (min, index) \/ exists p2 : Point, fst r = _sqrEuclideanDistance p1 p2.
Proof.
  induction js as [|j js IH]; intros min index r H.
  - left. cbn in H. congruence.
  - cbn [nearest_loop] in H.
    destruct (matched !! j) as [[|]|]; [apply IH; exact H| |];
      (destruct (pts2 !! j) as [p2|]; cbn [deref bind] in H; [|discriminate];
       destruct (_sqrEuclideanDistance p1 p2 <? min);
       [destruct (IH _ _ _ H) as [-> | Hr]; [right; exists p2; reflexivity | right; exact Hr]
       |apply IH; exact H]).
Qed.

Lemma q64_cloud_loop_not_negative (pts2 : list Point) (n : nat) (minSoFar : float) :
  forall (pts1 : list Point) (matched : list bool) (sum d : float),
    sf_not_negative (FloatOps.Prim2SF sum) = true ->
    cloud_loop pts1 pts2 n matched sum minSoFar = Ret d ->
    sf_not_negative (FloatOps.Prim2SF d) = true.
Proof.
  induction pts1 as [|p1 pts1 IH]; intros matched sum d Hsum H.
  - cbn in H. congruence.
  - cbn [cloud_loop] in H.
    destruct (nearest_loop p1 pts2 matched (seq 0 n) Infinity None) as [[min index]| |];
      try discriminate.
    cbn [bind] in H. destruct index as [j|].
    + assert (Hs : sf_not_negative (FloatOps.Prim2SF (sum + Math_sqrt min)) = true)
        by (apply B64Sign.add_not_negative; [exact Hsum | apply B64Sign.sqrt_not_negative]).
      destruct (jge (sum + Math_sqrt min) minSoFar); [congruence|].
      eapply IH; [exact Hs | exact H].
    + destruct (jge sum minSoFar); [congruence|]. eapply IH; [exact Hsum | exact H].
Qed.

Lemma q64_cloudMatch_not_negative (points : list Point) (T : Template)
    (minSoFar d : float) :
  _cloudMatch points T minSoFar = Ret d -> (d <? 0) = false.
Proof.
  unfold _cloudMatch, _cloudDistance. intros H. rewrite B64Sign.ltb_zero_spec.
  rewrite (q64_cloud_loop_not_negative _ _ _ _ _ 0 d eq_refl H). reflexivity.
Qed.

Lemma q64_cloud_distances_not_negative (points : list Point) :
  forall (templates : list Template) (b : float) (ds : list float),
    cloud_distances points templates b = Ret ds ->
    Forall (fun d => (d <? 0) = false) ds.
Proof.
  induction templates as [|T templates IH]; intros b ds H.
  - cbn in H. injection H as <-. constructor.
  - cbn [cloud_distances] in H.
    destruct (_cloudMatch points T b) as [d| |] eqn:Hd; try discriminate.
    cbn [bind] in H.
    destruct (cloud_distances points templates _) as [ds'| |] eqn:Hds; try discriminate.
    cbn [bind] in H. injection H as <-. constructor.
    + eapply q64_cloudMatch_not_negative. exact Hd.
    + eapply IH. exact Hds.
Qed.

(** The distance to the template registered last. *)
Lemma q64_cloud_distances_last (points : list Point) (T : Template) (d0 : float) :
  (forall m : float, _cloudMatch points T m = Ret d0) ->
  forall (templates : list Template) (b : float) (ds : list float),
    cloud_distances points (templates ++ [T]) b = Ret ds ->
    ds !! length templates = Some d0.
Proof.
  intros HT. induction templates as [|T' templates IH]; intros b ds H.
  - cbn [app cloud_distances] in H. rewrite HT in H. cbn in H. injection H as <-.
    reflexivity.
  - cbn [app cloud_distances] in H.
    destruct (_cloudMatch points T' b) as [d| |]; try discriminate. cbn [bind] in H.
    destruct (cloud_distances points (templates ++ [T]) _) as [ds'| |] eqn:Hds;
      try discriminate.
    cbn [bind] in H. injection H as <-. cbn [length]. apply (IH _ _ Hds).
Qed.

(** What the template loop returns, with the score. *)
Lemma q64_recognize_score (this : QDollar) (points : list Point) (ds : list float) :
  cloud_distances points (Templates this) Infinity = Ret ds ->
  ~ none_below_infinity ds ->
  exists (t : nat) (T : Template) (d : float),
    first_minimum ds t /\ ds !! t = Some d /\ Templates this !! t = Some T /\
    recognize this points
    = Ret (mkResult (Name T) (Math_max (1 - d / of_nat NumPoints / 0.5) 0)).
Proof.
  intros Hds Hsome. unfold recognize.
  pose proof (B64QCheck.q64_check_loop_argmin points (Templates this) [] ds Infinity None Hds)
    as Hloop.
  cbn [mbind option_bind app length] in Hloop. rewrite Hloop. cbn [bind].
  destruct (B64SearchFacts.search_loop_spec ds None)
    as [[Hrun Hall] | (t & d & Hrun & Ht & Hmin)]; [contradiction|].
  rewrite Hrun. cbn [fst snd mbind option_bind].
  assert (HT : exists T, Templates this !! t = Some T).
  { apply lookup_lt_is_Some_2.
    rewrite <- (B64QCheck.q64_cloud_distances_length _ _ _ _ Hds).
    eapply lookup_lt_Some. exact Ht. }
  destruct HT as [T HT]. rewrite HT. exists t, T, d. auto.
Qed.

(** The score of a distance that is a zero. *)
Lemma q64_score_zero (d : float) :
  (d <? 0) = false -> (0 <? d) = false -> is_nan d = false ->
  Math_max (1 - d / of_nat NumPoints / 0.5) 0 = 1.
Proof.
  intros H1 H2 H3. destruct (B64Sign.zero_cases d H1 H2 H3) as [-> | ->]; reflexivity.
Qed.

(** After the points of the candidate were registered as the last
    template, the score is [1]. *)
Lemma q64_recognize_recall (this : QDollar) (nm : string) (points : list Point) :
  Forall (fun p => is_finite (px p) = true /\ is_finite (py p) = true) points ->
  Forall (fun T => (length points <= length (Points T))%nat) (Templates this) ->
  exists (r : Result) (T : Template),
    recognize (mkQDollar (Templates this ++ [mkTemplate nm points])) points = Ret r /\
    T ∈ Templates this ++ [mkTemplate nm points] /\
    name r = Name T /\ score r = 1.
Proof.
  intros Hfin Hall.
  destruct (B64QStore.q64_cloud_distances_returns points
              (Templates this ++ [mkTemplate nm points]) Infinity) as [ds Hds].
  { apply Forall_app. split; [exact Hall|]. constructor; [cbn [Points]; lia | constructor]. }
  pose proof (q64_cloud_distances_last points (mkTemplate nm points) 0
                (fun m => q64_cloudMatch_self points nm m Hfin) _ _ _ Hds) as Hlast.
  destruct (q64_recognize_score (mkQDollar (Templates this ++ [mkTemplate nm points]))
              points ds Hds) as (t & T & d & Hmin & Hd & HT & Hr).
  { intros Hnone. eapply Forall_forall in Hnone;
      [|eapply list_elem_of_lookup_2; exact Hlast]. discriminate. }
  exists (mkResult (Name T) (Math_max (1 - d / of_nat NumPoints / 0.5) 0)), T.
  split; [exact Hr|]. split; [eapply list_elem_of_lookup_2; exact HT|].
  split; [reflexivity|]. cbn [score].
  destruct Hmin as (d' & Hd' & Hinf & Hbelow & _).
  assert (d' = d) by congruence. subst d'.
  apply q64_score_zero.
  - pose proof (q64_cloud_distances_not_negative _ _ _ _ Hds) as Hnn.
    eapply Forall_forall in Hnn; [exact Hnn|]. eapply list_elem_of_lookup_2. exact Hd.
  - exact (Hbelow _ _ Hlast).
  - eapply B64Num.ltb_not_nan_l. exact Hinf.
Qed.

(** [_convertPoints] and [_resample] on an array of pairs: what they
    return depends on the pairs only. *)
Lemma q64_convert_resample_pairs_inv (fuel : nat) (l : loc) (h h' : heap)
    (ps : list (float * float)) (np : list Point) :
  h !! l = Some (Pairs ps) ->
  convert_resample fuel l h = (Ret np, h') ->
  ps <> [] /\
  exists points' : list Point,
    resample_array fuel (points_of (Pairs ps)) NumPoints = Ret (np, points').
Proof.
  intros Hl. unfold convert_resample, heap_bind, _convertPoints. rewrite Hl.
  destruct ps as [|p ps].
  - unfold _resample. rewrite Hl. cbn. discriminate.
  - intros H. split; [discriminate|].
    apply B64QResample.q64_resample_returns in H
      as (raw & pts & pts' & Hraw & Hrec & Hrun & _).
    rewrite lookup_insert_eq in Hraw. injection Hraw as <-. injection Hrec as <-.
    exists pts'. exact Hrun.
Qed.

Lemma q64_convert_resample_again (fuel : nat) (l : loc) (h h' : heap)
    (ps : list (float * float)) (np : list Point) :
  h !! l = Some (Pairs ps) ->
  convert_resample fuel l h = (Ret np, h') ->
  exists h'' : heap, convert_resample fuel l h' = (Ret np, h'').
Proof.
  intros Hl Hcr.
  destruct (q64_convert_resample_pairs_inv fuel l h h' ps np Hl Hcr) as (Hne & pts' & Hrun).
  apply (B64QCheck.q64_convert_resample_returns fuel l h' ps np pts'); [|exact Hne|exact Hrun].
  pose proof (B64QResample.q64_convert_resample_pairs fuel l h ps l Hl) as Hframe.
  rewrite Hcr in Hframe. cbn [snd] in Hframe. rewrite Hframe; [exact Hl|].
  eexists. exact Hl.
Qed.

End B64Recall.

(** * Further theorems in double precision: the store *)

Import PrimFloat.

Lemma forallb_Forall {A : Type} (f : A -> bool) (l : list A) :
  forallb f l = true -> Forall (fun x => f x = true) l.
Proof.
  induction l as [|x l IH]; intros H; [constructor|].
  cbn [forallb] in H. apply andb_true_iff in H as [Hx H]. constructor; auto.
Qed.



(** X5.  When [_resample] has returned for the argument and every
    template of the store has at least as many points as it returned,
    [check] returns: [OneDollar.check], on a store that is not empty, a
    result with the name of a template of the store; [QDollar.check] a
    result with the name of a template of the store, or ["No match"] with
    the score [0]. *)
Theorem X5_check_names_template
    (J : B64.Math) (fuel : nat)
    (this1 : B64.OneDollar.OneDollar) (l1 : nat) (h1 h1' : gmap nat B64.OneDollar.RawPoints)
    (np1 : list B64.OneDollar.Point)
    (thisQ : B64.QDollar.QDollar) (lQ : nat) (hQ hQ' : gmap nat B64.QDollar.RawPoints)
    (npQ : list B64.QDollar.Point) :
  (9 <= fuel)%nat ->
  B64.OneDollar.Templates this1 <> [] ->
  B64OneDollarView.convert_resample fuel l1 h1 = (Ret np1, h1') ->
  Forall (fun T => (length np1 <= length (B64.OneDollar.Points T))%nat)
    (B64.OneDollar.Templates this1) ->
  B64QDollarView.convert_resample fuel lQ hQ = (Ret npQ, hQ') ->
  Forall (fun T => (length npQ <= length (B64.QDollar.Points T))%nat)
    (B64.QDollar.Templates thisQ) ->
  (exists (r : B64.OneDollar.Result) (T : B64.OneDollar.Template),
     B64.OneDollar.check J fuel this1 l1 h1 = (Ret r, h1') /\
     T ∈ B64.OneDollar.Templates this1 /\
     B64.OneDollar.name r = B64.OneDollar.Name T) /\
  (exists r : B64.QDollar.Result,
     B64.QDollar.check fuel thisQ lQ hQ = (Ret r, hQ') /\
     ((exists T : B64.QDollar.Template,
         T ∈ B64.QDollar.Templates thisQ /\
         B64.QDollar.name r = B64.QDollar.Name T) \/
      r = B64.QDollar.mkResult "No match" 0%float)).
Proof.
  intros Hfuel Hne Hc1 Hall1 HcQ HallQ. split.
  - pose proof (B64OStore.o64_convert_resample_nonempty fuel l1 h1 h1' np1 Hc1) as Hnp.
    destruct (B64OCheck.o64_normalize_returns J np1 Hnp) as [pts Hn].
    destruct (B64OStore.o64_recognize_returns J fuel this1 pts Hfuel Hne)
      as (r & T & Hr & HT & HN).
    { rewrite (B64OCheck.o64_normalize_length J np1 pts Hn). exact Hall1. }
    exists r, T. rewrite B64OResample.o64_check_unfold, Hc1, Hn. cbn [bind].
    rewrite Hr. auto.
  - destruct (B64QStore.q64_recognize_returns thisQ (B64.QDollar.normalize npQ))
      as (r & Hr & Hcase).
    { rewrite B64QCheck.q64_normalize_length. exact HallQ. }
    exists r. rewrite B64QResample.q64_check_unfold, HcQ, Hr. auto.
Qed.

Lemma X5_witness :
  (exists r : B64.OneDollar.Result,
     fst (B64.OneDollar.check B64Samples.host 200 B64Samples.tied1 2
            (snd B64Samples.second1)) = Ret r /\
     exists T : B64.OneDollar.Template,
       T ∈ B64.OneDollar.Templates B64Samples.tied1 /\
       B64.OneDollar.name r = B64.OneDollar.Name T) /\
  (exists r : B64.QDollar.Result,
     fst (B64.QDollar.check 200 B64Samples.tiedQ 2 (snd B64Samples.secondQ)) = Ret r).
Proof.
  pose (c1 := B64OneDollarView.convert_resample 200 2 (snd B64Samples.second1)).
  pose (cQ := B64QDollarView.convert_resample 200 2 (snd B64Samples.secondQ)).
  assert (Hc1 : c1 = (Ret (B64Samples.value_of [] (fst c1)), snd c1))
    by (apply B64Fail.run_value_of; vm_compute; eexists; reflexivity).
  assert (HcQ : cQ = (Ret (B64Samples.value_of [] (fst cQ)), snd cQ))
    by (apply B64Fail.run_value_of; vm_compute; eexists; reflexivity).
  destruct (X5_check_names_template B64Samples.host 200 B64Samples.tied1 2
              (snd B64Samples.second1) (snd c1) (B64Samples.value_of [] (fst c1))
              B64Samples.tiedQ 2 (snd B64Samples.secondQ) (snd cQ)
              (B64Samples.value_of [] (fst cQ)))
    as [(r1 & T & Hr1 & HT & HN) (rQ & HrQ & _)].
  - lia.
  - intros E. vm_compute in E. discriminate.
  - exact Hc1.
  - eapply Forall_impl;
      [apply (forallb_Forall
                (fun T => Nat.leb (length (B64Samples.value_of [] (fst c1)))
                            (length (B64.OneDollar.Points T))));
       vm_compute; reflexivity|].
    intros T HT. apply Nat.leb_le. exact HT.
  - exact HcQ.
  - eapply Forall_impl;
      [apply (forallb_Forall
                (fun T => Nat.leb (length (B64Samples.value_of [] (fst cQ)))
                            (length (B64.QDollar.Points T))));
       vm_compute; reflexivity|].
    intros T HT. apply Nat.leb_le. exact HT.
  - split.
    + exists r1. rewrite Hr1. split; [reflexivity|]. exists T. auto.
    + exists rQ. rewrite HrQ. reflexivity.
Defined.



(** X7.  [add] does not reject two or more copies of one finite point.
    [_resample] returns two points for them, the point itself and the
    point [(NaN, NaN)] it synthesized on the first segment, and [add]
    registers a template of two points under the given name.  From then
    on [check] throws a [TypeError] for every argument on which
    [_resample] returns more than two points. *)
Theorem X7_add_coincident_points
    (J : B64.Math) (fuel k : nat)
    (p1 : B64.OneDollar.Point) (this1 : B64.OneDollar.OneDollar) (name1 : string)
    (l1 : nat) (h1 : gmap nat B64.OneDollar.RawPoints) (raw1 : B64.OneDollar.RawPoints)
    (pQ : B64.QDollar.Point) (thisQ : B64.QDollar.QDollar) (nameQ : string)
    (lQ : nat) (hQ : gmap nat B64.QDollar.RawPoints) (rawQ : B64.QDollar.RawPoints) :
  B64.is_finite (B64.OneDollar.px p1) = true ->
  B64.is_finite (B64.OneDollar.py p1) = true ->
  B64.is_finite (B64.QDollar.px pQ) = true ->
  B64.is_finite (B64.QDollar.py pQ) = true ->
  (k + 9 <= fuel)%nat ->
  h1 !! l1 = Some raw1 ->
  B64OneDollarView.points_of raw1 = replicate (S (S k)) p1 ->
  hQ !! lQ = Some rawQ ->
  B64QDollarView.points_of rawQ = replicate (S (S k)) pQ ->
  (exists (T : B64.OneDollar.Template) (h1' : gmap nat B64.OneDollar.RawPoints),
     B64OneDollarView.convert_resample fuel l1 h1
     = (Ret [p1; B64.OneDollar.mkPoint B64.NaN B64.NaN], h1') /\
     B64.OneDollar.add J fuel this1 name1 l1 h1
     = (Ret (B64.OneDollar.mkOneDollar (B64.OneDollar.Templates this1 ++ [T])), h1') /\
     B64.OneDollar.Name T = name1 /\
     length (B64.OneDollar.Points T) = 2%nat /\
     forall (l : nat) (h h' : gmap nat B64.OneDollar.RawPoints)
            (np : list B64.OneDollar.Point),
       B64OneDollarView.convert_resample fuel l h = (Ret np, h') ->
       (2 < length np)%nat ->
       B64.OneDollar.check J fuel
         (B64.OneDollar.mkOneDollar (B64.OneDollar.Templates this1 ++ [T])) l h
       = (Throw TypeError, h')) /\
  (exists (T : B64.QDollar.Template) (hQ' : gmap nat B64.QDollar.RawPoints),
     B64QDollarView.convert_resample fuel lQ hQ
     = (Ret [pQ; B64.QDollar.mkPoint B64.NaN B64.NaN (B64.QDollar.pid pQ)], hQ') /\
     B64.QDollar.add fuel thisQ nameQ lQ hQ
     = (Ret (B64.QDollar.mkQDollar (B64.QDollar.Templates thisQ ++ [T])), hQ') /\
     B64.QDollar.Name T = nameQ /\
     length (B64.QDollar.Points T) = 2%nat /\
     forall (l : nat) (h h' : gmap nat B64.QDollar.RawPoints)
            (np : list B64.QDollar.Point),
       B64QDollarView.convert_resample fuel l h = (Ret np, h') ->
       (2 < length np)%nat ->
       B64.QDollar.check fuel
         (B64.QDollar.mkQDollar (B64.QDollar.Templates thisQ ++ [T])) l h
       = (Throw TypeError, h')).
Proof.
  intros Hx1 Hy1 HxQ HyQ Hfuel Hl1 Hp1 HlQ HpQ. split.
  - destruct (B64OCoincide.o64_convert_resample_of fuel l1 h1 raw1
                [p1; B64.OneDollar.mkPoint B64.NaN B64.NaN]
                (p1 :: B64.OneDollar.mkPoint B64.NaN B64.NaN :: replicate (S k) p1) Hl1)
      as [h1' Hcr].
    { rewrite Hp1. apply B64OCoincide.o64_resample_coincide; [exact Hx1 | exact Hy1 | lia]. }
    destruct (B64OCheck.o64_add_returns J fuel this1 name1 l1 h1 h1' _ Hcr)
      as (T & Hadd & HN & HL); [discriminate|].
    exists T, h1'. split; [exact Hcr|]. split; [exact Hadd|]. split; [exact HN|].
    split; [exact HL|]. intros l h h' np Hnp Hlen.
    apply (B64OStore.o64_check_short J fuel _ l h h' np); [lia | exact Hnp|].
    cbn [B64.OneDollar.Templates]. apply Exists_app. right. apply Exists_cons_hd.
    rewrite HL. exact Hlen.
  - destruct (B64QCoincide.q64_convert_resample_of fuel lQ hQ rawQ
                [pQ; B64.QDollar.mkPoint B64.NaN B64.NaN (B64.QDollar.pid pQ)]
                (pQ :: B64.QDollar.mkPoint B64.NaN B64.NaN (B64.QDollar.pid pQ)
                    :: replicate (S k) pQ) HlQ)
      as [hQ' Hcr].
    { rewrite HpQ. apply B64QCoincide.q64_resample_coincide; [exact HxQ | exact HyQ | lia]. }
    exists (B64.QDollar.mkTemplate nameQ
              (B64.QDollar.normalize
                 [pQ; B64.QDollar.mkPoint B64.NaN B64.NaN (B64.QDollar.pid pQ)])), hQ'.
    split; [exact Hcr|].
    split; [exact (B64QCheck.q64_add_returns fuel thisQ nameQ lQ hQ hQ' _ Hcr)|].
    split; [reflexivity|]. split; [reflexivity|]. intros l h h' np Hnp Hlen.
    apply (B64QStore.q64_check_short fuel _ l h h' np); [exact Hnp|].
    cbn [B64.QDollar.Templates]. apply Exists_app. right. apply Exists_cons_hd.
    exact Hlen.
Qed.

Lemma X7_witness :
  (exists T : B64.OneDollar.Template,
     fst (B64.OneDollar.add B64Samples.host 200 (B64.OneDollar.mkOneDollar []) "dot" 0
            B64Samples.heap1_dot)
     = Ret (B64.OneDollar.mkOneDollar [T]) /\
     length (B64.OneDollar.Points T) = 2%nat) /\
  (exists T : B64.QDollar.Template,
     fst (B64.QDollar.add 200 (B64.QDollar.mkQDollar []) "dot" 0 B64Samples.heapQ_dot)
     = Ret (B64.QDollar.mkQDollar [T]) /\
     length (B64.QDollar.Points T) = 2%nat).
Proof.
  destruct (X7_add_coincident_points B64Samples.host 200 28
              (B64.OneDollar.mkPoint 1 1) (B64.OneDollar.mkOneDollar []) "dot" 0
              B64Samples.heap1_dot (B64.OneDollar.Pairs (replicate 30 (1, 1)%float))
              (B64.QDollar.mkPoint 1 1 (Some 1%Z)) (B64.QDollar.mkQDollar []) "dot" 0
              B64Samples.heapQ_dot (B64.QDollar.Pairs (replicate 30 (1, 1)%float)))
    as [(T1 & h1' & _ & A1 & _ & L1 & _) (TQ & hQ' & _ & AQ & _ & LQ & _)];
    try reflexivity; [lia|].
  split.
  - exists T1. rewrite A1. split; [reflexivity | exact L1].
  - exists TQ. rewrite AQ. split; [reflexivity | exact LQ].
Defined.

(** X8.  Both constructors return, whatever the host's trigonometric
    functions and whatever the heap: they register the nine default
    templates, named Triangle, X, Rectangle, Circle, Check, Caret,
    ZigZag, Arrow and Star in this order, each with [64] points, and
    leave in place the arrays that exist.  On the new recognizer [check]
    returns for every argument on which [_resample] returns at most [64]
    points: [OneDollar.check] one of the nine names, [QDollar.check] one
    of the nine names or ["No match"]. *)
Theorem X8_constructor_defaults
    (J : B64.Math) (fuel : nat)
    (h1 : gmap nat B64.OneDollar.RawPoints) (hQ : gmap nat B64.QDollar.RawPoints) :
  (200 <= fuel)%nat ->
  (exists (this : B64.OneDollar.OneDollar) (h1' : gmap nat B64.OneDollar.RawPoints),
     B64.OneDollar.constructor J fuel h1 = (Ret this, h1') /\
     map B64.OneDollar.Name (B64.OneDollar.Templates this) = Defaults.default_names /\
     Forall (fun T => length (B64.OneDollar.Points T) = 64%nat)
       (B64.OneDollar.Templates this) /\
     (forall l : nat, is_Some (h1 !! l) -> h1' !! l = h1 !! l) /\
     (forall (l : nat) (h h' : gmap nat B64.OneDollar.RawPoints)
             (np : list B64.OneDollar.Point),
        B64OneDollarView.convert_resample fuel l h = (Ret np, h') ->
        (length np <= 64)%nat ->
        exists r : B64.OneDollar.Result,
          B64.OneDollar.check J fuel this l h = (Ret r, h') /\
          B64.OneDollar.name r ∈ Defaults.default_names)) /\
  (exists (this : B64.QDollar.QDollar) (hQ' : gmap nat B64.QDollar.RawPoints),
     B64.QDollar.constructor fuel hQ = (Ret this, hQ') /\
     map B64.QDollar.Name (B64.QDollar.Templates this) = Defaults.default_names /\
     Forall (fun T => length (B64.QDollar.Points T) = 64%nat)
       (B64.QDollar.Templates this) /\
     (forall l : nat, is_Some (hQ !! l) -> hQ' !! l = hQ !! l) /\
     (forall (l : nat) (h h' : gmap nat B64.QDollar.RawPoints)
             (np : list B64.QDollar.Point),
        B64QDollarView.convert_resample fuel l h = (Ret np, h') ->
        (length np <= 64)%nat ->
        exists r : B64.QDollar.Result,
          B64.QDollar.check fuel this l h = (Ret r, h') /\
          (B64.QDollar.name r ∈ Defaults.default_names \/
           r = B64.QDollar.mkResult "No match" 0%float))).
Proof.
  intros Hfuel. split.
  - destruct (B64OCheck.o64_constructor_returns J fuel h1 Hfuel)
      as (this & h1' & Hrun & Hnames & Hlen).
    exists this, h1'. split; [exact Hrun|]. split; [exact Hnames|].
    split; [exact Hlen|]. split.
    + intros l Hl.
      pose proof (B64OStore.o64_constructor_preserves J fuel h1 l Hl) as Hp.
      rewrite Hrun in Hp. exact Hp.
    + intros l h h' np Hcr Hnp.
      pose proof (B64OStore.o64_convert_resample_nonempty fuel l h h' np Hcr) as Hne.
      destruct (B64OCheck.o64_normalize_returns J np Hne) as [pts Hn].
      destruct (B64OStore.o64_recognize_returns J fuel this pts)
        as (r & T & Hr & HT & HN).
      * lia.
      * intros E. rewrite E in Hnames. discriminate.
      * rewrite (B64OCheck.o64_normalize_length J np pts Hn).
        eapply Forall_impl; [exact Hlen|]. cbn beta. intros T HT. lia.
      * exists r. rewrite B64OResample.o64_check_unfold, Hcr, Hn. cbn [bind].
        rewrite Hr. split; [reflexivity|].
        rewrite HN, <- Hnames. apply list_elem_of_fmap_2. exact HT.
  - destruct (B64QCheck.q64_constructor_returns fuel hQ Hfuel)
      as (this & hQ' & Hrun & Hnames & Hlen).
    exists this, hQ'. split; [exact Hrun|]. split; [exact Hnames|].
    split; [exact Hlen|]. split.
    + intros l Hl.
      pose proof (B64QStore.q64_constructor_preserves fuel hQ l Hl) as Hp.
      rewrite Hrun in Hp. exact Hp.
    + intros l h h' np Hcr Hnp.
      destruct (B64QStore.q64_recognize_returns this (B64.QDollar.normalize np))
        as (r & Hr & Hcase).
      * rewrite B64QCheck.q64_normalize_length.
        eapply Forall_impl; [exact Hlen|]. cbn beta. intros T HT. lia.
      * exists r. rewrite B64QResample.q64_check_unfold, Hcr, Hr.
        split; [reflexivity|].
        destruct Hcase as [(T & HT & HN) | ->]; [left | right; reflexivity].
        rewrite HN, <- Hnames. apply list_elem_of_fmap_2. exact HT.
Qed.

Lemma X8_witness :
  (exists this : B64.OneDollar.OneDollar,
     fst (B64.OneDollar.constructor B64Samples.host 200 B64Samples.heap1_pairs) = Ret this /\
     map B64.OneDollar.Name (B64.OneDollar.Templates this) = Defaults.default_names /\
     exists r : B64.OneDollar.Result,
       fst (B64.OneDollar.check B64Samples.host 200 this 0 B64Samples.heap1_pairs) = Ret r /\
       B64.OneDollar.name r ∈ Defaults.default_names) /\
  (exists this : B64.QDollar.QDollar,
     fst (B64.QDollar.constructor 200 B64Samples.heapQ_pairs) = Ret this /\
     map B64.QDollar.Name (B64.QDollar.Templates this) = Defaults.default_names).
Proof.
  destruct (X8_constructor_defaults B64Samples.host 200 B64Samples.heap1_pairs
              B64Samples.heapQ_pairs)
    as [(this1 & h1' & R1 & N1 & _ & _ & C1) (thisQ & hQ' & RQ & NQ & _)]; [lia|].
  split.
  - exists this1. rewrite R1. split; [reflexivity|]. split; [exact N1|].
    pose (c1 := B64OneDollarView.convert_resample 200 0 B64Samples.heap1_pairs).
    assert (Hc1 : c1 = (Ret (B64Samples.value_of [] (fst c1)), snd c1))
      by (apply B64Fail.run_value_of; vm_compute; eexists; reflexivity).
    destruct (C1 0%nat B64Samples.heap1_pairs (snd c1) (B64Samples.value_of [] (fst c1)) Hc1)
      as (r & Hr & Hn).
    + apply Nat.leb_le. vm_compute. reflexivity.
    + exists r. rewrite Hr. split; [reflexivity | exact Hn].
  - exists thisQ. rewrite RQ. split; [reflexivity | exact NQ].
Defined.

(** X13.  [_boundingBox] bounds its input.  For points without a [NaN]
    coordinate the corner of the box is below every point, and the width
    and the height are the differences [maxX - x] and [maxY - y], rounded,
    for bounds [maxX] and [maxY] that are above every point; when the
    list is not empty each of the four bounds is reached by a point. *)
Theorem X13_boundingBox_contains (points : list B64.OneDollar.Point) :
  Forall (fun p => B64.is_nan (B64.OneDollar.px p) = false /\
                   B64.is_nan (B64.OneDollar.py p) = false) points ->
  exists maxX maxY : PrimFloat.float,
    B64.OneDollar.width (B64.OneDollar._boundingBox points)
    = (maxX - B64.OneDollar.bx (B64.OneDollar._boundingBox points))%float /\
    B64.OneDollar.height (B64.OneDollar._boundingBox points)
    = (maxY - B64.OneDollar.by_ (B64.OneDollar._boundingBox points))%float /\
    (forall p : B64.OneDollar.Point,
       p ∈ points ->
       (B64.OneDollar.bx (B64.OneDollar._boundingBox points) <=? B64.OneDollar.px p)%float
       = true /\
       (B64.OneDollar.px p <=? maxX)%float = true /\
       (B64.OneDollar.by_ (B64.OneDollar._boundingBox points) <=? B64.OneDollar.py p)%float
       = true /\
       (B64.OneDollar.py p <=? maxY)%float = true) /\
    (points <> [] ->
     exists p q r s : B64.OneDollar.Point,
       p ∈ points /\ q ∈ points /\ r ∈ points /\ s ∈ points /\
       (B64.OneDollar.px p <=? B64.OneDollar.bx (B64.OneDollar._boundingBox points))%float
       = true /\
       (maxX <=? B64.OneDollar.px q)%float = true /\
       (B64.OneDollar.py r <=? B64.OneDollar.by_ (B64.OneDollar._boundingBox points))%float
       = true /\
       (maxY <=? B64.OneDollar.py s)%float = true).
Proof.
  intros Hall.
  assert (Hx : Forall (fun p => B64.is_nan (B64.OneDollar.px p) = false) points)
    by (eapply Forall_impl; [exact Hall | intros p [H _]; exact H]).
  assert (Hy : Forall (fun p => B64.is_nan (B64.OneDollar.py p) = false) points)
    by (eapply Forall_impl; [exact Hall | intros p [_ H]; exact H]).
  destruct (B64Box.fold_min_spec B64.OneDollar.px points Hx B64.Infinity eq_refl)
    as (_ & _ & Hminx & _).
  destruct (B64Box.fold_max_spec B64.OneDollar.px points Hx (- B64.Infinity)%float eq_refl)
    as (_ & _ & Hmaxx & _).
  destruct (B64Box.fold_min_spec B64.OneDollar.py points Hy B64.Infinity eq_refl)
    as (_ & _ & Hminy & _).
  destruct (B64Box.fold_max_spec B64.OneDollar.py points Hy (- B64.Infinity)%float eq_refl)
    as (_ & _ & Hmaxy & _).
  exists (fold_left (fun a p => B64.Math_max a (B64.OneDollar.px p)) points
            (- B64.Infinity)%float),
         (fold_left (fun a p => B64.Math_max a (B64.OneDollar.py p)) points
            (- B64.Infinity)%float).
  unfold B64.OneDollar._boundingBox.
  cbn [B64.OneDollar.bx B64.OneDollar.by_ B64.OneDollar.width B64.OneDollar.height].
  split; [reflexivity|]. split; [reflexivity|]. split.
  - intros p Hp. rewrite Forall_forall in Hminx, Hmaxx, Hminy, Hmaxy.
    split; [exact (Hminx p Hp)|]. split; [exact (Hmaxx p Hp)|].
    split; [exact (Hminy p Hp) | exact (Hmaxy p Hp)].
  - intros Hne.
    destruct (B64Box.fold_min_reached B64.OneDollar.px points Hne Hx) as (p & Hp & Hpr).
    destruct (B64Box.fold_max_reached B64.OneDollar.px points Hne Hx) as (q & Hq & Hqr).
    destruct (B64Box.fold_min_reached B64.OneDollar.py points Hne Hy) as (r & Hr & Hrr).
    destruct (B64Box.fold_max_reached B64.OneDollar.py points Hne Hy) as (s & Hs & Hsr).
    exists p, q, r, s. auto 10.
Qed.

Lemma X13_witness :
  B64.OneDollar._boundingBox B64Samples.diagonal1 = B64.OneDollar.mkBox 0 0 1 1 /\
  exists maxX maxY : PrimFloat.float,
    (1 <=? maxX)%float = true /\ (1 <=? maxY)%float = true /\
    (maxX - 0 = 1)%float /\ (maxY - 0 = 1)%float.
Proof.
  split; [vm_compute; reflexivity|].
  destruct (X13_boundingBox_contains B64Samples.diagonal1) as (maxX & maxY & Hw & Hh & Hin & _).
  - repeat constructor.
  - exists maxX, maxY.
    destruct (Hin (B64.OneDollar.mkPoint 1 1)) as (_ & Hx & _ & Hy).
    { apply list_elem_of_further, list_elem_of_here. }
    split; [exact Hx|]. split; [exact Hy|].
    split; [symmetry; exact Hw | symmetry; exact Hh].
Defined.

(** X22.  [QDollar] recalls what it stored.  Let [add(name, points)] be
    called with an array of pairs, in a store whose templates have at
    least as many points as [_resample] returns for it, and let the
    points that [add] registers have finite coordinates.  Then the cloud
    distance of the new template to itself is [0], and [check(points)]
    on the same array returns the score [1] with the name of a template
    of the store. *)
Theorem X22_exact_recall
    (fuel : nat) (this : B64.QDollar.QDollar) (nm : string) (l : nat)
    (h h1 : gmap nat B64.QDollar.RawPoints) (ps : list (PrimFloat.float * PrimFloat.float))
    (np : list B64.QDollar.Point) :
  h !! l = Some (B64.QDollar.Pairs ps) ->
  B64QDollarView.convert_resample fuel l h = (Ret np, h1) ->
  Forall (fun p => B64.is_finite (B64.QDollar.px p) = true /\
                   B64.is_finite (B64.QDollar.py p) = true)
    (B64.QDollar.normalize np) ->
  Forall (fun T => (length np <= length (B64.QDollar.Points T))%nat)
    (B64.QDollar.Templates this) ->
  exists (this' : B64.QDollar.QDollar) (h2 : gmap nat B64.QDollar.RawPoints)
         (r : B64.QDollar.Result) (T : B64.QDollar.Template),
    B64.QDollar.add fuel this nm l h = (Ret this', h1) /\
    B64.QDollar.Templates this'
    = B64.QDollar.Templates this
      ++ [B64.QDollar.mkTemplate nm (B64.QDollar.normalize np)] /\
    (forall minSoFar : PrimFloat.float,
       B64.QDollar._cloudMatch (B64.QDollar.normalize np)
         (B64.QDollar.mkTemplate nm (B64.QDollar.normalize np)) minSoFar = Ret 0%float) /\
    B64.QDollar.check fuel this' l h1 = (Ret r, h2) /\
    T ∈ B64.QDollar.Templates this' /\
    B64.QDollar.name r = B64.QDollar.Name T /\
    B64.QDollar.score r = 1%float.
Proof.
  intros Hl Hcr Hfin Hall.
  destruct (B64Recall.q64_convert_resample_again fuel l h h1 ps np Hl Hcr) as [h2 Hcr2].
  destruct (B64Recall.q64_recognize_recall this nm (B64.QDollar.normalize np) Hfin)
    as (r & T & Hr & HT & HN & HS).
  { rewrite B64QCheck.q64_normalize_length. exact Hall. }
  exists (B64.QDollar.mkQDollar
            (B64.QDollar.Templates this
               ++ [B64.QDollar.mkTemplate nm (B64.QDollar.normalize np)])), h2, r, T.
  split; [exact (B64QCheck.q64_add_returns fuel this nm l h h1 np Hcr)|].
  split; [reflexivity|].
  split; [intros m; apply B64Recall.q64_cloudMatch_self; exact Hfin|].
  split; [rewrite B64QResample.q64_check_unfold, Hcr2, Hr; reflexivity|].
  auto.
Qed.

Lemma X22_witness :
  exists (this' : B64.QDollar.QDollar) (r : B64.QDollar.Result),
    fst B64Samples.firstQ = Ret this' /\
    fst (B64.QDollar.check 200 this' 0 (snd B64Samples.firstQ)) = Ret r /\
    B64.QDollar.score r = 1%float.
Proof.
  pose (c := B64QDollarView.convert_resample 200 0 (snd B64Samples.builtQ)).
  assert (Hc : c = (Ret (B64Samples.value_of [] (fst c)), snd c))
    by (apply B64Fail.run_value_of; vm_compute; eexists; reflexivity).
  destruct (X22_exact_recall 200
              (B64Samples.value_of (B64.QDollar.mkQDollar []) (fst B64Samples.builtQ))
              "first" 0 (snd B64Samples.builtQ) (snd c) B64Samples.corner
              (B64Samples.value_of [] (fst c)))
    as (this' & h2 & r & T & Hadd & _ & _ & Hcheck & _ & _ & Hscore).
  - vm_compute. reflexivity.
  - exact Hc.
  - eapply Forall_impl;
      [apply (forallb_Forall
                (fun p => B64.is_finite (B64.QDollar.px p)
                          && B64.is_finite (B64.QDollar.py p)));
       vm_compute; reflexivity|].
    intros p Hp. apply andb_true_iff in Hp. exact Hp.
  - eapply Forall_impl;
      [apply (forallb_Forall
                (fun T => Nat.leb (length (B64Samples.value_of [] (fst c)))
                            (length (B64.QDollar.Points T))));
       vm_compute; reflexivity|].
    intros T' HT'. apply Nat.leb_le. exact HT'.
  - exists this', r. unfold B64Samples.firstQ. rewrite Hadd. cbn [fst snd].
    split; [reflexivity|]. rewrite Hcheck. split; [reflexivity | exact Hscore].
Defined.
